(** * Assignment engine of the church service scheduler

    A shallow embedding of the scheduling engine ([generate] and its helpers)
    of the Go program, together with the properties its specification states.

    Conventions of the embedding:
    - Go [int] is [Z]; the only additions of caller-supplied integers
      ([needPen + needJem]) are written with their 64-bit wrap-around.
    - Go [string] is [string] (a byte sequence).  [strings.ToLower],
      [strings.TrimSpace] and the scanner of [fmt.Sscanf] are embedded for
      ASCII text, which is what role labels, column headers and pattern codes
      consist of.
    - [map[string]bool] working sets only ever receive [true], so they are
      finite sets ([gset string]); [map[string]time.Time] and the nested
      [Assignment] maps are [gmap]s.
    - The process-wide generator of [math/rand] is not part of the program:
      it is a parameter ([Rng], [int31n]) threaded through the state.
    - The iteration order of a Go map is unspecified: it is the parameter
      [mapRange].
    - Progress printing ([verbose]) has no effect on the result and is left
      out.
    - In the front end ([run]'s helpers, [loadMaster], the template
      writer's helpers) [strings.EqualFold] is likewise embedded for ASCII
      text; a [*time.Location] is a fixed offset in seconds east of UTC, as
      [time.FixedZone] gives; [time.Date] normalizes its arguments as the
      library documents; an opened workbook is what the program reads of it,
      the sheet list and the rows of a sheet. *)

From Stdlib Require Import ZArith Ascii String List Permutation Sorted OrderedTypeEx.
From stdpp Require Import base decidable option countable list sorting
     gmap strings fin_maps fin_sets.

#[local] Set Warnings "-clear-no-such-hyp".

Local Open Scope string_scope.
Local Open Scope list_scope.
Local Open Scope Z_scope.

(** ** Strings *)

Module Str.

Definition isUpper (c : ascii) : bool :=
  let n := nat_of_ascii c in ((65 <=? n) && (n <=? 90))%nat.

Definition lowerChar (c : ascii) : ascii :=
  if isUpper c then ascii_of_nat (nat_of_ascii c + 32) else c.

(** Text of ASCII characters only (bytes below 128), on which the
    functions of package [strings] embedded here act as the library does. *)
Fixpoint isASCII (s : string) : bool :=
  match s with
  | EmptyString => true
  | String c s' => (nat_of_ascii c <? 128)%nat && isASCII s'
  end.

(** [strings.ToLower], on ASCII text *)
Fixpoint ToLower (s : string) : string :=
  match s with
  | EmptyString => EmptyString
  | String c s' => String (lowerChar c) (ToLower s')
  end.

(** White space: tab, newline, vertical tab, form feed, carriage return,
    space. *)
Definition isSpace (c : ascii) : bool :=
  let n := nat_of_ascii c in (((9 <=? n) && (n <=? 13)) || (n =? 32))%nat.

Fixpoint trimLeft (s : string) : string :=
  match s with
  | EmptyString => EmptyString
  | String c s' => if isSpace c then trimLeft s' else s
  end.

Fixpoint trimRight (s : string) : string :=
  match s with
  | EmptyString => EmptyString
  | String c s' =>
      match trimRight s' with
      | EmptyString => if isSpace c then EmptyString else String c EmptyString
      | r => String c r
      end
  end.

(** [strings.TrimSpace], on ASCII text *)
Definition TrimSpace (s : string) : string := trimRight (trimLeft s).

(** [strings.HasPrefix s p] *)
Definition HasPrefix (s p : string) : bool := String.prefix p s.

(** [strings.Contains s sub] *)
Fixpoint Contains (s sub : string) : bool :=
  String.prefix sub s ||
  match s with
  | EmptyString => false
  | String _ s' => Contains s' sub
  end.

(** [len(s)] *)
Definition len (s : string) : Z := Z.of_nat (String.length s).

(** Longest prefix whose characters satisfy [p], and the rest. *)
Fixpoint span (p : ascii -> bool) (s : string) : string * string :=
  match s with
  | EmptyString => (EmptyString, EmptyString)
  | String c s' =>
      if p c then let '(a, b) := span p s' in (String c a, b)
      else (EmptyString, s)
  end.

End Str.

(** ** The scanner of [fmt.Sscanf(c, "%d%s", &n, &suf)] *)

Module Scan.

Definition isDigit (c : ascii) : bool :=
  let n := nat_of_ascii c in ((48 <=? n) && (n <=? 57))%nat.

Definition isSign (c : ascii) : bool :=
  let n := nat_of_ascii c in ((n =? 43) || (n =? 45))%nat.

Definition isNewline (c : ascii) : bool := (nat_of_ascii c =? 10)%nat.

(** [SkipSpace] of a scan in which a newline is not white space: a
    newline in the input is an error ([None]). *)
Fixpoint SkipSpace (s : string) : option string :=
  match s with
  | EmptyString => Some EmptyString
  | String c s' =>
      if isNewline c then None
      else if Str.isSpace c then SkipSpace s'
      else Some s
  end.

Fixpoint digitsValue (acc : Z) (s : string) : Z :=
  match s with
  | EmptyString => acc
  | String c s' => digitsValue (10 * acc + (Z.of_nat (nat_of_ascii c) - 48)) s'
  end.

Definition minInt64 : Z := - 2 ^ 63.
Definition maxInt64 : Z := 2 ^ 63 - 1.

(** The verb [%d]: leading space is skipped, one sign is accepted, then
    the non-empty run of decimal digits is the token (the scan stops at the
    first other character, an underscore included);
    [strconv.ParseInt(tok, 10, 64)] rejects values outside the 64-bit
    range. *)
Definition scanInt (s : string) : option (Z * string) :=
  match SkipSpace s with
  | None => None
  | Some EmptyString => None
  | Some (String c rest as s1) =>
      let '(neg, s2) :=
        if isSign c then ((nat_of_ascii c =? 45)%nat, rest) else (false, s1) in
      let '(tok, s3) := Str.span isDigit s2 in
      match tok with
      | EmptyString => None
      | _ =>
          let v := if neg then - digitsValue 0 tok else digitsValue 0 tok in
          if (minInt64 <=? v) && (v <=? maxInt64) then Some (v, s3) else None
      end
  end.

(** The verb [%s]: leading space is skipped, the input must not be at its
    end, and the token runs up to the next white space. *)
Definition scanString (s : string) : option (string * string) :=
  match SkipSpace s with
  | None => None
  | Some EmptyString => None
  | Some s1 => Some (Str.span (fun c => negb (Str.isSpace c)) s1)
  end.

(** [fmt.Sscanf(c, "%d%s", &n, &suf)]; input left over after the last
    verb is not an error. *)
Definition Sscanf_d_s (c : string) : option (Z * string) :=
  match scanInt c with
  | None => None
  | Some (n, rest) =>
      match scanString rest with
      | None => None
      | Some (suf, _) => Some (n, suf)
      end
  end.

End Scan.

(** ** Composition pattern codes *)

Inductive PatternError : Type :=
| ErrInvalid (code : string)        (* "kode '%s' tidak valid" *)
| ErrOutOfRange (n : Z)             (* "jumlah '%d' di luar batas 1..4" *)
| ErrUnknown (code : string).       (* "kode '%s' tidak dikenali" *)

Inductive result (A : Type) : Type :=
| Ok (a : A)
| Err (e : PatternError).
Arguments Ok {A} a.
Arguments Err {A} e.

Definition isErr {A} (r : result A) : bool :=
  match r with Ok _ => false | Err _ => true end.

(** [parsePattern]: (penatua, jemaat, total) or an error. *)
Definition parsePattern (code : string) : result (Z * Z * Z) :=
  let c := Str.ToLower (Str.TrimSpace code) in
  if Str.len c <? 2 then Err (ErrInvalid code)
  else
    match Scan.Sscanf_d_s c with
    | None => Err (ErrInvalid code)
    | Some (n, suf) =>
        if (n <? 1) || (n >? 4) then Err (ErrOutOfRange n)
        else
          match n with
          | 1 =>
              if String.eqb suf "a" then Ok (1, 0, 1)
              else if String.eqb suf "b" then Ok (0, 1, 1)
              else Err (ErrUnknown code)
          | 2 =>
              if String.eqb suf "a" then Ok (1, 1, 2)
              else if String.eqb suf "b" then Ok (2, 0, 2)
              else if String.eqb suf "c" then Ok (0, 2, 2)
              else Err (ErrUnknown code)
          | 3 =>
              if String.eqb suf "a" then Ok (1, 2, 3)
              else if String.eqb suf "b" then Ok (2, 1, 3)
              else if String.eqb suf "c" then Ok (3, 0, 3)
              else if String.eqb suf "d" then Ok (0, 3, 3)
              else Err (ErrUnknown code)
          | 4 =>
              if String.eqb suf "a" then Ok (1, 3, 4)
              else if String.eqb suf "b" then Ok (2, 2, 4)
              else if String.eqb suf "c" then Ok (3, 1, 4)
              else if String.eqb suf "d" then Ok (4, 0, 4)
              else if String.eqb suf "e" then Ok (0, 4, 4)
              else Err (ErrUnknown code)
          | _ => Err (ErrUnknown code)
          end
    end.

(** The fixed enumeration of the specification, written from its words:
    digit, letter, elder quota, member quota. *)
Definition patternEnumeration : list (Z * string * (Z * Z)) :=
  [ (1, "a", (1, 0)); (1, "b", (0, 1));
    (2, "a", (1, 1)); (2, "b", (2, 0)); (2, "c", (0, 2));
    (3, "a", (1, 2)); (3, "b", (2, 1)); (3, "c", (3, 0)); (3, "d", (0, 3));
    (4, "a", (1, 3)); (4, "b", (2, 2)); (4, "c", (3, 1)); (4, "d", (4, 0));
    (4, "e", (0, 4)) ].

Definition enumLookup (n : Z) (suf : string) : option (Z * Z) :=
  snd <$> List.find (fun e => (fst (fst e) =? n) && String.eqb (snd (fst e)) suf)
                    patternEnumeration.

(** ** Calendar time *)

(** A [time.Time]: the instant in seconds (and nanoseconds) since
    January 1, year 1, 00:00:00 UTC, and the UTC offset of its location.
    Go's [==] on [time.Time], which keys the [Assignment] map, is equality of
    the representation. *)
Record Time : Type := mkTime { sec : Z; nsec : Z; zoneOffset : Z }.

#[global] Instance Time_eq_dec : EqDecision Time.
Proof. solve_decision. Defined.

#[global] Instance Time_countable : Countable Time.
Proof.
  apply (inj_countable' (fun t => (sec t, nsec t, zoneOffset t))
                        (fun '(s, n, o) => mkTime s n o)).
  by intros [].
Defined.

(** The zero value [time.Time{}]. *)
Definition zeroTime : Time := mkTime 0 0 0.

(** [t.IsZero()] *)
Definition IsZero (t : Time) : bool := (sec t =? 0) && (nsec t =? 0).

(** Civil date of a day count since January 1, year 1 (proleptic
    Gregorian calendar). *)
Definition civilFromDays (days : Z) : Z * Z * Z :=
  let z := days + 306 in
  let era := z / 146097 in
  let doe := z mod 146097 in
  let yoe := (doe - doe / 1460 + doe / 36524 - doe / 146096) / 365 in
  let doy := doe - (365 * yoe + yoe / 4 - yoe / 100) in
  let mp := (5 * doy + 2) / 153 in
  let d := doy - (153 * mp + 2) / 5 + 1 in
  let m := if mp <? 10 then mp + 3 else mp - 9 in
  let y := yoe + era * 400 + (if m <=? 2 then 1 else 0) in
  (y, m, d).

(** [t.Date()]: year, month, day in the time's location. *)
Definition Date (t : Time) : Z * Z * Z :=
  civilFromDays ((sec t + zoneOffset t) / 86400).

(** [sameDay] *)
Definition sameDay (a b : Time) : bool :=
  let '(ay, am, ad) := Date a in
  let '(by_, bm, bd) := Date b in
  (ay =? by_) && (am =? bm) && (ad =? bd).

(** ** Data model *)

Record RoleMap : Type := mkRoleMap {
  Role : string;
  SourceColumn : string;
  Service : string;            (* "07" | "10" | "both" *)
  Slots07 : Z;
  Slots10 : Z }.

Record Person : Type := mkPerson {
  Name : string;
  IsPenatua : bool;
  Marks : gmap string bool }.  (* normalized header -> eligible *)

(** date -> service -> role -> names *)
Abbreviation Assignment := (gmap Time (gmap string (gmap string (list string)))).

(** ** Utilities *)

Definition normKey (s : string) : string := Str.ToLower (Str.TrimSpace s).

Definition lenZ {A} (l : list A) : Z := Z.of_nat (length l).

(** Go [int] addition. *)
Definition wrap64 (z : Z) : Z := (z + 2 ^ 63) mod 2 ^ 64 - 2 ^ 63.
Definition addInt (a b : Z) : Z := wrap64 (a + b).

(** Byte-wise lexicographic order, Go's [<=] on strings. *)
Definition strLe (a b : string) : Prop := String.leb a b = true.

#[global] Instance strLe_dec a b : Decision (strLe a b).
Proof. unfold strLe. apply _. Defined.

(** [sort.Strings].  Any correct sort returns the same list, since the order
    on strings is total and antisymmetric. *)
Definition sortStrings (l : list string) : list string := merge_sort strLe l.

(** [uniq]: first occurrences in input order, then sorted. *)
Fixpoint uniqLoop (m : gset string) (res : list string) (l : list string)
  : list string :=
  match l with
  | [] => res
  | s :: l' =>
      if bool_decide (s ∈ m) then uniqLoop m res l'
      else uniqLoop ({[s]} ∪ m) (res ++ [s]) l'
  end.

Definition uniq (l : list string) : list string := sortStrings (uniqLoop ∅ [] l).

(** [p.Marks[key]] read as [mark, ok := ...; ok && mark]. *)
Definition marked (p : Person) (key : string) : bool :=
  match Marks p !! key with
  | Some mark => mark
  | None => false
  end.

(** [filterCandidatesSplit] *)
Fixpoint filterCandidatesSplitLoop (key : string) (people : list Person)
    (penatua jemaat : list string) : list string * list string :=
  match people with
  | [] => (penatua, jemaat)
  | p :: rest =>
      if marked p key then
        if IsPenatua p then
          filterCandidatesSplitLoop key rest (penatua ++ [Name p]) jemaat
        else
          filterCandidatesSplitLoop key rest penatua (jemaat ++ [Name p])
      else filterCandidatesSplitLoop key rest penatua jemaat
  end.

Definition filterCandidatesSplit (people : list Person) (src : string)
  : list string * list string :=
  filterCandidatesSplitLoop (normKey src) people [] [].

(** [isMajelisPendamping] *)
Definition isMajelisPendamping (role : string) : bool :=
  let r := Str.ToLower role in
  Str.Contains r "majel" && Str.Contains r "pend".

(** [defaultSlotsForRole] *)
Definition defaultSlotsForRole (role svc : string) (maxLektor maxPro maxMus : Z) : Z :=
  let low := Str.ToLower (Str.TrimSpace role) in
  if Str.Contains low "lektor" then maxLektor
  else if Str.Contains low "prokantor" then maxPro
  else if Str.Contains low "pemusik" then maxMus
  else 1.

(** [baseRole] *)
Definition baseRole (role : string) : string :=
  let r := Str.ToLower (Str.TrimSpace role) in
  if Str.HasPrefix r "lektor" then "lektor"
  else if Str.HasPrefix r "prokantor" then "prokantor"
  else if Str.HasPrefix r "pemusik" then "pemusik"
  else if Str.HasPrefix r "kolektan" then "kolektan"
  else if Str.Contains r "pjemaat" || Str.Contains r "p. jemaat" then "pjemaat"
  else r.

Definition isGroupKey (base : string) : bool :=
  String.eqb base "lektor" || String.eqb base "prokantor" ||
  String.eqb base "pemusik" || String.eqb base "kolektan" ||
  String.eqb base "pjemaat".

(** The test [m.Service != "both" && m.Service != svc] that skips a row. *)
Definition outOfService (m : RoleMap) (svc : string) : bool :=
  negb (String.eqb (Service m) "both") && negb (String.eqb (Service m) svc).

(** [groupMappingsForService] *)
Fixpoint groupLoop (svc : string) (maps : list RoleMap)
    (groups : gmap string (list RoleMap)) (others : list RoleMap)
  : gmap string (list RoleMap) * list RoleMap :=
  match maps with
  | [] => (groups, others)
  | m :: rest =>
      if outOfService m svc then groupLoop svc rest groups others
      else
        let base := baseRole (Role m) in
        if isGroupKey base then
          groupLoop svc rest
            (<[base := default [] (groups !! base) ++ [m]]> groups) others
        else groupLoop svc rest groups (others ++ [m])
  end.

Definition groupMappingsForService (maps : list RoleMap) (svc : string)
  : gmap string (list RoleMap) * list RoleMap :=
  groupLoop svc maps ∅ [].

(** [grouped[key]]: a missing key reads as the nil slice. *)
Definition groupRows (grouped : gmap string (list RoleMap)) (key : string)
  : list RoleMap := default [] (grouped !! key).

(** Split of [others] into escort rows and the rest. *)
Fixpoint splitOthers (svc : string) (others mpRows otherNonMP : list RoleMap)
  : list RoleMap * list RoleMap :=
  match others with
  | [] => (mpRows, otherNonMP)
  | m :: rest =>
      if outOfService m svc then splitOthers svc rest mpRows otherNonMP
      else if isMajelisPendamping (Role m) then
        splitOthers svc rest (mpRows ++ [m]) otherNonMP
      else splitOthers svc rest mpRows (otherNonMP ++ [m])
  end.

(** [s[:n]] for a slice whose capacity is its length: a run-time panic
    ([None]) when [n] is out of range. *)
Definition sliceTo {A} (s : list A) (n : Z) : option (list A) :=
  if (0 <=? n) && (n <=? lenZ s) then Some (take (Z.to_nat n) s) else None.

(** [l[i], l[j] = l[j], l[i]] *)
Definition swap {A} (l : list A) (i j : nat) : list A :=
  match l !! i, l !! j with
  | Some a, Some b => <[j := a]> (<[i := b]> l)
  | _, _ => l
  end.

(** The fairness predicate of [generate]: the closure [prefer], with the
    variables it captures as arguments. *)
Definition prefer (prevSunday : Time) (lastAssigned : gmap string Time)
    (name : string) : bool :=
  if IsZero prevSunday then true
  else
    match lastAssigned !! name with
    | Some t => if sameDay t prevSunday then false else true
    | None => true
    end.

(** [prevSunday] at index [di] of [dates]. *)
Definition prevSundayAt (dates : list Time) (di : nat) : Time :=
  if (0 <? di)%nat then default zeroTime (dates !! (di - 1)%nat) else zeroTime.

(** ** Engine state *)

(** The variables [generate] mutates: the [Assignment] it fills, its local
    [lastAssigned] map, the three working sets of the current date, and the
    state of the random generator. *)
Record State (Rng : Type) : Type := mkState {
  assign : Assignment;
  lastAssigned : gmap string Time;
  assigned07 : gset string;
  assigned10 : gset string;
  assignedAnyToday : gset string;
  rng : Rng }.
Arguments mkState {Rng}.
Arguments assign {Rng}.
Arguments lastAssigned {Rng}.
Arguments assigned07 {Rng}.
Arguments assigned10 {Rng}.
Arguments assignedAnyToday {Rng}.
Arguments rng {Rng}.

(** The mutable variables of one call of [pickWithComposition]; [ps_already]
    and [ps_anyToday] are the caller's maps, shared by reference. *)
Record PickState : Type := mkPick {
  ps_picked : list string;
  ps_used : gset string;
  ps_already : gset string;
  ps_anyToday : gset string }.

(** [err == nil] is [None]. *)
Definition error : Type := option string.

Section Engine.

Variable Rng : Type.
(** [r.int31n(n)] of the process-wide source: a value and the next state. *)
Variable int31n : Rng -> nat -> nat * Rng.
(** Order in which [for n := range m] visits the keys of a set. *)
Variable mapRange : gset string -> list string.
(** The flags [-strictComposition] and [-noRelaxB2B]. *)
Variable strictCompositionFlag noRelaxB2BFlag : bool.

#[local] Abbreviation St := (State Rng).

(** *** [rand.Shuffle] *)

(** [for i := n - 1; i > 0; i-- { j := int31n(i + 1); swap(i, j) }], the
    loop of [rand.Shuffle] for a list of fewer than 2^31 elements. *)
Fixpoint shuffleFrom {A} (i : nat) (l : list A) (r : Rng) : list A * Rng :=
  match i with
  | O => (l, r)
  | S i' =>
      let '(j, r') := int31n r (S i) in
      shuffleFrom i' (swap l i j) r'
  end.

Definition Shuffle {A} (l : list A) (r : Rng) : list A * Rng :=
  shuffleFrom (length l - 1) l r.

(** *** Eligibility index *)

Fixpoint filterCandidatesLoop (key : string) (mustPenatua : bool)
    (people : list Person) (m : gset string) : gset string :=
  match people with
  | [] => m
  | p :: rest =>
      if mustPenatua && negb (IsPenatua p) then
        filterCandidatesLoop key mustPenatua rest m
      else if marked p key then
        filterCandidatesLoop key mustPenatua rest ({[Name p]} ∪ m)
      else filterCandidatesLoop key mustPenatua rest m
  end.

(** [filterCandidates] *)
Definition filterCandidates (people : list Person) (src : string)
    (mustPenatua : bool) : list string :=
  let key := normKey src in
  let m := filterCandidatesLoop key mustPenatua people ∅ in
  sortStrings (mapRange m).

(** *** State access *)

(** [already]: [assigned07] in the first service, else [assigned10]. *)
Definition alreadyOf (svc : string) (st : St) : gset string :=
  if String.eqb svc "07" then assigned07 st else assigned10 st.

Definition setAlready (svc : string) (a : gset string) (st : St) : St :=
  if String.eqb svc "07" then
    mkState (assign st) (lastAssigned st) a (assigned10 st)
            (assignedAnyToday st) (rng st)
  else
    mkState (assign st) (lastAssigned st) (assigned07 st) a
            (assignedAnyToday st) (rng st).

Definition setAnyToday (a : gset string) (st : St) : St :=
  mkState (assign st) (lastAssigned st) (assigned07 st) (assigned10 st)
          a (rng st).

Definition setRng (r : Rng) (st : St) : St :=
  mkState (assign st) (lastAssigned st) (assigned07 st) (assigned10 st)
          (assignedAnyToday st) r.

(** [lastAssigned[name] = d] *)
Definition record (name : string) (d : Time) (st : St) : St :=
  mkState (assign st) (<[name := d]> (lastAssigned st)) (assigned07 st)
          (assigned10 st) (assignedAnyToday st) (rng st).

(** [already[name] = true; assignedAnyToday[name] = true;
    lastAssigned[name] = d] *)
Definition mark (svc : string) (d : Time) (name : string) (st : St) : St :=
  record name d
    (setAnyToday ({[name]} ∪ assignedAnyToday st)
       (setAlready svc ({[name]} ∪ alreadyOf svc st) st)).

(** [assign[d][svc]], the empty map when absent. *)
Definition slotsOf (a : Assignment) (d : Time) (svc : string)
  : gmap string (list string) :=
  default ∅ (default ∅ (a !! d) !! svc).

(** [assign[d][svc][role] = names]; both inner maps exist by then. *)
Definition setSlot (d : Time) (svc role : string) (names : list string)
    (st : St) : St :=
  let byS := default ∅ (assign st !! d) in
  let a' := <[d := <[svc := <[role := names]> (default ∅ (byS !! svc))]> byS]>
              (assign st) in
  mkState a' (lastAssigned st) (assigned07 st) (assigned10 st)
          (assignedAnyToday st) (rng st).

(** [if assign[d] == nil { assign[d] = map... }] *)
Definition ensureDate (d : Time) (st : St) : St :=
  match assign st !! d with
  | Some _ => st
  | None =>
      mkState (<[d := ∅]> (assign st)) (lastAssigned st) (assigned07 st)
              (assigned10 st) (assignedAnyToday st) (rng st)
  end.

(** [if assign[d][svc] == nil { assign[d][svc] = map... }] *)
Definition ensureService (d : Time) (svc : string) (st : St) : St :=
  let byS := default ∅ (assign st !! d) in
  match byS !! svc with
  | Some _ => st
  | None =>
      mkState (<[d := <[svc := ∅]> byS]> (assign st)) (lastAssigned st)
              (assigned07 st) (assigned10 st) (assignedAnyToday st) (rng st)
  end.

(** The three fresh working sets of a date. *)
Definition resetDay (st : St) : St :=
  mkState (assign st) (lastAssigned st) ∅ ∅ ∅ (rng st).

(** *** Pick passes over a list of names *)

(** Pass (a): up to [limit] names that are neither in [already] nor in
    [assignedAnyToday] and that [prefer] accepts.  The escort phase runs
    this loop with [assigned10], which is [already] in service "10". *)
Fixpoint pickPrefer (svc : string) (d prevSunday : Time) (limit : Z)
    (cands picked : list string) (st : St) : list string * St :=
  match cands with
  | [] => (picked, st)
  | name :: rest =>
      if lenZ picked >=? limit then (picked, st)
      else if bool_decide (name ∈ alreadyOf svc st)
              || bool_decide (name ∈ assignedAnyToday st) then
        pickPrefer svc d prevSunday limit rest picked st
      else if prefer prevSunday (lastAssigned st) name then
        pickPrefer svc d prevSunday limit rest (picked ++ [name])
                   (mark svc d name st)
      else pickPrefer svc d prevSunday limit rest picked st
  end.

(** The relax pass of the capped and other roles: as pass (a) without
    [prefer]. *)
Fixpoint pickRelax (svc : string) (d : Time) (limit : Z)
    (cands picked : list string) (st : St) : list string * St :=
  match cands with
  | [] => (picked, st)
  | name :: rest =>
      if lenZ picked >=? limit then (picked, st)
      else if bool_decide (name ∈ alreadyOf svc st)
              || bool_decide (name ∈ assignedAnyToday st) then
        pickRelax svc d limit rest picked st
      else pickRelax svc d limit rest (picked ++ [name]) (mark svc d name st)
  end.

(** Pass (b) of the escort phase: only [assigned10] is consulted. *)
Fixpoint pickRelaxMP (d : Time) (slots : Z)
    (cands picked : list string) (st : St) : list string * St :=
  match cands with
  | [] => (picked, st)
  | name :: rest =>
      if lenZ picked >=? slots then (picked, st)
      else if bool_decide (name ∈ assigned10 st) then
        pickRelaxMP d slots rest picked st
      else pickRelaxMP d slots rest (picked ++ [name]) (mark "10" d name st)
  end.

(** *** Phase 1: escort rows (service "10") *)

Definition escortRow (people : list Person) (d prevSunday : Time)
    (m : RoleMap) (st : St) : St :=
  let slots := if Slots10 m >? 0 then Slots10 m else 1 in
  let cands := filterCandidates people (SourceColumn m) true in
  let '(cands, r) := Shuffle cands (rng st) in
  let st := setRng r st in
  let '(picked, st) := pickPrefer "10" d prevSunday slots cands [] st in
  let '(picked, st) :=
    if lenZ picked <? slots then pickRelaxMP d slots cands picked st
    else (picked, st) in
  setSlot d "10" (Role m) picked st.

Definition escortPhase (people : list Person) (d prevSunday : Time)
    (svc : string) (mpRows : list RoleMap) (st : St) : St :=
  if String.eqb svc "10" && (lenZ mpRows >? 0) then
    fold_left (fun st m => escortRow people d prevSunday m st) mpRows st
  else st.

(** *** Phase 2: composition picker *)

Definition taken (ps : PickState) (name : string) : bool :=
  bool_decide (name ∈ ps_used ps) || bool_decide (name ∈ ps_already ps)
  || bool_decide (name ∈ ps_anyToday ps).

(** The closure [remaining]. *)
Definition remaining (ps : PickState) (pool : list Person) : list Person :=
  List.filter (fun p => negb (taken ps (Name p))) pool.

(** The closure [pickFrom]; [need] is the counter behind the pointer, and
    its final value is returned. *)
Fixpoint pickFrom (totalNeed : Z) (prefer : string -> bool)
    (pool : list Person) (need : Z) (usePrefer : bool) (ps : PickState)
  : Z * PickState :=
  match pool with
  | [] => (need, ps)
  | p :: rest =>
      if lenZ (ps_picked ps) >=? totalNeed then (need, ps)
      else if need <=? 0 then (need, ps)
      else if taken ps (Name p) then
        pickFrom totalNeed prefer rest need usePrefer ps
      else if usePrefer && negb (prefer (Name p)) then
        pickFrom totalNeed prefer rest need usePrefer ps
      else
        pickFrom totalNeed prefer rest (need - 1) usePrefer
          (mkPick (ps_picked ps ++ [Name p]) ({[Name p]} ∪ ps_used ps)
                  ({[Name p]} ∪ ps_already ps) ({[Name p]} ∪ ps_anyToday ps))
  end.

(** [pickWithComposition]: the picked names, the two shared sets as the
    call leaves them, and the generator state. *)
Definition pickWithComposition (candPen candJem : list Person)
    (needPen needJem : Z) (prefer : string -> bool)
    (already assignedAnyToday : gset string) (r : Rng)
  : list string * gset string * gset string * Rng :=
  let totalNeed := addInt needPen needJem in
  let ps := mkPick [] ∅ already assignedAnyToday in
  (* Step A *)
  let '(needPen, ps) := pickFrom totalNeed prefer candPen needPen true ps in
  let '(needJem, ps) := pickFrom totalNeed prefer candJem needJem true ps in
  (* Step B *)
  let '(needPen, ps) :=
    if needPen >? 0 then
      pickFrom totalNeed prefer (remaining ps candPen) needPen true ps
    else (needPen, ps) in
  let '(needJem, ps) :=
    if needJem >? 0 then
      pickFrom totalNeed prefer (remaining ps candJem) needJem true ps
    else (needJem, ps) in
  (* Step C *)
  let '(needPen, ps) :=
    if negb noRelaxB2BFlag && (needPen >? 0) then
      pickFrom totalNeed prefer (remaining ps candPen) needPen false ps
    else (needPen, ps) in
  let '(needJem, ps) :=
    if negb noRelaxB2BFlag && (needJem >? 0) then
      pickFrom totalNeed prefer (remaining ps candJem) needJem false ps
    else (needJem, ps) in
  (* Step D *)
  let '(ps, r) :=
    if negb strictCompositionFlag && (lenZ (ps_picked ps) <? totalNeed) then
      let merged := remaining ps candPen ++ remaining ps candJem in
      let '(merged, r) := Shuffle merged r in
      let extra := totalNeed - lenZ (ps_picked ps) in
      let '(_, ps) := pickFrom totalNeed prefer merged extra false ps in
      (ps, r)
    else (ps, r) in
  (ps_picked ps, ps_already ps, ps_anyToday ps, r).

(** The union of the split candidates over the rows of a category. *)
Fixpoint splitPools (people : list Person) (rows : list RoleMap)
    (penNames jemNames : list string) : list string * list string :=
  match rows with
  | [] => (penNames, jemNames)
  | rm :: rest =>
      let '(p, j) := filterCandidatesSplit people (SourceColumn rm) in
      splitPools people rest (penNames ++ p) (jemNames ++ j)
  end.

(** Rows of a composition category receive the picks in row order; every
    written pick is recorded in [lastAssigned]. *)
Fixpoint writeComposition (d : Time) (svc : string) (rows : list RoleMap)
    (picked : list string) (st : St) : St :=
  match rows with
  | [] => st
  | rm :: rest =>
      match picked with
      | name :: picked' =>
          writeComposition d svc rest picked'
            (record name d (setSlot d svc (Role rm) [name] st))
      | [] => writeComposition d svc rest [] (setSlot d svc (Role rm) [] st)
      end
  end.

(** One iteration of the loop over ["kolektan"; "pjemaat"]. *)
Definition compositionGroup (people : list Person)
    (kolektanPen kolektanJem pjemaatPen pjemaatJem : Z)
    (d prevSunday : Time) (svc key : string) (rows : list RoleMap) (st : St)
  : option St :=
  if lenZ rows =? 0 then Some st
  else
    let '(needPen, needJem) :=
      if String.eqb key "kolektan" then (kolektanPen, kolektanJem) else (0, 0) in
    let '(needPen, needJem) :=
      if String.eqb key "pjemaat" then (pjemaatPen, pjemaatJem)
      else (needPen, needJem) in
    let totalNeed := addInt needPen needJem in
    let totalNeed := if totalNeed >? lenZ rows then lenZ rows else totalNeed in
    let '(penNames, jemNames) := splitPools people rows [] [] in
    let penNames := uniq penNames in
    let jemNames := uniq jemNames in
    let candPen := map (fun n => mkPerson n true ∅) penNames in
    let candJem := map (fun n => mkPerson n false ∅) jemNames in
    let '(candPen, r) := Shuffle candPen (rng st) in
    let '(candJem, r) := Shuffle candJem r in
    let '(picked, already, anyToday, r) :=
      pickWithComposition candPen candJem needPen needJem
        (prefer prevSunday (lastAssigned st))
        (alreadyOf svc st) (assignedAnyToday st) r in
    let st := setRng r (setAnyToday anyToday (setAlready svc already st)) in
    picked ← (if lenZ picked >? totalNeed then sliceTo picked totalNeed
              else Some picked);
    Some (writeComposition d svc rows picked st).

(** *** Phase 3: capped roles *)

(** Rows of a capped group receive one pick each, in row order. *)
Fixpoint writeSingles (d : Time) (svc : string) (rows : list RoleMap)
    (picked : list string) (st : St) : St :=
  match rows with
  | [] => st
  | rm :: rest =>
      match picked with
      | name :: picked' =>
          writeSingles d svc rest picked' (setSlot d svc (Role rm) [name] st)
      | [] => writeSingles d svc rest [] (setSlot d svc (Role rm) [] st)
      end
  end.

(** One iteration of the loop over lektor, prokantor, pemusik. *)
Definition cappedGroup (people : list Person) (d prevSunday : Time)
    (svc : string) (glimit : Z) (rows : list RoleMap) (st : St) : St :=
  match rows with
  | [] => st
  | row0 :: _ =>
      let limit := if glimit >? lenZ rows then lenZ rows else glimit in
      let src := SourceColumn row0 in
      let names := filterCandidates people src false in
      let '(names, r) := Shuffle names (rng st) in
      let st := setRng r st in
      let '(picked, st) := pickPrefer svc d prevSunday limit names [] st in
      let '(picked, st) :=
        if negb noRelaxB2BFlag && (lenZ picked <? limit) then
          pickRelax svc d limit names picked st
        else (picked, st) in
      writeSingles d svc rows picked st
  end.

(** *** Phase 4: other roles *)

Definition otherRow (people : list Person) (maxLektor maxPro maxMus : Z)
    (d prevSunday : Time) (svc : string) (m : RoleMap) (st : St) : St :=
  if outOfService m svc then st
  else if String.eqb svc "07" && isMajelisPendamping (Role m) then st
  else
    let slots := defaultSlotsForRole (Role m) svc maxLektor maxPro maxMus in
    let slots := if String.eqb svc "07" && (Slots07 m >? 0) then Slots07 m else slots in
    let slots := if String.eqb svc "10" && (Slots10 m >? 0) then Slots10 m else slots in
    let cands := filterCandidates people (SourceColumn m)
                                  (isMajelisPendamping (Role m)) in
    let '(cands, r) := Shuffle cands (rng st) in
    let st := setRng r st in
    let '(picked, st) := pickPrefer svc d prevSunday slots cands [] st in
    let '(picked, st) :=
      if negb noRelaxB2BFlag && (lenZ picked <? slots) then
        pickRelax svc d slots cands picked st
      else (picked, st) in
    setSlot d svc (Role m) picked st.

(** *** The driver *)

(** The body of [for _, svc := range services]. *)
Definition serviceBody (people : list Person) (maps : list RoleMap)
    (maxLektor maxPro maxMus : Z)
    (kolektanPen kolektanJem pjemaatPen pjemaatJem : Z)
    (d prevSunday : Time) (svc : string) (st : St) : option St :=
  let st := ensureService d svc st in
  let '(grouped, others) := groupMappingsForService maps svc in
  let '(mpRows, otherNonMP) := splitOthers svc others [] [] in
  (* 1) Majelis Pendamping *)
  let st := escortPhase people d prevSunday svc mpRows st in
  (* 2) Kolektan, P. Jemaat *)
  st ← compositionGroup people kolektanPen kolektanJem pjemaatPen pjemaatJem
         d prevSunday svc "kolektan" (groupRows grouped "kolektan") st;
  st ← compositionGroup people kolektanPen kolektanJem pjemaatPen pjemaatJem
         d prevSunday svc "pjemaat" (groupRows grouped "pjemaat") st;
  (* 3) Lektor, Prokantor, Pemusik *)
  let st := cappedGroup people d prevSunday svc maxLektor
                        (groupRows grouped "lektor") st in
  let st := cappedGroup people d prevSunday svc maxPro
                        (groupRows grouped "prokantor") st in
  let st := cappedGroup people d prevSunday svc maxMus
                        (groupRows grouped "pemusik") st in
  (* 4) other roles *)
  Some (fold_left
          (fun st m => otherRow people maxLektor maxPro maxMus d prevSunday svc m st)
          otherNonMP st).

(** The body of [for di, d := range dates]. *)
Definition dateBody (people : list Person) (maps : list RoleMap)
    (maxLektor maxPro maxMus : Z)
    (kolektanPen kolektanJem pjemaatPen pjemaatJem : Z)
    (dates : list Time) (di : nat) (d : Time) (st : St) : option St :=
  let st := resetDay (ensureDate d st) in
  let prevSunday := prevSundayAt dates di in
  st ← serviceBody people maps maxLektor maxPro maxMus
         kolektanPen kolektanJem pjemaatPen pjemaatJem d prevSunday "07" st;
  serviceBody people maps maxLektor maxPro maxMus
    kolektanPen kolektanJem pjemaatPen pjemaatJem d prevSunday "10" st.

Fixpoint dateLoop (people : list Person) (maps : list RoleMap)
    (maxLektor maxPro maxMus : Z)
    (kolektanPen kolektanJem pjemaatPen pjemaatJem : Z)
    (dates : list Time) (di : nat) (rest : list Time) (st : St) : option St :=
  match rest with
  | [] => Some st
  | d :: rest' =>
      st ← dateBody people maps maxLektor maxPro maxMus
             kolektanPen kolektanJem pjemaatPen pjemaatJem dates di d st;
      dateLoop people maps maxLektor maxPro maxMus
        kolektanPen kolektanJem pjemaatPen pjemaatJem dates (S di) rest' st
  end.

(** The state in which [generate] starts: the caller's [assign] and
    generator state, an empty [lastAssigned]. *)
Definition initState (assign0 : Assignment) (r : Rng) : St :=
  mkState assign0 ∅ ∅ ∅ ∅ r.

(** [generate] up to its [return nil], with the whole final state; [None]
    is a run-time panic. *)
Definition generateState (assign0 : Assignment) (dates : list Time)
    (people : list Person) (maps : list RoleMap)
    (maxLektor maxPro maxMus : Z)
    (kolektanPen kolektanJem pjemaatPen pjemaatJem : Z) (r : Rng)
  : option St :=
  dateLoop people maps maxLektor maxPro maxMus
    kolektanPen kolektanJem pjemaatPen pjemaatJem dates 0%nat dates
    (initState assign0 r).

(** [generate]: the returned error and the [Assignment] as the call leaves
    it; [None] is a run-time panic.  [assign0] is the caller's map, which
    [run] creates empty. *)
Definition generate (assign0 : Assignment) (dates : list Time)
    (people : list Person) (maps : list RoleMap)
    (maxLektor maxPro maxMus : Z)
    (kolektanPen kolektanJem pjemaatPen pjemaatJem : Z) (r : Rng)
  : option (error * Assignment) :=
  st ← generateState assign0 dates people maps maxLektor maxPro maxMus
         kolektanPen kolektanJem pjemaatPen pjemaatJem r;
  Some (None, assign st).

End Engine.

Arguments shuffleFrom {Rng} int31n {A} i l r.
Arguments Shuffle {Rng} int31n {A} l r.
Arguments alreadyOf {Rng} svc st.
Arguments setAlready {Rng} svc a st.
Arguments setAnyToday {Rng} a st.
Arguments setRng {Rng} r st.
Arguments record {Rng} name d st.
Arguments mark {Rng} svc d name st.
Arguments setSlot {Rng} d svc role names st.
Arguments ensureDate {Rng} d st.
Arguments ensureService {Rng} d svc st.
Arguments resetDay {Rng} st.
Arguments pickPrefer {Rng} svc d prevSunday limit cands picked st.
Arguments pickRelax {Rng} svc d limit cands picked st.
Arguments pickRelaxMP {Rng} d slots cands picked st.
Arguments escortRow {Rng} int31n mapRange people d prevSunday m st.
Arguments escortPhase {Rng} int31n mapRange people d prevSunday svc mpRows st.
Arguments pickWithComposition {Rng} int31n strictCompositionFlag noRelaxB2BFlag
  candPen candJem needPen needJem prefer already assignedAnyToday r.
Arguments writeComposition {Rng} d svc rows picked st.
Arguments compositionGroup {Rng} int31n strictCompositionFlag noRelaxB2BFlag
  people kolektanPen kolektanJem pjemaatPen pjemaatJem d prevSunday svc key rows st.
Arguments writeSingles {Rng} d svc rows picked st.
Arguments cappedGroup {Rng} int31n mapRange noRelaxB2BFlag people d prevSunday
  svc glimit rows st.
Arguments otherRow {Rng} int31n mapRange noRelaxB2BFlag people
  maxLektor maxPro maxMus d prevSunday svc m st.
Arguments serviceBody {Rng} int31n mapRange strictCompositionFlag noRelaxB2BFlag
  people maps maxLektor maxPro maxMus kolektanPen kolektanJem pjemaatPen pjemaatJem
  d prevSunday svc st.
Arguments dateBody {Rng} int31n mapRange strictCompositionFlag noRelaxB2BFlag
  people maps maxLektor maxPro maxMus kolektanPen kolektanJem pjemaatPen pjemaatJem
  dates di d st.
Arguments dateLoop {Rng} int31n mapRange strictCompositionFlag noRelaxB2BFlag
  people maps maxLektor maxPro maxMus kolektanPen kolektanJem pjemaatPen pjemaatJem
  dates di rest st.
Arguments initState {Rng} assign0 r.
Arguments generateState {Rng} int31n mapRange strictCompositionFlag noRelaxB2BFlag
  assign0 dates people maps maxLektor maxPro maxMus
  kolektanPen kolektanJem pjemaatPen pjemaatJem r.
Arguments generate {Rng} int31n mapRange strictCompositionFlag noRelaxB2BFlag
  assign0 dates people maps maxLektor maxPro maxMus
  kolektanPen kolektanJem pjemaatPen pjemaatJem r.

(** * Statements *)

(** ** Pattern codes of two characters *)

Definition allAscii : list ascii := map ascii_of_nat (seq 0 256).

Definition twoChar (d l : ascii) : string := String d (String l EmptyString).

Definition digitOf (d : ascii) : Z := Z.of_nat (nat_of_ascii d) - 48.

(** What the enumeration assigns to the code [d l]: the letter is read in
    lower case. *)
Definition enumTwoChar (d l : ascii) : option (Z * Z * Z) :=
  if Scan.isDigit d then
    match enumLookup (digitOf d) (String (Str.lowerChar l) EmptyString) with
    | Some (p, j) => Some (p, j, digitOf d)
    | None => None
    end
  else None.

Definition agreesTwoChar (d l : ascii) : bool :=
  match parsePattern (twoChar d l), enumTwoChar d l with
  | Ok (p, j, t), Some (p', j', t') => (p =? p') && (j =? j') && (t =? t')
  | Err _, None => true
  | _, _ => false
  end.

(** ** The fairness predicate *)

(** A run of whole days: midnight UTC of day [n] since January 1, year 1. *)
Definition day (n : Z) : Time := mkTime (n * 86400) 0 0.

(** The statement "[prefer name] is true exactly when the current date is
    the first of the sequence or the person's last-assigned date is not the
    same day as the immediately preceding date", at index [di] of [dates]. *)
Definition preferClaim (dates : list Time) (di : nat)
    (lastAssigned : gmap string Time) (name : string) : Prop :=
  prefer (prevSundayAt dates di) lastAssigned name = true <->
  (di = 0%nat \/
   ~ exists t p, lastAssigned !! name = Some t /\
                 dates !! (di - 1)%nat = Some p /\ sameDay t p = true).

(** The date lists [generate] receives: [run], its only caller, passes
    midnights of a calendar date in Asia/Jakarta, none of which is the zero
    instant [time.Time{}]. *)
Definition runDates (dates : list Time) : Prop :=
  Forall (fun d => IsZero d = false) dates.

(** ** Writes of a phase *)

(** Marking a list of picks, in order. *)
Definition markAll {Rng} (svc : string) (d : Time) (names : list string)
    (st : State Rng) : State Rng :=
  fold_left (fun st name => mark svc d name st) names st.

(** A sequence of slot assignments [assign[d][svc][role] = names]. *)
Fixpoint applyWrites (ws : list (string * list string))
    (m : gmap string (list string)) : gmap string (list string) :=
  match ws with
  | [] => m
  | (role, names) :: ws' => applyWrites ws' (<[role := names]> m)
  end.

(** What a phase of the service [svc] of date [d] does to the state, as the
    sequence [ws] of its slot writes: the slots of [(d, svc)] receive the
    writes and no other slot changes; the written names are distinct, were not
    in [already] before the phase and are in [already] and in
    [assignedAnyToday] after it; the working sets only grow, and the
    [already] set of the other service is untouched; every written name
    satisfies [Q] for the role it is written to. *)
Record PhaseSpec {Rng} (Q : string -> string -> Prop) (d : Time) (svc : string)
    (st st' : State Rng) (ws : list (string * list string)) : Prop := {
  ph_slots : slotsOf (assign st') d svc = applyWrites ws (slotsOf (assign st) d svc);
  ph_frame : forall d' svc', d' <> d \/ svc' <> svc ->
               slotsOf (assign st') d' svc' = slotsOf (assign st) d' svc';
  ph_nodup : NoDup (concat ws.*2);
  ph_fresh : forall x, x ∈ concat ws.*2 -> x ∉ alreadyOf svc st;
  ph_marked : forall x, x ∈ concat ws.*2 -> x ∈ alreadyOf svc st';
  ph_today : forall x, x ∈ concat ws.*2 -> x ∈ assignedAnyToday st';
  ph_mono : alreadyOf svc st ⊆ alreadyOf svc st';
  ph_today_mono : assignedAnyToday st ⊆ assignedAnyToday st';
  ph_other : forall svc', String.eqb svc' "07" <> String.eqb svc "07" ->
               alreadyOf svc' st' = alreadyOf svc' st;
  ph_elig : forall role names x, (role, names) ∈ ws -> x ∈ names -> Q role x }.

(** No name in two role slots of a service, and none twice in a slot. *)
Definition disjointSlots (m : gmap string (list string)) : Prop :=
  (forall role names, m !! role = Some names -> NoDup names) /\
  (forall r1 r2 l1 l2 x,
      m !! r1 = Some l1 -> m !! r2 = Some l2 -> x ∈ l1 -> x ∈ l2 -> r1 = r2).

(** A person of the roster named [x] with a true mark for [key], an elder
    when [mustPenatua]. *)
Definition eligible (people : list Person) (key : string) (mustPenatua : bool)
    (x : string) : Prop :=
  exists p, p ∈ people /\ Name p = x /\ marked p key = true /\
            (mustPenatua = true -> IsPenatua p = true).

(** The slot writes of [writeSingles] and [writeComposition]: row [i]
    receives the [i]-th pick, or the empty list when the picks run out. *)
Fixpoint rowWrites (rows : list RoleMap) (picked : list string)
  : list (string * list string) :=
  match rows with
  | [] => []
  | rm :: rest =>
      match picked with
      | name :: picked' => (Role rm, [name]) :: rowWrites rest picked'
      | [] => (Role rm, []) :: rowWrites rest []
      end
  end.

(** The effect of one pick of [pickFrom] on its variables, and of a list of
    picks in order. *)
Definition pickOne (ps : PickState) (name : string) : PickState :=
  mkPick (ps_picked ps ++ [name]) ({[name]} ∪ ps_used ps)
         ({[name]} ∪ ps_already ps) ({[name]} ∪ ps_anyToday ps).

Definition pickAll (names : list string) (ps : PickState) : PickState :=
  fold_left pickOne names ps.

(** The invariant of a call of [pickWithComposition]: the variables are the
    initial ones extended by distinct picks from the pools that were not
    taken at the start. *)
Definition pickInv (names : list string) (ps0 ps : PickState) : Prop :=
  exists acc, ps = pickAll acc ps0 /\ NoDup acc /\
              forall x, x ∈ acc -> x ∈ names /\ taken ps0 x = false.

(** ** Roles and pools of a service *)

(** The role a row of the other-roles phase writes, if any. *)
Definition otherRowRoles (svc : string) (m : RoleMap) : list string :=
  if outOfService m svc then []
  else if String.eqb svc "07" && isMajelisPendamping (Role m) then []
  else [Role m].

(** The roles whose slots the phases after the escort phase write, in the
    order of the writes. *)
Definition laterRoles (maps : list RoleMap) (svc : string) : list string :=
  let grouped := (groupMappingsForService maps svc).1 in
  let others := (groupMappingsForService maps svc).2 in
  let otherNonMP := (splitOthers svc others [] []).2 in
  (Role <$> groupRows grouped "kolektan")
  ++ (Role <$> groupRows grouped "pjemaat")
  ++ (Role <$> groupRows grouped "lektor")
  ++ (Role <$> groupRows grouped "prokantor")
  ++ (Role <$> groupRows grouped "pemusik")
  ++ flat_map (otherRowRoles svc) otherNonMP.

(** The escort rows of a service. *)
Definition escortRows (maps : list RoleMap) (svc : string) : list RoleMap :=
  (splitOthers svc (groupMappingsForService maps svc).2 [] []).1.

(** The roles whose slots the service body writes, in the order of the
    writes. *)
Definition passRoles (maps : list RoleMap) (svc : string) : list string :=
  (if String.eqb svc "10" && (lenZ (escortRows maps svc) >? 0)
   then Role <$> escortRows maps svc else [])
  ++ laterRoles maps svc.

(** The candidate pool from which the service body fills the slot of
    [role], given by a membership test [pool src mustPenatua x] for the
    index lookups and by [split src x] for the split lookups: an escort row
    (second service) and a row of the other-roles phase draw from their own
    column; a row of a composition category from the columns of all rows of
    the category; a row of a capped group from the column of the group's first
    row. *)
Definition poolOf (pool : string -> bool -> string -> Prop)
    (split : string -> string -> Prop)
    (maps : list RoleMap) (svc role x : string) : Prop :=
  let grouped := (groupMappingsForService maps svc).1 in
  let others := (groupMappingsForService maps svc).2 in
  let mpRows := (splitOthers svc others [] []).1 in
  let otherNonMP := (splitOthers svc others [] []).2 in
  (String.eqb svc "10" = true /\
   exists m, m ∈ mpRows /\ Role m = role /\ pool (SourceColumn m) true x) \/
  (exists key m m', (key = "kolektan" \/ key = "pjemaat") /\
     m ∈ groupRows grouped key /\ m' ∈ groupRows grouped key /\
     Role m = role /\ split (SourceColumn m') x) \/
  (exists key row0 rest, (key = "lektor" \/ key = "prokantor" \/ key = "pemusik") /\
     groupRows grouped key = row0 :: rest /\ role ∈ Role <$> (row0 :: rest) /\
     pool (SourceColumn row0) false x) \/
  (exists m, m ∈ otherNonMP /\ Role m = role /\
     pool (SourceColumn m) (isMajelisPendamping (Role m)) x).

(** The pools as the code computes them. *)
Definition poolFor (mapRange : gset string -> list string)
    (people : list Person) : list RoleMap -> string -> string -> string -> Prop :=
  poolOf (fun src b x => x ∈ filterCandidates mapRange people src b)
         (fun src x => eligible people (normKey src) false x).

(** The pools in terms of the eligibility marks of the roster. *)
Definition eligibleFor (people : list Person)
  : list RoleMap -> string -> string -> string -> Prop :=
  poolOf (fun src b x => eligible people (normKey src) b x)
         (fun src x => eligible people (normKey src) false x).

(** ** Invariant of the Assignment *)

(** Every service of every date holds slots only for the roles the service
    body writes, no name in two slots or twice in a slot, and only names that
    satisfy [Q svc role]. *)
Definition assignInv (maps : list RoleMap)
    (Q : string -> string -> string -> Prop) (a : Assignment) : Prop :=
  forall d svc,
    (forall role, is_Some (slotsOf a d svc !! role) -> role ∈ passRoles maps svc) /\
    disjointSlots (slotsOf a d svc) /\
    (forall role names x,
        slotsOf a d svc !! role = Some names -> x ∈ names -> Q svc role x).

(** The quotas of a composition pattern as [parsePattern] returns them. *)
Definition patternQuota (pen jem : Z) : Prop :=
  exists code total, parsePattern code = Ok (pen, jem, total).

(** ** A concrete generator and roster *)

Module Demo.

(** A linear congruential generator standing in for the process-wide
    source: the state is the last value, and [int31n n] reduces it modulo
    [n]. *)
Definition Rng : Type := Z.

Definition int31n (r : Rng) (n : nat) : nat * Rng :=
  (Z.to_nat (r mod Z.of_nat n), (r * 1103515245 + 12345) mod 2 ^ 31).

(** Keys visited in the order of [elements]. *)
Definition mapRange (s : gset string) : list string := elements s.

(** Keys visited in the opposite order. *)
Definition reverseRange (s : gset string) : list string := reverse (elements s).

(** A person marked for the given columns. *)
Definition person (name : string) (penatua : bool) (columns : list string)
  : Person :=
  mkPerson name penatua (list_to_map ((fun c => (normKey c, true)) <$> columns)).

Definition people : list Person :=
  [ person "Ana" true ["Majelis"; "Kolektan"];
    person "Budi" true ["Kolektan"; "Lektor"];
    person "Cici" false ["Lektor"; "Kolektan"];
    person "Dedi" false ["Lektor"; "Usher"] ].

Definition maps : list RoleMap :=
  [ mkRoleMap "Majelis Pendamping" "Majelis" "10" 0 0;
    mkRoleMap "Kolektan 1" "Kolektan" "both" 0 0;
    mkRoleMap "Lektor 1" "Lektor" "both" 0 0;
    mkRoleMap "Lektor 2" "Lektor" "both" 0 0;
    mkRoleMap "Usher" "Usher" "07" 0 0 ].

(** One elder and one member marked for the usher-collector column, and
    the two rows of that category. *)
Definition ushers : list Person :=
  [ person "Ana" true ["Kolektan"]; person "Cici" false ["Kolektan"] ].
Definition kolektan1 : RoleMap := mkRoleMap "Kolektan 1" "Kolektan" "both" 0 0.
Definition kolektan2 : RoleMap := mkRoleMap "Kolektan 2" "Kolektan" "both" 0 0.

(** Two consecutive Sundays (3 and 10 August 2025, midnight UTC). *)
Definition sunday1 : Time := day 739465.
Definition sunday2 : Time := day 739472.

End Demo.

(** ** Eligibility of the written names *)

(** The statement "every name in the slot of a mapping row has a true mark
    for that row's own eligibility key". *)
Definition ownKeyClaim (people : list Person) (maps : list RoleMap)
    (a : Assignment) : Prop :=
  forall d svc m names x,
    m ∈ maps -> slotsOf a d svc !! Role m = Some names -> x ∈ names ->
    eligible people (normKey (SourceColumn m)) false x.

Module OwnKey.

(** Two reader rows with different columns; both people are marked for the
    column of the first row only. *)
Definition people : list Person :=
  [ Demo.person "Ana" false ["Lektor"]; Demo.person "Budi" false ["Lektor"] ].

Definition lektor1 : RoleMap := mkRoleMap "Lektor 1" "Lektor" "07" 0 0.
Definition lektor2 : RoleMap := mkRoleMap "Lektor 2" "Lektor Cadangan" "07" 0 0.
Definition maps : list RoleMap := [lektor1; lektor2].

(** The second row with the column of the first. *)
Definition lektor2' : RoleMap := mkRoleMap "Lektor 2" "Lektor" "07" 0 0.

Definition run : option (error * Assignment) :=
  generate Demo.int31n Demo.mapRange false false ∅ [Demo.sunday1]
    people maps 2 2 2 2 0 1 2 42.

Definition assignment : Assignment := default ∅ (snd <$> run).

End OwnKey.

(** ** A composition quota larger than the number of rows *)

Module Overpick.

(** Two elders marked for the usher-collector column, one row in the
    category, and the default pattern "2b" (two elders). *)
Definition people : list Person :=
  [ Demo.person "Ana" true ["Kolektan"]; Demo.person "Budi" true ["Kolektan"] ].

Definition maps : list RoleMap := [ mkRoleMap "Kolektan 1" "Kolektan" "07" 0 0 ].

Definition final : option (State Demo.Rng) :=
  generateState Demo.int31n Demo.mapRange false false ∅ [Demo.sunday1]
    people maps 2 2 2 2 0 1 2 42.

Definition state : State Demo.Rng := default (initState ∅ 0) final.

(** The call of [pickWithComposition] that the first service makes: the
    shuffled elder pool, an empty member pool, fresh working sets. *)
Definition pickerCall : list string * gset string * gset string * Demo.Rng :=
  let '(candPen, r) :=
    Shuffle Demo.int31n
      (map (fun n => mkPerson n true ∅) (uniq ["Ana"; "Budi"])) 42 in
  pickWithComposition Demo.int31n false false candPen [] 2 0
    (prefer zeroTime ∅) ∅ ∅ r.

End Overpick.

(** ** The escort relax scenario *)

Module EscortRelax.

(** One escort row; the only elder marked for its column is also the only
    reader of the first service. *)
Definition people : list Person :=
  [ Demo.person "Ana" true ["Majelis"; "Lektor"];
    Demo.person "Cici" false ["Majelis"] ].

Definition escort : RoleMap := mkRoleMap "Majelis Pendamping" "Majelis" "10" 0 0.
Definition lektor : RoleMap := mkRoleMap "Lektor 1" "Lektor" "07" 0 0.
Definition maps : list RoleMap := [escort; lektor].

Definition run : option (error * Assignment) :=
  generate Demo.int31n Demo.mapRange false false ∅ [Demo.sunday1]
    people maps 2 2 2 2 0 1 2 42.

Definition assignment : Assignment := default ∅ (snd <$> run).

End EscortRelax.

(** ** The two passes of the escort phase, in the words of the claim *)

(** Pass A: the first [slots] names of the pool, in its order, that
    [prefer] accepts and that are neither in [assigned10] nor in
    [assignedAnyToday]. *)
Definition passA {Rng} (prevSunday : Time) (slots : Z) (cands : list string)
    (st : State Rng) : list string :=
  take (Z.to_nat slots)
    (List.filter
       (fun x => negb (bool_decide (x ∈ assigned10 st))
                 && negb (bool_decide (x ∈ assignedAnyToday st))
                 && prefer prevSunday (lastAssigned st) x)
       cands).

(** Pass B: the first names of the pool, as many as the quota still lacks
    after [picked], that are not in [assigned10]; [assignedAnyToday] and
    [prefer] are not consulted. *)
Definition passB {Rng} (slots : Z) (cands picked : list string)
    (st : State Rng) : list string :=
  take (Z.to_nat (slots - lenZ picked))
    (List.filter (fun x => negb (bool_decide (x ∈ assigned10 st))) cands).

(** ** Strict composition with a short elder pool *)



Module StrictRun.

(** One elder and one member marked for the usher-collector column, two
    rows of that category in both services, the strict toggle, and the
    default pattern "2b" (two elders). *)
Definition people : list Person := Demo.ushers.
Definition maps : list RoleMap := [Demo.kolektan1; Demo.kolektan2].

Definition run : option (error * Assignment) :=
  generate Demo.int31n Demo.mapRange true false ∅ [Demo.sunday1]
    people maps 2 2 2 2 0 1 2 42.

Definition assignment : Assignment := default ∅ (snd <$> run).

End StrictRun.

(** ** Reproducibility *)


(** The variables of [pickWithComposition] after Steps A to C. *)
Definition beforeStepD (noRelaxB2BFlag : bool) (candPen candJem : list Person)
    (needPen needJem : Z) (prefer : string -> bool)
    (already assignedAnyToday : gset string) : PickState :=
  let totalNeed := addInt needPen needJem in
  let ps := mkPick [] ∅ already assignedAnyToday in
  let '(needPen, ps) := pickFrom totalNeed prefer candPen needPen true ps in
  let '(needJem, ps) := pickFrom totalNeed prefer candJem needJem true ps in
  let '(needPen, ps) :=
    if needPen >? 0 then
      pickFrom totalNeed prefer (remaining ps candPen) needPen true ps
    else (needPen, ps) in
  let '(needJem, ps) :=
    if needJem >? 0 then
      pickFrom totalNeed prefer (remaining ps candJem) needJem true ps
    else (needJem, ps) in
  let '(needPen, ps) :=
    if negb noRelaxB2BFlag && (needPen >? 0) then
      pickFrom totalNeed prefer (remaining ps candPen) needPen false ps
    else (needPen, ps) in
  let '(needJem, ps) :=
    if negb noRelaxB2BFlag && (needJem >? 0) then
      pickFrom totalNeed prefer (remaining ps candJem) needJem false ps
    else (needJem, ps) in
  ps.

(** The slice [merged] that Step D hands to [rand.Shuffle] (lines 818-821),
    when the step runs. *)
Definition stepDMerged (strictCompositionFlag noRelaxB2BFlag : bool)
    (candPen candJem : list Person) (needPen needJem : Z)
    (prefer : string -> bool) (already assignedAnyToday : gset string)
  : option (list Person) :=
  let ps := beforeStepD noRelaxB2BFlag candPen candJem needPen needJem prefer
                        already assignedAnyToday in
  if negb strictCompositionFlag
     && (lenZ (ps_picked ps) <? addInt needPen needJem)
  then Some (remaining ps candPen ++ remaining ps candJem)
  else None.


Module StepD.

(** Three members and no elder marked for the usher-collector column,
    two rows of that category, the default pattern "2b" (two elders), no
    strict toggle: Steps A to C find no elder and Step D fills the rows
    from the members. *)
Definition people : list Person :=
  [ Demo.person "Ana" false ["Kolektan"];
    Demo.person "Budi" false ["Kolektan"];
    Demo.person "Cici" false ["Kolektan"] ].

Definition rows : list RoleMap := [Demo.kolektan1; Demo.kolektan2].

(** The pools as [generate] builds and shuffles them for the first
    service of the first date (lines 467-488), from the generator state
    42. *)
Definition penNames : list string := uniq (splitPools people rows [] []).1.
Definition jemNames : list string := uniq (splitPools people rows [] []).2.

Definition candPen : list Person :=
  (Shuffle Demo.int31n (map (fun n => mkPerson n true ∅) penNames) 42).1.

Definition candJem : list Person :=
  (Shuffle Demo.int31n (map (fun n => mkPerson n false ∅) jemNames)
     (Shuffle Demo.int31n (map (fun n => mkPerson n true ∅) penNames) 42).2).1.

(** The list Step D shuffles in that call. *)
Definition merged : option (list Person) :=
  stepDMerged false false candPen candJem 2 0 (prefer zeroTime ∅) ∅ ∅.


(** A source whose state [rand.Seed] sets. *)
Definition SeedSets (seed : Z) (r : Demo.Rng) : Demo.Rng := seed mod 2 ^ 31.

End StepD.

(** ** Utilities of the command-line front end *)

(** [clamp] *)
Definition clamp (v lo hi : Z) : Z :=
  if v <? lo then lo
  else if v >? hi then hi
  else v.

(** [isMarked] *)
Definition isMarked (v : string) : bool :=
  let vv := Str.TrimSpace (Str.ToLower v) in
  String.eqb vv "x" || String.eqb vv "1" || String.eqb vv "true"
  || String.eqb vv "ya".

(** [for i, h := range head { m[strings.ToLower(strings.TrimSpace(h))] = i }] *)
Fixpoint indexHeaderLoop (i : Z) (head : list string) (m : gmap string Z)
  : gmap string Z :=
  match head with
  | [] => m
  | h :: rest =>
      indexHeaderLoop (i + 1) rest (<[Str.ToLower (Str.TrimSpace h) := i]> m)
  end.

(** [indexHeader] *)
Definition indexHeader (head : list string) : gmap string Z :=
  indexHeaderLoop 0 head ∅.

(** [findHeader] *)
Fixpoint findHeader (idx : gmap string Z) (cands : list string) : Z :=
  match cands with
  | [] => -1
  | c :: rest =>
      match idx !! Str.ToLower c with
      | Some v => v
      | None => findHeader idx rest
      end
  end.

(** [atoiSafe]: [x] keeps its zero value when the scan fails. *)
Definition atoiSafe (s : string) : Z :=
  match Scan.scanInt (Str.TrimSpace s) with
  | Some (x, _) => x
  | None => 0
  end.

(** The month table of [parseMonth]. *)
Definition monthNumbers : gmap string Z :=
  list_to_map
    [ ("januari", 1); ("februari", 2); ("maret", 3); ("april", 4); ("mei", 5);
      ("juni", 6); ("juli", 7); ("agustus", 8); ("september", 9);
      ("oktober", 10); ("november", 11); ("desember", 12) ].

(** [parseMonth]: the month and the error, as the Go pair. *)
Definition parseMonth (s : string) : Z * error :=
  match monthNumbers !! Str.ToLower (Str.TrimSpace s) with
  | Some n => (n, None)
  | None =>
      match Scan.scanInt s with
      | Some (x, _) =>
          if (x >=? 1) && (x <=? 12) then (x, None)
          else (0, Some ("bulan tidak valid: " +:+ s))
      | None => (0, Some ("bulan tidak valid: " +:+ s))
      end
  end.

(** [monthNameID] *)
Definition monthNameID (m : Z) : string :=
  let names := [ ""; "Januari"; "Februari"; "Maret"; "April"; "Mei"; "Juni";
                 "Juli"; "Agustus"; "September"; "Oktober"; "November";
                 "Desember" ] in
  if (m >=? 1) && (m <=? 12) then nth (Z.to_nat m) names "" else "?".

(** [time.Weekday]: Sunday is 0. *)
Definition Sunday : Z := 0.

(** [dayNameID] *)
Definition dayNameID (wd : Z) : string :=
  match wd with
  | 1 => "Senin"
  | 2 => "Selasa"
  | 3 => "Rabu"
  | 4 => "Kamis"
  | 5 => "Jumat"
  | 6 => "Sabtu"
  | _ => "Minggu"
  end.

(** *** [strings.ReplaceAll] and [strings.EqualFold] *)

(** Replacement of the non-overlapping occurrences of a non-empty [old],
    from the left; [skip] counts the characters of an occurrence still to
    be dropped. *)
Fixpoint replaceFrom (old new : string) (skip : nat) (s : string) : string :=
  match s with
  | EmptyString => EmptyString
  | String c s' =>
      match skip with
      | S k => replaceFrom old new k s'
      | O =>
          if String.prefix old s
          then new +:+ replaceFrom old new (String.length old - 1) s'
          else String c (replaceFrom old new 0 s')
      end
  end.

(** An empty [old] matches before every character and at the end. *)
Fixpoint insertAround (new : string) (s : string) : string :=
  match s with
  | EmptyString => new
  | String c s' => new +:+ String c (insertAround new s')
  end.

(** [strings.ReplaceAll s old new] *)
Definition ReplaceAll (s old new : string) : string :=
  match old with
  | EmptyString => insertAround new s
  | _ => replaceFrom old new 0 s
  end.

(** [strings.EqualFold], on ASCII text *)
Definition EqualFold (s t : string) : bool :=
  String.eqb (Str.ToLower s) (Str.ToLower t).

(** *** [fmt.Sprintf] with the verbs [%02d] and [%04d] *)

(** The decimal digits of [u], written from the right as the library's loop
    does; twenty digits hold every 64-bit magnitude. *)
Fixpoint digitsOf (fuel : nat) (u : Z) (acc : string) : string :=
  match fuel with
  | O => acc
  | S fuel' =>
      let acc' := String (ascii_of_nat (48 + Z.to_nat (u mod 10))) acc in
      if u <? 10 then acc' else digitsOf fuel' (u / 10) acc'
  end.

Fixpoint zeros (n : nat) : string :=
  match n with
  | O => EmptyString
  | S n' => String "0" (zeros n')
  end.

(** [fmt.Sprintf("%0<width>d", v)]: zeros fill the width, which the sign of
    a negative number shares. *)
Definition fmtZeroPadded (width : nat) (v : Z) : string :=
  let negative := v <? 0 in
  let ds := digitsOf 20 (Z.abs v) EmptyString in
  let prec := if negative then (width - 1)%nat else width in
  let padded := zeros (prec - String.length ds) +:+ ds in
  if negative then String "-" padded else padded.

(** *** The workbook *)

(** What the program reads of an opened workbook: [f.GetSheetList()] and
    [f.GetRows(sheet)], whose error the program ignores (no rows). *)
Record File : Type := mkFile {
  GetSheetList : list string;
  GetRows : string -> list (list string) }.

(** [findSheet] *)
Fixpoint findSheet (all names : list string) : string :=
  match all with
  | [] => ""
  | s :: rest =>
      if existsb (EqualFold s) names then s else findSheet rest names
  end.

(** [for i, r := range rows { if len(r) > 0 && p(r[0]) { return i + 1 } }] *)
Fixpoint findRow (p : string -> bool) (i : Z) (rows : list (list string))
  : option Z :=
  match rows with
  | [] => None
  | r :: rest =>
      match r with
      | c :: _ => if p c then Some (i + 1) else findRow p (i + 1) rest
      | [] => findRow p (i + 1) rest
      end
  end.

(** [rowForRole]: the 1-based row of the template whose label is the role,
    or -1. *)
Definition rowForRole (f : File) (sheet role : string) (umum : bool) : Z :=
  let rows := GetRows f sheet in
  let target := Str.TrimSpace role in
  match findRow (fun c => EqualFold (Str.TrimSpace c) target) 0 rows with
  | Some i => i
  | None =>
      if isMajelisPendamping role then
        match findRow (fun c =>
                         let lab := Str.ToLower (Str.TrimSpace c) in
                         Str.Contains lab "majel" && Str.Contains lab "pend")
                      0 rows with
        | Some i => i
        | None => -1
        end
      else -1
  end.

(** ** Calendar dates of the run *)

(** A [*time.Location] with a single zone: its offset east of UTC in
    seconds.  A location whose offset changed over time (Asia/Jakarta before
    1964) is not represented.  [time.Date] and the methods below are embedded
    by their meaning on the proleptic Gregorian calendar, which the library
    computes exactly for every year whose seconds fit its 64-bit count. *)
Definition Location : Type := Z.

(** [time.FixedZone(name, offset)] *)
Definition FixedZone (offset : Z) : Location := offset.

(** [t.Year()], [t.Month()], [t.Day()] *)
Definition Year (t : Time) : Z := (Date t).1.1.
Definition Month (t : Time) : Z := (Date t).1.2.
Definition Day (t : Time) : Z := (Date t).2.

(** [t.Weekday()]; January 1 of year 1 is a Monday. *)
Definition Weekday (t : Time) : Z := ((sec t + zoneOffset t) / 86400 + 1) mod 7.

(** [t.Clock()]: hour, minute, second in the time's location. *)
Definition Clock (t : Time) : Z * Z * Z :=
  let s := (sec t + zoneOffset t) mod 86400 in
  (s / 3600, s mod 3600 / 60, s mod 60).

(** [norm(hi, lo, base)] of package [time]. *)
Definition norm (hi lo base : Z) : Z * Z :=
  let '(hi, lo) :=
    if lo <? 0 then
      let n := (- lo - 1) / base + 1 in (hi - n, lo + n * base)
    else (hi, lo) in
  if lo >=? base then
    let n := lo / base in (hi + n, lo - n * base)
  else (hi, lo).

Definition isLeap (year : Z) : bool :=
  (year mod 4 =? 0) && (negb (year mod 100 =? 0) || (year mod 400 =? 0)).

(** Days of a non-leap year before the month with the given index. *)
Definition daysBefore : list Z :=
  [0; 31; 59; 90; 120; 151; 181; 212; 243; 273; 304; 334; 365].

(** Days from January 1 of year 1 to January 1 of [year], by cycles of
    400, 100 and 4 years. *)
Definition daysSinceEpoch (year : Z) : Z :=
  let y := year - 1 in
  let n400 := y / 400 in
  let y := y - 400 * n400 in
  let n100 := y / 100 in
  let y := y - 100 * n100 in
  let n4 := y / 4 in
  let y := y - 4 * n4 in
  146097 * n400 + 36524 * n100 + 1461 * n4 + 365 * y.

(** The day count of a date with a month in 1..12; [day] may lie outside
    the month. *)
Definition dateToDays (year month day : Z) : Z :=
  daysSinceEpoch year
  + nth (Z.to_nat (month - 1)) daysBefore 0
  + (if isLeap year && (month >=? 3) then 1 else 0)
  + (day - 1).

(** [time.Date(year, month, day, hour, min, sec, nsec, loc)]: values
    outside their usual ranges are normalized. *)
Definition time_Date (year month day hour min sec nsec : Z) (loc : Location)
  : Time :=
  let '(year, m) := norm year (month - 1) 12 in
  let month := m + 1 in
  let '(sec, nsec) := norm sec nsec 1000000000 in
  let '(min, sec) := norm min sec 60 in
  let '(hour, min) := norm hour min 60 in
  let '(day, hour) := norm day hour 24 in
  let d := dateToDays year month day in
  let abs := d * 86400 + (hour * 3600 + min * 60 + sec) in
  mkTime (abs - loc) nsec loc.

(** [t.AddDate(years, months, days)] *)
Definition AddDate (t : Time) (years months days : Z) : Time :=
  let '(year, month, day) := Date t in
  let '(hour, min, sec) := Clock t in
  time_Date (year + years) (month + months) (day + days) hour min sec
            (nsec t) (zoneOffset t).

(** [safeDate] *)
Definition safeDate (year month day : Z) (loc : Location) : Time * error :=
  let d := time_Date year month day 0 0 0 0 loc in
  if negb (Month d =? month) || negb (Day d =? day)
  then (zeroTime, Some "tanggal tidak valid")
  else (d, None).

(** The loop of [allSundays] from the date [d] on; [None] when [fuel]
    iterations do not reach its end. *)
Fixpoint allSundaysLoop (fuel : nat) (month : Z) (d : Time) (res : list Time)
  : option (list Time) :=
  match fuel with
  | O => None
  | S fuel' =>
      if Month d =? month then
        allSundaysLoop fuel' month (AddDate d 0 0 1)
                       (if Weekday d =? Sunday then res ++ [d] else res)
      else Some res
  end.

(** [allSundays] *)
Definition allSundays (fuel : nat) (year month : Z) (loc : Location)
  : option (list Time) :=
  allSundaysLoop fuel month (time_Date year month 1 0 0 0 0 loc) [].

(** *** Calendar notions the properties are stated with *)

(** Number of days of a month. *)
Definition daysIn (year month : Z) : Z :=
  match month with
  | 2 => if isLeap year then 29 else 28
  | 4 | 6 | 9 | 11 => 30
  | _ => 31
  end.

(** A date of the calendar. *)
Definition validDate (year month day : Z) : Prop :=
  1 <= month <= 12 /\ 1 <= day <= daysIn year month.

(** Midnight, local time, of day [n] since January 1, year 1. *)
Definition midnight (n : Z) (loc : Location) : Time :=
  mkTime (n * 86400 - loc) 0 loc.

(** The Sundays among the [k] days from day [n] on, as midnights of the
    location. *)
Fixpoint sundaysFrom (n : Z) (k : nat) (loc : Location) : list Time :=
  match k with
  | O => []
  | S k' =>
      (if (n + 1) mod 7 =? 0 then [midnight n loc] else [])
      ++ sundaysFrom (n + 1) k' loc
  end.


(** Years for which the library's day count is exact. *)
Definition yearInRange (year : Z) : Prop := - 2 ^ 31 <= year < 2 ^ 31.

(** The month after a month of the calendar, with its year. *)
Definition nextMonth (year month : Z) : Z * Z :=
  if month =? 12 then (year + 1, 1) else (year, month + 1).

(** ** Header placeholders of the template *)

(** [replacePlaceholders] *)
Definition replacePlaceholders (s : string) (d : Time) (loc : Location)
  : string :=
  let day := dayNameID (Weekday d) in
  let dd := fmtZeroPadded 2 (Day d) in
  let mon := monthNameID (Month d) in
  let yyyy := fmtZeroPadded 4 (Year d) in
  let out := s in
  let out := ReplaceAll out "{Day}" day in
  let out := ReplaceAll out "{dd}" dd in
  let out := ReplaceAll out "{MMM}" mon in
  let out := ReplaceAll out "{MMMM}" mon in
  let out := ReplaceAll out "{yyyy}" yyyy in
  out.

(** A text without an opening brace: the test [strings.Contains(val, "{")]
    of [writeTemplateAware] fails on it. *)
Definition noBrace (s : string) : Prop := Str.Contains s "{" = false.

(** ** Reading the master workbook *)

(** [row[i]] for an index the program has checked to be in range. *)
Definition cellAt (row : list string) (i : Z) : string :=
  default "" (row !! Z.to_nat i).

(** [for k, v := range row { ... p.Marks[normKey(hdr)] = isMarked(v) }]:
    cells beyond the header row and cells under a blank header are skipped. *)
Fixpoint marksLoop (head : list string) (k : Z) (row : list string)
    (marks : gmap string bool) : gmap string bool :=
  match row with
  | [] => marks
  | v :: rest =>
      if k >=? lenZ head then marksLoop head (k + 1) rest marks
      else
        let hdr := Str.TrimSpace (cellAt head k) in
        if String.eqb hdr "" then marksLoop head (k + 1) rest marks
        else marksLoop head (k + 1) rest (<[normKey hdr := isMarked v]> marks)
  end.

(** The body of the loop over the rows of sheet Petugas. *)
Definition personOfRow (head : list string) (nameCol penatuaCol : Z)
    (row : list string) : option Person :=
  if nameCol >=? lenZ row then None
  else
    let name := Str.TrimSpace (cellAt row nameCol) in
    if String.eqb name "" then None
    else
      let isPenatua :=
        if (penatuaCol >=? 0) && (penatuaCol <? lenZ row)
        then isMarked (cellAt row penatuaCol) else false in
      Some (mkPerson name isPenatua (marksLoop head 0 row ∅)).

Fixpoint peopleLoop (head : list string) (nameCol penatuaCol : Z)
    (rows : list (list string)) (people : list Person) : list Person :=
  match rows with
  | [] => people
  | row :: rest =>
      match personOfRow head nameCol penatuaCol row with
      | Some p => peopleLoop head nameCol penatuaCol rest (people ++ [p])
      | None => peopleLoop head nameCol penatuaCol rest people
      end
  end.

(** The body of the loop over the rows of sheet MappingRole. *)
Definition roleMapOfRow (roleCol srcCol serviceCol slots07Col slots10Col : Z)
    (row : list string) : option RoleMap :=
  if (roleCol >=? lenZ row) || (srcCol >=? lenZ row) then None
  else
    let role := Str.TrimSpace (cellAt row roleCol) in
    let src := Str.TrimSpace (cellAt row srcCol) in
    if String.eqb role "" || String.eqb src "" then None
    else
      let service :=
        if (serviceCol >=? 0) && (serviceCol <? lenZ row) then
          let v := Str.TrimSpace (Str.ToLower (cellAt row serviceCol)) in
          let service := if String.eqb v "07" then "07" else "both" in
          if String.eqb v "10" then "10" else service
        else "both" in
      let slots07 :=
        if (slots07Col >=? 0) && (slots07Col <? lenZ row)
        then atoiSafe (cellAt row slots07Col) else 0 in
      let slots10 :=
        if (slots10Col >=? 0) && (slots10Col <? lenZ row)
        then atoiSafe (cellAt row slots10Col) else 0 in
      Some (mkRoleMap role src service slots07 slots10).

Fixpoint mapsLoop (roleCol srcCol serviceCol slots07Col slots10Col : Z)
    (rows : list (list string)) (maps : list RoleMap) : list RoleMap :=
  match rows with
  | [] => maps
  | row :: rest =>
      match roleMapOfRow roleCol srcCol serviceCol slots07Col slots10Col row with
      | Some m =>
          mapsLoop roleCol srcCol serviceCol slots07Col slots10Col rest
                   (maps ++ [m])
      | None =>
          mapsLoop roleCol srcCol serviceCol slots07Col slots10Col rest maps
      end
  end.

(** [loadMaster] on an opened workbook: the people, the role mappings and
    the error.  [petRows[0]] is [hd [] petRows], and the loops from index 1
    run over [tail petRows]. *)
Definition loadMaster (f : File) : list Person * list RoleMap * error :=
  let petugasSheet := findSheet (GetSheetList f) ["Petugas"] in
  if String.eqb petugasSheet "" then
    ([], [], Some "Sheet Petugas tidak ditemukan")
  else
    let mappingSheet := findSheet (GetSheetList f) ["MappingRole"] in
    if String.eqb mappingSheet "" then
      ([], [], Some "Sheet MappingRole tidak ditemukan")
    else
      let petRows := GetRows f petugasSheet in
      if lenZ petRows <? 2 then ([], [], Some "Petugas kosong")
      else
        let head := hd [] petRows in
        let headIdx := indexHeaderLoop 0 head ∅ in
        match headIdx !! "nama" with
        | None => ([], [], Some "Kolom Nama wajib")
        | Some nameCol =>
            let penatuaCol :=
              match headIdx !! "penatua" with
              | Some idx => idx
              | None => -1
              end in
            let people :=
              peopleLoop head nameCol penatuaCol (tail petRows) [] in
            let relRows := GetRows f mappingSheet in
            if lenZ relRows <? 2 then (people, [], Some "Mapping kosong")
            else
              let mh := indexHeader (hd [] relRows) in
              let roleCol := findHeader mh ["role"] in
              let srcCol := findHeader mh ["kolom master"; "source"] in
              let serviceCol := findHeader mh ["service"] in
              let slots07Col := findHeader mh ["slots07"] in
              let slots10Col := findHeader mh ["slots10"] in
              if (roleCol <? 0) || (srcCol <? 0) then
                (people, [],
                 Some "MappingRole wajib ada kolom Role & Kolom Master")
              else
                (people,
                 mapsLoop roleCol srcCol serviceCol slots07Col slots10Col
                          (tail relRows) [],
                 None)
        end.

(** A workbook of ASCII text: the sheet names and every cell of every
    sheet. *)
Definition asciiFile (f : File) : Prop :=
  Forall (fun s => Str.isASCII s = true) (GetSheetList f) /\
  forall sheet,
    Forall (Forall (fun c => Str.isASCII c = true)) (GetRows f sheet).

(** A small workbook. *)
Module DemoBook.

Definition petugas : list (list string) :=
  [ ["Nama"; "Penatua"; " Lektor "; ""];
    [" Ana "; "x"; "X"; "x"];
    ["Budi"; ""; "ya"];
    [""; "x"; "x"];
    ["Cici"] ].

Definition mapping : list (list string) :=
  [ ["Role"; "Kolom Master"; "Service"; "Slots10"];
    ["Lektor 1"; "lektor"; "07"; "2"];
    ["Majelis Pendamping"; "Penatua"; " 10 "; "x"; "zz"];
    ["X"] ].

Definition file : File :=
  mkFile ["petugas"; "MappingRole"]
         (fun sheet => if String.eqb sheet "petugas" then petugas
                       else if String.eqb sheet "MappingRole" then mapping
                       else []).

End DemoBook.

(** ** Fairness of a phase *)

(** A role whose rows the escort phase fills: a Majelis Pendamping label
    that belongs to none of the five categories. *)
Definition escortRole (role : string) : bool :=
  negb (isGroupKey (baseRole role)) && isMajelisPendamping role.

(** A role of one of the two composition categories. *)
Definition compositionRole (role : string) : bool :=
  String.eqb (baseRole role) "kolektan" || String.eqb (baseRole role) "pjemaat".

(** A mapping row for which a service writes a slot: a row of the service
    that is not an escort row, or an escort row in service "10". *)
Definition writtenRow (svc : string) (m : RoleMap) : bool :=
  negb (outOfService m svc) && (negb (escortRole (Role m)) || String.eqb svc "10").

(** What a phase of the service [svc] of date [d] does to the fairness
    data, as the sequence [ws] of its slot writes: the slots of [(d, svc)]
    receive the writes and no other slot changes; [assignedAnyToday] only
    grows and holds every written name; every written name has [d] as its
    last-assigned date, and the last-assigned date of any name is either
    unchanged or [d], the latter only for names in [assignedAnyToday].  For a
    role that is filled with regard to [assignedAnyToday] ([Fr]), no written
    name was in it before the phase; when in addition the fairness test
    cannot be relaxed for the role ([Gd]), [prefer] accepted every written
    name. *)
Record PhaseFair {Rng} (Fr Gd : string -> Prop) (d prev : Time) (svc : string)
    (st st' : State Rng) (ws : list (string * list string)) : Prop := {
  pf_slots : slotsOf (assign st') d svc = applyWrites ws (slotsOf (assign st) d svc);
  pf_frame : forall d' svc', d' <> d \/ svc' <> svc ->
               slotsOf (assign st') d' svc' = slotsOf (assign st) d' svc';
  pf_today_mono : assignedAnyToday st ⊆ assignedAnyToday st';
  pf_today : forall x, x ∈ concat ws.*2 -> x ∈ assignedAnyToday st';
  pf_fresh : forall role names x,
               (role, names) ∈ ws -> x ∈ names -> Fr role ->
               x ∉ assignedAnyToday st;
  pf_recorded : forall x, x ∈ concat ws.*2 -> lastAssigned st' !! x = Some d;
  pf_last : forall x, lastAssigned st' !! x = lastAssigned st !! x \/
                      (lastAssigned st' !! x = Some d /\ x ∈ assignedAnyToday st');
  pf_prefer : forall role names x,
                (role, names) ∈ ws -> x ∈ names -> Fr role -> Gd role ->
                prefer prev (lastAssigned st) x = true }.

(** The roles filled with regard to [assignedAnyToday] in a service: all
    but the escort roles of service "10". *)
Definition fairRole (svc role : string) : Prop :=
  String.eqb svc "10" = true -> escortRole role = false.

(** The roles for which the flags rule out every pass that ignores
    [prefer]: with [-noRelaxB2B] the roles of the capped groups and of the
    other-roles phase, and with [-strictComposition] as well, also the roles
    of the composition categories. *)
Definition guardedRole (strictCompositionFlag noRelaxB2BFlag : bool)
    (role : string) : Prop :=
  noRelaxB2BFlag = true /\
  (strictCompositionFlag = true \/ compositionRole role = false).

(** The slots of an Assignment are those of the dates listed, the services
    "07" and "10", and the roles the service body writes. *)
Definition shaped (dates : list Time) (maps : list RoleMap) (a : Assignment)
  : Prop :=
  forall d svc role,
    is_Some (slotsOf a d svc !! role) ->
    d ∈ dates /\ (svc = "07" \/ svc = "10") /\ role ∈ passRoles maps svc.

(** The slots of date [d] are slots of the two services for roles the
    services write (none, when the date is new). *)
Definition rewritten (maps : list RoleMap) (d : Time) (a : Assignment) : Prop :=
  forall svc role,
    is_Some (slotsOf a d svc !! role) ->
    (svc = "07" \/ svc = "10") /\ role ∈ passRoles maps svc.

(** The number of names a service asks for in the slot of a row: one for
    a row of the five categories, the quota of the escort phase for an escort
    row, the quota of the other-roles phase for any other row (no name when
    that quota is negative). *)
Definition slotCapacity (maxLektor maxPro maxMus : Z) (svc : string)
    (m : RoleMap) : Z :=
  if isGroupKey (baseRole (Role m)) then 1
  else if isMajelisPendamping (Role m) then
    (if Slots10 m >? 0 then Slots10 m else 1)
  else
    let slots := defaultSlotsForRole (Role m) svc maxLektor maxPro maxMus in
    let slots := if String.eqb svc "07" && (Slots07 m >? 0) then Slots07 m else slots in
    let slots := if String.eqb svc "10" && (Slots10 m >? 0) then Slots10 m else slots in
    Z.max 0 slots.

(** The names of a slot are no more than a row with that role, written by
    the service, asks for. *)
Definition fitsRow (maps : list RoleMap) (maxLektor maxPro maxMus : Z)
    (svc role : string) (names : list string) : Prop :=
  exists m, m ∈ maps /\ Role m = role /\ writtenRow svc m = true /\
            lenZ names <= slotCapacity maxLektor maxPro maxMus svc m.

(** Every slot of the Assignment fits a row. *)
Definition fitting (maps : list RoleMap) (maxLektor maxPro maxMus : Z)
    (a : Assignment) : Prop :=
  forall d svc role names,
    slotsOf a d svc !! role = Some names ->
    fitsRow maps maxLektor maxPro maxMus svc role names.

(** The person named [x] holds a slot of date [d] in the Assignment. *)
Definition servesOn (a : Assignment) (d : Time) (x : string) : Prop :=
  exists svc role names, slotsOf a d svc !! role = Some names /\ x ∈ names.

(** A run with both hardening flags over two consecutive Sundays. *)
Module FairRun.

Definition people : list Person :=
  Demo.people ++
  [ Demo.person "Eka" false ["Lektor"; "Kolektan"];
    Demo.person "Fani" true ["Kolektan"; "Majelis"];
    Demo.person "Gina" false ["Lektor"; "Usher"];
    Demo.person "Hana" false ["Lektor"] ].

Definition dates : list Time := [Demo.sunday1; Demo.sunday2].

Definition run : option (error * Assignment) :=
  generate Demo.int31n Demo.mapRange true true ∅ dates
    people Demo.maps 2 2 2 1 0 1 2 42.

Definition assignment : Assignment := default ∅ (snd <$> run).

End FairRun.

(** * Properties *)

(** ** Order on strings and sorting *)

Lemma strLe_iff a b : strLe a b <-> a = b \/ String_as_OT.lt a b.
Proof.
  unfold strLe, String.leb.
  destruct (String.compare a b) eqn:E.
  - apply String_as_OT.cmp_eq in E. tauto.
  - apply String_as_OT.cmp_lt in E. tauto.
  - split; [discriminate|].
    intros [-> | H].
    + assert (String.compare b b = Eq) as E' by (by apply String_as_OT.cmp_eq).
      congruence.
    + apply String_as_OT.cmp_lt in H. unfold String_as_OT.cmp in H. congruence.
Qed.

#[global] Instance strLe_trans : Transitive strLe.
Proof.
  intros a b c Hab Hbc. apply strLe_iff in Hab, Hbc. apply strLe_iff.
  destruct Hab as [-> | Hab]; [done|].
  destruct Hbc as [<- | Hbc]; [by right|].
  right. eapply String_as_OT.lt_trans; eauto.
Qed.

#[global] Instance strLe_antisym : AntiSymm (=) strLe.
Proof. intros a b. apply String.leb_antisym. Qed.

#[global] Instance strLe_total : Total strLe.
Proof. intros a b. apply String.leb_total. Qed.

Lemma sortStrings_perm l : sortStrings l ≡ₚ l.
Proof. apply merge_sort_Permutation. Qed.

Lemma sortStrings_sorted l : Sorted strLe (sortStrings l).
Proof. apply (Sorted_merge_sort strLe). Qed.

Lemma sortStrings_elem x l : x ∈ sortStrings l <-> x ∈ l.
Proof. by rewrite sortStrings_perm. Qed.

Lemma sortStrings_NoDup l : NoDup l -> NoDup (sortStrings l).
Proof. by rewrite sortStrings_perm. Qed.

(** Sorting forgets the order of its input. *)
Lemma sortStrings_order_irrelevant l1 l2 :
  l1 ≡ₚ l2 -> sortStrings l1 = sortStrings l2.
Proof.
  intros H. apply (Sorted_unique strLe); try apply sortStrings_sorted.
  by rewrite !sortStrings_perm.
Qed.

Lemma uniqLoop_spec l : forall m res,
  NoDup res -> (forall x, x ∈ m <-> x ∈ res) ->
  NoDup (uniqLoop m res l) /\
  (forall x, x ∈ uniqLoop m res l <-> x ∈ res \/ x ∈ l).
Proof.
  induction l as [|s l IH]; intros m res Hnd Hm; simpl.
  - split; [done|]. intros x. rewrite elem_of_nil. tauto.
  - case_bool_decide as Hs.
    + destruct (IH m res Hnd Hm) as [H1 H2]. split; [done|].
      intros x. rewrite H2, elem_of_cons. split; [tauto|].
      intros [? | [-> | ?]]; auto. left. by apply Hm.
    + destruct (IH ({[s]} ∪ m) (res ++ [s])) as [H1 H2].
      * apply NoDup_app. split_and!; [done| |apply NoDup_singleton].
        intros x Hx Hx'. apply list_elem_of_singleton in Hx' as ->.
        apply Hs, Hm, Hx.
      * intros x. rewrite elem_of_union, elem_of_singleton, elem_of_app,
          list_elem_of_singleton, Hm. tauto.
      * split; [done|]. intros x.
        rewrite H2, elem_of_app, list_elem_of_singleton, elem_of_cons. tauto.
Qed.

Lemma uniq_elem x l : x ∈ uniq l <-> x ∈ l.
Proof.
  unfold uniq. rewrite sortStrings_elem.
  destruct (uniqLoop_spec l ∅ []) as [_ H]; [constructor|set_solver|].
  rewrite H, elem_of_nil. tauto.
Qed.

Lemma uniq_NoDup l : NoDup (uniq l).
Proof.
  unfold uniq. apply sortStrings_NoDup.
  destruct (uniqLoop_spec l ∅ []) as [H _]; [constructor|set_solver|done].
Qed.

Lemma uniq_sorted l : Sorted strLe (uniq l).
Proof. apply sortStrings_sorted. Qed.

(** ** Pattern codes *)

Lemma allAscii_complete c : In c allAscii.
Proof.
  unfold allAscii. rewrite <- (ascii_nat_embedding c).
  apply in_map, in_seq. pose proof (nat_ascii_bounded c). lia.
Qed.

Lemma agreesTwoChar_all : forall d l, agreesTwoChar d l = true.
Proof.
  assert (forallb (fun d => forallb (agreesTwoChar d) allAscii) allAscii = true)
    as H by (vm_compute; reflexivity).
  intros d l. rewrite forallb_forall in H.
  specialize (H d (allAscii_complete d)). rewrite forallb_forall in H.
  apply H, allAscii_complete.
Qed.

Lemma enumLookup_In n suf p j :
  enumLookup n suf = Some (p, j) -> In (n, suf, (p, j)) patternEnumeration.
Proof.
  unfold enumLookup. intros H.
  destruct (find _ _) as [[[n' s'] [p' j']]|] eqn:E; [|discriminate H].
  cbn [fmap option_fmap option_map snd] in H. injection H as -> ->.
  apply find_some in E as [Hin Hc]. cbn [fst snd] in Hc.
  apply andb_true_iff in Hc as [Hn Hs]. apply Z.eqb_eq in Hn.
  apply String.eqb_eq in Hs. by subst.
Qed.

Lemma enumLookup_total n suf p j :
  enumLookup n suf = Some (p, j) -> 1 <= n <= 4 /\ p + j = n /\ 0 <= p /\ 0 <= j.
Proof.
  intros H%enumLookup_In. unfold patternEnumeration in H.
  repeat (destruct H as [H|H]; [injection H as <- <- <- <-; lia|]). destruct H.
Qed.

Ltac known_suffix suf lit :=
  destruct (String.eqb_spec suf lit) as [-> | ?]; [vm_compute; reflexivity|].

(** The switch of [parsePattern] is the enumeration. *)
Lemma parsePattern_scanned code n suf :
  (Str.len (Str.ToLower (Str.TrimSpace code)) <? 2) = false ->
  Scan.Sscanf_d_s (Str.ToLower (Str.TrimSpace code)) = Some (n, suf) ->
  match enumLookup n suf with
  | Some (p, j) => parsePattern code = Ok (p, j, n)
  | None => isErr (parsePattern code) = true
  end.
Proof.
  intros Hlen Hscan. unfold parsePattern. rewrite Hlen, Hscan.
  cbv beta iota zeta.
  destruct (Z.ltb_spec n 1) as [Hlt|Hge].
  { destruct (enumLookup n suf) as [[p j]|] eqn:E; [|done].
    apply enumLookup_total in E. lia. }
  destruct (Z.gtb_spec n 4) as [Hgt|Hle].
  { destruct (enumLookup n suf) as [[p j]|] eqn:E; [|done].
    apply enumLookup_total in E. lia. }
  cbn [orb].
  assert (n = 1 \/ n = 2 \/ n = 3 \/ n = 4) as Hn by lia.
  destruct Hn as [-> | [-> | [-> | ->]]];
    known_suffix suf "a"; known_suffix suf "b"; try known_suffix suf "c";
    try known_suffix suf "d"; try known_suffix suf "e";
    (destruct (enumLookup _ suf) as [[p j]|] eqn:E;
     [ apply enumLookup_In in E; unfold patternEnumeration in E;
       repeat (destruct E as [E|E]; [exfalso; simplify_eq; congruence|]);
       destruct E
     | reflexivity ]).
Qed.

(** A successful parse returns quotas of the enumeration. *)
Lemma parsePattern_Ok_inv code p j t :
  parsePattern code = Ok (p, j, t) ->
  1 <= t <= 4 /\ p + j = t /\ 0 <= p /\ 0 <= j.
Proof.
  intros H.
  destruct (Str.len (Str.ToLower (Str.TrimSpace code)) <? 2) eqn:Hlen.
  { unfold parsePattern in H. by rewrite Hlen in H. }
  destruct (Scan.Sscanf_d_s (Str.ToLower (Str.TrimSpace code)))
    as [[n suf]|] eqn:Hscan.
  2:{ unfold parsePattern in H. by rewrite Hlen, Hscan in H. }
  pose proof (parsePattern_scanned code n suf Hlen Hscan) as Hs.
  destruct (enumLookup n suf) as [[p' j']|] eqn:E.
  - rewrite Hs in H. simplify_eq. by eapply enumLookup_total.
  - rewrite H in Hs. done.
Qed.

Lemma patternQuota_nonneg pen jem :
  patternQuota pen jem -> 0 <= addInt pen jem.
Proof.
  intros (code & t & H). apply parsePattern_Ok_inv in H.
  unfold addInt, wrap64.
  assert (pen + jem = 1 \/ pen + jem = 2 \/ pen + jem = 3 \/ pen + jem = 4)
    as Hs by lia.
  destruct Hs as [-> | [-> | [-> | ->]]]; by vm_compute.
Qed.

(** C6. [parsePattern] implements exactly the fixed enumeration of composition
    codes: "2b" is (elder 2, member 0, total 2), "4e" is (elder 0, member 4,
    total 4), "5a" and "2z" are errors; a code that scans as a number and a
    suffix succeeds exactly when the pair is in the enumeration, with the
    enumerated quotas and the number as total, so a number outside 1..4 or
    a suffix not defined for the number is an error; and every code of two
    characters agrees with the enumeration. *)
Theorem parsePattern_enumeration :
  parsePattern "2b" = Ok (2, 0, 2) /\
  parsePattern "4e" = Ok (0, 4, 4) /\
  isErr (parsePattern "5a") = true /\
  isErr (parsePattern "2z") = true /\
  (forall code p j t,
      parsePattern code = Ok (p, j, t) <->
      exists suf,
        (Str.len (Str.ToLower (Str.TrimSpace code)) <? 2) = false /\
        Scan.Sscanf_d_s (Str.ToLower (Str.TrimSpace code)) = Some (t, suf) /\
        enumLookup t suf = Some (p, j)) /\
  (forall code n suf,
      Scan.Sscanf_d_s (Str.ToLower (Str.TrimSpace code)) = Some (n, suf) ->
      (n < 1 \/ 4 < n \/ enumLookup n suf = None) ->
      isErr (parsePattern code) = true) /\
  (forall d l p j t,
      parsePattern (twoChar d l) = Ok (p, j, t) <->
      Scan.isDigit d = true /\ t = digitOf d /\
      enumLookup t (String (Str.lowerChar l) EmptyString) = Some (p, j)).
Proof.
  split_and!; try reflexivity.
  - intros code p j t. split.
    + intros H.
      destruct (Str.len (Str.ToLower (Str.TrimSpace code)) <? 2) eqn:Hlen.
      { unfold parsePattern in H. by rewrite Hlen in H. }
      destruct (Scan.Sscanf_d_s (Str.ToLower (Str.TrimSpace code)))
        as [[n suf]|] eqn:Hscan.
      2:{ unfold parsePattern in H. by rewrite Hlen, Hscan in H. }
      pose proof (parsePattern_scanned code n suf Hlen Hscan) as Hs.
      destruct (enumLookup n suf) as [[p' j']|] eqn:E.
      * rewrite Hs in H. simplify_eq. eauto.
      * rewrite H in Hs. done.
    + intros (suf & Hlen & Hscan & E).
      pose proof (parsePattern_scanned code t suf Hlen Hscan) as Hs.
      by rewrite E in Hs.
  - intros code n suf Hscan Hbad.
    destruct (Str.len (Str.ToLower (Str.TrimSpace code)) <? 2) eqn:Hlen.
    { unfold parsePattern. by rewrite Hlen. }
    pose proof (parsePattern_scanned code n suf Hlen Hscan) as Hs.
    destruct (enumLookup n suf) as [[p j]|] eqn:E; [|done].
    apply enumLookup_total in E. destruct Hbad as [?|[?|?]]; [lia|lia|done].
  - intros d l p j t. pose proof (agreesTwoChar_all d l) as H.
    unfold agreesTwoChar, enumTwoChar in H.
    destruct (parsePattern (twoChar d l)) as [[[p' j'] t']|e] eqn:Hp.
    + destruct (Scan.isDigit d); [|done].
      destruct (enumLookup (digitOf d) _) as [[p'' j'']|] eqn:E; [|done].
      apply andb_true_iff in H as [H Ht]. apply andb_true_iff in H as [H1 H2].
      apply Z.eqb_eq in H1, H2, Ht. subst. split.
      * intros ?; simplify_eq. done.
      * intros (_ & -> & E'). rewrite E in E'. by simplify_eq.
    + split; [done|]. intros (Hd & -> & E). rewrite Hd, E in H. done.
Qed.

(** ** The fairness predicate *)

Lemma prevSundayAt_0 dates : prevSundayAt dates 0 = zeroTime.
Proof. reflexivity. Qed.

Lemma prevSundayAt_S dates k :
  prevSundayAt dates (S k) = default zeroTime (dates !! k).
Proof. unfold prevSundayAt. simpl. by rewrite Nat.sub_0_r. Qed.

Lemma prefer_true_iff prev la name :
  prefer prev la name = true <->
  IsZero prev = true \/ ~ exists t, la !! name = Some t /\ sameDay t prev = true.
Proof.
  unfold prefer. destruct (IsZero prev); [tauto|].
  destruct (la !! name) as [t|] eqn:E.
  - destruct (sameDay t prev) eqn:Hs.
    + split; [done|]. intros [?|H]; [done|]. destruct H. eauto.
    + split; [|done]. intros _. right. intros (t' & ? & ?). congruence.
  - split; [|done]. intros _. right. intros (t' & ? & ?). congruence.
Qed.

(** [prefer name] on any date list: true exactly when the current date is
    the first of the sequence, or the immediately preceding date is the zero
    time, or the person's last-assigned date is not the same day as the
    immediately preceding date. *)
Lemma prefer_true_cases dates di lastAssigned name :
  prefer (prevSundayAt dates di) lastAssigned name = true <->
  (di = 0%nat \/
   (exists p, dates !! (di - 1)%nat = Some p /\ IsZero p = true) \/
   ~ exists t p, lastAssigned !! name = Some t /\
                 dates !! (di - 1)%nat = Some p /\ sameDay t p = true).
Proof.
  destruct di as [|k].
  { rewrite prevSundayAt_0. split; [auto|reflexivity]. }
  rewrite prevSundayAt_S. simpl. rewrite Nat.sub_0_r.
  rewrite prefer_true_iff.
  destruct (dates !! k) as [p|] eqn:E; simpl.
  - split.
    + intros [Hz|Hn]; [right; left; eauto|].
      right; right. intros (t & p' & Ht & Hp & Hs). simplify_eq. eauto.
    + intros [?|[(p' & ? & Hz)|Hn]]; [done| |].
      * simplify_eq. by left.
      * right. intros (t & Ht & Hs). apply Hn. eauto.
  - split; [|by left]. intros _. right; right.
    intros (t & p' & _ & ? & _). done.
Qed.

(** C5. On the date lists [generate] receives (no date is the zero
    instant), [prefer name] is true exactly when the current date is the first
    of the sequence or the person's last-assigned date is not the same day as
    the immediately preceding date; in a single-date run it is true for every
    name. *)
Theorem prefer_on_run_dates :
  forall dates,
    runDates dates ->
    (forall di lastAssigned name, preferClaim dates di lastAssigned name) /\
    (forall d lastAssigned name,
        prefer (prevSundayAt [d] 0) lastAssigned name = true).
Proof.
  intros dates Hdates. split; [|reflexivity].
  intros di la name. unfold preferClaim. rewrite prefer_true_cases.
  split; [|tauto].
  intros [?|[(p & Hp & Hz)|?]]; [tauto| |tauto].
  exfalso. unfold runDates in Hdates. rewrite Forall_forall in Hdates.
  apply list_elem_of_lookup_2 in Hp. apply Hdates in Hp. congruence.
Qed.

Lemma prefer_on_run_dates_witness :
  (forall di lastAssigned name,
      preferClaim [Demo.sunday1; Demo.sunday2] di lastAssigned name) /\
  (forall d lastAssigned name,
      prefer (prevSundayAt [d] 0) lastAssigned name = true).
Proof.
  apply (prefer_on_run_dates [Demo.sunday1; Demo.sunday2]).
  repeat constructor.
Defined.

(** The condition on the dates is needed: after a zero date [prefer] is
    true also for a person last assigned on it. *)
Lemma prefer_after_zero_date :
  ~ preferClaim [zeroTime; day 7] 1 {[ "Ana" := zeroTime ]} "Ana".
Proof.
  unfold preferClaim. intros [H _].
  destruct (H eq_refl) as [H0|H1]; [discriminate|].
  apply H1. exists zeroTime, zeroTime. split_and!; reflexivity.
Qed.

(** ** State access *)

Section StateLemmas.
Context {Rng : Type}.
Implicit Types st : State Rng.

Lemma slotsOf_setSlot_eq d svc role names st :
  slotsOf (assign (setSlot d svc role names st)) d svc
  = <[role := names]> (slotsOf (assign st) d svc).
Proof.
  unfold slotsOf, setSlot. simpl. rewrite lookup_insert_eq. simpl.
  by rewrite lookup_insert_eq.
Qed.

Lemma slotsOf_setSlot_ne d svc role names st d' svc' :
  d' <> d \/ svc' <> svc ->
  slotsOf (assign (setSlot d svc role names st)) d' svc'
  = slotsOf (assign st) d' svc'.
Proof.
  intros H. unfold slotsOf, setSlot. simpl.
  destruct (decide (d' = d)) as [-> |Hd].
  - destruct H as [?|Hs]; [done|].
    rewrite lookup_insert_eq. simpl. by rewrite lookup_insert_ne.
  - by rewrite lookup_insert_ne.
Qed.

Lemma slotsOf_ensureDate d st d' svc' :
  slotsOf (assign (ensureDate d st)) d' svc' = slotsOf (assign st) d' svc'.
Proof.
  unfold slotsOf, ensureDate. destruct (assign st !! d) eqn:E; [done|].
  simpl. destruct (decide (d' = d)) as [-> |Hd].
  - by rewrite lookup_insert_eq, E.
  - by rewrite lookup_insert_ne.
Qed.

Lemma slotsOf_ensureService d svc st d' svc' :
  slotsOf (assign (ensureService d svc st)) d' svc' = slotsOf (assign st) d' svc'.
Proof.
  unfold slotsOf, ensureService.
  destruct (default ∅ (assign st !! d) !! svc) eqn:E; [done|].
  simpl. destruct (decide (d' = d)) as [-> |Hd].
  - rewrite lookup_insert_eq. simpl.
    destruct (decide (svc' = svc)) as [-> |Hs].
    + by rewrite lookup_insert_eq, E.
    + by rewrite lookup_insert_ne.
  - by rewrite lookup_insert_ne.
Qed.

Lemma alreadyOf_mark_eq svc d name st :
  alreadyOf svc (mark svc d name st) = {[name]} ∪ alreadyOf svc st.
Proof. unfold mark, alreadyOf, setAlready. by destruct (String.eqb svc "07"). Qed.

Lemma alreadyOf_mark_other svc svc' d name st :
  String.eqb svc' "07" <> String.eqb svc "07" ->
  alreadyOf svc' (mark svc d name st) = alreadyOf svc' st.
Proof.
  unfold mark, alreadyOf, setAlready.
  by destruct (String.eqb svc "07"), (String.eqb svc' "07").
Qed.

Lemma anyToday_mark svc d name st :
  assignedAnyToday (mark svc d name st) = {[name]} ∪ assignedAnyToday st.
Proof. unfold mark, setAlready. by destruct (String.eqb svc "07"). Qed.

Lemma assign_mark svc d name st : assign (mark svc d name st) = assign st.
Proof. unfold mark, setAlready. by destruct (String.eqb svc "07"). Qed.

Lemma rng_mark svc d name st : rng (mark svc d name st) = rng st.
Proof. unfold mark, setAlready. by destruct (String.eqb svc "07"). Qed.

Lemma lastAssigned_mark svc d name st :
  lastAssigned (mark svc d name st) = <[name := d]> (lastAssigned st).
Proof. unfold mark, setAlready. by destruct (String.eqb svc "07"). Qed.

Lemma markAll_snoc svc d names name st :
  markAll svc d (names ++ [name]) st = mark svc d name (markAll svc d names st).
Proof. unfold markAll. by rewrite fold_left_app. Qed.

Lemma markAll_cons svc d names name st :
  markAll svc d (name :: names) st = markAll svc d names (mark svc d name st).
Proof. reflexivity. Qed.

Lemma markAll_app svc d l1 l2 st :
  markAll svc d (l1 ++ l2) st = markAll svc d l2 (markAll svc d l1 st).
Proof. unfold markAll. by rewrite fold_left_app. Qed.

Lemma alreadyOf_markAll svc d names st :
  alreadyOf svc (markAll svc d names st) = list_to_set names ∪ alreadyOf svc st.
Proof.
  revert st. induction names as [|x l IH]; intros st.
  - unfold markAll. simpl. set_solver.
  - rewrite markAll_cons, IH, alreadyOf_mark_eq. set_solver.
Qed.

Lemma alreadyOf_markAll_other svc svc' d names st :
  String.eqb svc' "07" <> String.eqb svc "07" ->
  alreadyOf svc' (markAll svc d names st) = alreadyOf svc' st.
Proof.
  intros H. revert st. induction names as [|x l IH]; intros st; [done|].
  by rewrite markAll_cons, IH, alreadyOf_mark_other.
Qed.

Lemma anyToday_markAll svc d names st :
  assignedAnyToday (markAll svc d names st)
  = list_to_set names ∪ assignedAnyToday st.
Proof.
  revert st. induction names as [|x l IH]; intros st.
  - unfold markAll. simpl. set_solver.
  - rewrite markAll_cons, IH, anyToday_mark. set_solver.
Qed.

Lemma assign_markAll svc d names st : assign (markAll svc d names st) = assign st.
Proof.
  revert st. induction names as [|x l IH]; intros st; [done|].
  by rewrite markAll_cons, IH, assign_mark.
Qed.

Lemma rng_markAll svc d names st : rng (markAll svc d names st) = rng st.
Proof.
  revert st. induction names as [|x l IH]; intros st; [done|].
  by rewrite markAll_cons, IH, rng_mark.
Qed.

Lemma lastAssigned_markAll_in svc d names st x :
  x ∈ names -> lastAssigned (markAll svc d names st) !! x = Some d.
Proof.
  induction names as [|y l IH] using rev_ind; [by intros ?%elem_of_nil|].
  intros Hx. rewrite markAll_snoc, lastAssigned_mark.
  destruct (decide (y = x)) as [-> |Hne]; [by rewrite lookup_insert_eq|].
  rewrite lookup_insert_ne by done. apply IH.
  apply elem_of_app in Hx as [?|Hx]; [done|].
  apply list_elem_of_singleton in Hx. congruence.
Qed.

Lemma lastAssigned_markAll_notin svc d names st x :
  x ∉ names -> lastAssigned (markAll svc d names st) !! x = lastAssigned st !! x.
Proof.
  induction names as [|y l IH] using rev_ind; [done|].
  intros Hx. rewrite markAll_snoc, lastAssigned_mark.
  rewrite not_elem_of_app, list_elem_of_singleton in Hx. destruct Hx.
  rewrite lookup_insert_ne by done. by apply IH.
Qed.

End StateLemmas.

(** ** Pick passes *)

Lemma prefer_lookup prev (la la' : gmap string Time) x :
  la !! x = la' !! x -> prefer prev la x = prefer prev la' x.
Proof. intros H. unfold prefer. by rewrite H. Qed.

Section PickLemmas.
Context {Rng : Type}.
Implicit Types st : State Rng.

Lemma pickPrefer_spec svc d prev limit cands : forall picked st,
  exists new,
    pickPrefer svc d prev limit cands picked st
    = (picked ++ new, markAll svc d new st) /\
    NoDup new /\
    (forall x, x ∈ new ->
               x ∈ cands /\ (x ∉ alreadyOf svc st) /\ (x ∉ assignedAnyToday st) /\
               prefer prev (lastAssigned st) x = true) /\
    (lenZ (picked ++ new) <= Z.max limit (lenZ picked)).
Proof.
  induction cands as [|name rest IH]; intros picked st; simpl.
  { exists []. rewrite app_nil_r. split_and!; [done|constructor| |lia].
    by intros x ?%elem_of_nil. }
  destruct (Z.geb_spec (lenZ picked) limit) as [Hge|Hlt].
  { exists []. rewrite app_nil_r. split_and!; [done|constructor| |lia].
    by intros x ?%elem_of_nil. }
  destruct (bool_decide (name ∈ alreadyOf svc st)
            || bool_decide (name ∈ assignedAnyToday st)) eqn:Htaken.
  { destruct (IH picked st) as (new & -> & Hnd & Hin & Hlen).
    exists new. split_and!; try done.
    intros x Hx. destruct (Hin x Hx) as (? & ? & ? & ?). split_and!; try done.
    by apply elem_of_cons; right. }
  apply orb_false_iff in Htaken as [Ha Ht].
  apply bool_decide_eq_false in Ha, Ht.
  destruct (prefer prev (lastAssigned st) name) eqn:Hpref.
  - destruct (IH (picked ++ [name]) (mark svc d name st))
      as (new & -> & Hnd & Hin & Hlen).
    exists (name :: new). rewrite <- app_assoc. simpl.
    split_and!; [done| | |].
    + constructor; [|done]. intros Hx. destruct (Hin _ Hx) as (_ & Hx' & _).
      apply Hx'. rewrite alreadyOf_mark_eq. set_solver.
    + intros x [-> | Hx]%elem_of_cons.
      * split_and!; [by apply elem_of_cons; left|done|done|done].
      * destruct (Hin x Hx) as (? & Hx1 & Hx2 & Hx3).
        rewrite alreadyOf_mark_eq in Hx1. rewrite anyToday_mark in Hx2.
        split_and!; [by apply elem_of_cons; right|set_solver|set_solver|].
        rewrite <- Hx3. apply prefer_lookup.
        rewrite lastAssigned_mark, lookup_insert_ne; [done|set_solver].
    + unfold lenZ in *. rewrite !length_app in Hlen. rewrite length_app.
      simpl in *. lia.
  - destruct (IH picked st) as (new & -> & Hnd & Hin & Hlen).
    exists new. split_and!; try done.
    intros x Hx. destruct (Hin x Hx) as (? & ? & ? & ?). split_and!; try done.
    by apply elem_of_cons; right.
Qed.

Lemma pickRelax_spec svc d limit cands : forall picked st,
  exists new,
    pickRelax svc d limit cands picked st
    = (picked ++ new, markAll svc d new st) /\
    NoDup new /\
    (forall x, x ∈ new ->
               x ∈ cands /\ (x ∉ alreadyOf svc st) /\ x ∉ assignedAnyToday st) /\
    (lenZ (picked ++ new) <= Z.max limit (lenZ picked)).
Proof.
  induction cands as [|name rest IH]; intros picked st; simpl.
  { exists []. rewrite app_nil_r. split_and!; [done|constructor| |lia].
    by intros x ?%elem_of_nil. }
  destruct (Z.geb_spec (lenZ picked) limit) as [Hge|Hlt].
  { exists []. rewrite app_nil_r. split_and!; [done|constructor| |lia].
    by intros x ?%elem_of_nil. }
  destruct (bool_decide (name ∈ alreadyOf svc st)
            || bool_decide (name ∈ assignedAnyToday st)) eqn:Htaken.
  { destruct (IH picked st) as (new & -> & Hnd & Hin & Hlen).
    exists new. split_and!; try done.
    intros x Hx. destruct (Hin x Hx) as (? & ? & ?). split_and!; try done.
    by apply elem_of_cons; right. }
  apply orb_false_iff in Htaken as [Ha Ht].
  apply bool_decide_eq_false in Ha, Ht.
  destruct (IH (picked ++ [name]) (mark svc d name st))
    as (new & -> & Hnd & Hin & Hlen).
  exists (name :: new). rewrite <- app_assoc. simpl.
  split_and!; [done| | |].
  - constructor; [|done]. intros Hx. destruct (Hin _ Hx) as (_ & Hx' & _).
    apply Hx'. rewrite alreadyOf_mark_eq. set_solver.
  - intros x [-> |Hx]%elem_of_cons.
    + split_and!; [by apply elem_of_cons; left|done|done].
    + destruct (Hin x Hx) as (? & Hx1 & Hx2).
      rewrite alreadyOf_mark_eq in Hx1. rewrite anyToday_mark in Hx2.
      split_and!; [by apply elem_of_cons; right|set_solver|set_solver].
  - unfold lenZ in *. rewrite !length_app in Hlen. rewrite length_app.
    simpl in *. lia.
Qed.

Lemma pickRelaxMP_spec d slots cands : forall picked st,
  exists new,
    pickRelaxMP d slots cands picked st
    = (picked ++ new, markAll "10" d new st) /\
    NoDup new /\
    (forall x, x ∈ new -> x ∈ cands /\ x ∉ assigned10 st) /\
    (lenZ (picked ++ new) <= Z.max slots (lenZ picked)).
Proof.
  induction cands as [|name rest IH]; intros picked st; simpl.
  { exists []. rewrite app_nil_r. split_and!; [done|constructor| |lia].
    by intros x ?%elem_of_nil. }
  destruct (Z.geb_spec (lenZ picked) slots) as [Hge|Hlt].
  { exists []. rewrite app_nil_r. split_and!; [done|constructor| |lia].
    by intros x ?%elem_of_nil. }
  case_bool_decide as Ha.
  { destruct (IH picked st) as (new & -> & Hnd & Hin & Hlen).
    exists new. split_and!; try done.
    intros x Hx. destruct (Hin x Hx) as (? & ?). split; [|done].
    by apply elem_of_cons; right. }
  destruct (IH (picked ++ [name]) (mark "10" d name st))
    as (new & -> & Hnd & Hin & Hlen).
  exists (name :: new). rewrite <- app_assoc. simpl.
  split_and!; [done| | |].
  - constructor; [|done]. intros Hx. destruct (Hin _ Hx) as (_ & Hx').
    apply Hx'. change (assigned10 ?s) with (alreadyOf "10" s).
    rewrite alreadyOf_mark_eq. set_solver.
  - intros x [-> |Hx]%elem_of_cons.
    + split; [by apply elem_of_cons; left|done].
    + destruct (Hin x Hx) as (? & Hx1).
      change (assigned10 ?s) with (alreadyOf "10" s) in Hx1.
      rewrite alreadyOf_mark_eq in Hx1.
      split; [by apply elem_of_cons; right|].
      change (assigned10 ?s) with (alreadyOf "10" s). set_solver.
  - unfold lenZ in *. rewrite !length_app in Hlen. rewrite length_app.
    simpl in *. lia.
Qed.

End PickLemmas.

(** ** Phases as sequences of slot writes *)

Lemma applyWrites_app ws1 ws2 m :
  applyWrites (ws1 ++ ws2) m = applyWrites ws2 (applyWrites ws1 m).
Proof.
  revert m. induction ws1 as [|[r l] ws1 IH]; intros m; [done|]. simpl. apply IH.
Qed.

(** A slot after a sequence of writes holds either its old value, when no
    write addresses it, or the names of one of the writes. *)
Lemma applyWrites_lookup ws : forall m role names,
  applyWrites ws m !! role = Some names ->
  (m !! role = Some names /\ role ∉ ws.*1) \/
  (exists i, ws !! i = Some (role, names)).
Proof.
  induction ws as [|[r l] ws IH]; intros m role names H; simpl in *.
  - left. split; [done|]. apply not_elem_of_nil.
  - destruct (IH _ _ _ H) as [[Hm Hnot]|[i Hi]].
    + destruct (decide (r = role)) as [-> |Hne].
      * rewrite lookup_insert_eq in Hm. simplify_eq. right. by exists 0%nat.
      * rewrite lookup_insert_ne in Hm by done. left. split; [done|].
        rewrite not_elem_of_cons. done.
    + right. by exists (S i).
Qed.

Lemma applyWrites_dom ws : forall m role,
  role ∈ ws.*1 -> is_Some (applyWrites ws m !! role).
Proof.
  induction ws as [|[r l] ws IH]; intros m role H; simpl in *.
  - by apply elem_of_nil in H.
  - destruct (decide (role ∈ ws.*1)) as [Hin|Hnot]; [by apply IH|].
    apply elem_of_cons in H as [-> |?]; [|done].
    clear IH. revert m. induction ws as [|[r' l'] ws IH]; intros m; simpl.
    + rewrite lookup_insert_eq. eauto.
    + simpl in Hnot. rewrite not_elem_of_cons in Hnot. destruct Hnot as [Hne Hnot].
      rewrite insert_insert_ne by done. by apply IH.
Qed.

Lemma concat_lookup_disjoint {A} (ls : list (list A)) i j l1 l2 x :
  NoDup (concat ls) -> ls !! i = Some l1 -> ls !! j = Some l2 ->
  x ∈ l1 -> x ∈ l2 -> i = j.
Proof.
  revert i j. induction ls as [|l ls IH]; intros i j Hnd Hi Hj H1 H2; [done|].
  simpl in Hnd. apply NoDup_app in Hnd as (Hl & Hdisj & Hls).
  destruct i as [|i], j as [|j]; simpl in *; simplify_eq.
  - done.
  - exfalso. apply (Hdisj x H1). apply list_elem_of_In, in_concat.
    exists l2. split; apply list_elem_of_In; [|done]. by eapply list_elem_of_lookup_2.
  - exfalso. apply (Hdisj x H2). apply list_elem_of_In, in_concat.
    exists l1. split; apply list_elem_of_In; [|done]. by eapply list_elem_of_lookup_2.
  - f_equal. by eapply IH.
Qed.

Lemma concat_lookup_NoDup {A} (ls : list (list A)) i l :
  NoDup (concat ls) -> ls !! i = Some l -> NoDup l.
Proof.
  revert i. induction ls as [|l' ls IH]; intros i Hnd Hi; [done|].
  simpl in Hnd. apply NoDup_app in Hnd as (Hl & _ & Hls).
  destruct i; simpl in *; simplify_eq; eauto.
Qed.

Lemma elem_of_concat_lookup {A} (ls : list (list A)) i l x :
  ls !! i = Some l -> x ∈ l -> x ∈ concat ls.
Proof.
  intros Hi Hx. apply list_elem_of_In, in_concat. exists l.
  split; apply list_elem_of_In; [|done]. by eapply list_elem_of_lookup_2.
Qed.

Lemma rowWrites_roles rows picked : (rowWrites rows picked).*1 = Role <$> rows.
Proof.
  revert picked. induction rows as [|rm rows IH]; intros picked; [done|].
  destruct picked; simpl; by rewrite IH.
Qed.

Lemma rowWrites_names rows picked :
  concat (rowWrites rows picked).*2 = take (length rows) picked.
Proof.
  revert picked. induction rows as [|rm rows IH]; intros picked; [done|].
  destruct picked as [|p ps]; simpl.
  - rewrite IH. by destruct rows.
  - by rewrite IH.
Qed.

Lemma rowWrites_elem rows picked role names x :
  (role, names) ∈ rowWrites rows picked -> x ∈ names ->
  role ∈ Role <$> rows /\ x ∈ picked.
Proof.
  revert picked. induction rows as [|rm rows IH]; intros picked H Hx.
  - by apply elem_of_nil in H.
  - destruct picked as [|p ps]; simpl in H; apply elem_of_cons in H as [H|H].
    + simplify_eq. by apply elem_of_nil in Hx.
    + destruct (IH _ H Hx) as [? ?%elem_of_nil]. done.
    + simplify_eq. apply list_elem_of_singleton in Hx as ->.
      split; [by apply elem_of_cons; left|by apply elem_of_cons; left].
    + destruct (IH _ H Hx). split; by apply elem_of_cons; right.
Qed.

Section PhaseLemmas.
Context {Rng : Type}.
Implicit Types st : State Rng.

Lemma PhaseSpec_nil Q d svc st : PhaseSpec Q d svc st st [].
Proof.
  split; simpl; try done; try constructor;
    try (intros x Hx; by apply elem_of_nil in Hx);
    try (intros r l x Hx; by apply elem_of_nil in Hx).
Qed.

Lemma PhaseSpec_trans Q d svc st st1 st2 ws1 ws2 :
  PhaseSpec Q d svc st st1 ws1 -> PhaseSpec Q d svc st1 st2 ws2 ->
  PhaseSpec Q d svc st st2 (ws1 ++ ws2).
Proof.
  intros H1 H2. split.
  - rewrite applyWrites_app, <- (ph_slots _ _ _ _ _ _ H1). apply H2.
  - intros d' svc' Hne.
    rewrite (ph_frame _ _ _ _ _ _ H2), (ph_frame _ _ _ _ _ _ H1); done.
  - rewrite fmap_app, concat_app. apply NoDup_app. split_and!.
    + apply H1.
    + intros x Hx1 Hx2. apply (ph_fresh _ _ _ _ _ _ H2 x Hx2).
      by apply (ph_marked _ _ _ _ _ _ H1).
    + apply H2.
  - intros x. rewrite fmap_app, concat_app, elem_of_app. intros [Hx|Hx].
    + by apply (ph_fresh _ _ _ _ _ _ H1).
    + intros Hx'. apply (ph_fresh _ _ _ _ _ _ H2 x Hx).
      by apply (ph_mono _ _ _ _ _ _ H1).
  - intros x. rewrite fmap_app, concat_app, elem_of_app. intros [Hx|Hx].
    + apply (ph_mono _ _ _ _ _ _ H2). by apply (ph_marked _ _ _ _ _ _ H1).
    + by apply (ph_marked _ _ _ _ _ _ H2).
  - intros x. rewrite fmap_app, concat_app, elem_of_app. intros [Hx|Hx].
    + apply (ph_today_mono _ _ _ _ _ _ H2). by apply (ph_today _ _ _ _ _ _ H1).
    + by apply (ph_today _ _ _ _ _ _ H2).
  - etrans; [apply H1|apply H2].
  - etrans; [apply H1|apply H2].
  - intros svc' Hne.
    rewrite (ph_other _ _ _ _ _ _ H2), (ph_other _ _ _ _ _ _ H1); done.
  - intros role names x [H|H]%elem_of_app Hx.
    + by eapply (ph_elig _ _ _ _ _ _ H1).
    + by eapply (ph_elig _ _ _ _ _ _ H2).
Qed.

Lemma PhaseSpec_weaken (Q Q' : string -> string -> Prop) d svc st st' ws :
  (forall role x, Q role x -> Q' role x) ->
  PhaseSpec Q d svc st st' ws -> PhaseSpec Q' d svc st st' ws.
Proof. intros HQ []. split; eauto. Qed.

(** Picks made from [st], marked in [st1], then written to rows. *)
Lemma PhaseSpec_rows (Q : string -> string -> Prop) d svc st st1 st' rows picked :
  assign st1 = assign st ->
  slotsOf (assign st') d svc
    = applyWrites (rowWrites rows picked) (slotsOf (assign st1) d svc) ->
  (forall d' svc', d' <> d \/ svc' <> svc ->
      slotsOf (assign st') d' svc' = slotsOf (assign st1) d' svc') ->
  (forall svc', alreadyOf svc' st' = alreadyOf svc' st1) ->
  assignedAnyToday st' = assignedAnyToday st1 ->
  NoDup picked ->
  (forall x, x ∈ picked -> x ∉ alreadyOf svc st) ->
  (forall x, x ∈ picked -> x ∈ alreadyOf svc st1 /\ x ∈ assignedAnyToday st1) ->
  alreadyOf svc st ⊆ alreadyOf svc st1 ->
  assignedAnyToday st ⊆ assignedAnyToday st1 ->
  (forall svc', String.eqb svc' "07" <> String.eqb svc "07" ->
      alreadyOf svc' st1 = alreadyOf svc' st) ->
  (forall role x, role ∈ Role <$> rows -> x ∈ picked -> Q role x) ->
  PhaseSpec Q d svc st st' (rowWrites rows picked).
Proof.
  intros Ha Hs Hf Hal Hany Hnd Hfresh Hin Hal1 Hany1 Hoth HQ.
  assert (forall x, x ∈ concat (rowWrites rows picked).*2 -> x ∈ picked) as Hsub.
  { intros x. rewrite rowWrites_names. apply subseteq_take. }
  split.
  - by rewrite Hs, Ha.
  - intros d' svc' Hne. by rewrite Hf, Ha.
  - rewrite rowWrites_names. eapply sublist_NoDup; [done|apply sublist_take].
  - intros x Hx. apply Hfresh, Hsub, Hx.
  - intros x Hx%Hsub. rewrite Hal. by apply Hin.
  - intros x Hx%Hsub. rewrite Hany. by apply Hin.
  - by rewrite Hal.
  - by rewrite Hany.
  - intros svc' Hne. by rewrite Hal, Hoth.
  - intros role names x H Hx. destruct (rowWrites_elem _ _ _ _ _ H Hx). eauto.
Qed.

(** Picks made from [st], then written to one slot. *)
Lemma PhaseSpec_row (Q : string -> string -> Prop) d svc st r role picked :
  NoDup picked ->
  (forall x, x ∈ picked -> x ∉ alreadyOf svc st) ->
  (forall x, x ∈ picked -> Q role x) ->
  PhaseSpec Q d svc st
    (setSlot d svc role picked (markAll svc d picked (setRng r st)))
    [(role, picked)].
Proof.
  intros Hnd Hfresh HQ.
  assert (forall svc', alreadyOf svc'
            (setSlot d svc role picked (markAll svc d picked (setRng r st)))
          = alreadyOf svc' (markAll svc d picked (setRng r st))) as Hal by done.
  assert (concat [(role, picked)].*2 = picked) as Hc
    by (simpl; apply app_nil_r).
  split; rewrite ?Hc.
  - by rewrite slotsOf_setSlot_eq, assign_markAll.
  - intros d' svc' Hne. by rewrite slotsOf_setSlot_ne, assign_markAll.
  - done.
  - apply Hfresh.
  - intros x Hx. rewrite Hal, alreadyOf_markAll. set_solver.
  - intros x Hx. change (assignedAnyToday (setSlot ?a ?b ?c ?e ?s))
      with (assignedAnyToday s). rewrite anyToday_markAll. set_solver.
  - rewrite Hal, alreadyOf_markAll. intros x Hx.
    apply elem_of_union. right. done.
  - change (assignedAnyToday (setSlot ?a ?b ?c ?e ?s))
      with (assignedAnyToday s). rewrite anyToday_markAll.
    intros x Hx. apply elem_of_union. by right.
  - intros svc' Hne. by rewrite Hal, alreadyOf_markAll_other.
  - intros role' names x H%list_elem_of_singleton Hx. simplify_eq. eauto.
Qed.

End PhaseLemmas.

(** ** Shuffling *)

Lemma delete_insert_same {A} (l : list A) : forall i x,
  delete i (<[i := x]> l) = delete i l.
Proof.
  induction l as [|a l IH]; intros [|i] x; simpl; try done.
  f_equal. apply IH.
Qed.

Lemma swap_Permutation {A} (l : list A) i j : swap l i j ≡ₚ l.
Proof.
  unfold swap. destruct (l !! i) as [a|] eqn:Hi; [|done].
  destruct (l !! j) as [b|] eqn:Hj; [|done].
  destruct (decide (i = j)) as [-> | Hne].
  { assert (a = b) as -> by congruence.
    by rewrite list_insert_insert_eq, list_insert_id. }
  pose proof (lookup_lt_Some _ _ _ Hi) as Hli.
  pose proof (lookup_lt_Some _ _ _ Hj) as Hlj.
  set (l' := <[i := b]> l).
  assert (l' !! i = Some b) as Hi' by (by apply list_lookup_insert_eq).
  assert (l' !! j = Some b) as Hj'.
  { unfold l'. by rewrite list_lookup_insert_ne. }
  assert ((<[j := a]> l') !! j = Some a) as Hj''.
  { apply list_lookup_insert_eq. unfold l'. by rewrite length_insert. }
  rewrite (delete_Permutation _ _ _ Hj''), delete_insert_same.
  rewrite (delete_Permutation l i a Hi).
  apply Permutation_skip.
  apply (Permutation_cons_inv (a := b)).
  rewrite <- (delete_Permutation _ _ _ Hj').
  rewrite (delete_Permutation _ _ _ Hi').
  unfold l'. by rewrite delete_insert_same.
Qed.

Section ShufflePermutation.
Context {Rng : Type} (int31n : Rng -> nat -> nat * Rng).

Lemma shuffleFrom_Permutation {A} i : forall (l : list A) r,
  (shuffleFrom int31n i l r).1 ≡ₚ l.
Proof.
  induction i as [|i IH]; intros l r; simpl; [done|].
  destruct (int31n r (S (S i))) as [j r'].
  by rewrite IH, swap_Permutation.
Qed.

Lemma Shuffle_Permutation {A} (l : list A) r :
  (Shuffle int31n l r).1 ≡ₚ l.
Proof. apply shuffleFrom_Permutation. Qed.

End ShufflePermutation.

Section ShuffleLemmas.
Context {Rng : Type} (int31n : Rng -> nat -> nat * Rng).

Lemma swap_elem {A} (l : list A) i j x : x ∈ swap l i j -> x ∈ l.
Proof.
  unfold swap. destruct (l !! i) as [a|] eqn:Hi; [|done].
  destruct (l !! j) as [b|] eqn:Hj; [|done].
  intros [k Hk]%list_elem_of_lookup_1.
  apply list_lookup_insert_Some in Hk as [(-> & -> & _)|[_ Hk]].
  { by eapply list_elem_of_lookup_2. }
  apply list_lookup_insert_Some in Hk as [(-> & -> & _)|[_ Hk]].
  { by eapply list_elem_of_lookup_2. }
  by eapply list_elem_of_lookup_2.
Qed.

Lemma shuffleFrom_elem {A} i : forall (l : list A) r x,
  x ∈ (shuffleFrom int31n i l r).1 -> x ∈ l.
Proof.
  induction i as [|i IH]; intros l r x; simpl; [done|].
  destruct (int31n r (S (S i))) as [j r'] eqn:E.
  intros H%IH. by eapply swap_elem.
Qed.

Lemma Shuffle_elem {A} (l : list A) r x :
  x ∈ (Shuffle int31n l r).1 -> x ∈ l.
Proof. apply shuffleFrom_elem. Qed.

(** A list of at most one element is left as it is, and no random number
    is drawn. *)
Lemma Shuffle_short {A} (l : list A) r :
  (length l <= 1)%nat -> Shuffle int31n l r = (l, r).
Proof.
  intros H. unfold Shuffle.
  replace (length l - 1)%nat with 0%nat by lia. done.
Qed.

End ShuffleLemmas.

(** ** Eligibility index *)

Lemma filterCandidatesLoop_elem key b people : forall m x,
  x ∈ filterCandidatesLoop key b people m <->
  x ∈ m \/ eligible people key b x.
Proof.
  unfold eligible.
  induction people as [|p rest IH]; intros m x; simpl.
  { split; [auto|]. intros [?|(p & ?%elem_of_nil & _)]; done. }
  destruct (b && negb (IsPenatua p)) eqn:Hskip.
  { rewrite IH. split; intros [?|(q & Hq & Hn & Hm & Hp)]; auto; right.
    - exists q. split_and!; try done. by apply elem_of_cons; right.
    - apply elem_of_cons in Hq as [-> |Hq]; [|by exists q].
      apply andb_true_iff in Hskip as [-> Hnp]. rewrite Hp in Hnp; done. }
  destruct (marked p key) eqn:Hmark.
  - rewrite IH, elem_of_union, elem_of_singleton.
    split.
    + intros [[-> |?]|(q & Hq & Hn & Hm & Hp)]; auto; right.
      * exists p. split_and!; [by apply elem_of_cons; left|done|done|].
        intros ->. simpl in Hskip. by apply negb_false_iff in Hskip.
      * exists q. split_and!; try done. by apply elem_of_cons; right.
    + intros [?|(q & Hq & Hn & Hm & Hp)]; auto.
      apply elem_of_cons in Hq as [-> |Hq]; [by left; left|].
      right. by exists q.
  - rewrite IH. split; intros [?|(q & Hq & Hn & Hm & Hp)]; auto; right.
    + exists q. split_and!; try done. by apply elem_of_cons; right.
    + apply elem_of_cons in Hq as [-> |Hq]; [congruence|by exists q].
Qed.

Section RangeLemmas.
Variable mapRange : gset string -> list string.
Hypothesis mapRange_perm : forall s, mapRange s ≡ₚ elements s.

Lemma filterCandidates_elem people src b x :
  x ∈ filterCandidates mapRange people src b <->
  eligible people (normKey src) b x.
Proof.
  unfold filterCandidates.
  rewrite sortStrings_elem, mapRange_perm, elem_of_elements,
    filterCandidatesLoop_elem.
  set_solver.
Qed.

Lemma filterCandidates_NoDup people src b :
  NoDup (filterCandidates mapRange people src b).
Proof.
  unfold filterCandidates. apply sortStrings_NoDup.
  rewrite mapRange_perm. apply NoDup_elements.
Qed.

(** The result does not depend on the iteration order of the map. *)
Lemma filterCandidates_canonical people src b :
  filterCandidates mapRange people src b
  = filterCandidates elements people src b.
Proof.
  unfold filterCandidates. apply sortStrings_order_irrelevant, mapRange_perm.
Qed.

End RangeLemmas.

Lemma filterCandidates_sorted mapRange people src b :
  Sorted strLe (filterCandidates mapRange people src b).
Proof. apply sortStrings_sorted. Qed.

Lemma filterCandidatesSplitLoop_elem key people : forall pen jem x,
  (x ∈ (filterCandidatesSplitLoop key people pen jem).1 ->
   x ∈ pen \/ eligible people key true x) /\
  (x ∈ (filterCandidatesSplitLoop key people pen jem).2 ->
   x ∈ jem \/ eligible people key false x).
Proof.
  unfold eligible.
  induction people as [|p rest IH]; intros pen jem x; simpl; [by auto|].
  destruct (marked p key) eqn:Hm; [destruct (IsPenatua p) eqn:Hp|];
    match goal with
    | |- context [filterCandidatesSplitLoop key rest ?a ?b] =>
        destruct (IH a b x) as [H1 H2]
    end; split; intros H.
  - destruct (H1 H) as [[?| ->%list_elem_of_singleton]%elem_of_app|(q & ? & ? & ? & ?)];
      auto; right.
    + exists p. split_and!; try done. by apply elem_of_cons; left.
    + exists q. split_and!; try done. by apply elem_of_cons; right.
  - destruct (H2 H) as [?|(q & ? & ? & ? & ?)]; auto; right.
    exists q. split_and!; try done. by apply elem_of_cons; right.
  - destruct (H1 H) as [?|(q & ? & ? & ? & ?)]; auto; right.
    exists q. split_and!; try done. by apply elem_of_cons; right.
  - destruct (H2 H) as [[?| ->%list_elem_of_singleton]%elem_of_app|(q & ? & ? & ? & ?)];
      auto; right.
    + exists p. split_and!; try done. by apply elem_of_cons; left.
    + exists q. split_and!; try done. by apply elem_of_cons; right.
  - destruct (H1 H) as [?|(q & ? & ? & ? & ?)]; auto; right.
    exists q. split_and!; try done. by apply elem_of_cons; right.
  - destruct (H2 H) as [?|(q & ? & ? & ? & ?)]; auto; right.
    exists q. split_and!; try done. by apply elem_of_cons; right.
Qed.

(** Both halves of the split are drawn from the people marked for the
    column. *)
Lemma filterCandidatesSplit_elem people src x :
  x ∈ (filterCandidatesSplit people src).1 ∨ x ∈ (filterCandidatesSplit people src).2 ->
  eligible people (normKey src) false x.
Proof.
  unfold filterCandidatesSplit.
  destruct (filterCandidatesSplitLoop_elem (normKey src) people [] [] x) as [H1 H2].
  intros [H|H].
  - destruct (H1 H) as [?%elem_of_nil|(q & ? & ? & ? & ?)]; [done|].
    exists q. split_and!; done.
  - destruct (H2 H) as [?%elem_of_nil|?]; done.
Qed.

Lemma splitPools_elem people rows : forall pen jem x,
  x ∈ (splitPools people rows pen jem).1 ∨ x ∈ (splitPools people rows pen jem).2 ->
  (x ∈ pen \/ x ∈ jem) \/
  exists rm, rm ∈ rows /\ eligible people (normKey (SourceColumn rm)) false x.
Proof.
  induction rows as [|rm rest IH]; intros pen jem x; simpl; [by auto|].
  destruct (filterCandidatesSplit people (SourceColumn rm)) as [p j] eqn:E.
  intros H. destruct (IH _ _ _ H) as [[Hx|Hx]|(rm' & ? & ?)].
  - apply elem_of_app in Hx as [?|Hx]; [by auto|]. right. exists rm.
    split; [by apply elem_of_cons; left|].
    apply filterCandidatesSplit_elem. rewrite E. by left.
  - apply elem_of_app in Hx as [?|Hx]; [by auto|]. right. exists rm.
    split; [by apply elem_of_cons; left|].
    apply filterCandidatesSplit_elem. rewrite E. by right.
  - right. exists rm'. split; [by apply elem_of_cons; right|done].
Qed.

(** ** The composition picker *)

Lemma pickAll_app l1 l2 ps : pickAll (l1 ++ l2) ps = pickAll l2 (pickAll l1 ps).
Proof. unfold pickAll. by rewrite fold_left_app. Qed.

Lemma pickAll_picked names : forall ps,
  ps_picked (pickAll names ps) = ps_picked ps ++ names.
Proof.
  induction names as [|x l IH]; intros ps; simpl; [by rewrite app_nil_r|].
  rewrite IH. simpl. by rewrite <- app_assoc.
Qed.

Lemma pickAll_used names : forall ps,
  ps_used (pickAll names ps) = list_to_set names ∪ ps_used ps.
Proof.
  induction names as [|x l IH]; intros ps; simpl; [set_solver|].
  rewrite IH. simpl. set_solver.
Qed.

Lemma pickAll_already names : forall ps,
  ps_already (pickAll names ps) = list_to_set names ∪ ps_already ps.
Proof.
  induction names as [|x l IH]; intros ps; simpl; [set_solver|].
  rewrite IH. simpl. set_solver.
Qed.

Lemma pickAll_anyToday names : forall ps,
  ps_anyToday (pickAll names ps) = list_to_set names ∪ ps_anyToday ps.
Proof.
  induction names as [|x l IH]; intros ps; simpl; [set_solver|].
  rewrite IH. simpl. set_solver.
Qed.

Lemma taken_false ps x :
  taken ps x = false <-> (x ∉ ps_used ps) /\ (x ∉ ps_already ps) /\ x ∉ ps_anyToday ps.
Proof.
  unfold taken. rewrite !orb_false_iff, !bool_decide_eq_false. tauto.
Qed.

Lemma taken_pickAll names ps x :
  taken (pickAll names ps) x = false <-> (x ∉ names) /\ taken ps x = false.
Proof.
  rewrite !taken_false, pickAll_used, pickAll_already, pickAll_anyToday.
  set_solver.
Qed.

(** A call of [pickFrom] appends distinct names of its pool that were not
    taken, accepted by [prefer] when it is consulted; it picks nothing when
    its counter is not positive, and decrements the counter once per pick. *)
Lemma pickFrom_spec totalNeed pref usePrefer pool : forall need ps,
  exists new,
    pickFrom totalNeed pref pool need usePrefer ps
    = (need - lenZ new, pickAll new ps) /\
    NoDup new /\
    (forall x, x ∈ new ->
       x ∈ Name <$> pool /\ taken ps x = false /\
       (usePrefer = true -> pref x = true)) /\
    (need <= 0 -> new = []) /\
    (lenZ new <= Z.max 0 need) /\
    (lenZ (ps_picked ps ++ new) <= Z.max totalNeed (lenZ (ps_picked ps))).
Proof.
  induction pool as [|p rest IH]; intros need ps; simpl.
  { exists []. rewrite Z.sub_0_r, app_nil_r.
    split_and!; [done|constructor| |done|unfold lenZ; simpl; lia|lia].
    by intros x ?%elem_of_nil. }
  destruct (Z.geb_spec (lenZ (ps_picked ps)) totalNeed) as [Hge|Hlt].
  { exists []. rewrite Z.sub_0_r, app_nil_r.
    split_and!; [done|constructor| |done|unfold lenZ; simpl; lia|lia].
    by intros x ?%elem_of_nil. }
  destruct (Z.leb_spec need 0) as [Hle|Hpos].
  { exists []. rewrite Z.sub_0_r, app_nil_r.
    split_and!; [done|constructor| |done|unfold lenZ; simpl; lia|lia].
    by intros x ?%elem_of_nil. }
  assert (forall (new : list string) (x : string),
    (x ∈ new -> x ∈ Name <$> rest /\ taken ps x = false /\
                (usePrefer = true -> pref x = true)) ->
    x ∈ new -> x ∈ Name p :: (Name <$> rest) /\ taken ps x = false /\
               (usePrefer = true -> pref x = true)) as Hskip.
  { intros new x H Hx. destruct (H Hx) as (? & ? & ?).
    split_and!; [by apply elem_of_cons; right|done|done]. }
  destruct (taken ps (Name p)) eqn:Htaken.
  { destruct (IH need ps) as (new & -> & Hnd & Hin & H0 & Hlen & Hlen').
    exists new. split_and!; try done. intros x. apply Hskip, Hin. }
  destruct (usePrefer && negb (pref (Name p))) eqn:Hpref.
  { destruct (IH need ps) as (new & -> & Hnd & Hin & H0 & Hlen & Hlen').
    exists new. split_and!; try done. intros x. apply Hskip, Hin. }
  destruct (IH (need - 1) (pickOne ps (Name p)))
    as (new & Heq & Hnd & Hin & H0 & Hlen & Hlen').
  exists (Name p :: new). unfold pickOne in Heq. rewrite Heq.
  split_and!.
  - f_equal. unfold lenZ. simpl length. lia.
  - constructor; [|done]. intros Hx. destruct (Hin _ Hx) as (_ & Ht & _).
    apply taken_false in Ht as (Hu & _). simpl in Hu. set_solver.
  - intros x [-> | Hx]%elem_of_cons.
    + split_and!; [by apply elem_of_cons; left|done|].
      intros ->. simpl in Hpref. by apply negb_false_iff in Hpref.
    + destruct (Hin x Hx) as (? & Ht & ?).
      split_and!; [by apply elem_of_cons; right| |done].
      apply taken_false in Ht as (Hu & Ha & Hy). simpl in *.
      apply taken_false. set_solver.
  - lia.
  - unfold lenZ in *. simpl length. lia.
  - simpl in Hlen'. unfold lenZ in *.
    rewrite !length_app in Hlen'. rewrite length_app. simpl in *. lia.
Qed.


Lemma remaining_elem ps pool x :
  x ∈ Name <$> remaining ps pool -> x ∈ Name <$> pool.
Proof.
  unfold remaining. intros (p & -> & Hp)%list_elem_of_fmap.
  apply list_elem_of_In, filter_In in Hp as [Hp _].
  apply list_elem_of_fmap. exists p. split; [done|by apply list_elem_of_In].
Qed.

Lemma pickInv_pickFrom names ps0 ps totalNeed pref usePrefer pool need :
  pickInv names ps0 ps -> (forall x, x ∈ Name <$> pool -> x ∈ names) ->
  pickInv names ps0 (pickFrom totalNeed pref pool need usePrefer ps).2.
Proof.
  intros (acc & -> & Hnd & Hacc) Hpool.
  destruct (pickFrom_spec totalNeed pref usePrefer pool need (pickAll acc ps0))
    as (new & -> & Hnd' & Hin & _).
  exists (acc ++ new). simpl. split_and!.
  - by rewrite pickAll_app.
  - apply NoDup_app. split_and!; [done| |done].
    intros x Hx Hx'. destruct (Hin x Hx') as (_ & Ht & _).
    apply taken_pickAll in Ht as [? _]. done.
  - intros x [Hx|Hx]%elem_of_app; [by apply Hacc|].
    destruct (Hin x Hx) as (? & Ht & _).
    apply taken_pickAll in Ht as [_ ?]. split; [by apply Hpool|done].
Qed.

Section CompositionLemmas.
Context {Rng : Type} (int31n : Rng -> nat -> nat * Rng).
Variable strictCompositionFlag noRelaxB2BFlag : bool.

Ltac pick_step Hinv Hnew n ps' :=
  match goal with
  | |- context [pickFrom ?T ?pref ?pool ?need ?up ?ps] =>
      pose proof (fun Hp => pickInv_pickFrom _ _ _ T pref up pool need Hinv Hp)
        as Hnew;
      destruct (pickFrom T pref pool need up ps) as [n ps'] eqn:?;
      simpl in Hnew
  end.

(** The picks of [pickWithComposition] are distinct names of the two
    pools that were in neither shared set, and the call adds exactly the
    picks to both sets. *)
Lemma pickWithComposition_spec candPen candJem needPen needJem pref
    already anyToday r picked already' anyToday' r' :
  pickWithComposition int31n strictCompositionFlag noRelaxB2BFlag
    candPen candJem needPen needJem pref already anyToday r
  = (picked, already', anyToday', r') ->
  NoDup picked /\
  (forall x, x ∈ picked ->
     x ∈ Name <$> (candPen ++ candJem) /\ (x ∉ already) /\ x ∉ anyToday) /\
  already' = list_to_set picked ∪ already /\
  anyToday' = list_to_set picked ∪ anyToday.
Proof.
  unfold pickWithComposition.
  set (names := Name <$> (candPen ++ candJem)).
  set (ps0 := mkPick [] ∅ already anyToday).
  assert (forall x, x ∈ Name <$> candPen -> x ∈ names) as HP.
  { intros x. unfold names. rewrite fmap_app, elem_of_app. auto. }
  assert (forall x, x ∈ Name <$> candJem -> x ∈ names) as HJ.
  { intros x. unfold names. rewrite fmap_app, elem_of_app. auto. }
  assert (forall ps x, x ∈ Name <$> remaining ps candPen -> x ∈ names) as HRP.
  { intros ps x ?%remaining_elem. auto. }
  assert (forall ps x, x ∈ Name <$> remaining ps candJem -> x ∈ names) as HRJ.
  { intros ps x ?%remaining_elem. auto. }
  assert (pickInv names ps0 ps0) as H0.
  { exists []. split_and!; [done|constructor|by intros x ?%elem_of_nil]. }
  (* Step A *)
  pick_step H0 H1 np1 ps1. specialize (H1 HP).
  pick_step H1 H2 nj2 ps2. specialize (H2 HJ).
  (* Step B *)
  assert (exists np ps, (if np1 >? 0
            then pickFrom (addInt needPen needJem) pref (remaining ps2 candPen) np1 true ps2
            else (np1, ps2)) = (np, ps) /\ pickInv names ps0 ps) as (np3 & ps3 & -> & H3).
  { destruct (np1 >? 0); [|by eauto].
    pick_step H2 H3 a b. specialize (H3 (HRP _)). eauto. }
  assert (exists nj ps, (if nj2 >? 0
            then pickFrom (addInt needPen needJem) pref (remaining ps3 candJem) nj2 true ps3
            else (nj2, ps3)) = (nj, ps) /\ pickInv names ps0 ps) as (nj4 & ps4 & -> & H4).
  { destruct (nj2 >? 0); [|by eauto].
    pick_step H3 H4 a b. specialize (H4 (HRJ _)). eauto. }
  (* Step C *)
  assert (exists np ps, (if negb noRelaxB2BFlag && (np3 >? 0)
            then pickFrom (addInt needPen needJem) pref (remaining ps4 candPen) np3 false ps4
            else (np3, ps4)) = (np, ps) /\ pickInv names ps0 ps) as (np5 & ps5 & -> & H5).
  { destruct (negb noRelaxB2BFlag && (np3 >? 0)); [|by eauto].
    pick_step H4 H5 a b. specialize (H5 (HRP _)). eauto. }
  assert (exists nj ps, (if negb noRelaxB2BFlag && (nj4 >? 0)
            then pickFrom (addInt needPen needJem) pref (remaining ps5 candJem) nj4 false ps5
            else (nj4, ps5)) = (nj, ps) /\ pickInv names ps0 ps) as (nj6 & ps6 & -> & H6).
  { destruct (negb noRelaxB2BFlag && (nj4 >? 0)); [|by eauto].
    pick_step H5 H6 a b. specialize (H6 (HRJ _)). eauto. }
  (* Step D *)
  assert (exists ps rr,
    (if negb strictCompositionFlag
        && (lenZ (ps_picked ps6) <? addInt needPen needJem)
     then
       let '(merged, r) :=
         Shuffle int31n (remaining ps6 candPen ++ remaining ps6 candJem) r in
       let '(_, ps) :=
         pickFrom (addInt needPen needJem) pref merged
           (addInt needPen needJem - lenZ (ps_picked ps6)) false ps6 in
       (ps, r)
     else (ps6, r)) = (ps, rr) /\ pickInv names ps0 ps) as (ps7 & r7 & -> & H7).
  { destruct (negb strictCompositionFlag && _); [|by eauto].
    destruct (Shuffle int31n _ r) as [merged rr] eqn:Hsh.
    pick_step H6 H7 a b. eexists _, _. split; [done|]. apply H7.
    intros x (q & -> & Hp)%list_elem_of_fmap.
    assert (q ∈ (Shuffle int31n
              (remaining ps6 candPen ++ remaining ps6 candJem) r).1) as Hp'
      by (by rewrite Hsh).
    apply Shuffle_elem, elem_of_app in Hp' as [Hp'|Hp'].
    - apply (HRP ps6). apply list_elem_of_fmap. eauto.
    - apply (HRJ ps6). apply list_elem_of_fmap. eauto. }
  intros Heq. injection Heq as <- <- <- <-.
  destruct H7 as (acc & -> & Hnd & Hacc).
  rewrite pickAll_picked, pickAll_already, pickAll_anyToday. simpl.
  split_and!; [done| |done|done].
  intros x Hx. destruct (Hacc x Hx) as [? Ht]. apply taken_false in Ht.
  simpl in Ht. tauto.
Qed.

End CompositionLemmas.

(** ** The phases of a service *)

Section RowLemmas.
Context {Rng : Type}.
Implicit Types st : State Rng.

Lemma writeSingles_spec d svc rows : forall picked st,
  slotsOf (assign (writeSingles d svc rows picked st)) d svc
    = applyWrites (rowWrites rows picked) (slotsOf (assign st) d svc) /\
  (forall d' svc', d' <> d \/ svc' <> svc ->
      slotsOf (assign (writeSingles d svc rows picked st)) d' svc'
      = slotsOf (assign st) d' svc') /\
  (forall svc', alreadyOf svc' (writeSingles d svc rows picked st)
                = alreadyOf svc' st) /\
  assignedAnyToday (writeSingles d svc rows picked st) = assignedAnyToday st /\
  lastAssigned (writeSingles d svc rows picked st) = lastAssigned st /\
  rng (writeSingles d svc rows picked st) = rng st.
Proof.
  induction rows as [|rm rows IH]; intros picked st; [done|].
  destruct picked as [|p ps]; cbn [writeSingles rowWrites applyWrites];
    match goal with
    | |- context [writeSingles d svc rows ?l ?s] =>
        destruct (IH l s) as (H1 & H2 & H3 & H4 & H5 & H6)
    end;
    (split_and!;
     [ by rewrite H1, slotsOf_setSlot_eq
     | intros d' svc' Hne; by rewrite H2, slotsOf_setSlot_ne
     | intros svc'; by rewrite H3
     | by rewrite H4 | by rewrite H5 | by rewrite H6 ]).
Qed.

Lemma slotsOf_record name d st d' svc' :
  slotsOf (assign (record name d st)) d' svc' = slotsOf (assign st) d' svc'.
Proof. done. Qed.

Lemma writeComposition_spec d svc rows : forall picked st,
  slotsOf (assign (writeComposition d svc rows picked st)) d svc
    = applyWrites (rowWrites rows picked) (slotsOf (assign st) d svc) /\
  (forall d' svc', d' <> d \/ svc' <> svc ->
      slotsOf (assign (writeComposition d svc rows picked st)) d' svc'
      = slotsOf (assign st) d' svc') /\
  (forall svc', alreadyOf svc' (writeComposition d svc rows picked st)
                = alreadyOf svc' st) /\
  assignedAnyToday (writeComposition d svc rows picked st) = assignedAnyToday st /\
  rng (writeComposition d svc rows picked st) = rng st.
Proof.
  induction rows as [|rm rows IH]; intros picked st; [done|].
  destruct picked as [|p ps]; cbn [writeComposition rowWrites applyWrites];
    match goal with
    | |- context [writeComposition d svc rows ?l ?s] =>
        destruct (IH l s) as (H1 & H2 & H3 & H4 & H6)
    end;
    (split_and!;
     [ by rewrite H1, ?slotsOf_record, slotsOf_setSlot_eq
     | intros d' svc' Hne; by rewrite H2, ?slotsOf_record, slotsOf_setSlot_ne
     | intros svc'; by rewrite H3
     | by rewrite H4 | by rewrite H6 ]).
Qed.

Lemma PhaseSpec_ensureService Q d svc st st' ws :
  PhaseSpec Q d svc (ensureService d svc st) st' ws -> PhaseSpec Q d svc st st' ws.
Proof.
  assert (forall svc', alreadyOf svc' (ensureService d svc st) = alreadyOf svc' st)
    as Hal.
  { intros svc'. unfold ensureService, alreadyOf.
    destruct (default ∅ (assign st !! d) !! svc); by destruct (String.eqb svc' "07"). }
  assert (assignedAnyToday (ensureService d svc st) = assignedAnyToday st) as Hany.
  { unfold ensureService. by destruct (default ∅ (assign st !! d) !! svc). }
  intros [Hs Hf Hnd Hfr Hm Ht Hmo Htm Ho He]. split; try done.
  - by rewrite Hs, slotsOf_ensureService.
  - intros d' svc' Hne. by rewrite Hf, slotsOf_ensureService.
  - intros x Hx. rewrite <- Hal. eauto.
  - by rewrite <- Hal.
  - by rewrite <- Hany.
  - intros svc' Hne. by rewrite Ho, Hal.
Qed.

Lemma fold_rows_spec Q d svc (step : State Rng -> RoleMap -> State Rng)
    (roles : RoleMap -> list string) rows :
  (forall m st, m ∈ rows ->
      exists ws, PhaseSpec Q d svc st (step st m) ws /\ ws.*1 = roles m) ->
  forall st, exists ws,
    PhaseSpec Q d svc st (fold_left step rows st) ws /\
    ws.*1 = flat_map roles rows.
Proof.
  induction rows as [|m rows IH]; intros Hstep st; simpl.
  { exists []. split; [apply PhaseSpec_nil|done]. }
  destruct (Hstep m st) as (ws1 & H1 & Hr1); [by apply elem_of_cons; left|].
  destruct (IH (fun m' st' Hm => Hstep m' st' (list_elem_of_further _ _ _ Hm))
               (step st m)) as (ws2 & H2 & Hr2).
  exists (ws1 ++ ws2). split; [by eapply PhaseSpec_trans|].
  by rewrite fmap_app, Hr1, Hr2.
Qed.

End RowLemmas.

Lemma flat_map_singleton {A B} (f : A -> B) (l : list A) :
  flat_map (fun a => [f a]) l = f <$> l.
Proof. induction l as [|a l IH]; simpl; [done|by rewrite IH]. Qed.

Lemma list_elem_of_map {A B} (f : A -> B) (l : list A) y :
  y ∈ map f l <-> exists x, y = f x /\ x ∈ l.
Proof.
  rewrite list_elem_of_In, in_map_iff. split; intros (x & ? & ?); exists x.
  - by rewrite list_elem_of_In.
  - by rewrite <- list_elem_of_In.
Qed.

Section Phases.
Context {Rng : Type} (int31n : Rng -> nat -> nat * Rng).
Variable mapRange : gset string -> list string.
Variable strictCompositionFlag noRelaxB2BFlag : bool.
Variable people : list Person.
Implicit Types st : State Rng.

Lemma alreadyOf_setRng svc r st : alreadyOf svc (setRng r st) = alreadyOf svc st.
Proof. done. Qed.

(** *** Phase 1 *)

Lemma escortRow_spec (Q : string -> string -> Prop) d prev m st :
  (forall x, x ∈ filterCandidates mapRange people (SourceColumn m) true ->
             Q (Role m) x) ->
  exists picked,
    escortRow int31n mapRange people d prev m st
    = setSlot d "10" (Role m) picked (markAll "10" d picked
        (setRng (Shuffle int31n
                   (filterCandidates mapRange people (SourceColumn m) true)
                   (rng st)).2 st)) /\
    PhaseSpec Q d "10" st (escortRow int31n mapRange people d prev m st)
              [(Role m, picked)] /\
    lenZ picked <= (if Slots10 m >? 0 then Slots10 m else 1).
Proof.
  intros HQ. unfold escortRow.
  destruct (Shuffle int31n _ (rng st)) as [cands r] eqn:Hsh.
  set (slots := if Slots10 m >? 0 then Slots10 m else 1).
  assert (1 <= slots) as Hslots.
  { unfold slots. destruct (Z.gtb_spec (Slots10 m) 0); lia. }
  destruct (pickPrefer_spec "10" d prev slots cands [] (setRng r st))
    as (new1 & -> & Hnd1 & Hin1 & Hlen1). simpl app. simpl app in Hlen1.
  change (lenZ []) with 0 in Hlen1.
  assert (exists new2,
    (if lenZ new1 <? slots
     then pickRelaxMP d slots cands new1 (markAll "10" d new1 (setRng r st))
     else (new1, markAll "10" d new1 (setRng r st)))
    = (new1 ++ new2, markAll "10" d (new1 ++ new2) (setRng r st)) /\
    NoDup new2 /\
    (forall x, x ∈ new2 ->
       x ∈ cands /\ x ∉ assigned10 (markAll "10" d new1 (setRng r st))) /\
    lenZ (new1 ++ new2) <= slots)
    as (new2 & -> & Hnd2 & Hin2 & Hlen2).
  { destruct (lenZ new1 <? slots).
    - destruct (pickRelaxMP_spec d slots cands new1
                  (markAll "10" d new1 (setRng r st)))
        as (new2 & -> & ? & ? & ?).
      exists new2. rewrite markAll_app. split_and!; [done|done|done|lia].
    - exists []. rewrite app_nil_r. split_and!; [done|constructor| |lia].
      by intros x ?%elem_of_nil. }
  exists (new1 ++ new2). split; [done|]. split; [|done].
  assert (forall x, x ∈ cands ->
                    x ∈ filterCandidates mapRange people (SourceColumn m) true)
    as Hc.
  { intros x Hx. eapply (Shuffle_elem int31n). by rewrite Hsh. }
  apply PhaseSpec_row.
  - apply NoDup_app. split_and!; [done| |done].
    intros x Hx1 Hx2. destruct (Hin2 x Hx2) as [_ Hx'].
    apply Hx'. change (assigned10 ?s) with (alreadyOf "10" s).
    rewrite alreadyOf_markAll. set_solver.
  - intros x [Hx|Hx]%elem_of_app.
    + by destruct (Hin1 x Hx) as (_ & ? & _).
    + destruct (Hin2 x Hx) as [_ Hx'].
      change (assigned10 ?s) with (alreadyOf "10" s) in Hx'.
      rewrite alreadyOf_markAll in Hx'. set_solver.
  - intros x [Hx|Hx]%elem_of_app; apply HQ, Hc.
    + by destruct (Hin1 x Hx).
    + by destruct (Hin2 x Hx).
Qed.

Lemma escortPhase_spec (Q : string -> string -> Prop) d prev svc mpRows st :
  (forall m x, String.eqb svc "10" = true -> m ∈ mpRows ->
     x ∈ filterCandidates mapRange people (SourceColumn m) true ->
     Q (Role m) x) ->
  exists ws,
    PhaseSpec Q d svc st
      (escortPhase int31n mapRange people d prev svc mpRows st) ws /\
    ws.*1 = (if String.eqb svc "10" && (lenZ mpRows >? 0)
             then Role <$> mpRows else []).
Proof.
  intros HQ. unfold escortPhase.
  destruct (String.eqb_spec svc "10") as [-> | Hne]; simpl.
  2:{ exists []. split; [apply PhaseSpec_nil|done]. }
  destruct (lenZ mpRows >? 0).
  2:{ exists []. split; [apply PhaseSpec_nil|done]. }
  rewrite <- flat_map_singleton.
  apply (fold_rows_spec Q d "10"
           (fun st m => escortRow int31n mapRange people d prev m st)).
  intros m st' Hm.
  destruct (escortRow_spec Q d prev m st') as (picked & _ & H & _).
  { intros x. by apply HQ. }
  by exists [(Role m, picked)].
Qed.

(** *** Phase 2 *)

Lemma sliceTo_sublist {A} (l l' : list A) n :
  sliceTo l n = Some l' -> l' = take (Z.to_nat n) l /\ 0 <= n.
Proof.
  unfold sliceTo. destruct (Z.leb_spec 0 n); simpl; [|done].
  destruct (n <=? lenZ l); [|done]. intros ?; by simplify_eq.
Qed.

Lemma compositionGroup_spec (Q : string -> string -> Prop)
    kP kJ pP pJ d prev svc key rows st st' :
  (forall role x, role ∈ Role <$> rows ->
     (exists rm, rm ∈ rows /\ eligible people (normKey (SourceColumn rm)) false x) ->
     Q role x) ->
  compositionGroup int31n strictCompositionFlag noRelaxB2BFlag people
    kP kJ pP pJ d prev svc key rows st = Some st' ->
  exists ws, PhaseSpec Q d svc st st' ws /\ ws.*1 = Role <$> rows.
Proof.
  intros HQ. unfold compositionGroup.
  destruct (lenZ rows =? 0) eqn:Hlen.
  { intros ?; simplify_eq. exists []. split; [apply PhaseSpec_nil|].
    destruct rows; [done|]. unfold lenZ in Hlen. simpl in Hlen. lia. }
  destruct (if String.eqb key "kolektan" then (kP, kJ) else (0, 0))
    as [needPen0 needJem0].
  destruct (if String.eqb key "pjemaat" then (pP, pJ) else (needPen0, needJem0))
    as [needPen needJem].
  destruct (splitPools people rows [] []) as [penNames jemNames] eqn:Hpools.
  destruct (Shuffle int31n _ (rng st)) as [candPen r1] eqn:Hs1.
  destruct (Shuffle int31n _ r1) as [candJem r2] eqn:Hs2.
  destruct (pickWithComposition _ _ _ _ _ _ _ _ _ _ _)
    as [[[picked already'] any'] r3] eqn:Hpick.
  apply pickWithComposition_spec in Hpick as (Hnd & Hin & -> & ->).
  set (total := if addInt needPen needJem >? lenZ rows then lenZ rows
                else addInt needPen needJem).
  destruct (if lenZ picked >? total then sliceTo picked total else Some picked)
    as [picked'|] eqn:Hcut; simpl; [|done].
  intros ?; simplify_eq.
  assert (picked' `sublist_of` picked) as Hsub.
  { destruct (lenZ picked >? total); [|by simplify_eq].
    apply sliceTo_sublist in Hcut as [-> _]. apply sublist_take. }
  set (st1 := setRng r3 (setAnyToday (list_to_set picked ∪ assignedAnyToday st)
                (setAlready svc (list_to_set picked ∪ alreadyOf svc st) st))).
  assert (alreadyOf svc st1 = list_to_set picked ∪ alreadyOf svc st) as Hal1.
  { unfold st1, alreadyOf, setRng, setAnyToday, setAlready.
    by destruct (String.eqb svc "07"). }
  assert (assignedAnyToday st1 = list_to_set picked ∪ assignedAnyToday st) as Hany1.
  { unfold st1, setRng, setAnyToday, setAlready.
    by destruct (String.eqb svc "07"). }
  destruct (writeComposition_spec d svc rows picked' st1) as (W1 & W2 & W3 & W4 & _).
  exists (rowWrites rows picked'). split; [|apply rowWrites_roles].
  apply (PhaseSpec_rows Q d svc st st1); try done.
  - unfold st1, setRng, setAnyToday, setAlready. by destruct (String.eqb svc "07").
  - eapply sublist_NoDup; done.
  - intros x Hx. apply Hin. by eapply sublist_subseteq.
  - intros x Hx. rewrite Hal1, Hany1.
    assert (x ∈ picked) by (by eapply sublist_subseteq). set_solver.
  - rewrite Hal1. set_solver.
  - rewrite Hany1. set_solver.
  - intros svc' Hne. unfold st1, alreadyOf, setRng, setAnyToday, setAlready.
    by destruct (String.eqb svc "07"), (String.eqb svc' "07").
  - intros role x Hrole Hx. apply HQ; [done|].
    assert (x ∈ picked) as Hx' by (by eapply sublist_subseteq).
    destruct (Hin x Hx') as (Hpool & _ & _).
    rewrite fmap_app, elem_of_app in Hpool.
    assert (x ∈ (splitPools people rows [] []).1 ∨
            x ∈ (splitPools people rows [] []).2) as Hsp.
    { rewrite Hpools. simpl. destruct Hpool as [Hp|Hp].
      - left. apply list_elem_of_fmap in Hp as (q & -> & Hq).
        assert (q ∈ (Shuffle int31n
                  (map (fun n => mkPerson n true ∅) (uniq penNames)) (rng st)).1)
          as Hq' by (by rewrite Hs1).
        apply Shuffle_elem, list_elem_of_map in Hq' as (n & -> & Hn).
        simpl. exact (proj1 (uniq_elem _ _) Hn).
      - right. apply list_elem_of_fmap in Hp as (q & -> & Hq).
        assert (q ∈ (Shuffle int31n
                  (map (fun n => mkPerson n false ∅) (uniq jemNames)) r1).1)
          as Hq' by (by rewrite Hs2).
        apply Shuffle_elem, list_elem_of_map in Hq' as (n & -> & Hn).
        simpl. exact (proj1 (uniq_elem _ _) Hn). }
    apply splitPools_elem in Hsp as [[?%elem_of_nil|?%elem_of_nil]|?]; done.
Qed.

(** *** Phase 3 *)

Lemma cappedGroup_spec (Q : string -> string -> Prop) d prev svc glimit rows st :
  (forall row0 rest role x, rows = row0 :: rest -> role ∈ Role <$> rows ->
     x ∈ filterCandidates mapRange people (SourceColumn row0) false ->
     Q role x) ->
  exists ws,
    PhaseSpec Q d svc st
      (cappedGroup int31n mapRange noRelaxB2BFlag people d prev svc glimit rows st)
      ws /\
    ws.*1 = Role <$> rows.
Proof.
  intros HQ. unfold cappedGroup. destruct rows as [|row0 rest].
  { exists []. split; [apply PhaseSpec_nil|done]. }
  set (rows := row0 :: rest) in *.
  set (limit := if glimit >? lenZ rows then lenZ rows else glimit).
  destruct (Shuffle int31n _ (rng st)) as [names r] eqn:Hsh.
  destruct (pickPrefer_spec svc d prev limit names [] (setRng r st))
    as (new1 & -> & Hnd1 & Hin1 & _). simpl app.
  assert (exists new2,
    (if negb noRelaxB2BFlag && (lenZ new1 <? limit)
     then pickRelax svc d limit names new1 (markAll svc d new1 (setRng r st))
     else (new1, markAll svc d new1 (setRng r st)))
    = (new1 ++ new2, markAll svc d (new1 ++ new2) (setRng r st)) /\
    NoDup new2 /\
    (forall x, x ∈ new2 ->
       x ∈ names /\ x ∉ alreadyOf svc (markAll svc d new1 (setRng r st))))
    as (new2 & -> & Hnd2 & Hin2).
  { destruct (negb noRelaxB2BFlag && (lenZ new1 <? limit)).
    - destruct (pickRelax_spec svc d limit names new1
                  (markAll svc d new1 (setRng r st)))
        as (new2 & -> & ? & Hin & _).
      exists new2. rewrite markAll_app. split_and!; [done|done|].
      intros x Hx. destruct (Hin x Hx) as (? & ? & _). done.
    - exists []. rewrite app_nil_r. split_and!; [done|constructor|].
      by intros x ?%elem_of_nil. }
  set (picked := new1 ++ new2).
  set (st1 := markAll svc d picked (setRng r st)).
  destruct (writeSingles_spec d svc rows picked st1) as (W1 & W2 & W3 & W4 & _).
  exists (rowWrites rows picked). split; [|apply rowWrites_roles].
  assert (forall x, x ∈ picked -> x ∉ alreadyOf svc st) as Hfresh.
  { intros x [Hx|Hx]%elem_of_app.
    - by destruct (Hin1 x Hx) as (_ & ? & _).
    - destruct (Hin2 x Hx) as [_ Hx'].
      rewrite alreadyOf_markAll in Hx'. set_solver. }
  apply (PhaseSpec_rows Q d svc st st1); try done.
  - unfold st1. by rewrite assign_markAll.
  - apply NoDup_app. split_and!; [done| |done].
    intros x Hx1 Hx2. destruct (Hin2 x Hx2) as [_ Hx'].
    apply Hx'. rewrite alreadyOf_markAll. set_solver.
  - intros x Hx. unfold st1. rewrite alreadyOf_markAll, anyToday_markAll.
    set_solver.
  - unfold st1. rewrite alreadyOf_markAll. set_solver.
  - unfold st1. rewrite anyToday_markAll. set_solver.
  - intros svc' Hne. unfold st1. by rewrite alreadyOf_markAll_other.
  - intros role x Hrole Hx. eapply HQ; [done|done|].
    eapply (Shuffle_elem int31n). rewrite Hsh. simpl.
    apply elem_of_app in Hx as [Hx|Hx].
    + by destruct (Hin1 x Hx).
    + by destruct (Hin2 x Hx).
Qed.

(** *** Phase 4 *)

Lemma otherRow_spec (Q : string -> string -> Prop) maxL maxP maxM d prev svc m st :
  (forall x, x ∈ filterCandidates mapRange people (SourceColumn m)
                   (isMajelisPendamping (Role m)) -> Q (Role m) x) ->
  exists ws,
    PhaseSpec Q d svc st
      (otherRow int31n mapRange noRelaxB2BFlag people maxL maxP maxM d prev svc m st)
      ws /\
    ws.*1 = otherRowRoles svc m.
Proof.
  intros HQ. unfold otherRow, otherRowRoles.
  destruct (outOfService m svc).
  { exists []. split; [apply PhaseSpec_nil|done]. }
  destruct (String.eqb svc "07" && isMajelisPendamping (Role m)).
  { exists []. split; [apply PhaseSpec_nil|done]. }
  match goal with
  | |- context [pickPrefer svc d prev ?s _ _ _] => set (slots := s)
  end.
  destruct (Shuffle int31n _ (rng st)) as [cands r] eqn:Hsh.
  destruct (pickPrefer_spec svc d prev slots cands [] (setRng r st))
    as (new1 & -> & Hnd1 & Hin1 & _). simpl app.
  assert (exists new2,
    (if negb noRelaxB2BFlag && (lenZ new1 <? slots)
     then pickRelax svc d slots cands new1 (markAll svc d new1 (setRng r st))
     else (new1, markAll svc d new1 (setRng r st)))
    = (new1 ++ new2, markAll svc d (new1 ++ new2) (setRng r st)) /\
    NoDup new2 /\
    (forall x, x ∈ new2 ->
       x ∈ cands /\ x ∉ alreadyOf svc (markAll svc d new1 (setRng r st))))
    as (new2 & -> & Hnd2 & Hin2).
  { destruct (negb noRelaxB2BFlag && (lenZ new1 <? slots)).
    - destruct (pickRelax_spec svc d slots cands new1
                  (markAll svc d new1 (setRng r st)))
        as (new2 & -> & ? & Hin & _).
      exists new2. rewrite markAll_app. split_and!; [done|done|].
      intros x Hx. destruct (Hin x Hx) as (? & ? & _). done.
    - exists []. rewrite app_nil_r. split_and!; [done|constructor|].
      by intros x ?%elem_of_nil. }
  exists [(Role m, new1 ++ new2)]. split; [|done].
  apply PhaseSpec_row.
  - apply NoDup_app. split_and!; [done| |done].
    intros x Hx1 Hx2. destruct (Hin2 x Hx2) as [_ Hx'].
    apply Hx'. rewrite alreadyOf_markAll. set_solver.
  - intros x [Hx|Hx]%elem_of_app.
    + by destruct (Hin1 x Hx) as (_ & ? & _).
    + destruct (Hin2 x Hx) as [_ Hx'].
      rewrite alreadyOf_markAll in Hx'. set_solver.
  - intros x Hx. apply HQ. eapply (Shuffle_elem int31n). rewrite Hsh. simpl.
    apply elem_of_app in Hx as [Hx|Hx].
    + by destruct (Hin1 x Hx).
    + by destruct (Hin2 x Hx).
Qed.

End Phases.

(** ** The service body, the date body, the run *)

Section Driver.
Context {Rng : Type} (int31n : Rng -> nat -> nat * Rng).
Variable mapRange : gset string -> list string.
Variable strictCompositionFlag noRelaxB2BFlag : bool.
Variable people : list Person.
Variable maps : list RoleMap.
Variables maxLektor maxPro maxMus : Z.
Variables kolektanPen kolektanJem pjemaatPen pjemaatJem : Z.
Implicit Types st : State Rng.

#[local] Abbreviation serviceBody' :=
  (serviceBody int31n mapRange strictCompositionFlag noRelaxB2BFlag people maps
     maxLektor maxPro maxMus kolektanPen kolektanJem pjemaatPen pjemaatJem).
#[local] Abbreviation dateBody' :=
  (dateBody int31n mapRange strictCompositionFlag noRelaxB2BFlag people maps
     maxLektor maxPro maxMus kolektanPen kolektanJem pjemaatPen pjemaatJem).
#[local] Abbreviation dateLoop' :=
  (dateLoop int31n mapRange strictCompositionFlag noRelaxB2BFlag people maps
     maxLektor maxPro maxMus kolektanPen kolektanJem pjemaatPen pjemaatJem).

(** The phases after the escort phase, from the state [st1] the escort
    phase leaves. *)
Lemma serviceBody_later_spec d prev svc st st' :
  serviceBody' d prev svc st = Some st' ->
  exists ws,
    PhaseSpec (poolFor mapRange people maps svc) d svc
      (escortPhase int31n mapRange people d prev svc (escortRows maps svc)
         (ensureService d svc st)) st' ws /\
    ws.*1 = laterRoles maps svc.
Proof.
  unfold serviceBody, laterRoles, escortRows, poolFor, poolOf.
  destruct (groupMappingsForService maps svc) as [grouped others] eqn:Hg.
  cbn [fst snd].
  destruct (splitOthers svc others [] []) as [mpRows otherNonMP] eqn:Hsp.
  cbn [fst snd].
  set (Q := fun role x : string => _ \/ _).
  set (st1 := escortPhase _ _ _ _ _ _ _ _) in *.
  destruct (compositionGroup _ _ _ _ _ _ _ _ _ _ _ "kolektan" _ st1)
    as [st2|] eqn:E2; [|done].
  apply (compositionGroup_spec int31n _ _ people Q) in E2 as (ws2 & P2 & R2).
  2:{ intros role x (m & -> & Hm)%list_elem_of_fmap (m' & Hm' & He).
      right; left. exists "kolektan", m, m'. by auto 10. }
  cbn [mbind option_bind].
  destruct (compositionGroup _ _ _ _ _ _ _ _ _ _ _ "pjemaat" _ st2)
    as [st3|] eqn:E3; [|done].
  apply (compositionGroup_spec int31n _ _ people Q) in E3 as (ws3 & P3 & R3).
  2:{ intros role x (m & -> & Hm)%list_elem_of_fmap (m' & Hm' & He).
      right; left. exists "pjemaat", m, m'. by auto 10. }
  cbn [mbind option_bind].
  destruct (cappedGroup_spec int31n mapRange noRelaxB2BFlag people Q d prev svc
              maxLektor (groupRows grouped "lektor") st3) as (ws4 & P4 & R4).
  { intros row0 rest role x Hrows Hrole Hx. right; right; left.
    exists "lektor", row0, rest. rewrite <- Hrows. by auto 10. }
  set (st4 := cappedGroup _ _ _ _ _ _ _ maxLektor _ _) in *.
  destruct (cappedGroup_spec int31n mapRange noRelaxB2BFlag people Q d prev svc
              maxPro (groupRows grouped "prokantor") st4) as (ws5 & P5 & R5).
  { intros row0 rest role x Hrows Hrole Hx. right; right; left.
    exists "prokantor", row0, rest. rewrite <- Hrows. by auto 10. }
  set (st5 := cappedGroup _ _ _ _ _ _ _ maxPro _ _) in *.
  destruct (cappedGroup_spec int31n mapRange noRelaxB2BFlag people Q d prev svc
              maxMus (groupRows grouped "pemusik") st5) as (ws6 & P6 & R6).
  { intros row0 rest role x Hrows Hrole Hx. right; right; left.
    exists "pemusik", row0, rest. rewrite <- Hrows. by auto 10. }
  set (st6 := cappedGroup _ _ _ _ _ _ _ maxMus _ _) in *.
  destruct (fold_rows_spec Q d svc
              (fun st m => otherRow int31n mapRange noRelaxB2BFlag people
                             maxLektor maxPro maxMus d prev svc m st)
              (otherRowRoles svc) otherNonMP) with (st := st6)
    as (ws7 & P7 & R7).
  { intros m st0 Hm. apply otherRow_spec. intros x Hx.
    right; right; right. by exists m. }
  intros ?; simplify_eq.
  exists (ws2 ++ ws3 ++ ws4 ++ ws5 ++ ws6 ++ ws7). split.
  - repeat (eapply PhaseSpec_trans; [eassumption|]). done.
  - rewrite !fmap_app. by rewrite R2, R3, R4, R5, R6, R7.
Qed.

Lemma escortPhase_poolFor d prev svc st :
  exists ws,
    PhaseSpec (poolFor mapRange people maps svc) d svc st
      (escortPhase int31n mapRange people d prev svc (escortRows maps svc) st)
      ws /\
    ws.*1 = (if String.eqb svc "10" && (lenZ (escortRows maps svc) >? 0)
             then Role <$> escortRows maps svc else []).
Proof.
  apply escortPhase_spec. intros m x Hsvc Hm Hx.
  unfold poolFor, poolOf. left. split; [done|]. by exists m.
Qed.

(** The service body is a sequence of writes to the roles [passRoles], of
    fresh distinct names drawn from the pool of each role. *)
Lemma serviceBody_spec d prev svc st st' :
  serviceBody' d prev svc st = Some st' ->
  exists ws,
    PhaseSpec (poolFor mapRange people maps svc) d svc st st' ws /\
    ws.*1 = passRoles maps svc.
Proof.
  intros (ws2 & P2 & R2)%serviceBody_later_spec.
  destruct (escortPhase_poolFor d prev svc (ensureService d svc st))
    as (ws1 & P1 & R1).
  exists (ws1 ++ ws2). split.
  - apply PhaseSpec_ensureService. by eapply PhaseSpec_trans.
  - unfold passRoles. by rewrite fmap_app, R1, R2.
Qed.

(** A phase that rewrites every role of the service establishes the
    invariant for its slots. *)
Lemma PhaseSpec_assignInv (Q : string -> string -> string -> Prop) d svc st st' ws :
  PhaseSpec (Q svc) d svc st st' ws -> ws.*1 = passRoles maps svc ->
  assignInv maps Q (assign st) -> assignInv maps Q (assign st').
Proof.
  intros [Hs Hf Hnd _ _ _ _ _ _ He] Hr Hinv d' svc'.
  destruct (decide (d' = d /\ svc' = svc)) as [[-> ->]|Hne].
  2:{ rewrite Hf; [apply Hinv|].
      destruct (decide (d' = d)); [right|left]; naive_solver. }
  destruct (Hinv d svc) as (Hdom & _ & _).
  assert (forall role names,
    slotsOf (assign st') d svc !! role = Some names ->
    exists i, ws !! i = Some (role, names)) as Hw.
  { intros role names H. rewrite Hs in H.
    apply applyWrites_lookup in H as [[H Hnot]|?]; [|done].
    exfalso. apply Hnot. rewrite Hr. apply Hdom. eauto. }
  split_and!.
  - intros role [names H]. destruct (Hw _ _ H) as [i Hi].
    rewrite <- Hr. apply list_elem_of_fmap. exists (role, names).
    split; [done|]. by eapply list_elem_of_lookup_2.
  - split.
    + intros role names H. destruct (Hw _ _ H) as [i Hi].
      apply (concat_lookup_NoDup ws.*2 i); [done|].
      by rewrite list_lookup_fmap, Hi.
    + intros r1 r2 l1 l2 x H1 H2 Hx1 Hx2.
      destruct (Hw _ _ H1) as [i Hi]. destruct (Hw _ _ H2) as [j Hj].
      assert (i = j) as ->.
      { apply (concat_lookup_disjoint ws.*2 i j l1 l2 x); try done.
        - by rewrite list_lookup_fmap, Hi.
        - by rewrite list_lookup_fmap, Hj. }
      congruence.
  - intros role names x H Hx. destruct (Hw _ _ H) as [i Hi].
    eapply He; [|done]. by eapply list_elem_of_lookup_2.
Qed.

Lemma serviceBody_assignInv d prev svc st st' :
  serviceBody' d prev svc st = Some st' ->
  assignInv maps (poolFor mapRange people maps) (assign st) ->
  assignInv maps (poolFor mapRange people maps) (assign st').
Proof.
  intros (ws & H & Hr)%serviceBody_spec. by eapply PhaseSpec_assignInv.
Qed.

Lemma assignInv_ensureDate Q d st :
  assignInv maps Q (assign st) ->
  assignInv maps Q (assign (resetDay (ensureDate d st))).
Proof.
  intros H d' svc'. change (assign (resetDay ?s)) with (assign s).
  rewrite slotsOf_ensureDate. apply H.
Qed.

Lemma dateBody_assignInv dates di d st st' :
  dateBody' dates di d st = Some st' ->
  assignInv maps (poolFor mapRange people maps) (assign st) ->
  assignInv maps (poolFor mapRange people maps) (assign st').
Proof.
  unfold dateBody. intros H Hinv.
  destruct (serviceBody' d _ "07" _) as [st1|] eqn:E1; [|done].
  cbn [mbind option_bind] in H.
  eapply serviceBody_assignInv; [exact H|].
  eapply serviceBody_assignInv; [exact E1|].
  by apply assignInv_ensureDate.
Qed.

Lemma dateLoop_assignInv dates rest : forall di st st',
  dateLoop' dates di rest st = Some st' ->
  assignInv maps (poolFor mapRange people maps) (assign st) ->
  assignInv maps (poolFor mapRange people maps) (assign st').
Proof.
  induction rest as [|d rest IH]; intros di st st' H Hinv; simpl in H.
  { by simplify_eq. }
  destruct (dateBody' dates di d st) as [st1|] eqn:E1; [|done].
  cbn [mbind option_bind] in H.
  eapply IH; [exact H|]. by eapply dateBody_assignInv.
Qed.

Lemma assignInv_empty Q : assignInv maps Q ∅.
Proof.
  intros d svc. unfold slotsOf. rewrite lookup_empty. simpl.
  rewrite lookup_empty. simpl. split_and!.
  - intros role [? H]. by rewrite lookup_empty in H.
  - split; intros *; by rewrite lookup_empty.
  - intros *. by rewrite lookup_empty.
Qed.

(** *** Totality *)

Hypothesis kolektan_nonneg : 0 <= addInt kolektanPen kolektanJem.
Hypothesis pjemaat_nonneg : 0 <= addInt pjemaatPen pjemaatJem.

Lemma compositionGroup_total d prev svc key rows st :
  is_Some (compositionGroup int31n strictCompositionFlag noRelaxB2BFlag people
             kolektanPen kolektanJem pjemaatPen pjemaatJem
             d prev svc key rows st).
Proof.
  unfold compositionGroup. destruct (lenZ rows =? 0); [by eauto|].
  assert (exists needPen needJem,
    (let '(needPen, needJem) :=
       if String.eqb key "kolektan" then (kolektanPen, kolektanJem) else (0, 0) in
     if String.eqb key "pjemaat" then (pjemaatPen, pjemaatJem)
     else (needPen, needJem)) = (needPen, needJem) /\
    0 <= addInt needPen needJem) as (needPen & needJem & Hneed & Hnn).
  { destruct (String.eqb key "pjemaat"), (String.eqb key "kolektan");
      eexists _, _; (split; [reflexivity|]); try done. }
  destruct (if String.eqb key "kolektan" then _ else _) as [a b].
  rewrite Hneed.
  destruct (splitPools people rows [] []) as [penNames jemNames].
  destruct (Shuffle int31n _ (rng st)) as [candPen r1].
  destruct (Shuffle int31n _ r1) as [candJem r2].
  destruct (pickWithComposition _ _ _ _ _ _ _ _ _ _ _)
    as [[[picked already'] any'] r3].
  set (total := if addInt needPen needJem >? lenZ rows then lenZ rows
                else addInt needPen needJem).
  assert (0 <= total) as Htot.
  { unfold total. destruct (_ >? _); [unfold lenZ; lia|done]. }
  destruct (Z.gtb_spec (lenZ picked) total) as [Hgt|Hle]; [|by eauto].
  unfold sliceTo.
  destruct (Z.leb_spec 0 total); [|lia].
  destruct (Z.leb_spec total (lenZ picked)); [|lia]. simpl. eauto.
Qed.

Lemma serviceBody_total d prev svc st : is_Some (serviceBody' d prev svc st).
Proof.
  unfold serviceBody.
  destruct (groupMappingsForService maps svc) as [grouped others].
  destruct (splitOthers svc others [] []) as [mpRows otherNonMP].
  match goal with
  | |- context [compositionGroup ?a ?b ?c ?e ?f ?g ?h ?i ?j ?k ?l "kolektan" ?r ?s] =>
      destruct (compositionGroup_total j k l "kolektan" r s) as [st2 ->]
  end.
  cbn [mbind option_bind].
  match goal with
  | |- context [compositionGroup ?a ?b ?c ?e ?f ?g ?h ?i ?j ?k ?l "pjemaat" ?r ?s] =>
      destruct (compositionGroup_total j k l "pjemaat" r s) as [st3 ->]
  end.
  cbn [mbind option_bind]. eauto.
Qed.

Lemma dateBody_total dates di d st : is_Some (dateBody' dates di d st).
Proof.
  unfold dateBody.
  destruct (serviceBody_total d (prevSundayAt dates di) "07"
              (resetDay (ensureDate d st))) as [st1 ->].
  cbn [mbind option_bind]. apply serviceBody_total.
Qed.

Lemma dateLoop_total dates rest : forall di st,
  is_Some (dateLoop' dates di rest st).
Proof.
  induction rest as [|d rest IH]; intros di st; simpl; [by eauto|].
  destruct (dateBody_total dates di d st) as [st1 ->].
  cbn [mbind option_bind]. apply IH.
Qed.

End Driver.

(** ** The run as a whole *)

Section Run.
Context {Rng : Type} (int31n : Rng -> nat -> nat * Rng).
Variable mapRange : gset string -> list string.
Variable strictCompositionFlag noRelaxB2BFlag : bool.
Variable dates : list Time.
Variable people : list Person.
Variable maps : list RoleMap.
Variables maxLektor maxPro maxMus : Z.
Variables kolektanPen kolektanJem pjemaatPen pjemaatJem : Z.
Variable r : Rng.

#[local] Abbreviation generate' :=
  (generate int31n mapRange strictCompositionFlag noRelaxB2BFlag ∅ dates
     people maps maxLektor maxPro maxMus
     kolektanPen kolektanJem pjemaatPen pjemaatJem r).

(** With quotas of a composition pattern, a run on an empty Assignment
    returns [nil] and an Assignment that satisfies the invariant. *)
Lemma generate_assignInv :
  patternQuota kolektanPen kolektanJem -> patternQuota pjemaatPen pjemaatJem ->
  exists a, generate' = Some (None, a) /\
            assignInv maps (poolFor mapRange people maps) a.
Proof.
  intros Hk%patternQuota_nonneg Hp%patternQuota_nonneg.
  unfold generate, generateState.
  destruct (dateLoop_total int31n mapRange strictCompositionFlag noRelaxB2BFlag
              people maps maxLektor maxPro maxMus _ _ _ _ Hk Hp
              dates dates 0%nat (initState ∅ r)) as [st Hst].
  rewrite Hst. cbn [mbind option_bind]. exists (assign st). split; [done|].
  eapply dateLoop_assignInv; [exact Hst|]. apply assignInv_empty.
Qed.

End Run.

Lemma slotsOf_lookup (a : Assignment) d svc byService slots :
  a !! d = Some byService -> byService !! svc = Some slots ->
  slotsOf a d svc = slots.
Proof. intros H1 H2. unfold slotsOf. by rewrite H1; simpl; rewrite H2. Qed.

Lemma poolFor_eligibleFor mapRange people maps svc role x :
  (forall s, mapRange s ≡ₚ elements s) ->
  poolFor mapRange people maps svc role x -> eligibleFor people maps svc role x.
Proof.
  intros Hperm. unfold poolFor, eligibleFor, poolOf.
  intros [(Hs & m & ? & ? & Hx)|[H|[(key & row0 & rest & ? & ? & ? & Hx)|(m & ? & ? & Hx)]]].
  - left. split; [done|]. exists m. split_and!; try done.
    by apply (filterCandidates_elem mapRange Hperm).
  - right; left. done.
  - right; right; left. exists key, row0, rest. split_and!; try done.
    by apply (filterCandidates_elem mapRange Hperm).
  - right; right; right. exists m. split_and!; try done.
    by apply (filterCandidates_elem mapRange Hperm).
Qed.

(** C1. In the Assignment a run produces, no person's name appears in more
    than one role slot of a service (nor twice in one slot).  Every pick pass
    adds only names that are not in the current service's set; this includes
    the escort relax pass, the only pass that ignores [assignedAnyToday], so
    it can repeat a person across the two services of a date but never within
    the second service. *)
Theorem no_double_role_in_service :
  forall (Rng : Type) (int31n : Rng -> nat -> nat * Rng) mapRange
         strictCompositionFlag noRelaxB2BFlag dates people maps
         maxLektor maxPro maxMus kolektanPen kolektanJem pjemaatPen pjemaatJem r,
    patternQuota kolektanPen kolektanJem -> patternQuota pjemaatPen pjemaatJem ->
    exists a,
      generate int31n mapRange strictCompositionFlag noRelaxB2BFlag ∅ dates
        people maps maxLektor maxPro maxMus
        kolektanPen kolektanJem pjemaatPen pjemaatJem r = Some (None, a) /\
      (forall d svc byService slots,
          a !! d = Some byService -> byService !! svc = Some slots ->
          (forall role names, slots !! role = Some names -> NoDup names) /\
          (forall r1 r2 l1 l2 x,
              slots !! r1 = Some l1 -> slots !! r2 = Some l2 ->
              x ∈ l1 -> x ∈ l2 -> r1 = r2)) /\
      (forall svc d prev limit cands picked (st : State Rng) x,
          (x ∈ (pickPrefer svc d prev limit cands picked st).1 ->
           x ∈ picked \/ x ∉ alreadyOf svc st) /\
          (x ∈ (pickRelax svc d limit cands picked st).1 ->
           x ∈ picked \/ x ∉ alreadyOf svc st) /\
          (x ∈ (pickRelaxMP d limit cands picked st).1 ->
           x ∈ picked \/ x ∉ assigned10 st)) /\
      (forall totalNeed pref pool need usePrefer ps x,
          x ∈ ps_picked (pickFrom totalNeed pref pool need usePrefer ps).2 ->
          x ∈ ps_picked ps \/ x ∉ ps_already ps).
Proof.
  intros * Hk Hp.
  destruct (generate_assignInv int31n mapRange strictCompositionFlag
              noRelaxB2BFlag dates people maps maxLektor maxPro maxMus
              _ _ _ _ r Hk Hp) as (a & Hgen & Hinv).
  exists a. split_and!; [done| | |].
  - intros d svc byService slots Hd Hs.
    destruct (Hinv d svc) as (_ & Hdisj & _).
    by rewrite (slotsOf_lookup _ _ _ _ _ Hd Hs) in Hdisj.
  - intros svc d prev limit cands picked st x. split_and!; intros Hx.
    + destruct (pickPrefer_spec svc d prev limit cands picked st)
        as (new & E & _ & Hin & _).
      rewrite E in Hx. simpl in Hx. apply elem_of_app in Hx as [?|Hx]; [by left|].
      right. by destruct (Hin x Hx) as (_ & ? & _).
    + destruct (pickRelax_spec svc d limit cands picked st)
        as (new & E & _ & Hin & _).
      rewrite E in Hx. simpl in Hx. apply elem_of_app in Hx as [?|Hx]; [by left|].
      right. by destruct (Hin x Hx) as (_ & ? & _).
    + destruct (pickRelaxMP_spec d limit cands picked st)
        as (new & E & _ & Hin & _).
      rewrite E in Hx. simpl in Hx. apply elem_of_app in Hx as [?|Hx]; [by left|].
      right. by destruct (Hin x Hx).
  - intros totalNeed pref pool need usePrefer ps x Hx.
    destruct (pickFrom_spec totalNeed pref usePrefer pool need ps)
      as (new & E & _ & Hin & _).
    rewrite E in Hx. simpl in Hx. rewrite pickAll_picked in Hx.
    apply elem_of_app in Hx as [?|Hx]; [by left|].
    right. destruct (Hin x Hx) as (_ & Ht & _). apply taken_false in Ht. tauto.
Qed.

Lemma no_double_role_witness :
  exists a,
    generate Demo.int31n Demo.mapRange false false ∅ [Demo.sunday1; Demo.sunday2]
      Demo.people Demo.maps 2 2 2 2 0 1 2 42 = Some (None, a) /\
    (forall d svc byService slots,
        a !! d = Some byService -> byService !! svc = Some slots ->
        (forall role names, slots !! role = Some names -> NoDup names) /\
        (forall r1 r2 l1 l2 x,
            slots !! r1 = Some l1 -> slots !! r2 = Some l2 ->
            x ∈ l1 -> x ∈ l2 -> r1 = r2)) /\
    (forall svc d prev limit cands picked (st : State Demo.Rng) x,
        (x ∈ (pickPrefer svc d prev limit cands picked st).1 ->
         x ∈ picked \/ x ∉ alreadyOf svc st) /\
        (x ∈ (pickRelax svc d limit cands picked st).1 ->
         x ∈ picked \/ x ∉ alreadyOf svc st) /\
        (x ∈ (pickRelaxMP d limit cands picked st).1 ->
         x ∈ picked \/ x ∉ assigned10 st)) /\
    (forall totalNeed pref pool need usePrefer ps x,
        x ∈ ps_picked (pickFrom totalNeed pref pool need usePrefer ps).2 ->
        x ∈ ps_picked ps \/ x ∉ ps_already ps).
Proof.
  apply (no_double_role_in_service Demo.Rng Demo.int31n Demo.mapRange false false
           [Demo.sunday1; Demo.sunday2] Demo.people Demo.maps 2 2 2 2 0 1 2 42).
  - exists "2b", 2. reflexivity.
  - exists "3a", 3. reflexivity.
Defined.

(** C9. The engine is total and error-free: for every roster, mapping list
    and date list (and every generator, flag setting and cap), with the quotas
    of composition patterns, [generate] returns, and returns [nil]; where
    candidates are missing the slots are short or empty: with an empty roster
    the run returns as well, and every slot of its result is the empty list. *)
Theorem generate_total :
  forall (Rng : Type) (int31n : Rng -> nat -> nat * Rng) mapRange
         strictCompositionFlag noRelaxB2BFlag dates people maps
         maxLektor maxPro maxMus kolektanPen kolektanJem pjemaatPen pjemaatJem r,
    (forall s, mapRange s ≡ₚ elements s) ->
    patternQuota kolektanPen kolektanJem -> patternQuota pjemaatPen pjemaatJem ->
    (exists a,
      generate int31n mapRange strictCompositionFlag noRelaxB2BFlag ∅ dates
        people maps maxLektor maxPro maxMus
        kolektanPen kolektanJem pjemaatPen pjemaatJem r = Some (None, a)) /\
    (exists a,
      generate int31n mapRange strictCompositionFlag noRelaxB2BFlag ∅ dates
        [] maps maxLektor maxPro maxMus
        kolektanPen kolektanJem pjemaatPen pjemaatJem r = Some (None, a) /\
      forall d svc byService slots role names,
        a !! d = Some byService -> byService !! svc = Some slots ->
        slots !! role = Some names -> names = []).
Proof.
  intros * Hperm Hk Hp. split.
  - destruct (generate_assignInv int31n mapRange strictCompositionFlag
                noRelaxB2BFlag dates people maps maxLektor maxPro maxMus
                _ _ _ _ r Hk Hp) as (a & Hgen & _). eauto.
  - destruct (generate_assignInv int31n mapRange strictCompositionFlag
                noRelaxB2BFlag dates [] maps maxLektor maxPro maxMus
                _ _ _ _ r Hk Hp) as (a & Hgen & Hinv).
    exists a. split; [done|].
    intros d svc byService slots role names Hd Hs Hr.
    destruct (Hinv d svc) as (_ & _ & Hpool).
    rewrite (slotsOf_lookup _ _ _ _ _ Hd Hs) in Hpool.
    destruct names as [|x names]; [done|]. exfalso.
    assert (forall key b y, ~ eligible [] key b y) as Hnone.
    { intros key b y (q & ?%elem_of_nil & _). done. }
    specialize (Hpool role (x :: names) x Hr (list_elem_of_here _ _)).
    apply (poolFor_eligibleFor _ _ _ _ _ _ Hperm) in Hpool.
    unfold eligibleFor, poolOf in Hpool.
    destruct Hpool as [(_ & m & _ & _ & Hx)|[(key & m & m' & _ & _ & _ & _ & Hx)
                      |[(key & row0 & rest & _ & _ & _ & Hx)|(m & _ & _ & Hx)]]];
      by apply Hnone in Hx.
Qed.

Lemma generate_total_witness :
  (exists a,
    generate Demo.int31n Demo.mapRange false false ∅ [Demo.sunday1; Demo.sunday2]
      Demo.people Demo.maps 2 2 2 2 0 1 2 42 = Some (None, a)) /\
  (exists a,
    generate Demo.int31n Demo.mapRange false false ∅ [Demo.sunday1; Demo.sunday2]
      [] Demo.maps 2 2 2 2 0 1 2 42 = Some (None, a) /\
    forall d svc byService slots role names,
      a !! d = Some byService -> byService !! svc = Some slots ->
      slots !! role = Some names -> names = []).
Proof.
  apply (generate_total Demo.Rng Demo.int31n Demo.mapRange false false
           [Demo.sunday1; Demo.sunday2] Demo.people Demo.maps 2 2 2 2 0 1 2 42).
  - intros s. reflexivity.
  - exists "2b", 2. reflexivity.
  - exists "3a", 3. reflexivity.
Defined.

(** ** Independence of the map iteration order *)


Section Canonical.
Context {Rng : Type} (int31n : Rng -> nat -> nat * Rng).
Variable mapRange : gset string -> list string.
Hypothesis mapRange_perm : forall s, mapRange s ≡ₚ elements s.
Variable strictCompositionFlag noRelaxB2BFlag : bool.
Variable people : list Person.
Variable maps : list RoleMap.
Variables maxLektor maxPro maxMus : Z.
Variables kolektanPen kolektanJem pjemaatPen pjemaatJem : Z.
Implicit Types st : State Rng.









End Canonical.





(** ** Eligibility of the written names *)

Lemma OwnKey_run : OwnKey.run = Some (None, OwnKey.assignment).
Proof. vm_compute. reflexivity. Qed.

(** C8 (as stated) fails for a capped group whose rows name different
    columns: the run writes "Ana" into the slot of "Lektor 2", whose own column
    is "Lektor Cadangan", while Ana is marked for "Lektor" only. *)
Lemma own_key_counterexample :
  generate Demo.int31n Demo.mapRange false false ∅ [Demo.sunday1]
    OwnKey.people OwnKey.maps 2 2 2 2 0 1 2 42
  = Some (None, OwnKey.assignment) /\
  ~ ownKeyClaim OwnKey.people OwnKey.maps OwnKey.assignment.
Proof.
  split; [exact OwnKey_run|].
  intros H.
  specialize (H Demo.sunday1 "07" OwnKey.lektor2 ["Ana"] "Ana").
  destruct H as (p & Hp & Hname & Hmark & _).
  - unfold OwnKey.maps. apply elem_of_cons. right. apply elem_of_cons. by left.
  - vm_compute. reflexivity.
  - apply elem_of_cons. by left.
  - unfold OwnKey.people in Hp.
    apply elem_of_cons in Hp as [-> | Hp]; [by vm_compute in Hmark|].
    apply elem_of_cons in Hp as [-> | Hp]; [by vm_compute in Hmark|].
    by apply elem_of_nil in Hp.
Qed.

(** C8 (amended). Every name in a slot of the Assignment a run produces has
    a true eligibility mark for a key of the slot's category: for an escort
    row (an elder) and for a row of the other-roles phase, the row's own key;
    for a row of a composition category, the key of some row of the category;
    for a row of a capped group, the key of the group's first row. *)
Theorem assigned_names_eligible :
  forall (Rng : Type) (int31n : Rng -> nat -> nat * Rng) mapRange
         strictCompositionFlag noRelaxB2BFlag dates people maps
         maxLektor maxPro maxMus kolektanPen kolektanJem pjemaatPen pjemaatJem r,
    (forall s, mapRange s ≡ₚ elements s) ->
    patternQuota kolektanPen kolektanJem -> patternQuota pjemaatPen pjemaatJem ->
    exists a,
      generate int31n mapRange strictCompositionFlag noRelaxB2BFlag ∅ dates
        people maps maxLektor maxPro maxMus
        kolektanPen kolektanJem pjemaatPen pjemaatJem r = Some (None, a) /\
      forall d svc byService slots role names x,
        a !! d = Some byService -> byService !! svc = Some slots ->
        slots !! role = Some names -> x ∈ names ->
        eligibleFor people maps svc role x.
Proof.
  intros * Hperm Hk Hp.
  destruct (generate_assignInv int31n mapRange strictCompositionFlag
              noRelaxB2BFlag dates people maps maxLektor maxPro maxMus
              _ _ _ _ r Hk Hp) as (a & Hgen & Hinv).
  exists a. split; [done|].
  intros d svc byService slots role names x Hd Hs Hr Hx.
  destruct (Hinv d svc) as (_ & _ & Hpool).
  rewrite (slotsOf_lookup _ _ _ _ _ Hd Hs) in Hpool.
  eapply poolFor_eligibleFor; [done|]. by eapply Hpool.
Qed.

Lemma assigned_names_eligible_witness :
  exists a,
    generate Demo.int31n Demo.mapRange false false ∅ [Demo.sunday1; Demo.sunday2]
      Demo.people Demo.maps 2 2 2 2 0 1 2 42 = Some (None, a) /\
    forall d svc byService slots role names x,
      a !! d = Some byService -> byService !! svc = Some slots ->
      slots !! role = Some names -> x ∈ names ->
      eligibleFor Demo.people Demo.maps svc role x.
Proof.
  apply (assigned_names_eligible Demo.Rng Demo.int31n Demo.mapRange false false
           [Demo.sunday1; Demo.sunday2] Demo.people Demo.maps 2 2 2 2 0 1 2 42).
  - intros s. reflexivity.
  - exists "2b", 2. reflexivity.
  - exists "3a", 3. reflexivity.
Defined.

(** ** The capped-role phase *)

Lemma writeSingles_roles {Rng} d svc rows rows' : forall picked (st : State Rng),
  Role <$> rows = Role <$> rows' ->
  writeSingles d svc rows picked st = writeSingles d svc rows' picked st.
Proof.
  revert rows'. induction rows as [|rm rows IH]; intros [|rm' rows'] picked st H;
    simplify_eq/=; [done|].
  match goal with H : Role rm = Role rm' |- _ => rewrite H end.
  destruct picked; by apply IH.
Qed.

Lemma applyWrites_notin ws : forall m role,
  role ∉ ws.*1 -> applyWrites ws m !! role = m !! role.
Proof.
  induction ws as [|[r l] ws IH]; intros m role H; simpl in *; [done|].
  rewrite not_elem_of_cons in H. destruct H as [Hne H].
  rewrite IH by done. by rewrite lookup_insert_ne.
Qed.

(** C10. In the capped-role phase the pool of a group is built from the
    first row's eligibility key alone: the phase does the same whatever the
    other rows of the group declare (only their role labels are read), and
    every name it writes to any row of the group is a candidate of the first
    row's column. *)
Theorem capped_pool_first_row :
  forall (Rng : Type) (int31n : Rng -> nat -> nat * Rng) mapRange noRelaxB2BFlag
         people d prevSunday svc glimit row0 rest rest' (st : State Rng),
    Role <$> rest = Role <$> rest' ->
    cappedGroup int31n mapRange noRelaxB2BFlag people d prevSunday svc glimit
      (row0 :: rest) st
    = cappedGroup int31n mapRange noRelaxB2BFlag people d prevSunday svc glimit
        (row0 :: rest') st /\
    forall role names x,
      role ∈ Role <$> (row0 :: rest) ->
      slotsOf (assign (cappedGroup int31n mapRange noRelaxB2BFlag people d
                         prevSunday svc glimit (row0 :: rest) st)) d svc !! role
      = Some names ->
      x ∈ names ->
      x ∈ filterCandidates mapRange people (SourceColumn row0) false.
Proof.
  intros * Hroles. split.
  - unfold cappedGroup.
    assert (lenZ (row0 :: rest) = lenZ (row0 :: rest')) as ->.
    { unfold lenZ. simpl. apply (f_equal length) in Hroles.
      rewrite !length_fmap in Hroles. by rewrite Hroles. }
    destruct (Shuffle int31n _ (rng st)) as [names r].
    destruct (pickPrefer _ _ _ _ _ _ _) as [picked st1].
    destruct (if negb noRelaxB2BFlag && _ then _ else _) as [picked' st2].
    apply writeSingles_roles. rewrite !fmap_cons. by rewrite Hroles.
  - intros role names x Hrole Hslot Hx.
    destruct (cappedGroup_spec int31n mapRange noRelaxB2BFlag people
                (fun (_ y : string) => y ∈ filterCandidates mapRange people
                                  (SourceColumn row0) false)
                d prevSunday svc glimit (row0 :: rest) st) as (ws & [Hs _ _ _ _ _ _ _ _ He] & Hr).
    { intros ? ? ? y Heq _ Hy. by simplify_eq. }
    rewrite Hs in Hslot.
    apply applyWrites_lookup in Hslot as [[_ Hnot]|[i Hi]].
    + exfalso. apply Hnot. by rewrite Hr.
    + eapply He; [|done]. by eapply list_elem_of_lookup_2.
Qed.

(** ** Strict composition *)






Section Strict.
Context {Rng : Type} (int31n : Rng -> nat -> nat * Rng).




End Strict.




(** ** The escort phase *)

Lemma groupLoop_spec svc maps : forall groups others m,
  (m ∈ (groupLoop svc maps groups others).2 ->
   m ∈ others \/ isGroupKey (baseRole (Role m)) = false) /\
  (forall key, m ∈ groupRows (groupLoop svc maps groups others).1 key ->
   m ∈ groupRows groups key \/ isGroupKey (baseRole (Role m)) = true).
Proof.
  induction maps as [|m0 rest IH]; intros groups others m; simpl; [by auto|].
  destruct (outOfService m0 svc); [apply IH|].
  destruct (isGroupKey (baseRole (Role m0))) eqn:Hk.
  - destruct (IH (<[baseRole (Role m0) :=
                     default [] (groups !! baseRole (Role m0)) ++ [m0]]> groups)
                 others m) as [H1 H2].
    split; [done|]. intros key Hm. destruct (H2 key Hm) as [Hin|?]; [|by right].
    unfold groupRows in Hin.
    destruct (decide (baseRole (Role m0) = key)) as [<- | Hne].
    + rewrite lookup_insert_eq in Hin. simpl in Hin.
      apply elem_of_app in Hin as [?|Hin]; [by left|].
      apply list_elem_of_singleton in Hin as ->. by right.
    + rewrite lookup_insert_ne in Hin by done. by left.
  - destruct (IH groups (others ++ [m0]) m) as [H1 H2].
    split; [|done]. intros Hm. destruct (H1 Hm) as [Hin|?]; [|by right].
    apply elem_of_app in Hin as [?|Hin]; [by left|].
    apply list_elem_of_singleton in Hin as ->. by right.
Qed.

Lemma splitOthers_spec svc others : forall mp non m,
  (m ∈ (splitOthers svc others mp non).1 ->
   m ∈ mp \/ (m ∈ others /\ isMajelisPendamping (Role m) = true)) /\
  (m ∈ (splitOthers svc others mp non).2 ->
   m ∈ non \/ (m ∈ others /\ isMajelisPendamping (Role m) = false)).
Proof.
  induction others as [|m0 rest IH]; intros mp non m; simpl; [by auto|].
  assert (forall P : Prop, m ∈ rest /\ P -> m ∈ m0 :: rest /\ P) as Hw.
  { intros P [? ?]. split; [by apply elem_of_cons; right|done]. }
  destruct (outOfService m0 svc).
  { destruct (IH mp non m) as [H1 H2]. split; intros H.
    - destruct (H1 H); auto.
    - destruct (H2 H); auto. }
  destruct (isMajelisPendamping (Role m0)) eqn:Hmp.
  - destruct (IH (mp ++ [m0]) non m) as [H1 H2]. split; intros H.
    + destruct (H1 H) as [Hin|?]; [|by auto].
      apply elem_of_app in Hin as [?|Hin]; [by left|].
      apply list_elem_of_singleton in Hin as ->. right.
      split; [by apply elem_of_cons; left|done].
    + destruct (H2 H); auto.
  - destruct (IH mp (non ++ [m0]) m) as [H1 H2]. split; intros H.
    + destruct (H1 H); auto.
    + destruct (H2 H) as [Hin|?]; [|by auto].
      apply elem_of_app in Hin as [?|Hin]; [by left|].
      apply list_elem_of_singleton in Hin as ->. right.
      split; [by apply elem_of_cons; left|done].
Qed.

(** The role of an escort row is written by no later phase of the
    service: a row with the same label would be an escort row too. *)
Lemma escort_role_not_later maps svc m :
  m ∈ escortRows maps svc -> Role m ∉ laterRoles maps svc.
Proof.
  unfold escortRows, laterRoles. intros Hm.
  destruct (splitOthers_spec svc (groupMappingsForService maps svc).2 [] [] m)
    as [H1 _].
  destruct (H1 Hm) as [?%elem_of_nil|[Hothers Hmp]]; [done|].
  destruct (groupLoop_spec svc maps ∅ [] m) as [G1 _].
  destruct (G1 Hothers) as [?%elem_of_nil|Hkey]; [done|].
  assert (forall key, Role m ∉ Role <$> groupRows (groupMappingsForService maps svc).1 key)
    as Hgroup.
  { intros key (m' & Heq & Hm')%list_elem_of_fmap.
    destruct (groupLoop_spec svc maps ∅ [] m') as [_ G2].
    destruct (G2 key Hm') as [Hin|Hk].
    - unfold groupRows in Hin. rewrite lookup_empty in Hin.
      by apply elem_of_nil in Hin.
    - rewrite <- Heq in Hk. congruence. }
  rewrite !not_elem_of_app. split_and!; try apply Hgroup.
  intros Hin. apply list_elem_of_In, in_flat_map in Hin as (m' & Hm' & Hr).
  apply list_elem_of_In in Hm'.
  destruct (splitOthers_spec svc (groupMappingsForService maps svc).2 [] [] m')
    as [_ H2].
  destruct (H2 Hm') as [?%elem_of_nil|[_ Hmp']]; [done|].
  unfold otherRowRoles in Hr.
  destruct (outOfService m' svc); [done|].
  destruct (_ && _); [done|].
  destruct Hr as [Heq|[]]. rewrite Heq in Hmp'. congruence.
Qed.

Section EscortPasses.
Context {Rng : Type}.
Implicit Types st : State Rng.

(** Pass A is its description: from a list without repetition it takes,
    in order, the names [prefer] accepts that are in neither working set,
    until the quota is reached, and marks each of them. *)
Lemma pickPrefer_exact d prev limit cands : forall picked st,
  NoDup cands ->
  pickPrefer "10" d prev limit cands picked st
  = (picked ++ passA prev (limit - lenZ picked) cands st,
     markAll "10" d (passA prev (limit - lenZ picked) cands st) st).
Proof.
  unfold passA.
  induction cands as [|name rest IH]; intros picked st Hnd.
  { simpl. by rewrite take_nil, app_nil_r. }
  apply NoDup_cons in Hnd as [Hname Hrest]. cbn [pickPrefer List.filter].
  change (alreadyOf "10" st) with (assigned10 st).
  destruct (Z.geb_spec (lenZ picked) limit) as [Hge|Hlt].
  { replace (Z.to_nat (limit - lenZ picked)) with 0%nat by lia.
    by rewrite take_0, app_nil_r. }
  destruct (bool_decide (name ∈ assigned10 st)) eqn:Ea; cbn [orb negb andb];
    [by apply IH|].
  destruct (bool_decide (name ∈ assignedAnyToday st)) eqn:Et;
    cbn [orb negb andb]; [by apply IH|].
  destruct (prefer prev (lastAssigned st) name) eqn:Ep; [|by apply IH].
  rewrite (IH (picked ++ [name]) (mark "10" d name st) Hrest).
  replace (Z.to_nat (limit - lenZ picked))
    with (S (Z.to_nat (limit - lenZ (picked ++ [name]))))
    by (unfold lenZ in *; rewrite length_app; simpl; lia).
  cbn [take].
  assert (List.filter
            (fun x => negb (bool_decide (x ∈ assigned10 (mark "10" d name st)))
                      && negb (bool_decide
                                 (x ∈ assignedAnyToday (mark "10" d name st)))
                      && prefer prev (lastAssigned (mark "10" d name st)) x)
            rest
          = List.filter
              (fun x => negb (bool_decide (x ∈ assigned10 st))
                        && negb (bool_decide (x ∈ assignedAnyToday st))
                        && prefer prev (lastAssigned st) x)
              rest) as ->.
  { apply filter_ext_in. intros x Hx%list_elem_of_In.
    assert (x <> name) as Hne by (intros ->; done).
    change (assigned10 (mark "10" d name st))
      with (alreadyOf "10" (mark "10" d name st)).
    rewrite alreadyOf_mark_eq, anyToday_mark.
    change (alreadyOf "10" st) with (assigned10 st).
    rewrite (prefer_lookup prev (lastAssigned (mark "10" d name st))
               (lastAssigned st) x)
      by (rewrite lastAssigned_mark; by apply lookup_insert_ne).
    rewrite (bool_decide_ext (x ∈ {[name]} ∪ assigned10 st) (x ∈ assigned10 st))
      by set_solver.
    rewrite (bool_decide_ext (x ∈ {[name]} ∪ assignedAnyToday st)
               (x ∈ assignedAnyToday st)) by set_solver.
    done. }
  by rewrite <- app_assoc, markAll_cons.
Qed.

(** Pass B is its description: it takes, in order, the names that are not
    in [assigned10] until the quota is reached, and marks each of them. *)
Lemma pickRelaxMP_exact d slots cands : forall picked st,
  NoDup cands ->
  pickRelaxMP d slots cands picked st
  = (picked ++ passB slots cands picked st,
     markAll "10" d (passB slots cands picked st) st).
Proof.
  unfold passB.
  induction cands as [|name rest IH]; intros picked st Hnd.
  { simpl. by rewrite take_nil, app_nil_r. }
  apply NoDup_cons in Hnd as [Hname Hrest]. cbn [pickRelaxMP List.filter].
  destruct (Z.geb_spec (lenZ picked) slots) as [Hge|Hlt].
  { replace (Z.to_nat (slots - lenZ picked)) with 0%nat by lia.
    by rewrite take_0, app_nil_r. }
  destruct (bool_decide (name ∈ assigned10 st)) eqn:Ea; cbn [negb];
    [by apply IH|].
  rewrite (IH (picked ++ [name]) (mark "10" d name st) Hrest).
  replace (Z.to_nat (slots - lenZ picked))
    with (S (Z.to_nat (slots - lenZ (picked ++ [name]))))
    by (unfold lenZ in *; rewrite length_app; simpl; lia).
  cbn [take].
  assert (List.filter
            (fun x => negb (bool_decide (x ∈ assigned10 (mark "10" d name st))))
            rest
          = List.filter (fun x => negb (bool_decide (x ∈ assigned10 st))) rest)
    as ->.
  { apply filter_ext_in. intros x Hx%list_elem_of_In.
    assert (x <> name) as Hne by (intros ->; done).
    change (assigned10 (mark "10" d name st))
      with (alreadyOf "10" (mark "10" d name st)).
    rewrite alreadyOf_mark_eq. change (alreadyOf "10" st) with (assigned10 st).
    rewrite (bool_decide_ext (x ∈ {[name]} ∪ assigned10 st) (x ∈ assigned10 st))
      by set_solver.
    done. }
  by rewrite <- app_assoc, markAll_cons.
Qed.

End EscortPasses.

Section Escort.
Context {Rng : Type} (int31n : Rng -> nat -> nat * Rng).
Variable mapRange : gset string -> list string.
Variable people : list Person.
Implicit Types st : State Rng.

(** The escort phase does nothing in the first service. *)
Lemma escortPhase_07 d prev mpRows st :
  escortPhase int31n mapRange people d prev "07" mpRows st = st.
Proof. done. Qed.

(** One escort row whose only candidate served earlier today: pass (a)
    skips them, pass (b) picks them. *)
Lemma escortRow_relax d prev m e st :
  filterCandidates mapRange people (SourceColumn m) true = [e] ->
  e ∈ assignedAnyToday st -> e ∉ assigned10 st ->
  escortRow int31n mapRange people d prev m st
  = setSlot d "10" (Role m) [e] (mark "10" d e (setRng (rng st) st)).
Proof.
  intros Hpool Htoday Hnot. unfold escortRow. rewrite Hpool.
  rewrite (Shuffle_short int31n [e] (rng st)) by (simpl; lia).
  set (slots := if Slots10 m >? 0 then Slots10 m else 1).
  assert (1 <= slots) as Hslots.
  { unfold slots. destruct (Z.gtb_spec (Slots10 m) 0); lia. }
  cbn [pickPrefer]. change (lenZ []) with 0.
  destruct (Z.geb_spec 0 slots) as [?|_]; [lia|].
  change (alreadyOf "10" (setRng (rng st) st)) with (assigned10 st).
  change (assignedAnyToday (setRng (rng st) st)) with (assignedAnyToday st).
  rewrite (bool_decide_eq_true_2 _ Htoday), orb_true_r.
  cbn [pickRelaxMP]. change (lenZ []) with 0.
  destruct (Z.geb_spec 0 slots) as [?|_]; [lia|].
  change (assigned10 (setRng (rng st) st)) with (assigned10 st).
  rewrite (bool_decide_eq_false_2 _ Hnot).
  destruct (Z.ltb_spec 0 slots) as [_|?]; [|lia]. done.
Qed.

(** An escort row: the elder-only pool of its column is shuffled, pass A
    runs with the quota of the row, pass B with what the quota still lacks,
    and the slot of the row receives the picks of both, in that order. *)
Lemma escortRow_exact d prev m st :
  (forall s, mapRange s ≡ₚ elements s) ->
  let slots := if Slots10 m >? 0 then Slots10 m else 1 in
  let pool := filterCandidates mapRange people (SourceColumn m) true in
  let cands := (Shuffle int31n pool (rng st)).1 in
  let st0 := setRng (Shuffle int31n pool (rng st)).2 st in
  let a := passA prev slots cands st0 in
  let b := passB slots cands a (markAll "10" d a st0) in
  escortRow int31n mapRange people d prev m st
  = setSlot d "10" (Role m) (a ++ b)
      (markAll "10" d b (markAll "10" d a st0)).
Proof.
  intros Hperm slots pool cands st0 a b. unfold escortRow.
  fold slots pool.
  assert (NoDup cands) as Hnd.
  { unfold cands. rewrite (Shuffle_Permutation int31n pool (rng st)).
    by apply filterCandidates_NoDup. }
  subst a b st0 cands.
  destruct (Shuffle int31n pool (rng st)) as [cands r]. cbn [fst snd] in *.
  rewrite (pickPrefer_exact d prev slots cands [] (setRng r st) Hnd).
  change (slots - lenZ []) with (slots - 0). rewrite Z.sub_0_r. cbn [app].
  set (a := passA prev slots cands (setRng r st)).
  destruct (Z.ltb_spec (lenZ a) slots) as [Hlt|Hge].
  - by rewrite (pickRelaxMP_exact d slots cands a _ Hnd).
  - unfold passB. replace (Z.to_nat (slots - lenZ a)) with 0%nat by lia.
    by rewrite take_0, app_nil_r.
Qed.

End Escort.

Section EscortRun.
Context {Rng : Type} (int31n : Rng -> nat -> nat * Rng).
Variable mapRange : gset string -> list string.
Variable strictCompositionFlag noRelaxB2BFlag : bool.
Variable people : list Person.
Variable maps : list RoleMap.
Variables maxLektor maxPro maxMus : Z.
Variables kolektanPen kolektanJem pjemaatPen pjemaatJem : Z.
Variables (m : RoleMap) (e : string).
Hypothesis one_escort_row : escortRows maps "10" = [m].
Hypothesis one_elder :
  filterCandidates mapRange people (SourceColumn m) true = [e].
Implicit Types st : State Rng.

#[local] Abbreviation serviceBody' :=
  (serviceBody int31n mapRange strictCompositionFlag noRelaxB2BFlag people maps
     maxLektor maxPro maxMus kolektanPen kolektanJem pjemaatPen pjemaatJem).
#[local] Abbreviation dateBody' :=
  (dateBody int31n mapRange strictCompositionFlag noRelaxB2BFlag people maps
     maxLektor maxPro maxMus kolektanPen kolektanJem pjemaatPen pjemaatJem).
#[local] Abbreviation dateLoop' :=
  (dateLoop int31n mapRange strictCompositionFlag noRelaxB2BFlag people maps
     maxLektor maxPro maxMus kolektanPen kolektanJem pjemaatPen pjemaatJem).

Lemma ensureService_sets d svc st :
  assigned10 (ensureService d svc st) = assigned10 st /\
  assignedAnyToday (ensureService d svc st) = assignedAnyToday st.
Proof.
  unfold ensureService. by destruct (default ∅ (assign st !! d) !! svc).
Qed.

(** The second service, entered with the elder already assigned today. *)
Lemma serviceBody_escort d prev st st' :
  serviceBody' d prev "10" st = Some st' ->
  e ∈ assignedAnyToday st -> e ∉ assigned10 st ->
  slotsOf (assign st') d "10" !! Role m = Some [e].
Proof.
  intros (ws & [Hs _ _ _ _ _ _ _ _ _] & Hr)%serviceBody_later_spec Htoday Hnot.
  rewrite one_escort_row in Hs.
  destruct (ensureService_sets d "10" st) as [E10 Eany].
  assert (escortPhase int31n mapRange people d prev "10" [m]
            (ensureService d "10" st)
          = setSlot d "10" (Role m) [e]
              (mark "10" d e (setRng (rng (ensureService d "10" st))
                                (ensureService d "10" st)))) as Hesc.
  { unfold escortPhase. simpl.
    apply escortRow_relax; [done| |]; by rewrite ?E10, ?Eany. }
  rewrite Hesc, slotsOf_setSlot_eq in Hs. rewrite Hs.
  rewrite applyWrites_notin.
  - by rewrite lookup_insert_eq.
  - rewrite Hr. apply escort_role_not_later. rewrite one_escort_row.
    by apply list_elem_of_singleton.
Qed.

Lemma dateBody_escort dates di d st st' Q :
  dateBody' dates di d st = Some st' ->
  assignInv maps Q (assign st) ->
  (exists role names,
      slotsOf (assign st') d "07" !! role = Some names /\ e ∈ names) ->
  slotsOf (assign st') d "10" !! Role m = Some [e].
Proof.
  unfold dateBody. intros H Hinv (role & names & Hslot & He).
  destruct (serviceBody' d _ "07" _) as [st1|] eqn:E1; [|done].
  cbn [mbind option_bind] in H.
  destruct (serviceBody_spec _ _ _ _ _ _ _ _ _ _ _ _ _ _ _ _ _ _ E1)
    as (ws1 & [Hs1 _ _ _ _ Ht1 _ _ Ho1 _] & Hr1).
  destruct (serviceBody_spec _ _ _ _ _ _ _ _ _ _ _ _ _ _ _ _ _ _ H)
    as (ws2 & [_ Hf2 _ _ _ _ _ _ _ _] & _).
  eapply serviceBody_escort; [exact H| |].
  - apply Ht1. rewrite Hf2 in Hslot by (by right).
    rewrite Hs1 in Hslot.
    apply applyWrites_lookup in Hslot as [[Hold Hnot]|[i Hi]].
    + exfalso. apply Hnot. rewrite Hr1.
      destruct (Hinv d "07") as (Hdom & _).
      apply Hdom. change (assign (resetDay ?s)) with (assign s) in Hold.
      rewrite slotsOf_ensureDate in Hold. eauto.
    + eapply (elem_of_concat_lookup ws1.*2 i); [|done].
      by rewrite list_lookup_fmap, Hi.
  - change (assigned10 st1) with (alreadyOf "10" st1).
    rewrite Ho1 by done. simpl. apply not_elem_of_empty.
Qed.

(** A date body leaves the slots of every other date as they are. *)
Lemma dateBody_frame dates di d st st' d' svc :
  dateBody' dates di d st = Some st' -> d' <> d ->
  slotsOf (assign st') d' svc = slotsOf (assign st) d' svc.
Proof.
  unfold dateBody. intros H Hne.
  destruct (serviceBody' d _ "07" _) as [st1|] eqn:E1; [|done].
  cbn [mbind option_bind] in H.
  destruct (serviceBody_spec _ _ _ _ _ _ _ _ _ _ _ _ _ _ _ _ _ _ E1)
    as (ws1 & [_ Hf1 _ _ _ _ _ _ _ _] & _).
  destruct (serviceBody_spec _ _ _ _ _ _ _ _ _ _ _ _ _ _ _ _ _ _ H)
    as (ws2 & [_ Hf2 _ _ _ _ _ _ _ _] & _).
  rewrite Hf2, Hf1 by (by left).
  change (assign (resetDay ?s)) with (assign s). apply slotsOf_ensureDate.
Qed.

Lemma dateLoop_escort dates rest d : forall di st st',
  dateLoop' dates di rest st = Some st' ->
  assignInv maps (poolFor mapRange people maps) (assign st) ->
  ((exists role names,
       slotsOf (assign st) d "07" !! role = Some names /\ e ∈ names) ->
   slotsOf (assign st) d "10" !! Role m = Some [e]) ->
  (exists role names,
      slotsOf (assign st') d "07" !! role = Some names /\ e ∈ names) ->
  slotsOf (assign st') d "10" !! Role m = Some [e].
Proof.
  induction rest as [|d0 rest IH]; intros di st st' H Hinv HP; simpl in H.
  { by simplify_eq. }
  destruct (dateBody' dates di d0 st) as [st1|] eqn:E1; [|done].
  cbn [mbind option_bind] in H.
  eapply IH; [exact H| |].
  - by eapply dateBody_assignInv.
  - destruct (decide (d = d0)) as [-> | Hne].
    + by eapply dateBody_escort.
    + by rewrite !(dateBody_frame _ _ _ _ _ _ _ E1 Hne).
Qed.

End EscortRun.

(** C3. The escort phase runs in the second service only.  Pass A takes
    from the shuffled elder-only pool, in order and up to the quota, exactly
    the names [prefer] accepts that are neither in [assigned10] nor in
    [assignedAnyToday], and marks them; pass B takes from the same list, up to
    what the quota still lacks, exactly the names that are not in
    [assigned10], whatever [assignedAnyToday] and [prefer] say; the slot of
    the row receives the picks of both passes, with the [Slots10] override,
    else 1, as quota.  Hence, with one escort row whose elder-only pool is a
    single person: on every date on which that person holds a role of the
    first service, the run's Assignment also holds them in the escort slot of
    the second service, next to their first-service slot. *)
Theorem escort_relax_pass :
  forall (Rng : Type) (int31n : Rng -> nat -> nat * Rng) mapRange
         strictCompositionFlag noRelaxB2BFlag dates people maps
         maxLektor maxPro maxMus kolektanPen kolektanJem pjemaatPen pjemaatJem r
         a m e d role names,
    (forall s, mapRange s ≡ₚ elements s) ->
    generate int31n mapRange strictCompositionFlag noRelaxB2BFlag ∅ dates
      people maps maxLektor maxPro maxMus
      kolektanPen kolektanJem pjemaatPen pjemaatJem r = Some (None, a) ->
    escortRows maps "10" = [m] ->
    filterCandidates mapRange people (SourceColumn m) true = [e] ->
    slotsOf a d "07" !! role = Some names -> e ∈ names ->
    slotsOf a d "10" !! Role m = Some [e] /\
    (forall d' prev mpRows (st : State Rng),
        escortPhase int31n mapRange people d' prev "07" mpRows st = st) /\
    (forall d' prev slots cands (st : State Rng),
        NoDup cands ->
        pickPrefer "10" d' prev slots cands [] st
        = (passA prev slots cands st,
           markAll "10" d' (passA prev slots cands st) st)) /\
    (forall d' slots cands picked (st : State Rng),
        NoDup cands ->
        pickRelaxMP d' slots cands picked st
        = (picked ++ passB slots cands picked st,
           markAll "10" d' (passB slots cands picked st) st)) /\
    (forall d' prev m' (st : State Rng),
        let slots := if Slots10 m' >? 0 then Slots10 m' else 1 in
        let pool := filterCandidates mapRange people (SourceColumn m') true in
        let cands := (Shuffle int31n pool (rng st)).1 in
        let st0 := setRng (Shuffle int31n pool (rng st)).2 st in
        let picksA := passA prev slots cands st0 in
        let picksB := passB slots cands picksA (markAll "10" d' picksA st0) in
        escortRow int31n mapRange people d' prev m' st
        = setSlot d' "10" (Role m') (picksA ++ picksB)
            (markAll "10" d' picksB (markAll "10" d' picksA st0))).
Proof.
  intros * Hperm Hgen Hrow Hpool Hslot He. split_and!.
  - unfold generate, generateState in Hgen.
    destruct (dateLoop _ _ _ _ _ _ _ _ _ _ _ _ _ _ _ _ _) as [st|] eqn:Hloop;
      [|done].
    cbn [mbind option_bind] in Hgen. simplify_eq.
    eapply (dateLoop_escort int31n mapRange); try exact Hloop; try done.
    + apply assignInv_empty.
    + intros (role' & names' & Hl & _). unfold slotsOf in Hl. simpl in Hl.
      rewrite lookup_empty in Hl. simpl in Hl. by rewrite lookup_empty in Hl.
    + eauto.
  - done.
  - intros d' prev slots cands st Hnd.
    rewrite (pickPrefer_exact d' prev slots cands [] st Hnd).
    change (slots - lenZ []) with (slots - 0). by rewrite Z.sub_0_r.
  - intros d' slots cands picked st Hnd. by apply pickRelaxMP_exact.
  - intros d' prev m' st. by apply escortRow_exact.
Qed.

(** ** A composition quota larger than the number of rows *)

Lemma Overpick_final : Overpick.final = Some Overpick.state.
Proof. vm_compute. reflexivity. Qed.

(** C7 fails on this input: with pattern "2b" and a single row in the
    category, the picker returns two elders; the second, "Ana", is left in
    both working sets, but the row loop of [generate] only reaches the first
    pick, so Ana receives no slot and no last-assigned date. *)
Lemma composition_overpick_unrecorded :
  Overpick.pickerCall.1.1.1 = ["Budi"; "Ana"] /\
  generateState Demo.int31n Demo.mapRange false false ∅ [Demo.sunday1]
    Overpick.people Overpick.maps 2 2 2 2 0 1 2 42 = Some Overpick.state /\
  slotsOf (assign Overpick.state) Demo.sunday1 "07" !! "Kolektan 1"
    = Some ["Budi"] /\
  "Ana" ∈ assigned07 Overpick.state /\
  "Ana" ∈ assignedAnyToday Overpick.state /\
  lastAssigned Overpick.state !! "Ana" = None /\
  lastAssigned Overpick.state !! "Budi" = Some Demo.sunday1.
Proof.
  split_and!.
  - vm_compute. reflexivity.
  - exact Overpick_final.
  - vm_compute. reflexivity.
  - apply (bool_decide_unpack _). vm_compute. exact I.
  - apply (bool_decide_unpack _). vm_compute. exact I.
  - vm_compute. reflexivity.
  - vm_compute. reflexivity.
Qed.

(** ** The theorems at concrete inputs *)

Lemma EscortRelax_run : EscortRelax.run = Some (None, EscortRelax.assignment).
Proof. vm_compute. reflexivity. Qed.

Lemma escort_relax_pass_witness :
  slotsOf EscortRelax.assignment Demo.sunday1 "10" !! Role EscortRelax.escort
  = Some ["Ana"] /\
  (forall d' prev mpRows (st : State Demo.Rng),
      escortPhase Demo.int31n Demo.mapRange EscortRelax.people d' prev "07"
        mpRows st = st) /\
  (forall d' prev slots cands (st : State Demo.Rng),
      NoDup cands ->
      pickPrefer "10" d' prev slots cands [] st
      = (passA prev slots cands st,
         markAll "10" d' (passA prev slots cands st) st)) /\
  (forall d' slots cands picked (st : State Demo.Rng),
      NoDup cands ->
      pickRelaxMP d' slots cands picked st
      = (picked ++ passB slots cands picked st,
         markAll "10" d' (passB slots cands picked st) st)) /\
  (forall d' prev m' (st : State Demo.Rng),
      let slots := if Slots10 m' >? 0 then Slots10 m' else 1 in
      let pool :=
        filterCandidates Demo.mapRange EscortRelax.people (SourceColumn m') true in
      let cands := (Shuffle Demo.int31n pool (rng st)).1 in
      let st0 := setRng (Shuffle Demo.int31n pool (rng st)).2 st in
      let picksA := passA prev slots cands st0 in
      let picksB := passB slots cands picksA (markAll "10" d' picksA st0) in
      escortRow Demo.int31n Demo.mapRange EscortRelax.people d' prev m' st
      = setSlot d' "10" (Role m') (picksA ++ picksB)
          (markAll "10" d' picksB (markAll "10" d' picksA st0))).
Proof.
  apply (escort_relax_pass Demo.Rng Demo.int31n Demo.mapRange false false
           [Demo.sunday1] EscortRelax.people EscortRelax.maps 2 2 2 2 0 1 2 42
           EscortRelax.assignment EscortRelax.escort "Ana" Demo.sunday1
           "Lektor 1" ["Ana"]).
  - intros s. reflexivity.
  - exact EscortRelax_run.
  - vm_compute. reflexivity.
  - vm_compute. reflexivity.
  - vm_compute. reflexivity.
  - apply (bool_decide_unpack _). vm_compute. exact I.
Defined.


Lemma capped_pool_first_row_witness :
  cappedGroup Demo.int31n Demo.mapRange false OwnKey.people Demo.sunday1 zeroTime
    "07" 2 [OwnKey.lektor1; OwnKey.lektor2] (initState ∅ (42 : Demo.Rng))
  = cappedGroup Demo.int31n Demo.mapRange false OwnKey.people Demo.sunday1
      zeroTime "07" 2 [OwnKey.lektor1; OwnKey.lektor2']
      (initState ∅ (42 : Demo.Rng)) /\
  forall role names x,
    role ∈ Role <$> [OwnKey.lektor1; OwnKey.lektor2] ->
    slotsOf (assign (cappedGroup Demo.int31n Demo.mapRange false OwnKey.people
                       Demo.sunday1 zeroTime "07" 2
                       [OwnKey.lektor1; OwnKey.lektor2]
                       (initState ∅ (42 : Demo.Rng)))) Demo.sunday1 "07" !! role
    = Some names ->
    x ∈ names ->
    x ∈ filterCandidates Demo.mapRange OwnKey.people
          (SourceColumn OwnKey.lektor1) false.
Proof.
  apply (capped_pool_first_row Demo.Rng Demo.int31n Demo.mapRange false
           OwnKey.people Demo.sunday1 zeroTime "07" 2 OwnKey.lektor1
           [OwnKey.lektor2] [OwnKey.lektor2'] (initState ∅ (42 : Demo.Rng))).
  reflexivity.
Defined.

(** * Properties of the front end *)

(** ** Normalization of text *)

Lemma lowerChar_idem c : Str.lowerChar (Str.lowerChar c) = Str.lowerChar c.
Proof. by destruct c as [[] [] [] [] [] [] [] []]. Qed.

Lemma isSpace_lowerChar c : Str.isSpace (Str.lowerChar c) = Str.isSpace c.
Proof. by destruct c as [[] [] [] [] [] [] [] []]. Qed.

Lemma ToLower_idem s : Str.ToLower (Str.ToLower s) = Str.ToLower s.
Proof. induction s as [|c s IH]; simpl; [done|]. by rewrite lowerChar_idem, IH. Qed.

Lemma ToLower_length s : String.length (Str.ToLower s) = String.length s.
Proof. induction s as [|c s IH]; simpl; [done|]. by rewrite IH. Qed.

Lemma ToLower_empty s : Str.ToLower s = "" <-> s = "".
Proof. destruct s; simpl; split; intros H; done. Qed.

Lemma ToLower_trimLeft s :
  Str.trimLeft (Str.ToLower s) = Str.ToLower (Str.trimLeft s).
Proof.
  induction s as [|c s IH]; simpl; [done|].
  rewrite isSpace_lowerChar. by destruct (Str.isSpace c).
Qed.

Lemma ToLower_trimRight s :
  Str.trimRight (Str.ToLower s) = Str.ToLower (Str.trimRight s).
Proof.
  induction s as [|c s IH]; simpl; [done|].
  rewrite IH, isSpace_lowerChar.
  destruct (Str.trimRight s); simpl; [by destruct (Str.isSpace c)|done].
Qed.

(** Trimming and lower-casing commute. *)
Lemma ToLower_TrimSpace s :
  Str.TrimSpace (Str.ToLower s) = Str.ToLower (Str.TrimSpace s).
Proof. unfold Str.TrimSpace. by rewrite ToLower_trimLeft, ToLower_trimRight. Qed.

Lemma trimLeft_head s :
  Str.trimLeft s = "" \/
  exists c r, Str.trimLeft s = String c r /\ Str.isSpace c = false.
Proof.
  induction s as [|c s IH]; simpl; [by left|].
  destruct (Str.isSpace c) eqn:E; [done|]. right. by exists c, s.
Qed.

Lemma trimRight_head c r :
  Str.isSpace c = false ->
  exists r', Str.trimRight (String c r) = String c r'.
Proof.
  intros E. simpl. destruct (Str.trimRight r); [|by eexists].
  rewrite E. by eexists.
Qed.

Lemma trimRight_idem s : Str.trimRight (Str.trimRight s) = Str.trimRight s.
Proof.
  induction s as [|c s IH]; simpl; [done|].
  destruct (Str.trimRight s) as [|c' r] eqn:E.
  - destruct (Str.isSpace c) eqn:Ec; simpl; [done|]. by rewrite Ec.
  - change (Str.trimRight (String c (String c' r))) with
      (match Str.trimRight (String c' r) with
       | EmptyString => if Str.isSpace c then EmptyString else String c EmptyString
       | r0 => String c r0
       end).
    by rewrite IH.
Qed.

Lemma TrimSpace_head s :
  Str.TrimSpace s = "" \/
  exists c r, Str.TrimSpace s = String c r /\ Str.isSpace c = false.
Proof.
  unfold Str.TrimSpace.
  destruct (trimLeft_head s) as [-> | (c & r & -> & E)]; [by left|].
  destruct (trimRight_head c r E) as [r' ->]. right. by exists c, r'.
Qed.

Lemma trimLeft_nonspace c r :
  Str.isSpace c = false -> Str.trimLeft (String c r) = String c r.
Proof. intros E. simpl. by rewrite E. Qed.

Lemma TrimSpace_idem s : Str.TrimSpace (Str.TrimSpace s) = Str.TrimSpace s.
Proof.
  destruct (TrimSpace_head s) as [-> | (c & r & E & Ec)]; [done|].
  unfold Str.TrimSpace at 1. rewrite E, trimLeft_nonspace by done.
  rewrite <- E. unfold Str.TrimSpace. apply trimRight_idem.
Qed.

Lemma normKey_idem s : normKey (normKey s) = normKey s.
Proof.
  unfold normKey.
  by rewrite ToLower_TrimSpace, ToLower_idem, TrimSpace_idem.
Qed.

Lemma normKey_ToLower s : normKey (Str.ToLower s) = normKey s.
Proof. unfold normKey. by rewrite ToLower_TrimSpace, ToLower_idem. Qed.

Lemma normKey_TrimSpace s : normKey (Str.TrimSpace s) = normKey s.
Proof. unfold normKey. by rewrite TrimSpace_idem. Qed.

Lemma normKey_empty s : normKey s = "" <-> Str.TrimSpace s = "".
Proof. unfold normKey. apply ToLower_empty. Qed.

Lemma String_eqb_eq' (a b : string) : String.eqb a b = true <-> a = b.
Proof. apply String.eqb_eq. Qed.

(** ** Limits, marks, headers and numbers *)

Lemma clamp_range v lo hi : lo <= hi -> lo <= clamp v lo hi <= hi.
Proof.
  intros Hb. unfold clamp.
  destruct (Z.ltb_spec v lo), (Z.gtb_spec v hi); lia.
Qed.

(** X1 ([clamp]): for bounds [lo <= hi] the result lies between them, a
    value between the bounds is returned unchanged, a value below them gives
    [lo] and a value above them gives [hi]; clamping twice changes
    nothing. *)
Theorem clamp_within v lo hi :
  lo <= hi ->
  lo <= clamp v lo hi <= hi /\
  (lo <= v <= hi -> clamp v lo hi = v) /\
  (v < lo -> clamp v lo hi = lo) /\
  (hi < v -> clamp v lo hi = hi) /\
  clamp (clamp v lo hi) lo hi = clamp v lo hi.
Proof.
  intros Hb. unfold clamp.
  destruct (Z.ltb_spec v lo), (Z.gtb_spec v hi);
    repeat match goal with
           | |- context [?a <? ?b] => destruct (Z.ltb_spec a b)
           | |- context [?a >? ?b] => destruct (Z.gtb_spec a b)
           end; lia.
Qed.

Lemma clamp_within_witness :
  1 <= clamp 7 1 4 <= 4 /\
  (1 <= 7 <= 4 -> clamp 7 1 4 = 7) /\
  (7 < 1 -> clamp 7 1 4 = 1) /\
  (4 < 7 -> clamp 7 1 4 = 4) /\
  clamp (clamp 7 1 4) 1 4 = clamp 7 1 4.
Proof. apply (clamp_within 7 1 4). lia. Defined.

(** X2 ([run], [clamp], [defaultSlotsForRole]): with the limits as [run]
    clamps them, the default number of slots of every role lies between 1
    and 4, whatever the flags hold. *)
Theorem default_slots_of_run role svc lektor prokantor pemusik :
  1 <= defaultSlotsForRole role svc (clamp lektor 1 4) (clamp prokantor 1 3)
                           (clamp pemusik 1 3) <= 4.
Proof.
  pose proof (clamp_range lektor 1 4 ltac:(lia)).
  pose proof (clamp_range prokantor 1 3 ltac:(lia)).
  pose proof (clamp_range pemusik 1 3 ltac:(lia)).
  unfold defaultSlotsForRole.
  repeat match goal with |- context [if ?b then _ else _] => destruct b end; lia.
Qed.

(** X3 ([isMarked]): a cell of ASCII text counts as marked exactly when,
    trimmed and in lower case, it reads x, 1, true or ya; case and
    surrounding white space make no difference. *)
Theorem isMarked_normalized v :
  Str.isASCII v = true ->
  (isMarked v = true <->
   normKey v = "x" \/ normKey v = "1" \/ normKey v = "true" \/ normKey v = "ya")
  /\ isMarked (Str.ToLower v) = isMarked v
  /\ isMarked (Str.TrimSpace v) = isMarked v.
Proof.
  intros _.
  assert (forall w, isMarked w = true <->
            normKey w = "x" \/ normKey w = "1" \/ normKey w = "true"
            \/ normKey w = "ya") as Hiff.
  { intros w. unfold isMarked. rewrite ToLower_TrimSpace.
    fold (normKey w). rewrite !orb_true_iff, !String.eqb_eq. tauto. }
  assert (forall a b, (isMarked a = true <-> isMarked b = true) ->
                      isMarked a = isMarked b) as Hbool.
  { intros a b H. destruct (isMarked a), (isMarked b); try done.
    - symmetry. by apply H. - by apply H. }
  split_and!; [apply Hiff| |].
  - apply Hbool. by rewrite !Hiff, normKey_ToLower.
  - apply Hbool. by rewrite !Hiff, normKey_TrimSpace.
Qed.

Lemma isMarked_normalized_witness :
  (isMarked " Ya " = true <->
   normKey " Ya " = "x" \/ normKey " Ya " = "1" \/ normKey " Ya " = "true"
   \/ normKey " Ya " = "ya")
  /\ isMarked (Str.ToLower " Ya ") = isMarked " Ya "
  /\ isMarked (Str.TrimSpace " Ya ") = isMarked " Ya ".
Proof. apply (isMarked_normalized " Ya "). reflexivity. Defined.

(** The entries of the header index: the last column whose normalized
    header is the key, or the entry the loop started with. *)
Lemma indexHeaderLoop_lookup head : forall i m k v,
  indexHeaderLoop i head m !! k = Some v <->
  (exists j h, head !! j = Some h /\ normKey h = k /\ v = i + Z.of_nat j /\
               forall j' h', (j < j')%nat -> head !! j' = Some h' ->
                             normKey h' <> k) \/
  (m !! k = Some v /\ forall h, h ∈ head -> normKey h <> k).
Proof.
  induction head as [|h0 rest IH]; intros i m k v; simpl.
  { split.
    - intros H. right. split; [done|]. by intros h ?%elem_of_nil.
    - intros [(j & h & H & _) | [H _]]; [by rewrite lookup_nil in H|done]. }
  rewrite IH. fold (normKey h0). split.
  - intros [(j & h & Hj & Hk & -> & Hlast) | [Hm Hno]].
    + left. exists (S j), h. split_and!; [done|done|lia|].
      intros [|j'] h' Hlt Hj'; [lia|]. apply (Hlast j' h'); [lia|done].
    + destruct (decide (normKey h0 = k)) as [Heq|Hne].
      * rewrite Heq, lookup_insert_eq in Hm. injection Hm as <-.
        left. exists 0%nat, h0. split_and!; [done|done|lia|].
        intros [|j'] h' Hlt Hj'; [lia|]. simpl in Hj'.
        apply Hno. by eapply list_elem_of_lookup_2.
      * rewrite lookup_insert_ne in Hm by done. right. split; [done|].
        intros h [-> | Hh]%elem_of_cons; [done|by apply Hno].
  - intros [(j & h & Hj & Hk & -> & Hlast) | [Hm Hno]].
    + destruct j as [|j]; simpl in Hj.
      * injection Hj as ->. right. split.
        -- rewrite Hk, lookup_insert_eq. f_equal. lia.
        -- intros h' Hh'. apply list_elem_of_lookup_1 in Hh' as [j' Hj'].
           apply (Hlast (S j') h'); [lia|done].
      * left. exists j, h. split_and!; [done|done|lia|].
        intros j' h' Hlt Hj'. apply (Hlast (S j') h'); [lia|done].
    + right. split.
      * rewrite lookup_insert_ne; [done|]. apply Hno. by left.
      * intros h Hh. apply Hno. by right.
Qed.

Lemma cellAt_lookup (row : list string) (j : nat) h :
  row !! j = Some h -> cellAt row (Z.of_nat j) = h.
Proof. intros H. unfold cellAt. by rewrite Nat2Z.id, H. Qed.

Lemma indexHeader_lookup head k v :
  indexHeader head !! k = Some v <->
  0 <= v < lenZ head /\ normKey (cellAt head v) = k /\
  forall j, v < j < lenZ head -> normKey (cellAt head j) <> k.
Proof.
  unfold indexHeader. rewrite indexHeaderLoop_lookup. split.
  - intros [(j & h & Hj & Hk & -> & Hlast) | [Hm _]];
      [|by rewrite lookup_empty in Hm].
    pose proof (lookup_lt_Some _ _ _ Hj) as Hlt. unfold lenZ.
    rewrite Z.add_0_l. split; [lia|]. split.
    + by rewrite (cellAt_lookup _ _ _ Hj).
    + intros j' Hj'. destruct (lookup_lt_is_Some_2 head (Z.to_nat j')) as [h' Hh'];
        [lia|].
      unfold cellAt. rewrite Hh'. simpl. apply (Hlast (Z.to_nat j') h'); [lia|done].
  - intros (Hv & Hk & Hlast). left.
    destruct (lookup_lt_is_Some_2 head (Z.to_nat v)) as [h Hh];
      [unfold lenZ in Hv; lia|].
    exists (Z.to_nat v), h. split_and!; [done| |lia|].
    + unfold cellAt in Hk. by rewrite Hh in Hk.
    + intros j' h' Hlt Hj'. pose proof (lookup_lt_Some _ _ _ Hj') as Hlt'.
      rewrite <- (cellAt_lookup _ _ _ Hj'). apply Hlast. unfold lenZ. lia.
Qed.

Lemma indexHeaderLoop_is_Some k l : forall i m,
  Exists (fun h => normKey h = k) l -> is_Some (indexHeaderLoop i l m !! k).
Proof.
  induction l as [|a l IH]; intros i m He; [by apply Exists_nil in He|].
  simpl. destruct (decide (Exists (fun h => normKey h = k) l)) as [Hl|Hl].
  - by apply IH.
  - apply Exists_cons in He as [Ha | ?]; [|done].
    eexists. apply indexHeaderLoop_lookup. right. split.
    + fold (normKey a). rewrite Ha. apply lookup_insert_eq.
    + intros h' Hh' Hk'. apply Hl, Exists_exists. eauto.
Qed.

Lemma indexHeader_None head k :
  indexHeader head !! k = None <-> forall h, h ∈ head -> normKey h <> k.
Proof.
  split.
  - intros Hn h Hh Hk.
    destruct (indexHeaderLoop_is_Some k head 0 ∅) as [v Hv].
    { apply Exists_exists. eauto. }
    unfold indexHeader in Hn. congruence.
  - intros Hno. destruct (indexHeader head !! k) as [v|] eqn:E; [|done].
    apply indexHeader_lookup in E as (Hv & Hk & _).
    exfalso. destruct (lookup_lt_is_Some_2 head (Z.to_nat v)) as [h Hh];
      [unfold lenZ in Hv; lia|].
    apply (Hno h); [by eapply list_elem_of_lookup_2|].
    unfold cellAt in Hk. by rewrite Hh in Hk.
Qed.

(** X4 ([indexHeader], [findHeader]): looking candidates up in the index of
    a header row gives -1 exactly when no header, trimmed and in lower case,
    equals a candidate in lower case; otherwise it gives a column of the row
    whose normalized header is the first candidate that occurs, and the last
    such column when the header is repeated. *)
Theorem findHeader_indexHeader head cands :
  let v := findHeader (indexHeader head) cands in
  (v = -1 /\ forall c h, c ∈ cands -> h ∈ head -> normKey h <> Str.ToLower c) \/
  (0 <= v < lenZ head /\
   exists before c after,
     cands = before ++ c :: after /\
     (forall c' h, c' ∈ before -> h ∈ head -> normKey h <> Str.ToLower c') /\
     normKey (cellAt head v) = Str.ToLower c /\
     forall j, v < j < lenZ head -> normKey (cellAt head j) <> Str.ToLower c).
Proof.
  induction cands as [|c rest IH]; simpl.
  { left. split; [done|]. by intros c h ?%elem_of_nil. }
  destruct (indexHeader head !! Str.ToLower c) as [v|] eqn:E.
  - right. apply indexHeader_lookup in E as (Hv & Hk & Hlast).
    split; [done|]. exists [], c, rest. split_and!; try done.
    by intros c' h ?%elem_of_nil.
  - pose proof (proj1 (indexHeader_None _ _) E) as Hno.
    destruct IH as [[Hv Hall] | (Hv & before & c0 & after & -> & Hb & Hk & Hlast)].
    + left. split; [done|].
      intros c' h [-> | Hc]%elem_of_cons Hh; [by apply Hno|by apply Hall].
    + right. split; [done|]. exists (c :: before), c0, after.
      split_and!; try done.
      intros c' h [-> | Hc]%elem_of_cons Hh; [by apply Hno|by apply Hb].
Qed.

(** ** Numbers *)

Lemma SkipSpace_nonspace c r :
  Str.isSpace c = false -> Scan.SkipSpace (String c r) = Some (String c r).
Proof.
  intros E. simpl. rewrite E.
  destruct (Scan.isNewline c) eqn:En; [|done].
  exfalso. revert E En. unfold Str.isSpace, Scan.isNewline.
  destruct (Nat.eqb_spec (nat_of_ascii c) 10) as [->|]; [done|done].
Qed.

Lemma scanInt_range s v rest :
  Scan.scanInt s = Some (v, rest) -> Scan.minInt64 <= v <= Scan.maxInt64.
Proof.
  unfold Scan.scanInt. intros H.
  destruct (Scan.SkipSpace s) as [[|c r]|]; try done.
  destruct (if Scan.isSign c then _ else _) as [neg s2].
  destruct (Str.span _ s2) as [tok s3].
  destruct tok; [done|].
  match type of H with (if ?b then _ else _) = _ => destruct b eqn:E end; [|done].
  injection H as <- _. by apply andb_true_iff in E as [?%Z.leb_le ?%Z.leb_le].
Qed.

Lemma atoiSafe_int64 s : Scan.minInt64 <= atoiSafe s <= Scan.maxInt64.
Proof.
  unfold atoiSafe. destruct (Scan.scanInt _) as [[v rest]|] eqn:E.
  - by eapply scanInt_range.
  - unfold Scan.minInt64, Scan.maxInt64. lia.
Qed.

Lemma isDigit_value c :
  Scan.isDigit c = true -> 0 <= Z.of_nat (nat_of_ascii c) - 48 <= 9.
Proof.
  unfold Scan.isDigit. intros [H1%Nat.leb_le H2%Nat.leb_le]%andb_true_iff. lia.
Qed.

Lemma isDigit_not_sign c : Scan.isDigit c = true -> Scan.isSign c = false.
Proof.
  unfold Scan.isDigit, Scan.isSign.
  intros [H1%Nat.leb_le H2%Nat.leb_le]%andb_true_iff.
  apply orb_false_iff. split; apply Nat.eqb_neq; lia.
Qed.

(** The value of a run of digits is not negative. *)
Lemma span_digits_value s : forall acc tok rest,
  Str.span Scan.isDigit s = (tok, rest) -> 0 <= acc ->
  acc <= Scan.digitsValue acc tok.
Proof.
  induction s as [|c s IH]; intros acc tok rest H Hacc; simpl in H.
  { injection H as <- _. simpl. lia. }
  destruct (Scan.isDigit c) eqn:Ed; [|injection H as <- _; simpl; lia].
  destruct (Str.span Scan.isDigit s) as [a b] eqn:Es.
  injection H as <- _. simpl.
  pose proof (isDigit_value c Ed).
  specialize (IH (10 * acc + (Z.of_nat (nat_of_ascii c) - 48)) a b eq_refl).
  lia.
Qed.

(** X5 ([atoiSafe]): on ASCII text the value is a 64-bit integer, and it
    is 0 unless the trimmed text begins with a sign or a decimal digit, so a
    blank or non-numeric cell reads as 0; trimming first changes nothing;
    when the trimmed text begins with a digit, the value is that of its
    leading run of decimal digits, which ends at the first other character,
    an underscore included, provided it fits 64 bits. *)
Theorem atoiSafe_value s :
  Str.isASCII s = true ->
  Scan.minInt64 <= atoiSafe s <= Scan.maxInt64 /\
  (atoiSafe s <> 0 ->
   exists c rest, Str.TrimSpace s = String c rest /\
                  (Scan.isSign c = true \/ Scan.isDigit c = true)) /\
  atoiSafe (Str.TrimSpace s) = atoiSafe s /\
  (forall tok rest,
      Str.span Scan.isDigit (Str.TrimSpace s) = (tok, rest) -> tok <> "" ->
      Scan.digitsValue 0 tok <= Scan.maxInt64 ->
      atoiSafe s = Scan.digitsValue 0 tok).
Proof.
  intros _. split; [|split; [|split]].
  - apply atoiSafe_int64.
  - unfold atoiSafe, Scan.scanInt.
    destruct (TrimSpace_head s) as [-> | (c & r & -> & Ec)]; [done|].
    rewrite SkipSpace_nonspace by done. intros Hne.
    exists c, r. split; [done|].
    destruct (Scan.isSign c) eqn:Es; [by left|]. right.
    destruct (Scan.isDigit c) eqn:Ed; [done|]. exfalso. apply Hne.
    cbn [Str.span]. by rewrite Ed.
  - unfold atoiSafe. by rewrite TrimSpace_idem.
  - intros tok rest Hspan Htok Hmax. unfold atoiSafe, Scan.scanInt.
    destruct (TrimSpace_head s) as [E | (c & r & E & Ec)]; rewrite E in *.
    { simpl in Hspan. by injection Hspan as <- _. }
    rewrite SkipSpace_nonspace by done.
    assert (Scan.isDigit c = true) as Ed.
    { destruct (Scan.isDigit c) eqn:Ed; [done|].
      simpl in Hspan. rewrite Ed in Hspan. by injection Hspan as <- _. }
    rewrite (isDigit_not_sign c Ed), Hspan.
    pose proof (span_digits_value _ 0 tok rest Hspan ltac:(lia)) as Hpos.
    destruct tok as [|t0 tok']; [done|].
    destruct (Z.leb_spec Scan.minInt64 (Scan.digitsValue 0 (String t0 tok')))
      as [_|Hlt]; [|unfold Scan.minInt64 in Hlt; lia].
    by destruct (Z.leb_spec (Scan.digitsValue 0 (String t0 tok')) Scan.maxInt64)
      as [_|Hgt]; [|lia].
Qed.

Lemma atoiSafe_value_witness :
  Scan.minInt64 <= atoiSafe "1_000" <= Scan.maxInt64 /\
  (atoiSafe "1_000" <> 0 ->
   exists c rest, Str.TrimSpace "1_000" = String c rest /\
                  (Scan.isSign c = true \/ Scan.isDigit c = true)) /\
  atoiSafe (Str.TrimSpace "1_000") = atoiSafe "1_000" /\
  (forall tok rest,
      Str.span Scan.isDigit (Str.TrimSpace "1_000") = (tok, rest) -> tok <> "" ->
      Scan.digitsValue 0 tok <= Scan.maxInt64 ->
      atoiSafe "1_000" = Scan.digitsValue 0 tok).
Proof. apply (atoiSafe_value "1_000"). reflexivity. Defined.

(** Cells as the scanner reads them: the digits before an underscore, a
    signed number before a letter, and 0 for text or a number beyond 64
    bits. *)
Lemma atoiSafe_examples :
  atoiSafe "1_000" = 1 /\ atoiSafe " 42 " = 42 /\ atoiSafe "-7x" = -7 /\
  atoiSafe "+3" = 3 /\ atoiSafe "x" = 0 /\ atoiSafe "-" = 0 /\
  atoiSafe "" = 0 /\ atoiSafe "9223372036854775808" = 0.
Proof. by vm_compute. Qed.

(** ** Months *)

Lemma monthNumbers_lookup k n :
  monthNumbers !! k = Some n -> 1 <= n <= 12.
Proof.
  intros H. apply elem_of_list_to_map_2 in H.
  repeat (apply elem_of_cons in H as [[= -> ->] | H]; [lia|]).
  by apply elem_of_nil in H.
Qed.

(** X6 ([parseMonth]): a month that is accepted lies between 1 and 12;
    otherwise the result is 0 with the error text that quotes the input. *)
Theorem parseMonth_result s :
  match parseMonth s with
  | (n, None) => 1 <= n <= 12
  | (n, Some e) => n = 0 /\ e = "bulan tidak valid: " +:+ s
  end.
Proof.
  unfold parseMonth.
  destruct (monthNumbers !! _) as [n|] eqn:E; [by eapply monthNumbers_lookup|].
  destruct (Scan.scanInt s) as [[x rest]|]; [|done].
  destruct ((x >=? 1) && (x <=? 12)) eqn:Er; [|done].
  apply andb_true_iff in Er as [?%Z.geb_le ?%Z.leb_le]. lia.
Qed.

(** X7 ([monthNameID], [parseMonth]): the Indonesian name of a month reads
    back as the month exactly for the months 1 to 12; outside them the name
    is the question mark, which is not a month. *)
Theorem parseMonth_monthNameID m :
  (parseMonth (monthNameID m) = (m, None) <-> 1 <= m <= 12) /\
  (monthNameID m = "?" <-> ~ 1 <= m <= 12).
Proof.
  destruct (decide (1 <= m <= 12)) as [Hm|Hm].
  - assert (m = 1 \/ m = 2 \/ m = 3 \/ m = 4 \/ m = 5 \/ m = 6 \/ m = 7 \/ m = 8
            \/ m = 9 \/ m = 10 \/ m = 11 \/ m = 12) as H by lia.
    split; split.
    + done.
    + intros _. clear Hm.
      repeat (destruct H as [-> | H]; [by vm_compute|]). subst. by vm_compute.
    + intros E. exfalso. clear Hm.
      repeat (destruct H as [-> | H]; [by vm_compute in E|]). subst.
      by vm_compute in E.
    + done.
  - assert (monthNameID m = "?") as E.
    { unfold monthNameID.
      destruct (Z.geb_spec m 1), (Z.leb_spec m 12); simpl; try done. lia. }
    rewrite E. by split; split.
Qed.

(** ** The calendar *)

Lemma norm_spec hi lo base :
  0 < base -> norm hi lo base = (hi + lo / base, lo mod base).
Proof.
  intros Hb. unfold norm.
  destruct (Z.ltb_spec lo 0) as [Hneg|Hpos].
  - set (n := (- lo - 1) / base + 1).
    assert (0 <= lo + n * base < base) as Hr.
    { subst n. pose proof (Z.div_mod (- lo - 1) base ltac:(lia)).
      pose proof (Z.mod_pos_bound (- lo - 1) base Hb). nia. }
    destruct (Z.geb_spec (lo + n * base) base); [lia|].
    assert (lo / base = - n) as Hq.
    { symmetry. apply (Z.div_unique lo base (- n) (lo + n * base)); [lia|nia]. }
    assert (lo mod base = lo + n * base) as Hm.
    { symmetry. apply (Z.mod_unique lo base (- n) (lo + n * base)); [lia|nia]. }
    rewrite Hq, Hm. f_equal; lia.
  - destruct (Z.geb_spec lo base) as [Hge|Hlt].
    + rewrite Z.mod_eq by lia. f_equal; lia.
    + rewrite Z.div_small, Z.mod_small by lia. f_equal; lia.
Qed.

(** Leap days up to a year. *)
Lemma daysSinceEpoch_closed y :
  daysSinceEpoch y = 365 * (y - 1) + (y - 1) / 4 - (y - 1) / 100 + (y - 1) / 400.
Proof. unfold daysSinceEpoch. Z.div_mod_to_equations. lia. Qed.

Lemma isLeap_leapDays y :
  (if isLeap y then 1 else 0)
  = (y / 4 - y / 100 + y / 400) - ((y - 1) / 4 - (y - 1) / 100 + (y - 1) / 400).
Proof.
  unfold isLeap.
  destruct (Z.eqb_spec (y mod 4) 0), (Z.eqb_spec (y mod 100) 0),
    (Z.eqb_spec (y mod 400) 0); simpl; Z.div_mod_to_equations; lia.
Qed.

(** The civil date of a day given by a year that begins in March and a day
    of that year. *)
Lemma civilFromDays_march n Y doy :
  n + 306 = 365 * Y + (Y / 4 - Y / 100 + Y / 400) + doy ->
  0 <= doy <= 365 -> (doy = 365 -> isLeap (Y + 1) = true) ->
  civilFromDays n =
    (let mp := (5 * doy + 2) / 153 in
     let m := if mp <? 10 then mp + 3 else mp - 9 in
     (Y + (if m <=? 2 then 1 else 0), m, doy - (153 * mp + 2) / 5 + 1)).
Proof.
  intros Hn Hd Hleap. unfold civilFromDays. rewrite Hn. cbv zeta.
  pose (e := Y / 400). pose (r := Y mod 400).
  assert (Y = 400 * e + r /\ 0 <= r < 400) as [HY Hr].
  { subst e r. pose proof (Z.div_mod Y 400 ltac:(lia)).
    pose proof (Z.mod_pos_bound Y 400 ltac:(lia)). lia. }
  clearbody e r.
  assert (Y / 4 - Y / 100 + Y / 400 = 97 * e + r / 4 - r / 100) as HL.
  { rewrite HY. clear -Hr. Z.div_mod_to_equations. lia. }
  pose (doe := 365 * r + r / 4 - r / 100 + doy).
  assert (doy = 365 -> (r + 1) mod 4 = 0 /\
                       ((r + 1) mod 100 <> 0 \/ r + 1 = 400)) as Hleap'.
  { intros H. specialize (Hleap H). unfold isLeap in Hleap.
    apply andb_true_iff in Hleap as [H4 H100].
    apply Z.eqb_eq in H4. apply orb_true_iff in H100.
    rewrite negb_true_iff, Z.eqb_neq, Z.eqb_eq in H100.
    rewrite HY in H4, H100. clear -H4 H100 Hr. Z.div_mod_to_equations. lia. }
  assert (0 <= doe < 146097) as Hdoe.
  { subst doe. clear -Hr Hd Hleap'. Z.div_mod_to_equations. lia. }
  assert (365 * Y + (Y / 4 - Y / 100 + Y / 400) + doy = 146097 * e + doe) as ->.
  { rewrite HL. subst doe. lia. }
  assert ((146097 * e + doe) / 146097 = e) as ->.
  { symmetry. apply (Z.div_unique _ _ e doe); lia. }
  assert ((146097 * e + doe) mod 146097 = doe) as ->.
  { symmetry. apply (Z.mod_unique _ _ e doe); lia. }
  assert ((doe - doe / 1460 + doe / 36524 - doe / 146096) / 365 = r) as ->.
  { subst doe. clear -Hr Hd Hleap'. Z.div_mod_to_equations. lia. }
  assert (doe - (365 * r + r / 4 - r / 100) = doy) as -> by (subst doe; lia).
  repeat f_equal; lia.
Qed.

Ltac month_case y d Y c :=
  rewrite (civilFromDays_march _ Y (c + d - 1));
  [ cbv zeta;
    repeat match goal with
           | |- context [?a / ?b] =>
               let q := fresh "q" in
               lazymatch b with
               | 153 => idtac | 5 => idtac
               end;
               assert (exists q, a / b = q /\ b * q <= a < b * q + b) as (q & -> & ?)
                 by (eexists; split; [reflexivity|];
                     pose proof (Z.div_mod a b ltac:(lia));
                     pose proof (Z.mod_pos_bound a b ltac:(lia)); lia)
           end;
    repeat match goal with
           | |- context [?a <? ?b] => destruct (Z.ltb_spec a b); try lia
           | |- context [?a <=? ?b] => destruct (Z.leb_spec a b); try lia
           end;
    repeat f_equal; lia
  | unfold dateToDays; rewrite daysSinceEpoch_closed;
    pose proof (isLeap_leapDays y);
    repeat match goal with
           | H : isLeap y = _ |- _ => rewrite H in *; clear H
           end;
    try destruct (isLeap y); simpl in *; lia
  | lia
  | intros ?; try lia ].

(** The civil date of the day count of a date of the calendar is the
    date. *)
Lemma civil_dateToDays y m d :
  validDate y m d -> civilFromDays (dateToDays y m d) = (y, m, d).
Proof.
  intros [Hm Hd].
  assert (m = 1 \/ m = 2 \/ m = 3 \/ m = 4 \/ m = 5 \/ m = 6 \/ m = 7 \/ m = 8
          \/ m = 9 \/ m = 10 \/ m = 11 \/ m = 12) as H by lia.
  clear Hm.
  destruct H as [-> | [-> | [-> | [-> | [-> | [-> | [-> | [-> | [-> | [-> | [-> | ->]]]]]]]]]]];
    simpl in Hd.
  - month_case y d (y - 1) 306.
  - destruct (isLeap y) eqn:E; month_case y d (y - 1) 337.
    by replace (y - 1 + 1) with y by lia.
  - month_case y d y 0.
  - month_case y d y 31.
  - month_case y d y 61.
  - month_case y d y 92.
  - month_case y d y 122.
  - month_case y d y 153.
  - month_case y d y 184.
  - month_case y d y 214.
  - month_case y d y 245.
  - month_case y d y 275.
Qed.

(** The month of a civil date is a month, its day at most 31. *)
Lemma civilFromDays_range n :
  1 <= (civilFromDays n).1.2 <= 12 /\ 1 <= (civilFromDays n).2 <= 31.
Proof.
  unfold civilFromDays. cbv zeta. simpl.
  set (doe := (n + 306) mod 146097).
  assert (0 <= doe < 146097) as Hdoe by (apply Z.mod_pos_bound; lia).
  clearbody doe.
  set (yoe := (doe - doe / 1460 + doe / 36524 - doe / 146096) / 365).
  set (doy := doe - (365 * yoe + yoe / 4 - yoe / 100)).
  assert (0 <= doy <= 365) as Hdoy.
  { subst doy yoe. clear -Hdoe. Z.div_mod_to_equations. lia. }
  clearbody doy. clear -Hdoy.
  destruct (Z.ltb_spec ((5 * doy + 2) / 153) 10);
    Z.div_mod_to_equations; lia.
Qed.

Lemma dateToDays_day y m d k : dateToDays y m (d + k) = dateToDays y m d + k.
Proof. unfold dateToDays. lia. Qed.

(** The day after the last day of a month is the first of the next. *)
Lemma dateToDays_nextMonth y m :
  1 <= m <= 12 ->
  dateToDays y m (daysIn y m + 1)
  = dateToDays (nextMonth y m).1 (nextMonth y m).2 1.
Proof.
  intros Hm.
  assert (m = 1 \/ m = 2 \/ m = 3 \/ m = 4 \/ m = 5 \/ m = 6 \/ m = 7 \/ m = 8
          \/ m = 9 \/ m = 10 \/ m = 11 \/ m = 12) as H by lia.
  clear Hm.
  destruct H as [-> | [-> | [-> | [-> | [-> | [-> | [-> | [-> | [-> | [-> | [-> | ->]]]]]]]]]]];
    unfold dateToDays, nextMonth; simpl;
    try (destruct (isLeap y); simpl; lia).
  rewrite andb_false_r, !daysSinceEpoch_closed.
  pose proof (isLeap_leapDays y) as Hy. pose proof (isLeap_leapDays (y + 1)) as Hy1.
  replace (y + 1 - 1) with y in * by lia.
  destruct (isLeap y); simpl in *; lia.
Qed.

Lemma nextMonth_valid y m :
  1 <= m <= 12 ->
  1 <= (nextMonth y m).2 <= 12 /\ (nextMonth y m).2 <> m.
Proof.
  intros Hm. unfold nextMonth. destruct (Z.eqb_spec m 12); simpl; lia.
Qed.

Lemma daysIn_range y m : 28 <= daysIn y m <= 31.
Proof.
  unfold daysIn.
  repeat match goal with
         | |- context [match ?x with _ => _ end] => destruct x; try lia
         end.
Qed.

(** ** Times of day and dates *)

Lemma time_Date_midnight y m d loc :
  1 <= m <= 12 ->
  time_Date y m d 0 0 0 0 loc = midnight (dateToDays y m d) loc.
Proof.
  intros Hm. unfold time_Date, midnight.
  rewrite !norm_spec by lia.
  rewrite (Z.div_small (m - 1)), (Z.mod_small (m - 1)) by lia.
  repeat (rewrite ?Z.div_0_l, ?Z.mod_0_l, ?Z.add_0_r, ?Z.add_0_l by lia).
  replace (m - 1 + 1) with m by lia. f_equal; lia.
Qed.

(** With a month outside 1..12 the date is in another year. *)
Lemma time_Date_normalized y m d loc :
  time_Date y m d 0 0 0 0 loc
  = midnight (dateToDays (y + (m - 1) / 12) ((m - 1) mod 12 + 1) d) loc.
Proof.
  unfold time_Date, midnight. rewrite !norm_spec by lia.
  repeat (rewrite ?Z.div_0_l, ?Z.mod_0_l, ?Z.add_0_r, ?Z.add_0_l by lia).
  f_equal; lia.
Qed.

Lemma Date_midnight n loc : Date (midnight n loc) = civilFromDays n.
Proof.
  unfold Date, midnight. simpl. f_equal.
  replace (n * 86400 - loc + loc) with (n * 86400) by lia.
  by rewrite Z.div_mul.
Qed.

Lemma Weekday_midnight n loc : Weekday (midnight n loc) = (n + 1) mod 7.
Proof.
  unfold Weekday, midnight. simpl.
  replace (n * 86400 - loc + loc) with (n * 86400) by lia.
  by rewrite Z.div_mul.
Qed.

Lemma Clock_midnight n loc : Clock (midnight n loc) = (0, 0, 0).
Proof.
  unfold Clock, midnight. simpl.
  replace (n * 86400 - loc + loc) with (n * 86400) by lia.
  by rewrite Z.mod_mul.
Qed.

(** The next day of a date of the calendar, as the loop of [allSundays]
    computes it. *)
Lemma AddDate_midnight y m d loc :
  validDate y m d ->
  AddDate (midnight (dateToDays y m d) loc) 0 0 1
  = midnight (dateToDays y m d + 1) loc.
Proof.
  intros Hv. unfold AddDate.
  rewrite Date_midnight, civil_dateToDays, Clock_midnight by done.
  simpl. destruct Hv as [Hm _].
  replace (y + 0) with y by lia. replace (m + 0) with m by lia.
  by rewrite time_Date_midnight, dateToDays_day.
Qed.

Lemma Month_midnight n loc : Month (midnight n loc) = (civilFromDays n).1.2.
Proof. unfold Month. by rewrite Date_midnight. Qed.

Lemma Day_midnight n loc : Day (midnight n loc) = (civilFromDays n).2.
Proof. unfold Day. by rewrite Date_midnight. Qed.

(** A day beyond the end of its month is a day of the next month. *)
Lemma civil_overflow y m d :
  1 <= m <= 12 -> daysIn y m < d <= 31 ->
  (civilFromDays (dateToDays y m d)).1.2 = (nextMonth y m).2.
Proof.
  intros Hm Hd.
  replace d with (daysIn y m + 1 + (d - daysIn y m - 1)) by lia.
  rewrite dateToDays_day, dateToDays_nextMonth, <- dateToDays_day by done.
  rewrite civil_dateToDays; [done|].
  pose proof (nextMonth_valid y m Hm) as [? _].
  pose proof (daysIn_range y m).
  pose proof (daysIn_range (nextMonth y m).1 (nextMonth y m).2).
  split; [done|lia].
Qed.

(** X8 ([safeDate]): for a year of 32 bits, [safeDate] accepts exactly the
    dates of the calendar: for such a date it returns, without error, the
    midnight of that date in the location; for any other month and day (the
    30th of February, month 13, day 0) it returns the zero time and the error
    "tanggal tidak valid". *)
Theorem safeDate_calendar year month day loc :
  yearInRange year ->
  (validDate year month day ->
   exists t, safeDate year month day loc = (t, None) /\
             Date t = (year, month, day) /\ Clock t = (0, 0, 0) /\
             nsec t = 0 /\ zoneOffset t = loc) /\
  (~ validDate year month day ->
   safeDate year month day loc = (zeroTime, Some "tanggal tidak valid")).
Proof.
  intros _. split.
  - intros Hv. pose proof Hv as [Hm Hd].
    exists (midnight (dateToDays year month day) loc).
    unfold safeDate. rewrite time_Date_midnight by done.
    rewrite Month_midnight, Day_midnight, Date_midnight, Clock_midnight.
    rewrite civil_dateToDays by done. simpl.
    by rewrite !Z.eqb_refl.
  - intros Hnv. unfold safeDate. rewrite time_Date_normalized.
    rewrite Month_midnight, Day_midnight.
    set (n := dateToDays _ _ day).
    destruct (Z.eqb_spec (civilFromDays n).1.2 month) as [Em|Em]; [|done].
    destruct (Z.eqb_spec (civilFromDays n).2 day) as [Ed|Ed]; [|done].
    exfalso. pose proof (civilFromDays_range n) as [Hm Hd].
    rewrite Em in Hm. rewrite Ed in Hd.
    assert ((month - 1) / 12 = 0) as E1 by (apply Z.div_small; lia).
    assert ((month - 1) mod 12 + 1 = month) as E2
      by (rewrite Z.mod_small by lia; lia).
    subst n. rewrite E1, E2, Z.add_0_r in Em.
    destruct (Z.le_gt_cases day (daysIn year month)) as [Hle|Hgt].
    + apply Hnv. split; [done|lia].
    + rewrite civil_overflow in Em by lia.
      by destruct (nextMonth_valid year month Hm) as [_ Hne].
Qed.

Lemma safeDate_calendar_witness :
  exists t, safeDate 2025 8 17 25200 = (t, None) /\
            Date t = (2025, 8, 17) /\ Clock t = (0, 0, 0) /\
            nsec t = 0 /\ zoneOffset t = 25200.
Proof.
  assert (yearInRange 2025) as H by (unfold yearInRange; lia).
  assert (validDate 2025 8 17) as Hv by (unfold validDate; simpl; lia).
  exact (proj1 (safeDate_calendar 2025 8 17 25200 H) Hv).
Defined.

(** ** The Sundays of a month *)

Lemma sundaysFrom_elem loc k : forall n t,
  t ∈ sundaysFrom n k loc <->
  exists i, 0 <= i < Z.of_nat k /\ t = midnight (n + i) loc /\
            (n + i + 1) mod 7 = 0.
Proof.
  induction k as [|k IH]; intros n t; simpl.
  { split; [by intros ?%elem_of_nil|intros (i & ? & _); lia]. }
  rewrite elem_of_app, IH. split.
  - intros [H | (i & Hi & -> & Hs)].
    + destruct (Z.eqb_spec ((n + 1) mod 7) 0) as [E|E];
        [|by apply elem_of_nil in H].
      apply list_elem_of_singleton in H as ->.
      exists 0. rewrite !Z.add_0_r. split_and!; [lia|lia|done|done].
    + exists (i + 1). split_and!; [lia|lia|f_equal; lia|].
      by replace (n + (i + 1) + 1) with (n + 1 + i + 1) by lia.
  - intros (i & Hi & -> & Hs).
    destruct (decide (i = 0)) as [-> | Hne].
    + left. rewrite Z.add_0_r in *. rewrite Hs. simpl. by left.
    + right. exists (i - 1). split_and!; [lia|lia|f_equal; lia|].
      by replace (n + 1 + (i - 1) + 1) with (n + i + 1) by lia.
Qed.


(** The loop of [allSundays] from a day of the month on. *)
Lemma allSundaysLoop_month y m loc :
  1 <= m <= 12 ->
  forall (k : nat) fuel d res,
    1 <= d -> d + Z.of_nat k = daysIn y m + 1 -> (k < fuel)%nat ->
    allSundaysLoop fuel m (midnight (dateToDays y m d) loc) res
    = Some (res ++ sundaysFrom (dateToDays y m d) k loc).
Proof.
  intros Hm. induction k as [|k IH]; intros fuel d res Hd Hk Hf.
  - destruct fuel as [|fuel]; [lia|]. cbn [allSundaysLoop sundaysFrom].
    rewrite Month_midnight.
    replace d with (daysIn y m + 1) by lia.
    rewrite dateToDays_nextMonth by done. rewrite civil_dateToDays; cbn [fst snd].
    + destruct (nextMonth_valid y m Hm) as [_ Hne].
      destruct (Z.eqb_spec (nextMonth y m).2 m); [done|].
      by rewrite app_nil_r.
    + destruct (nextMonth_valid y m Hm) as [? _].
      pose proof (daysIn_range (nextMonth y m).1 (nextMonth y m).2).
      split; [done|lia].
  - destruct fuel as [|fuel]; [lia|].
    assert (validDate y m d) as Hv by (split; [done|lia]).
    cbn [allSundaysLoop sundaysFrom].
    rewrite Month_midnight, civil_dateToDays by done. cbn [fst snd].
    rewrite Z.eqb_refl, AddDate_midnight, Weekday_midnight by done.
    rewrite <- dateToDays_day, IH by lia. rewrite dateToDays_day.
    unfold Sunday. destruct (_ =? 0); simpl; [|done]. by rewrite <- app_assoc.
Qed.

Lemma allSundays_month fuel y m loc :
  1 <= m <= 12 -> (32 <= fuel)%nat ->
  allSundays fuel y m loc
  = Some (sundaysFrom (dateToDays y m 1) (Z.to_nat (daysIn y m)) loc).
Proof.
  intros Hm Hf. unfold allSundays. rewrite time_Date_midnight by done.
  pose proof (daysIn_range y m).
  by rewrite (allSundaysLoop_month y m loc Hm (Z.to_nat (daysIn y m))) by lia.
Qed.

(** X9 ([allSundays]): in a location of one fixed offset, for a year of
    32 bits and a month 1..12 the loop ends within 32 iterations, and its
    result holds exactly the dates [time.Date(year, month, d, 0, 0, 0, 0,
    loc)], for the days [d] of the month, that are Sundays; each of them
    reads back as year, month and [d]. *)
Theorem allSundays_sound_complete fuel year month offset :
  yearInRange year -> 1 <= month <= 12 -> (32 <= fuel)%nat ->
  exists res,
    allSundays fuel year month (FixedZone offset) = Some res /\
    forall t,
      t ∈ res <->
      exists d, 1 <= d <= daysIn year month /\
                t = time_Date year month d 0 0 0 0 (FixedZone offset) /\
                Weekday t = Sunday /\ Date t = (year, month, d).
Proof.
  unfold FixedZone.
  intros _ Hm Hf. eexists. split; [by apply allSundays_month|].
  intros t. rewrite sundaysFrom_elem.
  pose proof (daysIn_range year month). split.
  - intros (i & Hi & -> & Hs). exists (1 + i).
    rewrite time_Date_midnight, dateToDays_day by done.
    split_and!; [lia|lia|done| |].
    + by rewrite Weekday_midnight.
    + rewrite Date_midnight, <- dateToDays_day.
      apply civil_dateToDays. split; [done|lia].
  - intros (d & Hd & -> & Hw & _). exists (d - 1).
    rewrite time_Date_midnight in * by done.
    rewrite Weekday_midnight in Hw.
    replace (dateToDays year month d) with (dateToDays year month 1 + (d - 1))
      in * by (rewrite <- dateToDays_day; f_equal; lia).
    split_and!; [lia|lia|done|done].
Qed.

Lemma allSundays_sound_complete_witness :
  exists res,
    allSundays 32 2025 8 (FixedZone 25200) = Some res /\
    forall t,
      t ∈ res <->
      exists d, 1 <= d <= daysIn 2025 8 /\
                t = time_Date 2025 8 d 0 0 0 0 (FixedZone 25200) /\
                Weekday t = Sunday /\ Date t = (2025, 8, d).
Proof.
  apply (allSundays_sound_complete 32 2025 8 25200);
    [unfold yearInRange; lia|lia|lia].
Defined.




(** ** Placeholders *)

Lemma prefix_nil s : String.prefix "" s = true.
Proof. by destruct s. Qed.

Lemma append_nil_l s : "" +:+ s = s.
Proof. done. Qed.

Lemma noBrace_cons c s :
  noBrace (String c s) <-> c <> "{"%char /\ noBrace s.
Proof.
  unfold noBrace. cbn [Str.Contains String.prefix].
  assert (String.prefix "" s = true) as Hp by (by destruct s).
  destruct (Ascii.ascii_dec "{" c) as [<- | Hne]; cbn [orb].
  - rewrite Hp. split; [done|]. intros [H _]. by destruct H.
  - split; [intros H; split; [congruence|done]|by intros [_ H]].
Qed.

Lemma prefix_brace old c s :
  c <> "{"%char -> String.prefix (String "{" old) (String c s) = false.
Proof.
  intros Hne. cbn [String.prefix].
  destruct (Ascii.ascii_dec "{" c); [congruence|done].
Qed.

Lemma noBrace_app a b : noBrace (a +:+ b) <-> noBrace a /\ noBrace b.
Proof.
  induction a as [|c a IH].
  - change ("" +:+ b) with b. split; [by intros ?|by intros [_ ?]].
  - change (String c a +:+ b) with (String c (a +:+ b)).
    rewrite !noBrace_cons, IH. tauto.
Qed.

(** A replacement of a text that begins with a brace passes over text
    without braces. *)
Lemma replaceFrom_app_noBrace old new a t :
  noBrace a ->
  replaceFrom (String "{" old) new 0 (a +:+ t)
  = a +:+ replaceFrom (String "{" old) new 0 t.
Proof.
  induction a as [|c a IH]; intros Ha; [done|].
  apply noBrace_cons in Ha as [Hc Ha].
  change (String c a +:+ t) with (String c (a +:+ t)).
  cbn [replaceFrom]. rewrite prefix_brace by done. by rewrite IH.
Qed.

Lemma replaceFrom_noBrace old new a :
  noBrace a -> replaceFrom (String "{" old) new 0 a = a.
Proof.
  induction a as [|c a IH]; intros Ha; [done|].
  apply noBrace_cons in Ha as [Hc Ha].
  cbn [replaceFrom]. rewrite prefix_brace by done. by rewrite IH.
Qed.

Lemma noBrace_dayNameID wd : noBrace (dayNameID wd).
Proof.
  unfold dayNameID.
  repeat match goal with
         | |- context [match ?x with _ => _ end] => destruct x; try done
         end.
Qed.

Lemma noBrace_monthNameID m : noBrace (monthNameID m).
Proof.
  unfold monthNameID. destruct ((m >=? 1) && (m <=? 12)) eqn:E; [|done].
  apply andb_true_iff in E as [H1%Z.geb_le H2%Z.leb_le].
  assert (m = 1 \/ m = 2 \/ m = 3 \/ m = 4 \/ m = 5 \/ m = 6 \/ m = 7 \/ m = 8
          \/ m = 9 \/ m = 10 \/ m = 11 \/ m = 12) as H by lia.
  clear H1 H2.
  repeat (destruct H as [-> | H]; [done|]). by subst.
Qed.

Lemma noBrace_digitsOf fuel : forall u acc,
  noBrace acc -> noBrace (digitsOf fuel u acc).
Proof.
  induction fuel as [|fuel IH]; intros u acc Hacc; simpl; [done|].
  assert (noBrace (String (ascii_of_nat (48 + Z.to_nat (u mod 10))) acc)) as H.
  { apply noBrace_cons. split; [|done].
    pose proof (Z.mod_pos_bound u 10 ltac:(lia)) as Hb.
    assert (exists k, (k < 10)%nat /\ Z.to_nat (u mod 10) = k) as (k & Hk & ->)
      by (eexists; split; [|done]; lia).
    do 10 (destruct k as [|k]; [done|]). lia. }
  destruct (u <? 10); [done|]. by apply IH.
Qed.

Lemma noBrace_zeros n : noBrace (zeros n).
Proof. induction n; [done|]. simpl. by apply noBrace_cons. Qed.

Lemma noBrace_fmtZeroPadded w v : noBrace (fmtZeroPadded w v).
Proof.
  unfold fmtZeroPadded.
  assert (forall k, noBrace (zeros k +:+ digitsOf 20 (Z.abs v) "")) as H.
  { intros k. apply noBrace_app. split; [apply noBrace_zeros|].
    by apply noBrace_digitsOf. }
  destruct (v <? 0); [|apply H]. apply noBrace_cons. split; [done|apply H].
Qed.

(** X11 ([replacePlaceholders], [writeTemplateAware]): a text without an
    opening brace is returned unchanged, whatever the date; skipping such
    cells, as [writeTemplateAware] does, loses no replacement. *)
Theorem replacePlaceholders_noBrace s d loc :
  noBrace s -> replacePlaceholders s d loc = s.
Proof.
  intros Hs. unfold replacePlaceholders, ReplaceAll. cbv beta iota zeta.
  by rewrite !(replaceFrom_noBrace _ _ s Hs).
Qed.

Lemma replacePlaceholders_noBrace_witness :
  replacePlaceholders "Lektor 1" Demo.sunday1 25200 = "Lektor 1".
Proof. apply (replacePlaceholders_noBrace "Lektor 1" Demo.sunday1 25200). reflexivity. Defined.

(** X12 ([replacePlaceholders]): in a text that begins with a part without
    braces followed by one of the placeholders, the part is kept, the
    placeholder becomes the Indonesian day name, the two-digit day, the month
    name (for both month placeholders) or the four-digit year of the date,
    and the rest of the text is treated in the same way. *)
Theorem replacePlaceholders_step a rest d loc :
  noBrace a ->
  replacePlaceholders (a +:+ "{Day}" +:+ rest) d loc
  = a +:+ dayNameID (Weekday d) +:+ replacePlaceholders rest d loc /\
  replacePlaceholders (a +:+ "{dd}" +:+ rest) d loc
  = a +:+ fmtZeroPadded 2 (Day d) +:+ replacePlaceholders rest d loc /\
  replacePlaceholders (a +:+ "{MMM}" +:+ rest) d loc
  = a +:+ monthNameID (Month d) +:+ replacePlaceholders rest d loc /\
  replacePlaceholders (a +:+ "{MMMM}" +:+ rest) d loc
  = a +:+ monthNameID (Month d) +:+ replacePlaceholders rest d loc /\
  replacePlaceholders (a +:+ "{yyyy}" +:+ rest) d loc
  = a +:+ fmtZeroPadded 4 (Year d) +:+ replacePlaceholders rest d loc.
Proof.
  intros Ha. unfold replacePlaceholders, ReplaceAll. cbv beta iota zeta.
  pose proof (noBrace_dayNameID (Weekday d)) as Hday.
  pose proof (noBrace_fmtZeroPadded 2 (Day d)) as Hdd.
  pose proof (noBrace_monthNameID (Month d)) as Hmon.
  pose proof (noBrace_fmtZeroPadded 4 (Year d)) as Hyyyy.
  set (day := dayNameID _) in *. set (dd := fmtZeroPadded 2 _) in *.
  set (mon := monthNameID _) in *. set (yyyy := fmtZeroPadded 4 _) in *.
  clearbody day dd mon yyyy.
  split_and!;
    repeat first
      [ rewrite (replaceFrom_app_noBrace _ _ a) by done
      | rewrite (replaceFrom_app_noBrace _ _ day) by done
      | rewrite (replaceFrom_app_noBrace _ _ dd) by done
      | rewrite (replaceFrom_app_noBrace _ _ mon) by done
      | rewrite (replaceFrom_app_noBrace _ _ yyyy) by done
      | rewrite prefix_nil
      | rewrite append_nil_l
      | progress simpl ];
    reflexivity.
Qed.

Lemma replacePlaceholders_step_witness :
  replacePlaceholders ("Ibadah " +:+ "{Day}" +:+ ", {dd}") Demo.sunday1 0
  = "Ibadah " +:+ dayNameID (Weekday Demo.sunday1)
    +:+ replacePlaceholders ", {dd}" Demo.sunday1 0 /\
  replacePlaceholders ("Ibadah " +:+ "{dd}" +:+ ", {dd}") Demo.sunday1 0
  = "Ibadah " +:+ fmtZeroPadded 2 (Day Demo.sunday1)
    +:+ replacePlaceholders ", {dd}" Demo.sunday1 0 /\
  replacePlaceholders ("Ibadah " +:+ "{MMM}" +:+ ", {dd}") Demo.sunday1 0
  = "Ibadah " +:+ monthNameID (Month Demo.sunday1)
    +:+ replacePlaceholders ", {dd}" Demo.sunday1 0 /\
  replacePlaceholders ("Ibadah " +:+ "{MMMM}" +:+ ", {dd}") Demo.sunday1 0
  = "Ibadah " +:+ monthNameID (Month Demo.sunday1)
    +:+ replacePlaceholders ", {dd}" Demo.sunday1 0 /\
  replacePlaceholders ("Ibadah " +:+ "{yyyy}" +:+ ", {dd}") Demo.sunday1 0
  = "Ibadah " +:+ fmtZeroPadded 4 (Year Demo.sunday1)
    +:+ replacePlaceholders ", {dd}" Demo.sunday1 0.
Proof.
  apply (replacePlaceholders_step "Ibadah " ", {dd}" Demo.sunday1 0).
  reflexivity.
Defined.

(** ** Sheets and template rows *)

(** X13 ([findSheet]): the result is the first sheet of the workbook whose
    name equals one of the wanted names up to the case of letters, or the
    empty text when the workbook has no such sheet. *)
Theorem findSheet_first all names :
  (exists before after,
     all = before ++ findSheet all names :: after /\
     existsb (EqualFold (findSheet all names)) names = true /\
     forall s, s ∈ before -> existsb (EqualFold s) names = false) \/
  (findSheet all names = "" /\
   forall s n, s ∈ all -> n ∈ names -> EqualFold s n = false).
Proof.
  induction all as [|s rest IH]; simpl.
  { right. split; [done|]. by intros s n ?%elem_of_nil. }
  destruct (existsb (EqualFold s) names) eqn:E.
  - left. exists [], rest. split_and!; [done|done|]. by intros s' ?%elem_of_nil.
  - destruct IH as [(before & after & Hall & Hm & Hb) | [He Hno]].
    + left. exists (s :: before), after. split_and!; [by rewrite Hall at 1|done|].
      intros s' [-> | Hs]%elem_of_cons; [done|by apply Hb].
    + right. split; [done|].
      intros s' n [-> | Hs]%elem_of_cons Hn; [|by apply Hno].
      destruct (EqualFold s n) eqn:En; [|done].
      assert (existsb (EqualFold s) names = true); [|congruence].
      apply existsb_exists. exists n. split; [|done]. by apply list_elem_of_In.
Qed.

Lemma findRow_Some p rows : forall i r,
  findRow p i rows = Some r ->
  exists j label rest,
    rows !! j = Some (label :: rest) /\ p label = true /\
    r = i + Z.of_nat j + 1 /\
    forall j' label' rest', (j' < j)%nat -> rows !! j' = Some (label' :: rest') ->
                            p label' = false.
Proof.
  induction rows as [|row rows IH]; intros i r H; simpl in H; [done|].
  destruct row as [|c row'].
  - apply IH in H as (j & label & rest & Hj & Hp & -> & Hfirst).
    exists (S j), label, rest. split_and!; [done|done|lia|].
    intros [|j'] l' r' Hlt Hj'; [done|]. apply (Hfirst j' l' r'); [lia|done].
  - destruct (p c) eqn:Ep.
    + injection H as <-. exists 0%nat, c, row'. split_and!; [done|done|lia|].
      intros j' ? ? Hlt. lia.
    + apply IH in H as (j & label & rest & Hj & Hp & -> & Hfirst).
      exists (S j), label, rest. split_and!; [done|done|lia|].
      intros [|j'] l' r' Hlt Hj'.
      * simpl in Hj'. by injection Hj' as <- <-.
      * apply (Hfirst j' l' r'); [lia|done].
Qed.

Lemma findRow_None p rows : forall i,
  findRow p i rows = None ->
  forall label rest, (label :: rest) ∈ rows -> p label = false.
Proof.
  induction rows as [|row rows IH]; intros i H label rest Hin; simpl in H.
  { by apply elem_of_nil in Hin. }
  apply elem_of_cons in Hin as [<- | Hin].
  - by destruct (p label).
  - destruct row as [|c row']; [by eapply IH|].
    destruct (p c); [done|by eapply IH].
Qed.

(** X14 ([rowForRole]): the result is -1 or the 1-based number of a row of
    the sheet.  When a row's first cell, trimmed, equals the trimmed role up
    to the case of letters, the result is the first such row; only when there
    is none and the role is an escort role is it the first row whose label
    contains "majel" and "pend".  The flag for the service plays no part, so
    both services of a date write a role to the same row. *)
Theorem rowForRole_row f sheet role umum :
  let rows := GetRows f sheet in
  let exact := fun c => EqualFold (Str.TrimSpace c) (Str.TrimSpace role) in
  let fuzzy := fun c =>
    Str.Contains (Str.ToLower (Str.TrimSpace c)) "majel"
    && Str.Contains (Str.ToLower (Str.TrimSpace c)) "pend" in
  let r := rowForRole f sheet role umum in
  ((r = -1 /\
    (forall label rest, (label :: rest) ∈ rows -> exact label = false) /\
    (isMajelisPendamping role = true ->
     forall label rest, (label :: rest) ∈ rows -> fuzzy label = false)) \/
   (exists j label rest,
      r = Z.of_nat j + 1 /\ rows !! j = Some (label :: rest) /\
      ((exact label = true /\
        forall j' label' rest', (j' < j)%nat ->
          rows !! j' = Some (label' :: rest') -> exact label' = false) \/
       (isMajelisPendamping role = true /\ fuzzy label = true /\
        (forall label' rest', (label' :: rest') ∈ rows -> exact label' = false) /\
        forall j' label' rest', (j' < j)%nat ->
          rows !! j' = Some (label' :: rest') -> fuzzy label' = false)))) /\
  rowForRole f sheet role true = rowForRole f sheet role false.
Proof.
  intros rows exact fuzzy r. split; [|done].
  subst r. unfold rowForRole. fold rows. fold exact.
  destruct (findRow exact 0 rows) as [i|] eqn:E.
  - apply findRow_Some in E as (j & label & rest & Hj & Hp & -> & Hfirst).
    right. exists j, label, rest. split_and!; [lia|done|]. by left.
  - pose proof (findRow_None _ _ _ E) as Hno.
    destruct (isMajelisPendamping role) eqn:Emp.
    + match goal with
      | |- context [findRow ?p 0 rows] =>
          change (findRow p 0 rows) with (findRow fuzzy 0 rows)
      end.
      destruct (findRow fuzzy 0 rows) as [i|] eqn:E2.
      * apply findRow_Some in E2 as (j & label & rest & Hj & Hp & -> & Hfirst).
        right. exists j, label, rest. split_and!; [lia|done|]. by right.
      * left. split_and!; [done|done|]. intros _. by eapply findRow_None.
    + left. by split_and!.
Qed.

(** ** The master workbook *)

Lemma cellAt_nat (row : list string) (k : Z) :
  0 <= k < lenZ row -> row !! Z.to_nat k = Some (cellAt row k).
Proof.
  intros Hk. unfold cellAt.
  destruct (lookup_lt_is_Some_2 row (Z.to_nat k)) as [v ->];
    [unfold lenZ in Hk; lia|done].
Qed.

(** Every mark comes from a cell of the row under a header that is not
    blank, and is filed under the normalized header. *)
Lemma marksLoop_lookup head row : forall k marks key b,
  0 <= k ->
  marksLoop head k row marks !! key = Some b ->
  (exists (j : nat) hdr v,
     row !! j = Some v /\ head !! (Z.to_nat k + j)%nat = Some hdr /\
     Str.TrimSpace hdr <> "" /\ normKey hdr = key /\ b = isMarked v) \/
  marks !! key = Some b.
Proof.
  induction row as [|v rest IH]; intros k marks key b Hk H; simpl in H.
  { by right. }
  assert (forall marks',
            marksLoop head (k + 1) rest marks' !! key = Some b ->
            (exists (j : nat) hdr v0,
               (v :: rest) !! j = Some v0 /\
               head !! (Z.to_nat k + j)%nat = Some hdr /\
               Str.TrimSpace hdr <> "" /\ normKey hdr = key /\ b = isMarked v0)
            \/ marks' !! key = Some b) as Hrest.
  { intros marks' H'.
    assert (0 <= k + 1) as Hk1 by lia.
    destruct (IH _ _ _ _ Hk1 H') as [(j & hdr & v0 & Hj & Hh & ?) | ?];
      [|by right].
    left. exists (S j), hdr, v0. split; [done|]. split; [|done].
    by replace (Z.to_nat k + S j)%nat with (Z.to_nat (k + 1) + j)%nat by lia. }
  destruct (Z.geb_spec k (lenZ head)) as [Hge|Hlt]; [by apply Hrest|].
  destruct (String.eqb_spec (Str.TrimSpace (cellAt head k)) "") as [He|Hne];
    [by apply Hrest|].
  apply Hrest in H as [? | H]; [by left|].
  destruct (decide (normKey (Str.TrimSpace (cellAt head k)) = key)) as [Heq|Hneq].
  - rewrite Heq, lookup_insert_eq in H. injection H as <-.
    left. exists 0%nat, (cellAt head k), v.
    rewrite Nat.add_0_r, (cellAt_nat head k) by lia.
    split_and!; try done. by rewrite <- Heq, normKey_TrimSpace.
  - rewrite lookup_insert_ne in H by done. by right.
Qed.

Lemma peopleLoop_elem head nameCol penatuaCol rows : forall acc p,
  p ∈ peopleLoop head nameCol penatuaCol rows acc <->
  p ∈ acc \/ exists row, row ∈ rows /\
                         personOfRow head nameCol penatuaCol row = Some p.
Proof.
  induction rows as [|row rest IH]; intros acc p; simpl.
  { split; [by left|]. intros [? | (row & ?%elem_of_nil & _)]; done. }
  destruct (personOfRow head nameCol penatuaCol row) as [q|] eqn:E;
    rewrite IH.
  - rewrite elem_of_app, list_elem_of_singleton. split.
    + intros [[? | ->] | (row' & Hin & Hp)].
      * by left.
      * right. exists row. split; [by left|done].
      * right. exists row'. split; [by right|done].
    + intros [? | (row' & [-> | Hin]%elem_of_cons & Hp)].
      * by left; left.
      * left; right. congruence.
      * right. by exists row'.
  - split.
    + intros [? | (row' & Hin & Hp)]; [by left|].
      right. exists row'. split; [by right|done].
    + intros [? | (row' & [-> | Hin]%elem_of_cons & Hp)];
        [by left|congruence|]. right. by exists row'.
Qed.

Lemma mapsLoop_elem rc sc vc c7 c10 rows : forall acc m,
  m ∈ mapsLoop rc sc vc c7 c10 rows acc <->
  m ∈ acc \/ exists row, row ∈ rows /\ roleMapOfRow rc sc vc c7 c10 row = Some m.
Proof.
  induction rows as [|row rest IH]; intros acc m; simpl.
  { split; [by left|]. intros [? | (row & ?%elem_of_nil & _)]; done. }
  destruct (roleMapOfRow rc sc vc c7 c10 row) as [q|] eqn:E; rewrite IH.
  - rewrite elem_of_app, list_elem_of_singleton. split.
    + intros [[? | ->] | (row' & Hin & Hp)].
      * by left.
      * right. exists row. split; [by left|done].
      * right. exists row'. split; [by right|done].
    + intros [? | (row' & [-> | Hin]%elem_of_cons & Hp)].
      * by left; left.
      * left; right. congruence.
      * right. by exists row'.
  - split.
    + intros [? | (row' & Hin & Hp)]; [by left|].
      right. exists row'. split; [by right|done].
    + intros [? | (row' & [-> | Hin]%elem_of_cons & Hp)];
        [by left|congruence|]. right. by exists row'.
Qed.

(** The people [loadMaster] returns come from rows below the header of
    sheet Petugas, with the name taken from the column headed "nama". *)
Lemma loadMaster_people_rows f p :
  p ∈ (loadMaster f).1.1 ->
  exists head rows nameCol penatuaCol row,
    GetRows f (findSheet (GetSheetList f) ["Petugas"]) = head :: rows /\
    indexHeader head !! "nama" = Some nameCol /\
    penatuaCol = default (-1) (indexHeader head !! "penatua") /\
    row ∈ rows /\ personOfRow head nameCol penatuaCol row = Some p.
Proof.
  unfold loadMaster.
  destruct (String.eqb _ ""); [by intros ?%elem_of_nil|].
  destruct (String.eqb _ ""); [by intros ?%elem_of_nil|].
  destruct (GetRows f (findSheet (GetSheetList f) ["Petugas"]))
    as [|head rows] eqn:Erows; [by intros ?%elem_of_nil|].
  destruct (lenZ (head :: rows) <? 2); [by intros ?%elem_of_nil|].
  cbn [hd tail]. fold (indexHeader head).
  destruct (indexHeader head !! "nama") as [nameCol|] eqn:En;
    [|by intros ?%elem_of_nil].
  set (pc := match indexHeader head !! "penatua" with
             | Some idx => idx | None => -1 end).
  intros Hp.
  assert (p ∈ peopleLoop head nameCol pc rows []) as Hin.
  { revert Hp. destruct (lenZ _ <? 2); [done|].
    by destruct ((_ <? 0) || (_ <? 0)). }
  apply peopleLoop_elem in Hin as [?%elem_of_nil | (row & Hrow & Hper)]; [done|].
  by exists head, rows, nameCol, pc, row.
Qed.

(** X15 ([loadMaster]): every person read from a workbook of ASCII text has
    a name that is not empty and carries no surrounding white space, and
    every key of the marks is a header in normalized form (trimmed, lower
    case) that is not empty, so the lookups of the engine by [normKey]
    address it. *)
Theorem loadMaster_people_wellformed f :
  asciiFile f ->
  Forall (fun p =>
            Name p <> "" /\ Str.TrimSpace (Name p) = Name p /\
            forall key b, Marks p !! key = Some b ->
                          key <> "" /\ normKey key = key)
         (loadMaster f).1.1.
Proof.
  intros _. apply Forall_forall. intros p Hp.
  apply loadMaster_people_rows in Hp
    as (head & rows & nameCol & pc & row & _ & _ & _ & _ & Hper).
  unfold personOfRow in Hper.
  destruct (nameCol >=? lenZ row); [done|].
  destruct (String.eqb_spec (Str.TrimSpace (cellAt row nameCol)) "") as [|Hne];
    [done|].
  injection Hper as <-. simpl. split_and!; [done|apply TrimSpace_idem|].
  intros key b Hk.
  destruct (marksLoop_lookup head row 0 ∅ key b ltac:(lia) Hk)
    as [(j & hdr & v & _ & _ & Hh & <- & _) | Hk'];
    [|by rewrite lookup_empty in Hk'].
  split; [|apply normKey_idem]. by rewrite normKey_empty.
Qed.

Lemma loadMaster_people_wellformed_witness :
  Forall (fun p =>
            Name p <> "" /\ Str.TrimSpace (Name p) = Name p /\
            forall key b, Marks p !! key = Some b ->
                          key <> "" /\ normKey key = key)
         (loadMaster DemoBook.file).1.1.
Proof.
  apply (loadMaster_people_wellformed DemoBook.file).
  split; [by repeat constructor|].
  intros sheet. unfold DemoBook.file, GetRows.
  destruct (String.eqb sheet "petugas"); [by repeat constructor|].
  destruct (String.eqb sheet "MappingRole"); by repeat constructor.
Defined.

Lemma roleMapOfRow_wellformed rc sc vc c7 c10 row m :
  roleMapOfRow rc sc vc c7 c10 row = Some m ->
  Role m <> "" /\ Str.TrimSpace (Role m) = Role m /\
  SourceColumn m <> "" /\
  Str.TrimSpace (SourceColumn m) = SourceColumn m /\
  (Service m = "07" \/ Service m = "10" \/ Service m = "both") /\
  Scan.minInt64 <= Slots07 m <= Scan.maxInt64 /\
  Scan.minInt64 <= Slots10 m <= Scan.maxInt64.
Proof.
  unfold roleMapOfRow. intros Hm.
  destruct ((rc >=? lenZ row) || (sc >=? lenZ row)); [done|].
  destruct (String.eqb_spec (Str.TrimSpace (cellAt row rc)) "") as [|Hr];
    [done|].
  destruct (String.eqb_spec (Str.TrimSpace (cellAt row sc)) "") as [|Hs];
    [done|].
  injection Hm as <-. cbn [Role SourceColumn Service Slots07 Slots10].
  assert (Scan.minInt64 <= 0 <= Scan.maxInt64) as H0 by done.
  split; [done|]. split; [apply TrimSpace_idem|].
  split; [done|]. split; [apply TrimSpace_idem|].
  split; [|split].
  - repeat match goal with |- context [if ?b then _ else _] => destruct b end;
      auto.
  - destruct (_ && _); [apply atoiSafe_int64|apply H0].
  - destruct (_ && _); [apply atoiSafe_int64|apply H0].
Qed.

(** X16 ([loadMaster], [atoiSafe]): every role mapping read from a
    workbook of ASCII text has a role and a source column that are not empty and carry no
    surrounding white space, a service that is "07", "10" or "both", and slot
    counts that are 64-bit integers; and whenever an error is returned, no
    mapping is. *)
Theorem loadMaster_maps_wellformed f :
  asciiFile f ->
  Forall (fun m =>
            Role m <> "" /\ Str.TrimSpace (Role m) = Role m /\
            SourceColumn m <> "" /\
            Str.TrimSpace (SourceColumn m) = SourceColumn m /\
            (Service m = "07" \/ Service m = "10" \/ Service m = "both") /\
            Scan.minInt64 <= Slots07 m <= Scan.maxInt64 /\
            Scan.minInt64 <= Slots10 m <= Scan.maxInt64)
         (loadMaster f).1.2 /\
  ((loadMaster f).2 <> None -> (loadMaster f).1.2 = []).
Proof.
  intros _. unfold loadMaster.
  destruct (String.eqb _ ""); [by split|].
  destruct (String.eqb _ ""); [by split|].
  destruct (lenZ _ <? 2); [by split|].
  destruct (indexHeaderLoop 0 _ ∅ !! "nama") as [nameCol|]; [|by split].
  destruct (lenZ _ <? 2); [by split|].
  destruct ((_ <? 0) || (_ <? 0)); [by split|].
  split; [|done]. cbn [fst snd tail].
  apply Forall_forall. intros m Hm.
  apply mapsLoop_elem in Hm as [?%elem_of_nil | (row & _ & Hm)]; [done|].
  by eapply roleMapOfRow_wellformed.
Qed.

Lemma loadMaster_maps_wellformed_witness :
  Forall (fun m =>
            Role m <> "" /\ Str.TrimSpace (Role m) = Role m /\
            SourceColumn m <> "" /\
            Str.TrimSpace (SourceColumn m) = SourceColumn m /\
            (Service m = "07" \/ Service m = "10" \/ Service m = "both") /\
            Scan.minInt64 <= Slots07 m <= Scan.maxInt64 /\
            Scan.minInt64 <= Slots10 m <= Scan.maxInt64)
         (loadMaster DemoBook.file).1.2 /\
  ((loadMaster DemoBook.file).2 <> None -> (loadMaster DemoBook.file).1.2 = []).
Proof.
  apply (loadMaster_maps_wellformed DemoBook.file).
  split; [by repeat constructor|].
  intros sheet. unfold DemoBook.file, GetRows.
  destruct (String.eqb sheet "petugas"); [by repeat constructor|].
  destruct (String.eqb sheet "MappingRole"); by repeat constructor.
Defined.

(** X17 ([loadMaster], [filterCandidates]): on a workbook and a source
    column of ASCII text, a name becomes a candidate for the source column
    only through a row of sheet Petugas below the header:
    the name is the trimmed cell of that row in the column headed "nama", and
    the row holds a cell that counts as marked in a column whose header
    equals the source column up to case and surrounding white space; when an
    elder is required, the row's cell in the column headed "penatua" counts
    as marked too. *)
Theorem loadMaster_candidate_marked
    (mapRange : gset string -> list string) f src mustPenatua x :
  asciiFile f -> Str.isASCII src = true ->
  (forall s, mapRange s ≡ₚ elements s) ->
  x ∈ filterCandidates mapRange (loadMaster f).1.1 src mustPenatua ->
  exists head rows nameCol row (j : nat) hdr v,
    GetRows f (findSheet (GetSheetList f) ["Petugas"]) = head :: rows /\
    indexHeader head !! "nama" = Some nameCol /\
    row ∈ rows /\ x = Str.TrimSpace (cellAt row nameCol) /\
    head !! j = Some hdr /\ row !! j = Some v /\
    normKey hdr = normKey src /\ isMarked v = true /\
    (mustPenatua = true ->
     exists pc, indexHeader head !! "penatua" = Some pc /\
                isMarked (cellAt row pc) = true).
Proof.
  intros _ _ Hperm Hx.
  apply (filterCandidates_elem _ Hperm) in Hx as (p & Hp & <- & Hmark & Hpen).
  apply loadMaster_people_rows in Hp
    as (head & rows & nameCol & pc & row & Hrows & Hnama & Hpc & Hrow & Hper).
  unfold personOfRow in Hper.
  destruct (nameCol >=? lenZ row); [done|].
  destruct (String.eqb (Str.TrimSpace (cellAt row nameCol)) ""); [done|].
  injection Hper as <-. cbn [Name IsPenatua] in *.
  unfold marked in Hmark. cbn [Marks] in Hmark.
  destruct (marksLoop head 0 row ∅ !! normKey src) as [b|] eqn:Ek; [|done].
  subst b.
  destruct (marksLoop_lookup head row 0 ∅ _ _ ltac:(lia) Ek)
    as [(j & hdr & v & Hj & Hh & _ & Hkey & Hv) | Hk'];
    [|by rewrite lookup_empty in Hk'].
  exists head, rows, nameCol, row, j, hdr, v.
  split_and!; try done.
  intros ->. specialize (Hpen eq_refl).
  destruct ((pc >=? 0) && (pc <? lenZ row)) eqn:Ein; [|done].
  apply andb_true_iff in Ein as [Hge%Z.geb_le _].
  exists pc. split; [|done].
  destruct (indexHeader head !! "penatua") as [idx|]; simpl in Hpc; [by subst|].
  lia.
Qed.

Lemma loadMaster_candidate_marked_witness :
  exists head rows nameCol row (j : nat) hdr v,
    GetRows DemoBook.file (findSheet (GetSheetList DemoBook.file) ["Petugas"])
      = head :: rows /\
    indexHeader head !! "nama" = Some nameCol /\
    row ∈ rows /\ "Ana" = Str.TrimSpace (cellAt row nameCol) /\
    head !! j = Some hdr /\ row !! j = Some v /\
    normKey hdr = normKey "LEKTOR" /\ isMarked v = true /\
    (true = true ->
     exists pc, indexHeader head !! "penatua" = Some pc /\
                isMarked (cellAt row pc) = true).
Proof.
  apply (loadMaster_candidate_marked Demo.mapRange DemoBook.file "LEKTOR" true "Ana").
  - split; [by repeat constructor|].
    intros sheet. unfold DemoBook.file, GetRows.
    destruct (String.eqb sheet "petugas"); [by repeat constructor|].
    destruct (String.eqb sheet "MappingRole"); by repeat constructor.
  - reflexivity.
  - intros s. reflexivity.
  - apply (bool_decide_unpack _). vm_compute. exact I.
Defined.

(** * Further properties of the engine *)

(** ** Candidate pools *)

(** X18 ([uniq]): the result is in ascending order without repetition, holds
    exactly the elements of the input, and depends only on which elements
    occur in the input, not on their order or multiplicity; applying [uniq]
    again changes nothing. *)
Theorem uniq_canonical l :
  Sorted strLe (uniq l) /\ NoDup (uniq l) /\
  (forall x, x ∈ uniq l <-> x ∈ l) /\
  (forall l', (forall x, x ∈ l <-> x ∈ l') -> uniq l = uniq l') /\
  uniq (uniq l) = uniq l.
Proof.
  assert (forall l1 l2, (forall x, x ∈ l1 <-> x ∈ l2) -> uniq l1 = uniq l2) as Hc.
  { intros l1 l2 H. apply (Sorted_unique strLe); try apply uniq_sorted.
    apply NoDup_Permutation; try apply uniq_NoDup.
    intros x. by rewrite !uniq_elem. }
  split_and!; [apply uniq_sorted|apply uniq_NoDup|intros x; apply uniq_elem
              |apply Hc|].
  apply Hc. intros x. apply uniq_elem.
Qed.

(** X19 ([filterCandidates]): whatever the order in which the map of names
    is iterated, the result is in ascending order without repetition and
    holds exactly the names of people with a true mark under the normalized
    source column, restricted to elders when an elder is required; the elder
    candidates are among the candidates. *)
Theorem filterCandidates_characterised
    (mapRange : gset string -> list string) people src mustPenatua :
  (forall s, mapRange s ≡ₚ elements s) ->
  Sorted strLe (filterCandidates mapRange people src mustPenatua) /\
  NoDup (filterCandidates mapRange people src mustPenatua) /\
  (forall x, x ∈ filterCandidates mapRange people src mustPenatua <->
             exists p, p ∈ people /\ Name p = x /\
                       Marks p !! normKey src = Some true /\
                       (mustPenatua = true -> IsPenatua p = true)) /\
  filterCandidates mapRange people src mustPenatua
  = filterCandidates elements people src mustPenatua /\
  (forall x, x ∈ filterCandidates mapRange people src true ->
             x ∈ filterCandidates mapRange people src false).
Proof.
  intros Hperm.
  split_and!.
  - apply filterCandidates_sorted.
  - by apply filterCandidates_NoDup.
  - intros x. rewrite (filterCandidates_elem _ Hperm). unfold eligible, marked.
    split; intros (p & Hp & Hn & Hm & Hb); exists p; split_and!; try done.
    + by destruct (Marks p !! normKey src) as [[]|].
    + by rewrite Hm.
  - by apply filterCandidates_canonical.
  - intros x. rewrite !(filterCandidates_elem _ Hperm).
    intros (p & ? & ? & ? & ?). by exists p.
Qed.

Lemma filterCandidates_characterised_witness :
  Sorted strLe (filterCandidates Demo.reverseRange Demo.people "Lektor" false) /\
  NoDup (filterCandidates Demo.reverseRange Demo.people "Lektor" false) /\
  (forall x, x ∈ filterCandidates Demo.reverseRange Demo.people "Lektor" false <->
             exists p, p ∈ Demo.people /\ Name p = x /\
                       Marks p !! normKey "Lektor" = Some true /\
                       (false = true -> IsPenatua p = true)) /\
  filterCandidates Demo.reverseRange Demo.people "Lektor" false
  = filterCandidates elements Demo.people "Lektor" false /\
  (forall x, x ∈ filterCandidates Demo.reverseRange Demo.people "Lektor" true ->
             x ∈ filterCandidates Demo.reverseRange Demo.people "Lektor" false).
Proof.
  apply (filterCandidates_characterised Demo.reverseRange Demo.people "Lektor" false).
  intros s. apply reverse_Permutation.
Defined.

Lemma filterCandidatesSplitLoop_filter key people : forall pen jem,
  filterCandidatesSplitLoop key people pen jem
  = (pen ++ (Name <$> List.filter (fun p => marked p key && IsPenatua p) people),
     jem ++ (Name <$> List.filter (fun p => marked p key && negb (IsPenatua p))
                                  people)).
Proof.
  induction people as [|p rest IH]; intros pen jem; simpl.
  { by rewrite !app_nil_r. }
  destruct (marked p key), (IsPenatua p); simpl; rewrite IH;
    by rewrite <- ?app_assoc.
Qed.

(** X20 ([filterCandidatesSplit], [filterCandidates]): the two lists are the
    names, in roster order and with repetitions kept, of the marked elders and
    of the marked others; a name is in one of them exactly when
    [filterCandidates] lists it for the same column, and in the elder list
    exactly when [filterCandidates] lists it as an elder. *)
Theorem filterCandidatesSplit_partition
    (mapRange : gset string -> list string) people src :
  (forall s, mapRange s ≡ₚ elements s) ->
  filterCandidatesSplit people src
  = (Name <$> List.filter (fun p => marked p (normKey src) && IsPenatua p) people,
     Name <$> List.filter (fun p => marked p (normKey src) && negb (IsPenatua p))
                          people) /\
  (forall x, x ∈ (filterCandidatesSplit people src).1
             \/ x ∈ (filterCandidatesSplit people src).2 <->
             x ∈ filterCandidates mapRange people src false) /\
  (forall x, x ∈ (filterCandidatesSplit people src).1 <->
             x ∈ filterCandidates mapRange people src true).
Proof.
  intros Hperm. unfold filterCandidatesSplit.
  rewrite filterCandidatesSplitLoop_filter. cbn [app fst snd].
  split; [done|].
  assert (forall (f : Person -> bool) x,
            x ∈ Name <$> List.filter f people <->
            exists p, p ∈ people /\ Name p = x /\ f p = true) as Hf.
  { intros f x. rewrite list_elem_of_fmap. split.
    - intros (p & -> & Hp). apply list_elem_of_In, filter_In in Hp as [Hp Hfp].
      exists p. split_and!; [by apply list_elem_of_In|done|done].
    - intros (p & Hp & <- & Hfp). exists p. split; [done|].
      apply list_elem_of_In, filter_In. split; [by apply list_elem_of_In|done]. }
  split; intros x; rewrite (filterCandidates_elem _ Hperm), !Hf; unfold eligible.
  - split.
    + intros [(p & ? & ? & [? ?]%andb_true_iff) | (p & ? & ? & [? ?]%andb_true_iff)];
        exists p; by split_and!.
    + intros (p & ? & ? & Hm & _). destruct (IsPenatua p) eqn:E.
      * left. exists p. split_and!; try done. by rewrite Hm, E.
      * right. exists p. split_and!; try done. by rewrite Hm, E.
  - split.
    + intros (p & ? & ? & [? ?]%andb_true_iff). exists p. by split_and!.
    + intros (p & ? & ? & Hm & Hp). exists p. split_and!; try done.
      by rewrite Hm, Hp.
Qed.

Lemma filterCandidatesSplit_partition_witness :
  filterCandidatesSplit Demo.people "Kolektan"
  = (Name <$> List.filter (fun p => marked p (normKey "Kolektan") && IsPenatua p)
                          Demo.people,
     Name <$> List.filter (fun p => marked p (normKey "Kolektan")
                                    && negb (IsPenatua p)) Demo.people) /\
  (forall x, x ∈ (filterCandidatesSplit Demo.people "Kolektan").1
             \/ x ∈ (filterCandidatesSplit Demo.people "Kolektan").2 <->
             x ∈ filterCandidates Demo.mapRange Demo.people "Kolektan" false) /\
  (forall x, x ∈ (filterCandidatesSplit Demo.people "Kolektan").1 <->
             x ∈ filterCandidates Demo.mapRange Demo.people "Kolektan" true).
Proof.
  apply (filterCandidatesSplit_partition Demo.mapRange Demo.people "Kolektan").
  intros s. reflexivity.
Defined.

(** ** Role groups *)

Lemma baseRole_group_fix key : isGroupKey key = true -> baseRole key = key.
Proof.
  unfold isGroupKey. rewrite !orb_true_iff, !String.eqb_eq.
  intros [[[[-> | ->] | ->] | ->] | ->]; by vm_compute.
Qed.

Lemma baseRole_cases role :
  isGroupKey (baseRole role) = true \/ baseRole role = normKey role.
Proof.
  unfold baseRole. fold (normKey role).
  repeat match goal with
         | |- context [if ?b then _ else _] => destruct b; [by left|]
         end.
  by right.
Qed.

(** X21 ([baseRole]): the category of a role label of ASCII text does not
    depend on the case of letters or on surrounding white space, it is one of
    the five group keys or else the normalized label itself, and taking the
    category of a category changes nothing. *)
Theorem baseRole_normal role :
  Str.isASCII role = true ->
  baseRole (normKey role) = baseRole role /\
  baseRole (Str.ToLower role) = baseRole role /\
  baseRole (Str.TrimSpace role) = baseRole role /\
  (isGroupKey (baseRole role) = true \/ baseRole role = normKey role) /\
  baseRole (baseRole role) = baseRole role.
Proof.
  assert (forall a b, normKey a = normKey b -> baseRole a = baseRole b) as Hn.
  { intros a b H. unfold baseRole. fold (normKey a) (normKey b). by rewrite H. }
  intros _. split_and!.
  - apply Hn, normKey_idem.
  - apply Hn, normKey_ToLower.
  - apply Hn, normKey_TrimSpace.
  - apply baseRole_cases.
  - destruct (baseRole_cases role) as [Hk | Hr].
    + by apply baseRole_group_fix.
    + rewrite Hr. by rewrite (Hn (normKey role) role (normKey_idem role)).
Qed.

Lemma baseRole_normal_witness :
  baseRole (normKey " Lektor 1 ") = baseRole " Lektor 1 " /\
  baseRole (Str.ToLower " Lektor 1 ") = baseRole " Lektor 1 " /\
  baseRole (Str.TrimSpace " Lektor 1 ") = baseRole " Lektor 1 " /\
  (isGroupKey (baseRole " Lektor 1 ") = true
   \/ baseRole " Lektor 1 " = normKey " Lektor 1 ") /\
  baseRole (baseRole " Lektor 1 ") = baseRole " Lektor 1 ".
Proof. apply (baseRole_normal " Lektor 1 "). reflexivity. Defined.

Lemma groupLoop_filter svc maps : forall groups others,
  (groupLoop svc maps groups others).2
  = others ++ List.filter (fun m => negb (outOfService m svc)
                                    && negb (isGroupKey (baseRole (Role m)))) maps /\
  forall key,
    groupRows (groupLoop svc maps groups others).1 key
    = groupRows groups key
      ++ List.filter (fun m => negb (outOfService m svc)
                               && isGroupKey (baseRole (Role m))
                               && String.eqb (baseRole (Role m)) key) maps.
Proof.
  induction maps as [|m rest IH]; intros groups others; simpl.
  { split; [by rewrite app_nil_r|]. intros key. by rewrite app_nil_r. }
  destruct (outOfService m svc); simpl; [apply IH|].
  destruct (isGroupKey (baseRole (Role m))) eqn:Hk; simpl.
  - destruct (IH (<[baseRole (Role m) :=
                     default [] (groups !! baseRole (Role m)) ++ [m]]> groups)
                 others) as [H1 H2].
    split; [done|]. intros key. rewrite H2. unfold groupRows at 1.
    destruct (String.eqb_spec (baseRole (Role m)) key) as [<- | Hne].
    + rewrite lookup_insert_eq. simpl. unfold groupRows.
      by rewrite <- app_assoc.
    + by rewrite lookup_insert_ne.
  - destruct (IH groups (others ++ [m])) as [H1 H2].
    split; [|done]. by rewrite H1, <- app_assoc.
Qed.

Lemma groupLoop_keys svc maps : forall groups others key rows,
  (forall k r, groups !! k = Some r -> isGroupKey k = true /\ r <> []) ->
  (groupLoop svc maps groups others).1 !! key = Some rows ->
  isGroupKey key = true /\ rows <> [].
Proof.
  induction maps as [|m rest IH]; intros groups others key rows Hg; simpl.
  { apply Hg. }
  destruct (outOfService m svc); [by apply IH|].
  destruct (isGroupKey (baseRole (Role m))) eqn:Hk; [|by apply IH].
  apply IH. intros k r.
  destruct (decide (baseRole (Role m) = k)) as [<- | Hne].
  - rewrite lookup_insert_eq. intros [= <-]. split; [done|].
    by destruct (default [] _).
  - rewrite lookup_insert_ne by done. apply Hg.
Qed.

(** X22 ([groupMappingsForService]): the rows of a service (those whose
    service is the given one or "both") are split without loss or reordering:
    under each of the five group keys the rows of that category in their
    order in the mapping, and in [others] the rows of no category in their
    order; the map holds no other key and no empty group. *)
Theorem groupMappingsForService_partition maps svc :
  (groupMappingsForService maps svc).2
  = List.filter (fun m => negb (outOfService m svc)
                          && negb (isGroupKey (baseRole (Role m)))) maps /\
  (forall key,
     groupRows (groupMappingsForService maps svc).1 key
     = List.filter (fun m => negb (outOfService m svc)
                             && isGroupKey (baseRole (Role m))
                             && String.eqb (baseRole (Role m)) key) maps) /\
  (forall key rows,
     (groupMappingsForService maps svc).1 !! key = Some rows ->
     isGroupKey key = true /\ rows <> []).
Proof.
  unfold groupMappingsForService.
  destruct (groupLoop_filter svc maps ∅ []) as [H1 H2].
  split_and!; [done| |].
  - intros key. by rewrite H2.
  - intros key rows. apply groupLoop_keys. intros k r.
    by rewrite lookup_empty.
Qed.

(** ** Shuffling *)

(** X23 ([rand.Shuffle] as [generate] and [pickWithComposition] call it):
    with a generator that returns numbers below its bound, the shuffled list
    is a permutation of the list: no candidate is lost, added or repeated by
    shuffling. *)
Theorem Shuffle_permutes {Rng A} (int31n : Rng -> nat -> nat * Rng)
    (l : list A) r :
  (forall r n, (0 < n)%nat -> ((int31n r n).1 < n)%nat) ->
  (Shuffle int31n l r).1 ≡ₚ l /\
  length (Shuffle int31n l r).1 = length l.
Proof.
  intros _. pose proof (Shuffle_Permutation int31n l r) as H.
  split; [done|]. by rewrite H.
Qed.

Lemma Demo_int31n_bound r n : (0 < n)%nat -> ((Demo.int31n r n).1 < n)%nat.
Proof.
  intros Hn. unfold Demo.int31n. simpl.
  pose proof (Z.mod_pos_bound r (Z.of_nat n) ltac:(lia)). lia.
Qed.

Lemma Shuffle_permutes_witness :
  (Shuffle Demo.int31n ["Ana"; "Budi"; "Cici"] 7).1 ≡ₚ ["Ana"; "Budi"; "Cici"] /\
  length (Shuffle Demo.int31n ["Ana"; "Budi"; "Cici"] 7).1
  = length ["Ana"; "Budi"; "Cici"].
Proof.
  apply (Shuffle_permutes Demo.int31n ["Ana"; "Budi"; "Cici"] 7).
  apply Demo_int31n_bound.
Defined.

(** ** The composition picker *)

Lemma pickFrom_picked totalNeed pref usePrefer pool need ps :
  exists new,
    (pickFrom totalNeed pref pool need usePrefer ps).2 = pickAll new ps /\
    lenZ (ps_picked ps ++ new) <= Z.max totalNeed (lenZ (ps_picked ps)).
Proof.
  destruct (pickFrom_spec totalNeed pref usePrefer pool need ps)
    as (new & -> & _ & _ & _ & _ & Hlen).
  by exists new.
Qed.

Lemma pickFrom_taken totalNeed pref usePrefer pool need ps x :
  taken ps x = true ->
  taken (pickFrom totalNeed pref pool need usePrefer ps).2 x = true.
Proof.
  intros Ht.
  destruct (pickFrom_picked totalNeed pref usePrefer pool need ps)
    as (new & -> & _).
  destruct (taken (pickAll new ps) x) eqn:E; [done|].
  apply taken_pickAll in E as [_ E]. congruence.
Qed.

(** A pass without the fairness test stops short of the total only when
    every name of its pool is taken. *)
Lemma pickFrom_fill totalNeed pref pool : forall ps,
  let ps' := (pickFrom totalNeed pref pool
                       (totalNeed - lenZ (ps_picked ps)) false ps).2 in
  totalNeed <= lenZ (ps_picked ps') \/
  forall p, p ∈ pool -> taken ps' (Name p) = true.
Proof.
  induction pool as [|p rest IH]; intros ps; simpl.
  { right. by intros p ?%elem_of_nil. }
  destruct (Z.geb_spec (lenZ (ps_picked ps)) totalNeed) as [Hge|Hlt];
    [left; simpl; lia|].
  destruct (Z.leb_spec (totalNeed - lenZ (ps_picked ps)) 0) as [Hle|Hpos];
    [lia|].
  destruct (taken ps (Name p)) eqn:Ht.
  - destruct (IH ps) as [Hfull | Hall]; [by left|]. right.
    intros q [-> | Hq]%elem_of_cons; [|by apply Hall].
    by apply pickFrom_taken.
  - simpl.
    set (ps1 := mkPick (ps_picked ps ++ [Name p]) ({[Name p]} ∪ ps_used ps)
                       ({[Name p]} ∪ ps_already ps)
                       ({[Name p]} ∪ ps_anyToday ps)).
    replace (totalNeed - lenZ (ps_picked ps) - 1)
      with (totalNeed - lenZ (ps_picked ps1)).
    2:{ unfold ps1, lenZ. simpl. rewrite length_app. simpl. lia. }
    destruct (IH ps1) as [Hfull | Hall]; [by left|]. right.
    intros q [-> | Hq]%elem_of_cons; [|by apply Hall].
    apply pickFrom_taken. unfold taken, ps1. simpl.
    rewrite bool_decide_eq_true_2 by set_solver. done.
Qed.

Section CompositionBounds.
Context {Rng : Type} (int31n : Rng -> nat -> nat * Rng).
Variable strictCompositionFlag noRelaxB2BFlag : bool.
Variables candPen candJem : list Person.
Variables needPen needJem : Z.
Variable pref : string -> bool.
Variables already anyToday : gset string.
Variable r : Rng.

(** The variables of the picker when it reaches its last step. *)
Lemma pickWithComposition_last_step (I : PickState -> Prop) :
  I (mkPick [] ∅ already anyToday) ->
  (forall pool need up ps,
      I ps -> I (pickFrom (addInt needPen needJem) pref pool need up ps).2) ->
  exists ps6,
    I ps6 /\
    pickWithComposition int31n strictCompositionFlag noRelaxB2BFlag
      candPen candJem needPen needJem pref already anyToday r
    = (let '(ps, r') :=
         if negb strictCompositionFlag
            && (lenZ (ps_picked ps6) <? addInt needPen needJem)
         then
           let '(merged, r1) :=
             Shuffle int31n (remaining ps6 candPen ++ remaining ps6 candJem) r in
           let '(_, ps) :=
             pickFrom (addInt needPen needJem) pref merged
                      (addInt needPen needJem - lenZ (ps_picked ps6)) false ps6 in
           (ps, r1)
         else (ps6, r) in
       (ps_picked ps, ps_already ps, ps_anyToday ps, r')).
Proof.
  intros H0 Hstep. unfold pickWithComposition.
  set (T := addInt needPen needJem) in *.
  assert (forall (c : bool) pool need up ps,
            I ps ->
            exists need' ps',
              (if c then pickFrom T pref pool need up ps else (need, ps))
              = (need', ps') /\ I ps') as Hif.
  { intros c pool need up ps Hps. destruct c; [|by eauto].
    specialize (Hstep pool need up ps Hps).
    destruct (pickFrom T pref pool need up ps) as [n' ps'].
    by exists n', ps'. }
  destruct (Hif true candPen needPen true _ H0) as (n1 & ps1 & E1 & H1).
  cbv beta iota in E1. rewrite E1.
  destruct (Hif true candJem needJem true _ H1) as (n2 & ps2 & E2 & H2).
  cbv beta iota in E2. rewrite E2.
  destruct (Hif (n1 >? 0) (remaining ps2 candPen) n1 true _ H2)
    as (n3 & ps3 & E3 & H3). rewrite E3.
  destruct (Hif (n2 >? 0) (remaining ps3 candJem) n2 true _ H3)
    as (n4 & ps4 & E4 & H4). rewrite E4.
  destruct (Hif (negb noRelaxB2BFlag && (n3 >? 0)) (remaining ps4 candPen)
                n3 false _ H4) as (n5 & ps5 & E5 & H5). rewrite E5.
  destruct (Hif (negb noRelaxB2BFlag && (n4 >? 0)) (remaining ps5 candJem)
                n4 false _ H5) as (n6 & ps6 & E6 & H6). rewrite E6.
  by exists ps6.
Qed.

(** X24 ([pickWithComposition]): the picker returns at most
    [needPen + needJem] names (none when the sum is not positive), all
    distinct, all from the two pools and none that was in either shared set
    at the call; on return both shared sets hold exactly their former
    members and the picks. *)
Theorem pickWithComposition_bounded picked already' anyToday' r' :
  pickWithComposition int31n strictCompositionFlag noRelaxB2BFlag
    candPen candJem needPen needJem pref already anyToday r
  = (picked, already', anyToday', r') ->
  lenZ picked <= Z.max 0 (addInt needPen needJem) /\
  NoDup picked /\
  (forall x, x ∈ picked ->
     x ∈ Name <$> (candPen ++ candJem) /\ (x ∉ already) /\ x ∉ anyToday) /\
  already' = list_to_set picked ∪ already /\
  anyToday' = list_to_set picked ∪ anyToday.
Proof.
  intros Heq. split; [|by eapply pickWithComposition_spec].
  set (T := addInt needPen needJem).
  assert (forall pool need up ps,
            lenZ (ps_picked ps) <= Z.max 0 T ->
            lenZ (ps_picked (pickFrom T pref pool need up ps).2) <= Z.max 0 T)
    as Hstep.
  { intros pool need up ps Hps.
    destruct (pickFrom_picked T pref up pool need ps) as (new & -> & Hlen).
    rewrite pickAll_picked. lia. }
  destruct (pickWithComposition_last_step
              (fun ps => lenZ (ps_picked ps) <= Z.max 0 T))
    as (ps6 & H6 & E); [unfold lenZ; simpl; lia|done|].
  rewrite E in Heq. clear E.
  destruct (negb strictCompositionFlag && _).
  - destruct (Shuffle int31n _ r) as [merged r1].
    specialize (Hstep merged (T - lenZ (ps_picked ps6)) false ps6 H6).
    fold T in Heq.
    destruct (pickFrom T pref merged _ false ps6) as [n ps7].
    by injection Heq as <- _ _ _.
  - by injection Heq as <- _ _ _.
Qed.

(** X25 ([pickWithComposition], relax-any step): without
    [-strictComposition] the picker returns fewer than
    [needPen + needJem] names only when the pools are exhausted: every name
    of both pools is then in one of the shared sets, picked now or assigned
    before. *)
Theorem pickWithComposition_fills picked already' anyToday' r' :
  strictCompositionFlag = false ->
  pickWithComposition int31n strictCompositionFlag noRelaxB2BFlag
    candPen candJem needPen needJem pref already anyToday r
  = (picked, already', anyToday', r') ->
  addInt needPen needJem <= lenZ picked \/
  forall x, x ∈ Name <$> (candPen ++ candJem) ->
            x ∈ already' \/ x ∈ anyToday'.
Proof.
  intros Hs Heq.
  set (T := addInt needPen needJem) in *.
  pose proof Heq as Heq'.
  apply pickWithComposition_spec in Heq' as (_ & _ & Ha & Hy).
  destruct (pickWithComposition_last_step
              (fun ps => ps_used ps ⊆ ps_already ps))
    as (ps6 & H6 & E); [simpl; set_solver| |].
  { intros pool need up ps Hps.
    destruct (pickFrom_picked (addInt needPen needJem) pref up pool need ps)
      as (new & -> & _).
    rewrite pickAll_used, pickAll_already. set_solver. }
  rewrite E in Heq. clear E. fold T in Heq. rewrite Hs in Heq.
  cbn [negb andb] in Heq.
  destruct (Z.ltb_spec (lenZ (ps_picked ps6)) T) as [Hlt|Hge].
  2:{ injection Heq as <- _ _ _. by left. }
  destruct (Shuffle int31n _ r) as [merged r1] eqn:Hsh.
  pose proof (pickFrom_fill T pref merged ps6) as Hfill.
  pose proof (pickFrom_picked T pref false merged
                              (T - lenZ (ps_picked ps6)) ps6)
    as (new & Hnew & _).
  cbv zeta in Hfill.
  destruct (pickFrom T pref merged _ false ps6) as [n ps7].
  simpl in Hfill, Hnew. injection Heq as <- <- <- _.
  destruct Hfill as [Hfull | Hall]; [by left|]. right.
  intros x (p & -> & Hp)%list_elem_of_fmap.
  assert (taken ps7 (Name p) = true) as Ht.
  { destruct (taken ps6 (Name p)) eqn:Et.
    - subst ps7. destruct (taken (pickAll new ps6) (Name p)) eqn:E; [done|].
      apply taken_pickAll in E as [_ E]. congruence.
    - apply Hall.
      assert (p ∈ remaining ps6 candPen ++ remaining ps6 candJem) as Hm.
      { apply elem_of_app in Hp. rewrite elem_of_app. unfold remaining.
        destruct Hp as [Hp | Hp]; [left|right];
          apply list_elem_of_In, filter_In;
          (split; [by apply list_elem_of_In|by rewrite Et]). }
      pose proof (Shuffle_Permutation int31n
                    (remaining ps6 candPen ++ remaining ps6 candJem) r) as Hperm.
      rewrite Hsh in Hperm. simpl in Hperm. by rewrite Hperm. }
  assert (ps_used ps7 ⊆ ps_already ps7) as Hu.
  { subst ps7. rewrite pickAll_used, pickAll_already. set_solver. }
  unfold taken in Ht. rewrite !orb_true_iff, !bool_decide_eq_true in Ht.
  set_solver.
Qed.

End CompositionBounds.

Lemma pickWithComposition_bounded_witness :
  lenZ ["Ana"; "Cici"] <= Z.max 0 (addInt 1 1) /\
  NoDup ["Ana"; "Cici"] /\
  (forall x, x ∈ ["Ana"; "Cici"] ->
     x ∈ Name <$> ([mkPerson "Ana" true ∅] ++ [mkPerson "Cici" false ∅]) /\
     (x ∉ (∅ : gset string)) /\ x ∉ (∅ : gset string)) /\
  ({["Ana"; "Cici"]} : gset string) = list_to_set ["Ana"; "Cici"] ∪ ∅ /\
  ({["Ana"; "Cici"]} : gset string) = list_to_set ["Ana"; "Cici"] ∪ ∅.
Proof.
  apply (pickWithComposition_bounded Demo.int31n false false
           [mkPerson "Ana" true ∅] [mkPerson "Cici" false ∅] 1 1
           (prefer zeroTime ∅) ∅ ∅ (42 : Demo.Rng)
           ["Ana"; "Cici"] {["Ana"; "Cici"]} {["Ana"; "Cici"]} 42).
  vm_compute. reflexivity.
Defined.

Lemma pickWithComposition_fills_witness :
  addInt 2 0 <= lenZ ["Ana"; "Cici"] \/
  forall x, x ∈ Name <$> ([mkPerson "Ana" true ∅] ++ [mkPerson "Cici" false ∅]) ->
            x ∈ ({["Ana"; "Cici"]} : gset string) \/
            x ∈ ({["Ana"; "Cici"]} : gset string).
Proof.
  apply (pickWithComposition_fills Demo.int31n false false
           [mkPerson "Ana" true ∅] [mkPerson "Cici" false ∅] 2 0
           (prefer zeroTime ∅) ∅ ∅ (42 : Demo.Rng)
           ["Ana"; "Cici"] {["Ana"; "Cici"]} {["Ana"; "Cici"]} 42).
  - reflexivity.
  - vm_compute. reflexivity.
Defined.

(** ** Fairness of the phases *)

Lemma applyWrites_mono ws : forall m role,
  is_Some (m !! role) -> is_Some (applyWrites ws m !! role).
Proof.
  induction ws as [|[r l] ws IH]; intros m role H; simpl; [done|].
  apply IH. destruct (decide (r = role)) as [-> | Hne].
  - rewrite lookup_insert_eq. eauto.
  - by rewrite lookup_insert_ne.
Qed.

Lemma elem_of_writes (ws : list (string * list string)) x :
  x ∈ concat ws.*2 <-> exists role names, (role, names) ∈ ws /\ x ∈ names.
Proof.
  rewrite list_elem_of_In, in_concat. split.
  - intros (l & Hl & Hx). apply list_elem_of_In, list_elem_of_fmap in Hl
      as ([role names] & -> & Hw).
    exists role, names. split; [done|by apply list_elem_of_In].
  - intros (role & names & Hw & Hx). exists names.
    split; [|by apply list_elem_of_In].
    apply list_elem_of_In, list_elem_of_fmap. by exists (role, names).
Qed.

Lemma elem_of_writes_role (ws : list (string * list string)) role names :
  (role, names) ∈ ws -> role ∈ ws.*1.
Proof. intros H. apply list_elem_of_fmap. by exists (role, names). Qed.

Lemma sameDay_refl t : sameDay t t = true.
Proof.
  unfold sameDay. destruct (Date t) as [[y m] d]. by rewrite !Z.eqb_refl.
Qed.

Section FairLemmas.
Context {Rng : Type}.
Implicit Types st : State Rng.

Lemma PhaseFair_nil Fr Gd d prev svc st : PhaseFair Fr Gd d prev svc st st [].
Proof.
  split; simpl; try done; try (intros x Hx; by apply elem_of_nil in Hx);
    try (intros r l x Hx; by apply elem_of_nil in Hx).
  intros x. by left.
Qed.

Lemma PhaseFair_trans Fr Gd d prev svc st st1 st2 ws1 ws2 :
  PhaseFair Fr Gd d prev svc st st1 ws1 ->
  PhaseFair Fr Gd d prev svc st1 st2 ws2 ->
  PhaseFair Fr Gd d prev svc st st2 (ws1 ++ ws2).
Proof.
  intros H1 H2. split.
  - rewrite applyWrites_app, <- (pf_slots _ _ _ _ _ _ _ _ H1). apply H2.
  - intros d' svc' Hne.
    rewrite (pf_frame _ _ _ _ _ _ _ _ H2), (pf_frame _ _ _ _ _ _ _ _ H1); done.
  - etrans; [apply H1|apply H2].
  - intros x. rewrite fmap_app, concat_app, elem_of_app. intros [Hx|Hx].
    + apply (pf_today_mono _ _ _ _ _ _ _ _ H2).
      by apply (pf_today _ _ _ _ _ _ _ _ H1).
    + by apply (pf_today _ _ _ _ _ _ _ _ H2).
  - intros role names x [Hw|Hw]%elem_of_app Hx HF.
    + by eapply (pf_fresh _ _ _ _ _ _ _ _ H1).
    + intros Hin. eapply (pf_fresh _ _ _ _ _ _ _ _ H2); [done..|].
      by apply (pf_today_mono _ _ _ _ _ _ _ _ H1).
  - intros x. rewrite fmap_app, concat_app, elem_of_app. intros [Hx|Hx].
    + destruct (pf_last _ _ _ _ _ _ _ _ H2 x) as [-> | [? _]]; [|done].
      by apply (pf_recorded _ _ _ _ _ _ _ _ H1).
    + by apply (pf_recorded _ _ _ _ _ _ _ _ H2).
  - intros x. destruct (pf_last _ _ _ _ _ _ _ _ H2 x) as [-> | ?]; [|by right].
    destruct (pf_last _ _ _ _ _ _ _ _ H1 x) as [-> | [? ?]]; [by left|].
    right. split; [done|]. by apply (pf_today_mono _ _ _ _ _ _ _ _ H2).
  - intros role names x [Hw|Hw]%elem_of_app Hx HF HG.
    + by eapply (pf_prefer _ _ _ _ _ _ _ _ H1).
    + rewrite <- (pf_prefer _ _ _ _ _ _ _ _ H2 role names x Hw Hx HF HG).
      apply prefer_lookup.
      destruct (pf_last _ _ _ _ _ _ _ _ H1 x) as [-> | [_ Hin]]; [done|].
      by destruct (pf_fresh _ _ _ _ _ _ _ _ H2 role names x Hw Hx HF).
Qed.

Lemma PhaseFair_weaken (Fr Gd Fr' Gd' : string -> Prop) d prev svc st st' ws :
  (forall role, role ∈ ws.*1 -> Fr' role -> Fr role) ->
  (forall role, role ∈ ws.*1 -> Gd' role -> Gd role) ->
  PhaseFair Fr Gd d prev svc st st' ws -> PhaseFair Fr' Gd' d prev svc st st' ws.
Proof.
  intros HF HG [Hs Hf Hm Ht Hfr Hrec Hl Hp]. split; try done.
  - intros role names x Hw Hx HF'. eapply Hfr; [done..|].
    apply HF; [by eapply elem_of_writes_role|done].
  - intros role names x Hw Hx HF' HG'. eapply Hp; [done..| |].
    + apply HF; [by eapply elem_of_writes_role|done].
    + apply HG; [by eapply elem_of_writes_role|done].
Qed.

(** A phase given by the names it marks and the slots it writes. *)
Lemma PhaseFair_intro (Fr Gd : string -> Prop) d prev svc st st' ws picked :
  slotsOf (assign st') d svc = applyWrites ws (slotsOf (assign st) d svc) ->
  (forall d' svc', d' <> d \/ svc' <> svc ->
      slotsOf (assign st') d' svc' = slotsOf (assign st) d' svc') ->
  assignedAnyToday st' = list_to_set picked ∪ assignedAnyToday st ->
  (forall x, x ∈ concat ws.*2 -> x ∈ picked) ->
  (forall x, x ∈ concat ws.*2 -> lastAssigned st' !! x = Some d) ->
  (forall x, lastAssigned st' !! x = lastAssigned st !! x \/
             (lastAssigned st' !! x = Some d /\ x ∈ picked)) ->
  (forall role, role ∈ ws.*1 -> Fr role ->
     forall x, x ∈ picked -> x ∉ assignedAnyToday st) ->
  (forall role, role ∈ ws.*1 -> Fr role -> Gd role ->
     forall x, x ∈ picked -> prefer prev (lastAssigned st) x = true) ->
  PhaseFair Fr Gd d prev svc st st' ws.
Proof.
  intros Hs Hf Hany Hsub Hrec Hlast Hfresh Hpref. split; try done.
  - rewrite Hany. set_solver.
  - intros x Hx%Hsub. rewrite Hany. set_solver.
  - intros role names x Hw Hx HF. eapply Hfresh; [|done|].
    + by eapply elem_of_writes_role.
    + apply Hsub, elem_of_writes. eauto.
  - intros x. destruct (Hlast x) as [? | [? ?]]; [by left|right].
    split; [done|]. rewrite Hany. set_solver.
  - intros role names x Hw Hx HF HG. eapply Hpref; [|done..|].
    + by eapply elem_of_writes_role.
    + apply Hsub, elem_of_writes. eauto.
Qed.

Lemma lastAssigned_markAll_cases svc d picked st x :
  lastAssigned (markAll svc d picked st) !! x = lastAssigned st !! x \/
  (lastAssigned (markAll svc d picked st) !! x = Some d /\ x ∈ picked).
Proof.
  destruct (decide (x ∈ picked)) as [Hin | Hnot].
  - right. split; [by apply lastAssigned_markAll_in|done].
  - left. by apply lastAssigned_markAll_notin.
Qed.

(** Picks marked from [st], then written to one slot. *)
Lemma PhaseFair_row (Fr Gd : string -> Prop) d prev svc st r role picked :
  (Fr role -> forall x, x ∈ picked -> x ∉ assignedAnyToday st) ->
  (Fr role -> Gd role ->
   forall x, x ∈ picked -> prefer prev (lastAssigned st) x = true) ->
  PhaseFair Fr Gd d prev svc st
    (setSlot d svc role picked (markAll svc d picked (setRng r st)))
    [(role, picked)].
Proof.
  intros Hfresh Hpref.
  assert (concat [(role, picked)].*2 = picked) as Hc
    by (simpl; apply app_nil_r).
  apply (PhaseFair_intro Fr Gd d prev svc st _ _ picked); rewrite ?Hc.
  - by rewrite slotsOf_setSlot_eq, assign_markAll.
  - intros d' svc' Hne. by rewrite slotsOf_setSlot_ne, assign_markAll.
  - change (assignedAnyToday (setSlot ?a ?b ?c ?e ?s))
      with (assignedAnyToday s). by rewrite anyToday_markAll.
  - done.
  - intros x Hx. change (lastAssigned (setSlot ?a ?b ?c ?e ?s))
      with (lastAssigned s). by apply lastAssigned_markAll_in.
  - intros x. change (lastAssigned (setSlot ?a ?b ?c ?e ?s))
      with (lastAssigned s).
    apply (lastAssigned_markAll_cases svc d picked (setRng r st) x).
  - intros role' ->%list_elem_of_singleton. done.
  - intros role' ->%list_elem_of_singleton. done.
Qed.

(** Picks marked from [st], then written to the rows of a capped group. *)
Lemma PhaseFair_singles (Fr Gd : string -> Prop) d prev svc st r rows picked :
  (forall x, x ∈ picked -> x ∉ assignedAnyToday st) ->
  (forall role, Gd role ->
   forall x, x ∈ picked -> prefer prev (lastAssigned st) x = true) ->
  PhaseFair Fr Gd d prev svc st
    (writeSingles d svc rows picked (markAll svc d picked (setRng r st)))
    (rowWrites rows picked).
Proof.
  intros Hfresh Hpref.
  destruct (writeSingles_spec d svc rows picked
              (markAll svc d picked (setRng r st)))
    as (W1 & W2 & _ & W4 & W5 & _).
  assert (forall x, x ∈ concat (rowWrites rows picked).*2 -> x ∈ picked) as Hsub.
  { intros x. rewrite rowWrites_names. apply subseteq_take. }
  apply (PhaseFair_intro Fr Gd d prev svc st _ _ picked).
  - by rewrite W1, assign_markAll.
  - intros d' svc' Hne. by rewrite W2, assign_markAll.
  - by rewrite W4, anyToday_markAll.
  - done.
  - intros x Hx%Hsub. rewrite W5. by apply lastAssigned_markAll_in.
  - intros x. rewrite W5.
    apply (lastAssigned_markAll_cases svc d picked (setRng r st) x).
  - intros role _ _. done.
  - intros role _ _ HG. by apply (Hpref role).
Qed.

Lemma lastAssigned_writeComposition d svc rows : forall picked st x,
  lastAssigned (writeComposition d svc rows picked st) !! x
  = if decide (x ∈ take (length rows) picked) then Some d
    else lastAssigned st !! x.
Proof.
  induction rows as [|rm rows IH]; intros picked st x.
  { cbn [writeComposition length take].
    by rewrite decide_False by apply not_elem_of_nil. }
  destruct picked as [|p ps]; cbn [writeComposition length take].
  - rewrite IH. rewrite take_nil.
    by rewrite !decide_False by apply not_elem_of_nil.
  - rewrite IH. destruct (decide (x ∈ take (length rows) ps)) as [Hin|Hnot].
    + rewrite decide_True; [done|]. by apply elem_of_cons; right.
    + destruct (decide (x = p)) as [-> | Hne].
      * rewrite decide_True by (by apply elem_of_cons; left).
        simpl. by rewrite lookup_insert_eq.
      * rewrite decide_False.
        -- simpl. by rewrite lookup_insert_ne.
        -- rewrite not_elem_of_cons. done.
Qed.

Lemma PhaseFair_ensureService Fr Gd d prev svc st st' ws :
  PhaseFair Fr Gd d prev svc (ensureService d svc st) st' ws ->
  PhaseFair Fr Gd d prev svc st st' ws.
Proof.
  assert (assignedAnyToday (ensureService d svc st) = assignedAnyToday st) as Hany.
  { unfold ensureService. by destruct (default ∅ (assign st !! d) !! svc). }
  assert (lastAssigned (ensureService d svc st) = lastAssigned st) as Hla.
  { unfold ensureService. by destruct (default ∅ (assign st !! d) !! svc). }
  intros [Hs Hf Hm Ht Hfr Hrec Hl Hp]. split; try done.
  - by rewrite Hs, slotsOf_ensureService.
  - intros d' svc' Hne. by rewrite Hf, slotsOf_ensureService.
  - by rewrite <- Hany.
  - intros role names x Hw Hx HF. rewrite <- Hany. eauto.
  - intros x. rewrite <- Hla. apply Hl.
  - intros role names x Hw Hx HF HG. rewrite <- Hla. eauto.
Qed.

Lemma fold_rows_fair Fr Gd d prev svc
    (step : State Rng -> RoleMap -> State Rng)
    (roles : RoleMap -> list string) rows :
  (forall m st, m ∈ rows ->
      exists ws, PhaseFair Fr Gd d prev svc st (step st m) ws /\
                 ws.*1 = roles m) ->
  forall st, exists ws,
    PhaseFair Fr Gd d prev svc st (fold_left step rows st) ws /\
    ws.*1 = flat_map roles rows.
Proof.
  induction rows as [|m rows IH]; intros Hstep st; simpl.
  { exists []. split; [apply PhaseFair_nil|done]. }
  destruct (Hstep m st) as (ws1 & H1 & Hr1); [by apply elem_of_cons; left|].
  destruct (IH (fun m' st' Hm => Hstep m' st' (list_elem_of_further _ _ _ Hm))
               (step st m)) as (ws2 & H2 & Hr2).
  exists (ws1 ++ ws2). split; [by eapply PhaseFair_trans|].
  by rewrite fmap_app, Hr1, Hr2.
Qed.

(** The slots of a service after a phase that writes every role the
    service had a slot for: each one holds the names of a write. *)
Lemma PhaseFair_written Fr Gd d prev svc st st' ws role names :
  PhaseFair Fr Gd d prev svc st st' ws ->
  (forall role, is_Some (slotsOf (assign st) d svc !! role) -> role ∈ ws.*1) ->
  slotsOf (assign st') d svc !! role = Some names ->
  (role, names) ∈ ws.
Proof.
  intros H Hdom Hslot. rewrite (pf_slots _ _ _ _ _ _ _ _ H) in Hslot.
  apply applyWrites_lookup in Hslot as [[Hold Hnot]|[i Hi]].
  - exfalso. apply Hnot, Hdom. eauto.
  - by eapply list_elem_of_lookup_2.
Qed.

(** The relax pass of the capped and other roles, run after pass (a) when
    [b] holds. *)
Lemma relaxPass_fair (b : bool) svc d limit names new1 st :
  exists new2,
    (if b then pickRelax svc d limit names new1 (markAll svc d new1 st)
     else (new1, markAll svc d new1 st))
    = (new1 ++ new2, markAll svc d (new1 ++ new2) st) /\
    (b = false -> new2 = []) /\
    (forall x, x ∈ new2 -> x ∉ assignedAnyToday st) /\
    lenZ (new1 ++ new2) <= Z.max limit (lenZ new1).
Proof.
  destruct b.
  - destruct (pickRelax_spec svc d limit names new1 (markAll svc d new1 st))
      as (new2 & -> & _ & Hin & Hlen).
    exists new2. rewrite markAll_app. split_and!; [done|done| |done].
    intros x Hx. destruct (Hin x Hx) as (_ & _ & Hany).
    rewrite anyToday_markAll in Hany. set_solver.
  - exists []. rewrite app_nil_r. split_and!; [done|done| |lia].
    by intros x ?%elem_of_nil.
Qed.

End FairLemmas.

(** With both flags only the steps of the picker that consult [prefer]
    run, so it accepted every name the picker returns. *)
Lemma pickWithComposition_prefer {Rng} (int31n : Rng -> nat -> nat * Rng)
    candPen candJem needPen needJem pref already anyToday r
    picked already' anyToday' r' :
  pickWithComposition int31n true true candPen candJem needPen needJem pref
    already anyToday r = (picked, already', anyToday', r') ->
  forall x, x ∈ picked -> pref x = true.
Proof.
  unfold pickWithComposition. cbn [negb andb].
  set (T := addInt needPen needJem).
  assert (forall (c : bool) pool need ps,
            (forall x, x ∈ ps_picked ps -> pref x = true) ->
            exists need' ps',
              (if c then pickFrom T pref pool need true ps else (need, ps))
              = (need', ps') /\
              forall x, x ∈ ps_picked ps' -> pref x = true) as Hif.
  { intros c pool need ps Hps. destruct c; [|by eauto].
    destruct (pickFrom_spec T pref true pool need ps)
      as (new & -> & _ & Hin & _).
    eexists _, _. split; [done|]. intros x. rewrite pickAll_picked.
    intros [Hx|Hx]%elem_of_app; [by apply Hps|].
    destruct (Hin x Hx) as (_ & _ & Hp). by apply Hp. }
  destruct (Hif true candPen needPen (mkPick [] ∅ already anyToday))
    as (n1 & ps1 & E1 & H1); [by intros x ?%elem_of_nil|].
  cbv beta iota in E1. rewrite E1.
  destruct (Hif true candJem needJem ps1 H1) as (n2 & ps2 & E2 & H2).
  cbv beta iota in E2. rewrite E2.
  destruct (Hif (n1 >? 0) (remaining ps2 candPen) n1 ps2 H2)
    as (n3 & ps3 & E3 & H3). rewrite E3.
  destruct (Hif (n2 >? 0) (remaining ps3 candJem) n2 ps3 H3)
    as (n4 & ps4 & E4 & H4). rewrite E4.
  intros [= <- _ _ _]. exact H4.
Qed.

Section FairPhases.
Context {Rng : Type} (int31n : Rng -> nat -> nat * Rng).
Variable mapRange : gset string -> list string.
Variable strictCompositionFlag noRelaxB2BFlag : bool.
Variable people : list Person.
Implicit Types st : State Rng.

(** *** Phase 1 *)

Lemma escortRow_fair Gd d prev m st :
  exists picked,
    PhaseFair (fun _ => False) Gd d prev "10" st
      (escortRow int31n mapRange people d prev m st) [(Role m, picked)].
Proof.
  destruct (escortRow_spec int31n mapRange people (fun _ _ => True) d prev m st)
    as (picked & -> & _ & _); [done|].
  exists picked. apply PhaseFair_row; by intros [].
Qed.

Lemma escortPhase_fair Gd d prev svc mpRows st :
  exists ws,
    PhaseFair (fun _ => False) Gd d prev svc st
      (escortPhase int31n mapRange people d prev svc mpRows st) ws /\
    ws.*1 = (if String.eqb svc "10" && (lenZ mpRows >? 0)
             then Role <$> mpRows else []).
Proof.
  unfold escortPhase.
  destruct (String.eqb_spec svc "10") as [-> | Hne]; simpl.
  2:{ exists []. split; [apply PhaseFair_nil|done]. }
  destruct (lenZ mpRows >? 0).
  2:{ exists []. split; [apply PhaseFair_nil|done]. }
  rewrite <- flat_map_singleton.
  apply (fold_rows_fair (fun _ => False) Gd d prev "10"
           (fun st m => escortRow int31n mapRange people d prev m st)).
  intros m st' _. destruct (escortRow_fair Gd d prev m st') as (picked & H).
  by exists [(Role m, picked)].
Qed.

(** *** Phase 2 *)

Lemma compositionGroup_fair kP kJ pP pJ d prev svc key rows st st' :
  compositionGroup int31n strictCompositionFlag noRelaxB2BFlag people
    kP kJ pP pJ d prev svc key rows st = Some st' ->
  exists ws,
    PhaseFair (fun _ => True)
      (fun _ => strictCompositionFlag = true /\ noRelaxB2BFlag = true)
      d prev svc st st' ws /\
    ws.*1 = Role <$> rows.
Proof.
  unfold compositionGroup.
  destruct (lenZ rows =? 0) eqn:Hlen.
  { intros ?; simplify_eq. exists []. split; [apply PhaseFair_nil|].
    destruct rows; [done|]. unfold lenZ in Hlen. simpl in Hlen. lia. }
  destruct (if String.eqb key "kolektan" then (kP, kJ) else (0, 0))
    as [needPen0 needJem0].
  destruct (if String.eqb key "pjemaat" then (pP, pJ) else (needPen0, needJem0))
    as [needPen needJem].
  destruct (splitPools people rows [] []) as [penNames jemNames].
  destruct (Shuffle int31n _ (rng st)) as [candPen r1].
  destruct (Shuffle int31n _ r1) as [candJem r2].
  destruct (pickWithComposition _ _ _ _ _ _ _ _ _ _ _)
    as [[[picked already'] any'] r3] eqn:Hpick.
  pose proof Hpick as Hpick'.
  apply pickWithComposition_spec in Hpick as (Hnd & Hin & -> & ->).
  set (total := if addInt needPen needJem >? lenZ rows then lenZ rows
                else addInt needPen needJem).
  destruct (if lenZ picked >? total then sliceTo picked total else Some picked)
    as [picked'|] eqn:Hcut; simpl; [|done].
  intros ?; simplify_eq.
  assert (picked' `sublist_of` picked) as Hsub.
  { destruct (lenZ picked >? total); [|by simplify_eq].
    apply sliceTo_sublist in Hcut as [-> _]. apply sublist_take. }
  set (st1 := setRng r3 (setAnyToday (list_to_set picked ∪ assignedAnyToday st)
                (setAlready svc (list_to_set picked ∪ alreadyOf svc st) st))).
  assert (assign st1 = assign st) as Ha1.
  { unfold st1, setRng, setAnyToday, setAlready. by destruct (String.eqb svc "07"). }
  assert (lastAssigned st1 = lastAssigned st) as Hla1.
  { unfold st1, setRng, setAnyToday, setAlready. by destruct (String.eqb svc "07"). }
  assert (assignedAnyToday st1 = list_to_set picked ∪ assignedAnyToday st) as Hany1.
  { unfold st1, setRng, setAnyToday, setAlready. by destruct (String.eqb svc "07"). }
  destruct (writeComposition_spec d svc rows picked' st1) as (W1 & W2 & _ & W4 & _).
  exists (rowWrites rows picked'). split; [|apply rowWrites_roles].
  assert (forall x, x ∈ take (length rows) picked' -> x ∈ picked) as Htake.
  { intros x Hx%subseteq_take. by eapply sublist_subseteq. }
  apply (PhaseFair_intro _ _ d prev svc st _ _ picked).
  - by rewrite W1, Ha1.
  - intros d' svc' Hne. by rewrite W2, Ha1.
  - by rewrite W4, Hany1.
  - intros x. rewrite rowWrites_names. apply Htake.
  - intros x. rewrite rowWrites_names. intros Hx.
    rewrite lastAssigned_writeComposition. by rewrite decide_True.
  - intros x. rewrite lastAssigned_writeComposition.
    destruct (decide (x ∈ take (length rows) picked')) as [Hx|Hx].
    + right. split; [done|]. by apply Htake.
    + left. by rewrite Hla1.
  - intros role _ _ x Hx. by destruct (Hin x Hx) as (_ & _ & ?).
  - intros role _ _ [Hs Hn] x Hx. rewrite Hs, Hn in Hpick'.
    by eapply pickWithComposition_prefer.
Qed.

(** *** Phase 3 *)

Lemma cappedGroup_fair d prev svc glimit rows st :
  exists ws,
    PhaseFair (fun _ => True) (fun _ => noRelaxB2BFlag = true) d prev svc st
      (cappedGroup int31n mapRange noRelaxB2BFlag people d prev svc glimit rows st)
      ws /\
    ws.*1 = Role <$> rows.
Proof.
  unfold cappedGroup. destruct rows as [|row0 rest].
  { exists []. split; [apply PhaseFair_nil|done]. }
  set (rows := row0 :: rest) in *.
  set (limit := if glimit >? lenZ rows then lenZ rows else glimit).
  destruct (Shuffle int31n _ (rng st)) as [names r].
  destruct (pickPrefer_spec svc d prev limit names [] (setRng r st))
    as (new1 & -> & _ & Hin1 & _). simpl app.
  destruct (relaxPass_fair (negb noRelaxB2BFlag && (lenZ new1 <? limit))
              svc d limit names new1 (setRng r st))
    as (new2 & -> & Hoff & Hin2 & _).
  exists (rowWrites rows (new1 ++ new2)). split; [|apply rowWrites_roles].
  apply PhaseFair_singles.
  - intros x [Hx|Hx]%elem_of_app.
    + by destruct (Hin1 x Hx) as (_ & _ & ? & _).
    + by apply Hin2.
  - intros role Hn x Hx. rewrite Hn in Hoff. rewrite Hoff in Hx by done.
    rewrite app_nil_r in Hx. by destruct (Hin1 x Hx) as (_ & _ & _ & ?).
Qed.

(** *** Phase 4 *)

Lemma otherRow_fair maxL maxP maxM d prev svc m st :
  exists ws,
    PhaseFair (fun _ => True) (fun _ => noRelaxB2BFlag = true) d prev svc st
      (otherRow int31n mapRange noRelaxB2BFlag people maxL maxP maxM d prev svc m st)
      ws /\
    ws.*1 = otherRowRoles svc m.
Proof.
  unfold otherRow, otherRowRoles.
  destruct (outOfService m svc).
  { exists []. split; [apply PhaseFair_nil|done]. }
  destruct (String.eqb svc "07" && isMajelisPendamping (Role m)).
  { exists []. split; [apply PhaseFair_nil|done]. }
  match goal with
  | |- context [pickPrefer svc d prev ?s _ _ _] => set (slots := s)
  end.
  destruct (Shuffle int31n _ (rng st)) as [cands r].
  destruct (pickPrefer_spec svc d prev slots cands [] (setRng r st))
    as (new1 & -> & _ & Hin1 & _). simpl app.
  destruct (relaxPass_fair (negb noRelaxB2BFlag && (lenZ new1 <? slots))
              svc d slots cands new1 (setRng r st))
    as (new2 & -> & Hoff & Hin2 & _).
  exists [(Role m, new1 ++ new2)]. split; [|done].
  apply PhaseFair_row.
  - intros _ x [Hx|Hx]%elem_of_app.
    + by destruct (Hin1 x Hx) as (_ & _ & ? & _).
    + by apply Hin2.
  - intros _ Hn x Hx. rewrite Hn in Hoff. rewrite Hoff in Hx by done.
    rewrite app_nil_r in Hx. by destruct (Hin1 x Hx) as (_ & _ & _ & ?).
Qed.

End FairPhases.

(** ** The rows a service writes *)

Lemma group_row_role maps svc key m :
  m ∈ groupRows (groupMappingsForService maps svc).1 key ->
  m ∈ maps /\ outOfService m svc = false /\
  isGroupKey (baseRole (Role m)) = true /\ baseRole (Role m) = key.
Proof.
  unfold groupMappingsForService.
  destruct (groupLoop_filter svc maps ∅ []) as [_ H]. rewrite H.
  unfold groupRows at 1. rewrite lookup_empty. simpl.
  rewrite list_elem_of_In, filter_In, <- list_elem_of_In.
  rewrite !andb_true_iff, negb_true_iff. intros (Hm & (Ho & Hk) & He).
  split_and!; try done. by apply String.eqb_eq.
Qed.

Lemma splitOthers_filter svc others : forall mp non,
  splitOthers svc others mp non
  = (mp ++ List.filter (fun m => negb (outOfService m svc)
                                 && isMajelisPendamping (Role m)) others,
     non ++ List.filter (fun m => negb (outOfService m svc)
                                  && negb (isMajelisPendamping (Role m))) others).
Proof.
  induction others as [|m rest IH]; intros mp non; simpl.
  { by rewrite !app_nil_r. }
  destruct (outOfService m svc); simpl; [apply IH|].
  destruct (isMajelisPendamping (Role m)); simpl; rewrite IH.
  - by rewrite <- app_assoc.
  - by rewrite <- app_assoc.
Qed.

Lemma escortRows_elem maps svc m :
  m ∈ escortRows maps svc <->
  m ∈ maps /\ outOfService m svc = false /\ escortRole (Role m) = true.
Proof.
  unfold escortRows, groupMappingsForService, escortRole.
  destruct (groupLoop_filter svc maps ∅ []) as [-> _].
  rewrite splitOthers_filter. cbn [fst app].
  rewrite !list_elem_of_In, !filter_In, <- !list_elem_of_In.
  rewrite !andb_true_iff, !negb_true_iff. tauto.
Qed.

Lemma otherNonMP_elem maps svc m :
  m ∈ (splitOthers svc (groupMappingsForService maps svc).2 [] []).2 <->
  m ∈ maps /\ outOfService m svc = false /\
  isGroupKey (baseRole (Role m)) = false /\ isMajelisPendamping (Role m) = false.
Proof.
  unfold groupMappingsForService.
  destruct (groupLoop_filter svc maps ∅ []) as [-> _].
  rewrite splitOthers_filter. cbn [snd app].
  rewrite !list_elem_of_In, !filter_In, <- !list_elem_of_In.
  rewrite !andb_true_iff, !negb_true_iff. tauto.
Qed.

Lemma group_rows_elem maps svc key m :
  isGroupKey key = true ->
  m ∈ maps -> outOfService m svc = false -> baseRole (Role m) = key ->
  m ∈ groupRows (groupMappingsForService maps svc).1 key.
Proof.
  intros Hk Hm Ho He. unfold groupMappingsForService.
  destruct (groupLoop_filter svc maps ∅ []) as [_ H]. rewrite H.
  unfold groupRows at 1. rewrite lookup_empty. simpl.
  rewrite list_elem_of_In, filter_In, <- list_elem_of_In.
  rewrite He, Hk, Ho. split; [done|]. simpl. by apply String.eqb_eq.
Qed.

Lemma isGroupKey_cases key :
  isGroupKey key = true ->
  key = "lektor" \/ key = "prokantor" \/ key = "pemusik" \/
  key = "kolektan" \/ key = "pjemaat".
Proof.
  unfold isGroupKey. rewrite !orb_true_iff, !String.eqb_eq. tauto.
Qed.

(** The roles a service body writes are those of the rows of the service,
    the escort rows in service "10" only. *)
Lemma passRoles_elem maps svc role :
  role ∈ passRoles maps svc <->
  exists m, m ∈ maps /\ Role m = role /\ writtenRow svc m = true.
Proof.
  unfold passRoles, laterRoles, writtenRow. rewrite !elem_of_app. split.
  - intros [Hesc | Hlater].
    + destruct (String.eqb svc "10") eqn:Hsvc; simpl in Hesc;
        [|by apply elem_of_nil in Hesc].
      destruct (lenZ (escortRows maps svc) >? 0); [|by apply elem_of_nil in Hesc].
      apply list_elem_of_fmap in Hesc as (m & -> & Hm).
      apply escortRows_elem in Hm as (Hm & Ho & He).
      exists m. rewrite Ho, orb_true_r. done.
    + assert (forall key,
                role ∈ Role <$> groupRows (groupMappingsForService maps svc).1 key ->
                exists m, m ∈ maps /\ Role m = role /\
                  negb (outOfService m svc)
                  && (negb (escortRole (Role m)) || String.eqb svc "10") = true)
        as Hgroup.
      { intros key (m & -> & Hm)%list_elem_of_fmap.
        apply group_row_role in Hm as (Hm & Ho & Hk & _).
        exists m. unfold escortRole. rewrite Ho, Hk. done. }
      destruct Hlater as [H|[H|[H|[H|[H|H]]]]]; try (by eapply Hgroup).
      apply list_elem_of_In, in_flat_map in H as (m & Hm & Hr).
      apply list_elem_of_In, otherNonMP_elem in Hm as (Hm & Ho & Hk & Hmp).
      unfold otherRowRoles in Hr. rewrite Ho, Hmp, andb_false_r in Hr.
      destruct Hr as [<- | []].
      exists m. unfold escortRole. rewrite Ho, Hmp, andb_false_r. done.
  - intros (m & Hm & <- & Hw).
    apply andb_true_iff in Hw as [Ho Hw]. apply negb_true_iff in Ho.
    destruct (isGroupKey (baseRole (Role m))) eqn:Hk.
    + right.
      pose proof (group_rows_elem maps svc _ m Hk Hm Ho eq_refl) as Hin.
      assert (Role m ∈ Role <$> groupRows (groupMappingsForService maps svc).1
                                  (baseRole (Role m))) as Hr.
      { apply list_elem_of_fmap. by exists m. }
      destruct (isGroupKey_cases _ Hk) as [E|[E|[E|[E|E]]]];
        rewrite E in Hr; tauto.
    + destruct (isMajelisPendamping (Role m)) eqn:Hmp.
      * left. unfold escortRole in Hw. rewrite Hk, Hmp in Hw. simpl in Hw.
        rewrite Hw. simpl.
        assert (m ∈ escortRows maps svc) as Hin.
        { apply escortRows_elem. unfold escortRole. by rewrite Hk, Hmp. }
        destruct (escortRows maps svc) as [|m0 l] eqn:E;
          [by apply elem_of_nil in Hin|].
        replace (lenZ (m0 :: l) >? 0) with true
          by (symmetry; apply Z.gtb_lt; unfold lenZ; simpl; lia).
        apply list_elem_of_fmap. by exists m.
      * right. do 5 right. apply list_elem_of_In, in_flat_map. exists m.
        split.
        -- apply list_elem_of_In, otherNonMP_elem. done.
        -- unfold otherRowRoles. rewrite Ho, Hmp, andb_false_r. by left.
Qed.

Section FairDriver.
Context {Rng : Type} (int31n : Rng -> nat -> nat * Rng).
Variable mapRange : gset string -> list string.
Variable strictCompositionFlag noRelaxB2BFlag : bool.
Variable people : list Person.
Variable maps : list RoleMap.
Variables maxLektor maxPro maxMus : Z.
Variables kolektanPen kolektanJem pjemaatPen pjemaatJem : Z.
Implicit Types st : State Rng.

#[local] Abbreviation serviceBody' :=
  (serviceBody int31n mapRange strictCompositionFlag noRelaxB2BFlag people maps
     maxLektor maxPro maxMus kolektanPen kolektanJem pjemaatPen pjemaatJem).
#[local] Abbreviation dateBody' :=
  (dateBody int31n mapRange strictCompositionFlag noRelaxB2BFlag people maps
     maxLektor maxPro maxMus kolektanPen kolektanJem pjemaatPen pjemaatJem).
#[local] Abbreviation dateLoop' :=
  (dateLoop int31n mapRange strictCompositionFlag noRelaxB2BFlag people maps
     maxLektor maxPro maxMus kolektanPen kolektanJem pjemaatPen pjemaatJem).

#[local] Abbreviation Fr := fairRole.
#[local] Abbreviation Gd := (guardedRole strictCompositionFlag noRelaxB2BFlag).

(** The service body as a sequence of writes to the roles [passRoles],
    with the fairness data of each write. *)
Lemma serviceBody_fair d prev svc st st' :
  serviceBody' d prev svc st = Some st' ->
  exists ws,
    PhaseFair (Fr svc) Gd d prev svc st st' ws /\ ws.*1 = passRoles maps svc.
Proof.
  unfold serviceBody, passRoles, laterRoles.
  pose proof (fun m => proj1 (escortRows_elem maps svc m)) as Hesc.
  pose proof (fun key m => group_row_role maps svc key m) as Hgrp.
  unfold escortRows in *.
  destruct (groupMappingsForService maps svc) as [grouped others].
  cbn [fst snd] in *.
  destruct (splitOthers svc others [] []) as [mpRows otherNonMP].
  cbn [fst snd] in *.
  destruct (escortPhase_fair int31n mapRange people Gd d prev svc mpRows
              (ensureService d svc st)) as (ws1 & P1 & R1).
  set (st1 := escortPhase _ _ _ _ _ _ _ _) in *.
  apply (PhaseFair_weaken _ _ (Fr svc) Gd) in P1; [|
    intros role Hrole HF | done].
  2:{ rewrite R1 in Hrole.
      destruct (String.eqb svc "10") eqn:Hsvc; simpl in Hrole;
        [|by apply elem_of_nil in Hrole].
      destruct (lenZ mpRows >? 0); [|by apply elem_of_nil in Hrole].
      apply list_elem_of_fmap in Hrole as (m & -> & Hm).
      destruct (Hesc m Hm) as (_ & _ & He).
      specialize (HF Hsvc). congruence. }
  assert (forall key st0 st0',
    key = "kolektan" \/ key = "pjemaat" ->
    compositionGroup int31n strictCompositionFlag noRelaxB2BFlag people
      kolektanPen kolektanJem pjemaatPen pjemaatJem d prev svc key
      (groupRows grouped key) st0 = Some st0' ->
    exists ws, PhaseFair (Fr svc) Gd d prev svc st0 st0' ws /\
               ws.*1 = Role <$> groupRows grouped key) as Hcomp.
  { intros key st0 st0' Hkey (ws & P & R)%compositionGroup_fair.
    exists ws. split; [|done].
    apply (PhaseFair_weaken _ _ (Fr svc) Gd) in P; [done|done|].
    intros role Hrole [Hn Hs]. split; [|done].
    destruct Hs as [? | Hc]; [done|]. exfalso.
    rewrite R in Hrole. apply list_elem_of_fmap in Hrole as (m & -> & Hm).
    destruct (Hgrp key m Hm) as (_ & _ & _ & Hb).
    unfold compositionRole in Hc. rewrite Hb in Hc.
    by destruct Hkey as [-> | ->]. }
  assert (forall glimit key st0,
    exists ws,
      PhaseFair (Fr svc) Gd d prev svc st0
        (cappedGroup int31n mapRange noRelaxB2BFlag people d prev svc glimit
           (groupRows grouped key) st0) ws /\
      ws.*1 = Role <$> groupRows grouped key) as Hcap.
  { intros glimit key st0.
    destruct (cappedGroup_fair int31n mapRange noRelaxB2BFlag people d prev svc
                glimit (groupRows grouped key) st0) as (ws & P & R).
    exists ws. split; [|done].
    apply (PhaseFair_weaken _ _ (Fr svc) Gd) in P; [done|done|].
    by intros role _ [? _]. }
  destruct (compositionGroup _ _ _ _ _ _ _ _ _ _ _ "kolektan" _ st1)
    as [st2|] eqn:E2; [|done].
  apply Hcomp in E2 as (ws2 & P2 & R2); [|by left].
  cbn [mbind option_bind].
  destruct (compositionGroup _ _ _ _ _ _ _ _ _ _ _ "pjemaat" _ st2)
    as [st3|] eqn:E3; [|done].
  apply Hcomp in E3 as (ws3 & P3 & R3); [|by right].
  cbn [mbind option_bind].
  destruct (Hcap maxLektor "lektor" st3) as (ws4 & P4 & R4).
  set (st4 := cappedGroup _ _ _ _ _ _ _ maxLektor _ _) in *.
  destruct (Hcap maxPro "prokantor" st4) as (ws5 & P5 & R5).
  set (st5 := cappedGroup _ _ _ _ _ _ _ maxPro _ _) in *.
  destruct (Hcap maxMus "pemusik" st5) as (ws6 & P6 & R6).
  set (st6 := cappedGroup _ _ _ _ _ _ _ maxMus _ _) in *.
  destruct (fold_rows_fair (Fr svc) Gd d prev svc
              (fun st m => otherRow int31n mapRange noRelaxB2BFlag people
                             maxLektor maxPro maxMus d prev svc m st)
              (otherRowRoles svc) otherNonMP) with (st := st6)
    as (ws7 & P7 & R7).
  { intros m st0 _.
    destruct (otherRow_fair int31n mapRange noRelaxB2BFlag people
                maxLektor maxPro maxMus d prev svc m st0) as (ws & P & R).
    exists ws. split; [|done].
    apply (PhaseFair_weaken _ _ (Fr svc) Gd) in P; [done|done|].
    by intros role _ [? _]. }
  intros ?; simplify_eq.
  exists (ws1 ++ ws2 ++ ws3 ++ ws4 ++ ws5 ++ ws6 ++ ws7). split.
  - apply PhaseFair_ensureService.
    repeat (eapply PhaseFair_trans; [eassumption|]). done.
  - rewrite !fmap_app. by rewrite R1, R2, R3, R4, R5, R6, R7.
Qed.

Lemma dateBody_phases dates di d st st' :
  dateBody' dates di d st = Some st' ->
  exists st1 ws1 ws2,
    PhaseFair (Fr "07") Gd d (prevSundayAt dates di) "07"
      (resetDay (ensureDate d st)) st1 ws1 /\
    ws1.*1 = passRoles maps "07" /\
    PhaseFair (Fr "10") Gd d (prevSundayAt dates di) "10" st1 st' ws2 /\
    ws2.*1 = passRoles maps "10".
Proof.
  unfold dateBody. intros H.
  destruct (serviceBody' d _ "07" _) as [st1|] eqn:E1; [|done].
  cbn [mbind option_bind] in H.
  apply serviceBody_fair in E1 as (ws1 & P1 & R1).
  apply serviceBody_fair in H as (ws2 & P2 & R2).
  by exists st1, ws1, ws2.
Qed.

Lemma dateBody_other dates di d st st' d' svc :
  dateBody' dates di d st = Some st' ->
  d' <> d \/ (svc <> "07" /\ svc <> "10") ->
  slotsOf (assign st') d' svc = slotsOf (assign st) d' svc.
Proof.
  intros (st1 & ws1 & ws2 & P1 & _ & P2 & _)%dateBody_phases Hne.
  rewrite (pf_frame _ _ _ _ _ _ _ _ P2), (pf_frame _ _ _ _ _ _ _ _ P1)
    by tauto.
  change (assign (resetDay ?s)) with (assign s). apply slotsOf_ensureDate.
Qed.

(** Every slot of the date after its two services holds the names of a
    write of one of them. *)
Lemma day_written d prev st st1 st' ws1 ws2 svc role names :
  PhaseFair (Fr "07") Gd d prev "07" (resetDay (ensureDate d st)) st1 ws1 ->
  ws1.*1 = passRoles maps "07" ->
  PhaseFair (Fr "10") Gd d prev "10" st1 st' ws2 ->
  ws2.*1 = passRoles maps "10" ->
  rewritten maps d (assign st) ->
  slotsOf (assign st') d svc !! role = Some names ->
  (svc = "07" /\ (role, names) ∈ ws1) \/ (svc = "10" /\ (role, names) ∈ ws2).
Proof.
  intros P1 R1 P2 R2 Hdom Hslot.
  assert (forall svc', slotsOf (assign (resetDay (ensureDate d st))) d svc'
                       = slotsOf (assign st) d svc') as H0.
  { intros svc'. change (assign (resetDay ?s)) with (assign s).
    apply slotsOf_ensureDate. }
  destruct (decide (svc = "07")) as [-> | H07].
  { left. split; [done|].
    rewrite (pf_frame _ _ _ _ _ _ _ _ P2) in Hslot by (by right).
    eapply PhaseFair_written; [exact P1| |exact Hslot].
    intros role' Hsome. rewrite H0 in Hsome. rewrite R1. by apply Hdom. }
  destruct (decide (svc = "10")) as [-> | H10].
  { right. split; [done|].
    eapply PhaseFair_written; [exact P2| |exact Hslot].
    intros role' Hsome.
    rewrite (pf_frame _ _ _ _ _ _ _ _ P1), H0 in Hsome by (by right).
    rewrite R2. by apply Hdom. }
  exfalso.
  rewrite (pf_frame _ _ _ _ _ _ _ _ P2), (pf_frame _ _ _ _ _ _ _ _ P1), H0
    in Hslot by (by right).
  destruct (Hdom svc role) as [[?|?] _]; eauto.
Qed.

(** After the body of a date its slots are those of the roles the two
    services write. *)
Lemma dateBody_slots dates di d st st' svc role :
  dateBody' dates di d st = Some st' -> rewritten maps d (assign st) ->
  is_Some (slotsOf (assign st') d svc !! role) <->
  (svc = "07" \/ svc = "10") /\ role ∈ passRoles maps svc.
Proof.
  intros (st1 & ws1 & ws2 & P1 & R1 & P2 & R2)%dateBody_phases Hdom. split.
  - intros [names Hslot].
    destruct (day_written _ _ _ _ _ _ _ _ _ _ P1 R1 P2 R2 Hdom Hslot)
      as [[-> Hw] | [-> Hw]].
    + split; [by left|]. rewrite <- R1. by eapply elem_of_writes_role.
    + split; [by right|]. rewrite <- R2. by eapply elem_of_writes_role.
  - intros [[-> | ->] Hrole].
    + rewrite (pf_frame _ _ _ _ _ _ _ _ P2) by (by right).
      rewrite (pf_slots _ _ _ _ _ _ _ _ P1). apply applyWrites_dom.
      by rewrite R1.
    + rewrite (pf_slots _ _ _ _ _ _ _ _ P2). apply applyWrites_dom.
      by rewrite R2.
Qed.

(** Every name in a slot of the date has the date as its last-assigned
    date when the body ends. *)
Lemma dateBody_recorded dates di d st st' svc role names x :
  dateBody' dates di d st = Some st' -> rewritten maps d (assign st) ->
  slotsOf (assign st') d svc !! role = Some names -> x ∈ names ->
  lastAssigned st' !! x = Some d.
Proof.
  intros (st1 & ws1 & ws2 & P1 & R1 & P2 & R2)%dateBody_phases Hdom Hslot Hx.
  destruct (day_written _ _ _ _ _ _ _ _ _ _ P1 R1 P2 R2 Hdom Hslot)
    as [[-> Hw] | [-> Hw]].
  - destruct (pf_last _ _ _ _ _ _ _ _ P2 x) as [-> | [? _]]; [|done].
    apply (pf_recorded _ _ _ _ _ _ _ _ P1), elem_of_writes. eauto.
  - apply (pf_recorded _ _ _ _ _ _ _ _ P2), elem_of_writes. eauto.
Qed.

(** A name in a slot of both services of the date is in an escort slot
    of service "10". *)
Lemma dateBody_cross dates di d st st' r7 n7 r10 n10 x :
  dateBody' dates di d st = Some st' -> rewritten maps d (assign st) ->
  slotsOf (assign st') d "07" !! r7 = Some n7 -> x ∈ n7 ->
  slotsOf (assign st') d "10" !! r10 = Some n10 -> x ∈ n10 ->
  escortRole r10 = true.
Proof.
  intros (st1 & ws1 & ws2 & P1 & R1 & P2 & R2)%dateBody_phases Hdom
         H7 Hx7 H10 Hx10.
  destruct (day_written _ _ _ _ _ _ _ _ _ _ P1 R1 P2 R2 Hdom H7)
    as [[_ Hw7] | [? _]]; [|done].
  destruct (day_written _ _ _ _ _ _ _ _ _ _ P1 R1 P2 R2 Hdom H10)
    as [[? _] | [_ Hw10]]; [done|].
  destruct (escortRole r10) eqn:He; [done|exfalso].
  eapply (pf_fresh _ _ _ _ _ _ _ _ P2 r10 n10 x Hw10 Hx10); [by intros _|].
  apply (pf_today _ _ _ _ _ _ _ _ P1), elem_of_writes. eauto.
Qed.

Lemma lastAssigned_start d st :
  lastAssigned (resetDay (ensureDate d st)) = lastAssigned st.
Proof. unfold ensureDate. by destruct (assign st !! d). Qed.

(** [prefer] accepted every name in a slot of a role that is filled
    fairly and guarded by the flags, on the fairness data with which the
    body of the date started. *)
Lemma dateBody_prefer dates di d st st' svc role names x :
  dateBody' dates di d st = Some st' -> rewritten maps d (assign st) ->
  slotsOf (assign st') d svc !! role = Some names -> x ∈ names ->
  Fr svc role -> Gd role ->
  prefer (prevSundayAt dates di) (lastAssigned st) x = true.
Proof.
  intros (st1 & ws1 & ws2 & P1 & R1 & P2 & R2)%dateBody_phases Hdom
         Hslot Hx HF HG.
  destruct (day_written _ _ _ _ _ _ _ _ _ _ P1 R1 P2 R2 Hdom Hslot)
    as [[-> Hw] | [-> Hw]].
  - rewrite <- (lastAssigned_start d st).
    apply (pf_prefer _ _ _ _ _ _ _ _ P1 role names x Hw Hx HF HG).
  - rewrite <- (pf_prefer _ _ _ _ _ _ _ _ P2 role names x Hw Hx HF HG).
    apply prefer_lookup. rewrite <- (lastAssigned_start d st).
    destruct (pf_last _ _ _ _ _ _ _ _ P1 x) as [-> | [_ Hin]]; [done|].
    by destruct (pf_fresh _ _ _ _ _ _ _ _ P2 role names x Hw Hx HF).
Qed.

(** *** The loop over the dates *)

Lemma dateLoop_app dates l1 : forall l2 di st,
  dateLoop' dates di (l1 ++ l2) st
  = dateLoop' dates di l1 st ≫= dateLoop' dates (di + length l1)%nat l2.
Proof.
  induction l1 as [|d l1 IH]; intros l2 di st; simpl.
  { by rewrite Nat.add_0_r. }
  destruct (dateBody' dates di d st) as [st1|]; [|done].
  cbn [mbind option_bind]. rewrite IH. do 2 f_equal. lia.
Qed.

Lemma dateLoop_other dates rest d svc : forall di st st',
  dateLoop' dates di rest st = Some st' -> d ∉ rest ->
  slotsOf (assign st') d svc = slotsOf (assign st) d svc.
Proof.
  induction rest as [|d0 rest IH]; intros di st st' H Hnot; simpl in H.
  { by simplify_eq. }
  destruct (dateBody' dates di d0 st) as [st1|] eqn:E1; [|done].
  cbn [mbind option_bind] in H. apply not_elem_of_cons in Hnot as [Hne Hnot].
  rewrite (IH _ _ _ H Hnot). eapply dateBody_other; [exact E1|by left].
Qed.

Lemma shaped_rewritten dates d a : shaped dates maps a -> rewritten maps d a.
Proof. intros H svc role Hs. by destruct (H d svc role Hs) as (_ & ? & ?). Qed.

Lemma dateBody_shaped dates dates' di d st st' :
  dateBody' dates' di d st = Some st' -> d ∈ dates ->
  shaped dates maps (assign st) -> shaped dates maps (assign st').
Proof.
  intros Hbody Hd Hsh d' svc role Hsome.
  destruct (decide (d' = d)) as [-> | Hne].
  - split; [done|].
    eapply dateBody_slots; [exact Hbody| |exact Hsome].
    by eapply shaped_rewritten.
  - rewrite (dateBody_other _ _ _ _ _ _ _ Hbody) in Hsome by (by left).
    by apply Hsh.
Qed.

Lemma dateLoop_shaped dates dates' rest : forall di st st',
  dateLoop' dates' di rest st = Some st' ->
  (forall d, d ∈ rest -> d ∈ dates) ->
  shaped dates maps (assign st) -> shaped dates maps (assign st').
Proof.
  induction rest as [|d0 rest IH]; intros di st st' H Hsub Hsh; simpl in H.
  { by simplify_eq. }
  destruct (dateBody' dates' di d0 st) as [st1|] eqn:E1; [|done].
  cbn [mbind option_bind] in H. eapply IH; [exact H| |].
  - intros d Hd. apply Hsub. by apply elem_of_cons; right.
  - eapply dateBody_shaped; [exact E1| |done].
    apply Hsub. by apply elem_of_cons; left.
Qed.

(** The loop keeps every slot there is and gives every date it visits
    the slots of the roles the two services write. *)
Lemma dateLoop_cover dates dates' rest : forall di st st' d svc role,
  dateLoop' dates' di rest st = Some st' ->
  shaped dates maps (assign st) -> (forall d, d ∈ rest -> d ∈ dates) ->
  is_Some (slotsOf (assign st) d svc !! role) \/
  (d ∈ rest /\ (svc = "07" \/ svc = "10") /\ role ∈ passRoles maps svc) ->
  is_Some (slotsOf (assign st') d svc !! role).
Proof.
  induction rest as [|d0 rest IH]; intros di st st' d svc role H Hsh Hsub Hc;
    simpl in H.
  { simplify_eq. destruct Hc as [?|[?%elem_of_nil _]]; done. }
  destruct (dateBody' dates' di d0 st) as [st1|] eqn:E1; [|done].
  cbn [mbind option_bind] in H.
  assert (d0 ∈ dates) as Hd0 by (apply Hsub; by apply elem_of_cons; left).
  eapply IH; [exact H| | |].
  - by eapply dateBody_shaped.
  - intros d1 Hd1. apply Hsub. by apply elem_of_cons; right.
  - destruct (decide (d = d0)) as [-> | Hne].
    + left. eapply dateBody_slots; [exact E1|by eapply shaped_rewritten|].
      destruct Hc as [Hs | (_ & ? & ?)]; [|done].
      by destruct (Hsh _ _ _ Hs) as (_ & ? & ?).
    + destruct Hc as [Hs | (Hin & ? & ?)].
      * left. by rewrite (dateBody_other _ _ _ _ _ _ _ E1) by (by left).
      * right. apply elem_of_cons in Hin as [?|?]; done.
Qed.

(** The loop keeps the cross-service property of every date. *)
Lemma dateLoop_cross dates dates' rest : forall di st st',
  dateLoop' dates' di rest st = Some st' ->
  shaped dates maps (assign st) -> (forall d, d ∈ rest -> d ∈ dates) ->
  (forall d r7 n7 r10 n10 x,
      slotsOf (assign st) d "07" !! r7 = Some n7 -> x ∈ n7 ->
      slotsOf (assign st) d "10" !! r10 = Some n10 -> x ∈ n10 ->
      escortRole r10 = true) ->
  forall d r7 n7 r10 n10 x,
    slotsOf (assign st') d "07" !! r7 = Some n7 -> x ∈ n7 ->
    slotsOf (assign st') d "10" !! r10 = Some n10 -> x ∈ n10 ->
    escortRole r10 = true.
Proof.
  induction rest as [|d0 rest IH]; intros di st st' H Hsh Hsub Hinv;
    simpl in H.
  { by simplify_eq. }
  destruct (dateBody' dates' di d0 st) as [st1|] eqn:E1; [|done].
  cbn [mbind option_bind] in H.
  assert (d0 ∈ dates) as Hd0 by (apply Hsub; by apply elem_of_cons; left).
  eapply IH; [exact H| | |].
  - by eapply dateBody_shaped.
  - intros d1 Hd1. apply Hsub. by apply elem_of_cons; right.
  - intros d r7 n7 r10 n10 x. destruct (decide (d = d0)) as [-> | Hne].
    + eapply dateBody_cross; [exact E1|by eapply shaped_rewritten].
    + rewrite !(dateBody_other _ _ _ _ _ _ _ E1) by (by left). apply Hinv.
Qed.

Lemma shaped_empty dates : shaped dates maps ∅.
Proof.
  intros d svc role [? H]. unfold slotsOf in H.
  rewrite lookup_empty in H. simpl in H. by rewrite lookup_empty in H.
Qed.

End FairDriver.

(** ** The Assignment of a run *)

(** X26 ([generate], with [groupMappingsForService] and the split of
    [others]).  A run from an empty Assignment leaves a slot, possibly with
    no name, for exactly these triples: a date of the list, one of the two
    services "07" and "10", and the role of a mapping row whose service is
    that one or "both", an escort row (a Majelis Pendamping label outside
    the five categories) counting in service "10" only. *)
Theorem generate_slots :
  forall (Rng : Type) (int31n : Rng -> nat -> nat * Rng) mapRange
         strictCompositionFlag noRelaxB2BFlag dates people maps
         maxLektor maxPro maxMus kolektanPen kolektanJem pjemaatPen pjemaatJem
         r e a,
    generate int31n mapRange strictCompositionFlag noRelaxB2BFlag ∅ dates
      people maps maxLektor maxPro maxMus
      kolektanPen kolektanJem pjemaatPen pjemaatJem r = Some (e, a) ->
    forall d svc role,
      is_Some (slotsOf a d svc !! role) <->
      d ∈ dates /\ (svc = "07" \/ svc = "10") /\
      exists m, m ∈ maps /\ Role m = role /\ writtenRow svc m = true.
Proof.
  intros Rng int31n mapRange sc nr dates people maps maxL maxP maxM kP kJ pP pJ
         r e a Hrun d svc role.
  unfold generate, generateState in Hrun.
  destruct (dateLoop _ _ _ _ _ _ _ _ _ _ _ _ _ _ _ _ _) as [st|] eqn:Hloop;
    [|done].
  cbn [mbind option_bind] in Hrun. injection Hrun as _ <-.
  rewrite <- passRoles_elem. split.
  - intros Hs.
    eapply (dateLoop_shaped int31n mapRange sc nr people maps maxL maxP maxM
              kP kJ pP pJ dates dates dates); [exact Hloop|done| |exact Hs].
    apply shaped_empty.
  - intros (Hd & Hsvc & Hrole).
    eapply (dateLoop_cover int31n mapRange sc nr people maps maxL maxP maxM
              kP kJ pP pJ dates dates dates); [exact Hloop| |done|].
    + apply shaped_empty.
    + right. done.
Qed.

Lemma FairRun_run : FairRun.run = Some (None, FairRun.assignment).
Proof. vm_compute. reflexivity. Qed.

Lemma generate_slots_witness :
  is_Some (slotsOf FairRun.assignment Demo.sunday2 "07" !! "Usher") <->
  Demo.sunday2 ∈ FairRun.dates /\ ("07" = "07" \/ "07" = "10") /\
  exists m, m ∈ Demo.maps /\ Role m = "Usher" /\ writtenRow "07" m = true.
Proof.
  apply (generate_slots Demo.Rng Demo.int31n Demo.mapRange true true
           FairRun.dates FairRun.people Demo.maps 2 2 2 1 0 1 2 42 None
           FairRun.assignment FairRun_run Demo.sunday2 "07" "Usher").
Defined.

(** X27 ([generate]).  In the Assignment of a run, a person who holds a
    slot in both services of a date holds, in service "10", a slot of an
    escort role (a Majelis Pendamping label outside the five categories):
    every other pass skips the names in [assignedAnyToday]. *)
Theorem no_cross_service_double :
  forall (Rng : Type) (int31n : Rng -> nat -> nat * Rng) mapRange
         strictCompositionFlag noRelaxB2BFlag dates people maps
         maxLektor maxPro maxMus kolektanPen kolektanJem pjemaatPen pjemaatJem
         r e a,
    generate int31n mapRange strictCompositionFlag noRelaxB2BFlag ∅ dates
      people maps maxLektor maxPro maxMus
      kolektanPen kolektanJem pjemaatPen pjemaatJem r = Some (e, a) ->
    forall d role07 names07 role10 names10 x,
      slotsOf a d "07" !! role07 = Some names07 -> x ∈ names07 ->
      slotsOf a d "10" !! role10 = Some names10 -> x ∈ names10 ->
      escortRole role10 = true.
Proof.
  intros Rng int31n mapRange sc nr dates people maps maxL maxP maxM kP kJ pP pJ
         r e a Hrun.
  unfold generate, generateState in Hrun.
  destruct (dateLoop _ _ _ _ _ _ _ _ _ _ _ _ _ _ _ _ _) as [st|] eqn:Hloop;
    [|done].
  cbn [mbind option_bind] in Hrun. injection Hrun as _ <-.
  eapply (dateLoop_cross int31n mapRange sc nr people maps maxL maxP maxM
            kP kJ pP pJ dates dates dates); [exact Hloop| |done|].
  - apply shaped_empty.
  - intros d r7 n7 r10 n10 x H. unfold slotsOf in H. simpl in H.
    rewrite lookup_empty in H. simpl in H. by rewrite lookup_empty in H.
Qed.

Lemma no_cross_service_double_witness :
  escortRole "Majelis Pendamping" = true.
Proof.
  apply (no_cross_service_double Demo.Rng Demo.int31n Demo.mapRange false false
           [Demo.sunday1] EscortRelax.people EscortRelax.maps 2 2 2 2 0 1 2 42
           None EscortRelax.assignment EscortRelax_run Demo.sunday1
           "Lektor 1" ["Ana"] "Majelis Pendamping" ["Ana"] "Ana").
  - vm_compute. reflexivity.
  - apply (bool_decide_unpack _). vm_compute. exact I.
  - vm_compute. reflexivity.
  - apply (bool_decide_unpack _). vm_compute. exact I.
Defined.

(** X28 ([generate], the closure [prefer], the flags).  With
    [-noRelaxB2B], a person in a slot of a date that follows another date in
    a list without repetition held no slot on that preceding date, provided
    the preceding date is not the zero time, the slot is not an escort slot
    of service "10", and either the role is outside the two composition
    categories or [-strictComposition] is set as well. *)
Theorem no_back_to_back :
  forall (Rng : Type) (int31n : Rng -> nat -> nat * Rng) mapRange
         strictCompositionFlag dates people maps
         maxLektor maxPro maxMus kolektanPen kolektanJem pjemaatPen pjemaatJem
         r e a i prevSunday d svc role names x,
    generate int31n mapRange strictCompositionFlag true ∅ dates
      people maps maxLektor maxPro maxMus
      kolektanPen kolektanJem pjemaatPen pjemaatJem r = Some (e, a) ->
    NoDup dates ->
    dates !! i = Some prevSunday -> dates !! S i = Some d ->
    IsZero prevSunday = false ->
    slotsOf a d svc !! role = Some names -> x ∈ names ->
    (svc = "10" -> escortRole role = false) ->
    strictCompositionFlag = true \/ compositionRole role = false ->
    ~ servesOn a prevSunday x.
Proof.
  intros Rng int31n mapRange sc dates people maps maxL maxP maxM kP kJ pP pJ
         r e a i dp d svc role names x Hrun Hnd Hi HSi Hzero Hslot Hx HF HG.
  unfold generate, generateState in Hrun.
  destruct (dateLoop _ _ _ _ _ _ _ _ _ _ _ _ _ _ _ _ _) as [st|] eqn:Hloop;
    [|done].
  cbn [mbind option_bind] in Hrun. injection Hrun as _ <-.
  (* the list around the two dates *)
  destruct (list_elem_of_split_length _ _ _ Hi) as (pre & rest & Hdates & Hlen).
  assert (exists post, rest = d :: post) as [post ->].
  { rewrite Hdates in HSi. rewrite lookup_app_r in HSi by lia.
    replace (S i - length pre)%nat with 1%nat in HSi by lia.
    destruct rest as [|d' post]; simplify_eq/=. by eexists. }
  assert ((dp ∉ pre) /\ (d ∉ pre) /\ dp <> d /\ (dp ∉ post) /\ (d ∉ post))
    as (Hdp1 & Hd1 & Hne & Hdp2 & Hd2).
  { rewrite Hdates in Hnd. apply NoDup_app in Hnd as (_ & Hdisj & Hnd).
    apply NoDup_cons in Hnd as [Hdp Hnd]. apply NoDup_cons in Hnd as [Hd _].
    rewrite not_elem_of_cons in Hdp. split_and!; try tauto.
    - intros Hin. apply (Hdisj _ Hin). by apply elem_of_cons; left.
    - intros Hin. apply (Hdisj _ Hin). apply elem_of_cons; right.
      by apply elem_of_cons; left. }
  (* the three stretches of the loop *)
  rewrite Hdates in Hloop at 2.
  rewrite dateLoop_app in Hloop. simpl in Hloop.
  destruct (dateLoop _ _ _ _ _ _ _ _ _ _ _ _ _ _ _ pre _) as [sa|] eqn:Hpre;
    [|done].
  cbn [mbind option_bind] in Hloop.
  destruct (dateBody _ _ _ _ _ _ _ _ _ _ _ _ _ _ _ dp sa) as [sb|] eqn:Hbp;
    [|done].
  cbn [mbind option_bind] in Hloop.
  destruct (dateBody _ _ _ _ _ _ _ _ _ _ _ _ _ _ _ d sb) as [sc'|] eqn:Hbd;
    [|done].
  cbn [mbind option_bind] in Hloop.
  assert (forall d0 svc0, d0 ∉ pre -> slotsOf (assign sa) d0 svc0 = ∅) as Hnew.
  { intros d0 svc0 Hnot.
    rewrite (dateLoop_other int31n mapRange sc true people maps maxL maxP maxM
               kP kJ pP pJ dates pre d0 svc0 _ _ _ Hpre Hnot).
    unfold slotsOf. simpl. rewrite lookup_empty. simpl. by rewrite lookup_empty. }
  assert (rewritten maps dp (assign sa)) as Hrw1.
  { intros svc0 role0 [? Hs]. rewrite Hnew in Hs by done.
    by rewrite lookup_empty in Hs. }
  assert (rewritten maps d (assign sb)) as Hrw2.
  { intros svc0 role0 [? Hs].
    rewrite (dateBody_other int31n mapRange sc true people maps maxL maxP maxM
               kP kJ pP pJ _ _ _ _ _ d svc0 Hbp) in Hs by (left; congruence).
    rewrite Hnew in Hs by done. by rewrite lookup_empty in Hs. }
  assert (forall svc0, slotsOf (assign st) d svc0 = slotsOf (assign sc') d svc0)
    as Hd_final.
  { intros svc0. eapply dateLoop_other; [exact Hloop|done]. }
  assert (forall svc0, slotsOf (assign st) dp svc0 = slotsOf (assign sb) dp svc0)
    as Hdp_final.
  { intros svc0.
    rewrite (dateLoop_other int31n mapRange sc true people maps maxL maxP maxM
               kP kJ pP pJ dates post dp svc0 _ _ _ Hloop Hdp2).
    eapply dateBody_other; [exact Hbd|by left]. }
  rewrite Hd_final in Hslot.
  pose proof (dateBody_prefer int31n mapRange sc true people maps maxL maxP maxM
                kP kJ pP pJ _ _ _ _ _ _ _ _ _ Hbd Hrw2 Hslot Hx) as Hpref.
  assert (prevSundayAt dates (S (length pre)) = dp) as Hprev.
  { unfold prevSundayAt.
    replace (0 <? S (length pre))%nat with true
      by (symmetry; apply Nat.ltb_lt; lia).
    replace (S (length pre) - 1)%nat with i by lia. by rewrite Hi. }
  change (prevSundayAt dates _) with (prevSundayAt dates (S (length pre)))
    in Hpref.
  rewrite Hprev in Hpref.
  intros (svc' & role' & names' & Hslot' & Hx').
  rewrite Hdp_final in Hslot'.
  pose proof (dateBody_recorded int31n mapRange sc true people maps maxL maxP
                maxM kP kJ pP pJ _ _ _ _ _ _ _ _ _ Hbp Hrw1 Hslot' Hx') as Hrec.
  assert (prefer dp (lastAssigned sb) x = true) as Hp.
  { apply Hpref.
    - intros Hsvc. apply HF. by apply String.eqb_eq.
    - by split. }
  unfold prefer in Hp. rewrite Hzero, Hrec, sameDay_refl in Hp. done.
Qed.

Lemma no_back_to_back_witness :
  ~ servesOn FairRun.assignment Demo.sunday1 "Hana".
Proof.
  apply (no_back_to_back Demo.Rng Demo.int31n Demo.mapRange true
           FairRun.dates FairRun.people Demo.maps 2 2 2 1 0 1 2 42 None
           FairRun.assignment 0%nat Demo.sunday1 Demo.sunday2
           "07" "Lektor 1" ["Hana"] "Hana" FairRun_run).
  - apply (bool_decide_unpack _). vm_compute. exact I.
  - reflexivity.
  - reflexivity.
  - vm_compute. reflexivity.
  - vm_compute. reflexivity.
  - apply (bool_decide_unpack _). vm_compute. exact I.
  - discriminate.
  - left. reflexivity.
Defined.

(** X29 ([pickWithComposition], the flags).  With [-strictComposition] and
    [-noRelaxB2B] together only the steps that consult [prefer] run: every
    name the picker returns is accepted by [prefer], and the picker draws
    no random number. *)
Theorem pickWithComposition_guarded :
  forall (Rng : Type) (int31n : Rng -> nat -> nat * Rng)
         candPen candJem needPen needJem pref already anyToday r
         picked already' anyToday' r',
    pickWithComposition int31n true true candPen candJem needPen needJem pref
      already anyToday r = (picked, already', anyToday', r') ->
    r' = r /\ forall x, x ∈ picked -> pref x = true.
Proof.
  intros Rng int31n candPen candJem needPen needJem pref already anyToday r
         picked already' anyToday' r' Heq.
  split; [|by eapply pickWithComposition_prefer].
  unfold pickWithComposition in Heq. cbn [negb andb] in Heq.
  repeat match type of Heq with
         | context [pickFrom ?t ?p ?pool ?n ?u ?ps] =>
             destruct (pickFrom t p pool n u ps)
         | context [if ?c then _ else _] => destruct c
         end;
    by injection Heq.
Qed.

Lemma pickWithComposition_guarded_witness :
  (42 : Demo.Rng) = 42 /\
  forall x, x ∈ ["Cici"] ->
            prefer Demo.sunday1 {["Ana" := Demo.sunday1]} x = true.
Proof.
  apply (pickWithComposition_guarded Demo.Rng Demo.int31n
           [mkPerson "Ana" true ∅] [mkPerson "Cici" false ∅] 1 1
           (prefer Demo.sunday1 {["Ana" := Demo.sunday1]}) ∅ ∅ 42
           ["Cici"] {["Cici"]} {["Cici"]}).
  vm_compute. reflexivity.
Defined.

(** ** The size of the slots *)

Lemma fold_left_invariant {A B} (P : A -> Prop) (step : A -> B -> A) rows :
  (forall m a, m ∈ rows -> P a -> P (step a m)) ->
  forall a, P a -> P (fold_left step rows a).
Proof.
  induction rows as [|m rows IH]; intros Hstep a Ha; simpl; [done|].
  apply IH.
  - intros m' a' Hm'. apply Hstep. by apply elem_of_cons; right.
  - apply Hstep; [by apply elem_of_cons; left|done].
Qed.

Section Capacity.
Context {Rng : Type} (int31n : Rng -> nat -> nat * Rng).
Variable mapRange : gset string -> list string.
Variable strictCompositionFlag noRelaxB2BFlag : bool.
Variable people : list Person.
Variable maps : list RoleMap.
Variables maxLektor maxPro maxMus : Z.
Variables kolektanPen kolektanJem pjemaatPen pjemaatJem : Z.
Implicit Types st : State Rng.

#[local] Abbreviation fits := (fitsRow maps maxLektor maxPro maxMus).
#[local] Abbreviation fitting' := (fitting maps maxLektor maxPro maxMus).

Lemma fitting_setSlot d svc role names st :
  fitting' (assign st) -> fits svc role names ->
  fitting' (assign (setSlot d svc role names st)).
Proof.
  intros Hinv Hfit d' svc' role' names' Hslot.
  destruct (decide (d' = d /\ svc' = svc)) as [[-> ->] | Hne].
  - rewrite slotsOf_setSlot_eq in Hslot.
    destruct (decide (role' = role)) as [-> | Hr].
    + rewrite lookup_insert_eq in Hslot. by simplify_eq.
    + rewrite lookup_insert_ne in Hslot by done. by eapply Hinv.
  - rewrite slotsOf_setSlot_ne in Hslot; [by eapply Hinv|].
    destruct (decide (d' = d)); [right|left]; naive_solver.
Qed.

Lemma fitting_assign st st' :
  assign st' = assign st -> fitting' (assign st) -> fitting' (assign st').
Proof. by intros ->. Qed.

Lemma fitting_writeSingles d svc rows : forall picked st,
  fitting' (assign st) ->
  (forall m names, m ∈ rows -> lenZ names <= 1 -> fits svc (Role m) names) ->
  fitting' (assign (writeSingles d svc rows picked st)).
Proof.
  induction rows as [|rm rows IH]; intros picked st Hinv Hrows; [done|].
  assert (forall m names, m ∈ rows -> lenZ names <= 1 -> fits svc (Role m) names)
    as Hrest.
  { intros m names Hm. apply Hrows. by apply elem_of_cons; right. }
  destruct picked as [|p ps]; cbn [writeSingles].
  - apply IH; [|done]. apply fitting_setSlot; [done|].
    apply Hrows; [by apply elem_of_cons; left|done].
  - apply IH; [|done]. apply fitting_setSlot; [done|].
    apply Hrows; [by apply elem_of_cons; left|done].
Qed.

Lemma fitting_writeComposition d svc rows : forall picked st,
  fitting' (assign st) ->
  (forall m names, m ∈ rows -> lenZ names <= 1 -> fits svc (Role m) names) ->
  fitting' (assign (writeComposition d svc rows picked st)).
Proof.
  induction rows as [|rm rows IH]; intros picked st Hinv Hrows; [done|].
  assert (forall m names, m ∈ rows -> lenZ names <= 1 -> fits svc (Role m) names)
    as Hrest.
  { intros m names Hm. apply Hrows. by apply elem_of_cons; right. }
  destruct picked as [|p ps]; cbn [writeComposition].
  - apply IH; [|done]. apply fitting_setSlot; [done|].
    apply Hrows; [by apply elem_of_cons; left|done].
  - apply IH; [|done].
    change (assign (record p d ?s)) with (assign s).
    apply fitting_setSlot; [done|].
    apply Hrows; [by apply elem_of_cons; left|done].
Qed.

(** A row of one of the five categories asks for one name. *)
Lemma group_row_fits svc key m names :
  m ∈ groupRows (groupMappingsForService maps svc).1 key ->
  lenZ names <= 1 -> fits svc (Role m) names.
Proof.
  intros (Hm & Ho & Hk & _)%group_row_role Hlen. exists m.
  unfold writtenRow, escortRole, slotCapacity. rewrite Ho, Hk. done.
Qed.

(** *** The phases *)

Lemma escortRow_fitting d prev m st :
  m ∈ escortRows maps "10" -> fitting' (assign st) ->
  fitting' (assign (escortRow int31n mapRange people d prev m st)).
Proof.
  intros (Hm & Ho & He)%escortRows_elem Hinv.
  destruct (escortRow_spec int31n mapRange people (fun _ _ => True) d prev m st)
    as (picked & -> & _ & Hlen); [done|].
  apply fitting_setSlot.
  - by rewrite assign_markAll.
  - exists m. unfold writtenRow, slotCapacity. rewrite Ho, He.
    unfold escortRole in He. apply andb_true_iff in He as [Hk Hmp].
    apply negb_true_iff in Hk. rewrite Hk, Hmp. done.
Qed.

Lemma escortPhase_fitting d prev svc st :
  fitting' (assign st) ->
  fitting' (assign (escortPhase int31n mapRange people d prev svc
                      (escortRows maps svc) st)).
Proof.
  unfold escortPhase. intros Hinv.
  destruct (String.eqb_spec svc "10") as [-> | Hne]; simpl; [|done].
  destruct (lenZ (escortRows maps "10") >? 0); [|done].
  apply fold_left_invariant; [|done].
  intros m st0 Hm H0. by apply escortRow_fitting.
Qed.

Lemma compositionGroup_fitting d prev svc key st st' :
  compositionGroup int31n strictCompositionFlag noRelaxB2BFlag people
    kolektanPen kolektanJem pjemaatPen pjemaatJem d prev svc key
    (groupRows (groupMappingsForService maps svc).1 key) st = Some st' ->
  fitting' (assign st) -> fitting' (assign st').
Proof.
  unfold compositionGroup.
  set (rows := groupRows (groupMappingsForService maps svc).1 key).
  destruct (lenZ rows =? 0); [by intros ?; simplify_eq|].
  destruct (if String.eqb key "kolektan" then _ else _) as [needPen0 needJem0].
  destruct (if String.eqb key "pjemaat" then _ else _) as [needPen needJem].
  destruct (splitPools people rows [] []) as [penNames jemNames].
  destruct (Shuffle int31n _ (rng st)) as [candPen r1].
  destruct (Shuffle int31n _ r1) as [candJem r2].
  destruct (pickWithComposition _ _ _ _ _ _ _ _ _ _ _)
    as [[[picked already'] any'] r3].
  destruct (if lenZ picked >? _ then _ else _) as [picked'|]; simpl; [|done].
  intros ? Hinv; simplify_eq.
  apply fitting_writeComposition.
  - eapply fitting_assign; [|exact Hinv].
    unfold setRng, setAnyToday, setAlready. by destruct (String.eqb svc "07").
  - intros m names Hm. by eapply group_row_fits.
Qed.

Lemma cappedGroup_fitting d prev svc glimit key st :
  fitting' (assign st) ->
  fitting' (assign (cappedGroup int31n mapRange noRelaxB2BFlag people d prev svc
                      glimit (groupRows (groupMappingsForService maps svc).1 key)
                      st)).
Proof.
  intros Hinv. unfold cappedGroup.
  pose proof (fun m names => group_row_fits svc key m names) as Hfit.
  destruct (groupRows (groupMappingsForService maps svc).1 key)
    as [|row0 rest]; [done|].
  set (rows := row0 :: rest) in *.
  set (limit := if glimit >? lenZ rows then lenZ rows else glimit).
  destruct (Shuffle int31n _ (rng st)) as [names r].
  destruct (pickPrefer_spec svc d prev limit names [] (setRng r st))
    as (new1 & -> & _). simpl app.
  destruct (relaxPass_fair (negb noRelaxB2BFlag && (lenZ new1 <? limit))
              svc d limit names new1 (setRng r st)) as (new2 & -> & _).
  apply fitting_writeSingles; [|done]. by rewrite assign_markAll.
Qed.

Lemma otherRow_fitting d prev svc m st :
  m ∈ (splitOthers svc (groupMappingsForService maps svc).2 [] []).2 ->
  fitting' (assign st) ->
  fitting' (assign (otherRow int31n mapRange noRelaxB2BFlag people
                      maxLektor maxPro maxMus d prev svc m st)).
Proof.
  intros (Hm & Ho & Hk & Hmp)%otherNonMP_elem Hinv. unfold otherRow.
  rewrite Ho, Hmp, andb_false_r.
  match goal with
  | |- context [pickPrefer svc d prev ?s _ _ _] => set (slots := s)
  end.
  destruct (Shuffle int31n _ (rng st)) as [cands r].
  destruct (pickPrefer_spec svc d prev slots cands [] (setRng r st))
    as (new1 & -> & _ & _ & Hlen1). simpl app in *.
  destruct (relaxPass_fair (negb noRelaxB2BFlag && (lenZ new1 <? slots))
              svc d slots cands new1 (setRng r st))
    as (new2 & -> & _ & _ & Hlen2).
  apply fitting_setSlot; [by rewrite assign_markAll|].
  exists m. unfold writtenRow, escortRole, slotCapacity.
  rewrite Ho, Hk, Hmp. split_and!; try done.
  fold slots. change (lenZ []) with 0 in Hlen1. lia.
Qed.

(** *** The service, the date, the run *)

Lemma serviceBody_fitting d prev svc st st' :
  serviceBody int31n mapRange strictCompositionFlag noRelaxB2BFlag people maps
    maxLektor maxPro maxMus kolektanPen kolektanJem pjemaatPen pjemaatJem
    d prev svc st = Some st' ->
  fitting' (assign st) -> fitting' (assign st').
Proof.
  unfold serviceBody. intros H Hinv.
  pose proof (escortPhase_fitting d prev svc (ensureService d svc st)) as H1.
  pose proof (fun key => compositionGroup_fitting d prev svc key) as H2.
  pose proof (fun glimit key => cappedGroup_fitting d prev svc glimit key) as H3.
  pose proof (fun m => otherRow_fitting d prev svc m) as H4.
  unfold escortRows in H1.
  destruct (groupMappingsForService maps svc) as [grouped others].
  cbn [fst snd] in *.
  destruct (splitOthers svc others [] []) as [mpRows otherNonMP].
  cbn [fst snd] in *.
  set (st1 := escortPhase _ _ _ _ _ _ _ _) in *.
  assert (fitting' (assign st1)) as I1.
  { apply H1. intros d' svc' role names.
    rewrite slotsOf_ensureService. apply Hinv. }
  destruct (compositionGroup _ _ _ _ _ _ _ _ _ _ _ "kolektan" _ st1)
    as [st2|] eqn:E2; [|done].
  cbn [mbind option_bind] in H.
  destruct (compositionGroup _ _ _ _ _ _ _ _ _ _ _ "pjemaat" _ st2)
    as [st3|] eqn:E3; [|done].
  cbn [mbind option_bind] in H. injection H as <-.
  pose proof (H2 _ _ _ E2 I1) as I2. pose proof (H2 _ _ _ E3 I2) as I3.
  pose proof (H3 maxLektor "lektor" _ I3) as I4.
  pose proof (H3 maxPro "prokantor" _ I4) as I5.
  pose proof (H3 maxMus "pemusik" _ I5) as I6.
  set (st6 := cappedGroup _ _ _ _ _ _ _ maxMus _ _) in *.
  apply fold_left_invariant; [|done].
  intros m st0 Hm H0. by apply H4.
Qed.

Lemma dateLoop_fitting dates rest : forall di st st',
  dateLoop int31n mapRange strictCompositionFlag noRelaxB2BFlag people maps
    maxLektor maxPro maxMus kolektanPen kolektanJem pjemaatPen pjemaatJem
    dates di rest st = Some st' ->
  fitting' (assign st) -> fitting' (assign st').
Proof.
  induction rest as [|d rest IH]; intros di st st' H Hinv; simpl in H.
  { by simplify_eq. }
  destruct (dateBody _ _ _ _ _ _ _ _ _ _ _ _ _ _ _ _ _) as [st1|] eqn:E1;
    [|done].
  cbn [mbind option_bind] in H. eapply IH; [exact H|].
  unfold dateBody in E1.
  destruct (serviceBody _ _ _ _ _ _ _ _ _ _ _ _ _ _ _ "07" _) as [s1|] eqn:E7;
    [|done].
  cbn [mbind option_bind] in E1.
  eapply serviceBody_fitting; [exact E1|].
  eapply serviceBody_fitting; [exact E7|].
  intros d' svc' role names. change (assign (resetDay ?s)) with (assign s).
  rewrite slotsOf_ensureDate. apply Hinv.
Qed.

End Capacity.

(** X30 ([generate], the quotas of its four phases).  In the Assignment of
    a run every slot holds at most as many names as a mapping row with that
    role, written by that service, asks for: one name for a row of the five
    categories (lektor, prokantor, pemusik, kolektan, pjemaat); [Slots10], or
    one when that is not positive, for an escort row; for any other row the
    positive [Slots07] or [Slots10] of the service, else the default of
    [defaultSlotsForRole]. *)
Theorem generate_slot_capacity :
  forall (Rng : Type) (int31n : Rng -> nat -> nat * Rng) mapRange
         strictCompositionFlag noRelaxB2BFlag dates people maps
         maxLektor maxPro maxMus kolektanPen kolektanJem pjemaatPen pjemaatJem
         r e a,
    generate int31n mapRange strictCompositionFlag noRelaxB2BFlag ∅ dates
      people maps maxLektor maxPro maxMus
      kolektanPen kolektanJem pjemaatPen pjemaatJem r = Some (e, a) ->
    forall d svc role names,
      slotsOf a d svc !! role = Some names ->
      exists m, m ∈ maps /\ Role m = role /\ writtenRow svc m = true /\
                lenZ names <= slotCapacity maxLektor maxPro maxMus svc m.
Proof.
  intros Rng int31n mapRange sc nr dates people maps maxL maxP maxM kP kJ pP pJ
         r e a Hrun.
  unfold generate, generateState in Hrun.
  destruct (dateLoop _ _ _ _ _ _ _ _ _ _ _ _ _ _ _ _ _) as [st|] eqn:Hloop;
    [|done].
  cbn [mbind option_bind] in Hrun. injection Hrun as _ <-.
  eapply (dateLoop_fitting int31n mapRange sc nr people maps maxL maxP maxM
            kP kJ pP pJ dates dates); [exact Hloop|].
  intros d svc role names H. unfold slotsOf in H. simpl in H.
  rewrite lookup_empty in H. simpl in H. by rewrite lookup_empty in H.
Qed.

Lemma generate_slot_capacity_witness :
  exists m, m ∈ Demo.maps /\ Role m = "Lektor 1" /\ writtenRow "07" m = true /\
            lenZ ["Hana"] <= slotCapacity 2 2 2 "07" m.
Proof.
  apply (generate_slot_capacity Demo.Rng Demo.int31n Demo.mapRange true true
           FairRun.dates FairRun.people Demo.maps 2 2 2 1 0 1 2 42 None
           FairRun.assignment FairRun_run Demo.sunday2 "07" "Lektor 1" ["Hana"]).
  vm_compute. reflexivity.
Defined.
